(* ===== verification/_CoqProject ===== *)
-Q . S2P
Prelude.v
CString.v
Types.v
Transcribe.v
Replay.v
RecordReplay.v
Loggers.v
Options.v
PluginManager.v
Registry.v
Config.v
Server.v
ServerTics.v
Mosquitto.v
Random.v
Lifecycle.v
Main.v
Exits.v
Start.v
EndToEnd.v
Plugins.v
Runs.v
MainRuns.v
Process.v
Typing.v
Shipped.v
Transcripts.v
Levels.v
Logging.v
Program.v
LongTic.v
Mqtt.v
Client.v
Backend.v
Preload.v
Delivery.v
Hooks.v
Threads.v
Simulation.v
Launcher.v
Socket.v
Laik.v
