(* ===== verification/Prelude.v ===== *)
(** * lauSim: a model of the fault simulator and proofs about it

    lauSim simulates faults of a distributed system.  A server (src/srv) asks a fault manager, tic by
    tic, which nodes or components of nodes fail or recover, and tells two communication backends: the
    actor backend, which reaches the nodes, and the external backend, which informs a scheduler.  Fault
    managers, backends and loggers are plugins (src/plugins) that a plugin manager loads and that the
    configuration file puts into their roles.  On a node a client (src/client/src/client.c) receives
    the faults over MQTT and writes commands to a fifo, from which a backend inside the application's
    process (src/client/src/backend.c with preload.c or privileged.c) takes them and acts.  An application that
    runs on LAIK is told by the external backend, through src/com/laik, which nodes have failed and recovered.

    ** How the code is modelled
    A C or C++ routine is a [prog E S A] (this file): a function from a state to a result, a new state
    and the list of the events it emits (log messages, output, messages handed to the MQTT library, closed
    descriptors), or to a [halt]: undefined behaviour, an exception nobody catches, a failed assertion, the exit of
    the process.
    The globals of a source file are one record; a call into another component runs on that component's
    part of the state ([zoom]).  Structs of function pointers (fault_manager, com, logger, plugin,
    plugin_manager_interface, the actor interface of the client) are records of operations; what a user of
    such a struct relies on is a class ([FaultManagerSafe], [ComSafe], [PluginsSafe], [PluginContract],
    [NetworkActor]), with the shipped plugins and actors as instances.  Integers are [Z] with their wrap-around written out ([u32], [u64],
    [s32], [s64], for LP64); strings are lists of characters, and the C library's routines on them are
    defined in CString.v from the C standard.  Two routines are the same up to events when [≈] holds.

    ** Files, in order of dependency
    - Prelude: the monad, its rules for invariants, pre- and postconditions and emitted events, machine
      integers, lists.
    - CString: strtok, strtoull, stoul, getline, printf conversions, streams; printing then scanning.
    - Types: include/lausim/*.h; the classes of the interfaces; a scripted fault manager for examples.
    - Transcribe, Replay: plugins/transcribe/transcribe.c, plugins/replay/replay.c.  RecordReplay: the two
      put together.
    - Loggers: srv/stdoutLog.cpp and plugins/filelogger/filelogger.c.  Options: srv/options.cpp.
    - PluginManager: srv/plugin_internal.cpp and srv/library.cpp.  Registry: what it promises, as an abstract
      registry.  Config: srv/config.cpp.
    - Server: srv/server.cpp.  ServerTics: theorems about its tics.
    - Mosquitto, Random: plugins/mosquitto/com_mosquitto.cpp, plugins/random/random.c.
    - Lifecycle: the init, post init and cleanup functions of all plugins, and plugins/echo/echo.c.
    - Main: srv/main.cpp.  Exits: what its exit codes say.  Start: when the wait for the
      nodes is over.  EndToEnd: whole runs of the tic loop.
    - Plugins: the plugin structs of the headers under plugins/, with the functions behind them on the state of
      all plugins.  Runs and MainRuns: what is seen of the tic loop and of [main] with a backend of which each call
      is seen ([Voices]) and a fault manager that does not look at the backend ([Apart]).  Process: the process
      on an installation of the program, and how it loads configuration files like those of examples/.
      Typing: the contract between the server and its plugins; Shipped: the shipped plugins keep it; Transcripts: so do the files
      transcribe writes.  Levels and Logging: who sets the level of the log, and what a run of the process writes to it.  Program: recording and replaying with
      the whole program.  LongTic: a tic length the server accepts and cannot keep.
    - Mqtt, Client, Backend, Preload: client/src/mqtt.c, client.c, backend.c, preload.c and privileged.c.
      Hooks: the constructor, the thread and the destructor of preload.c; Threads: its functions among threads.
      Delivery: the path of a fault from the server's backend to the subsystems of a node.  Simulation: the
      same from the file the server replays, over whole runs of all programs.
    - Launcher: client/launcher/launcher.c.  Socket: src/socket.cpp.  Laik: com/laik/laik_intf.c.
    A definition has the name of the function it models where possible; the operations several plugins share
    ([init], [tic], [get_nodes], [cleanup], ...) carry the file, or a prefix such as [replay_init].

    ** What the theorems show
    - Recording and replaying.  [transcribe_transparent]: the transcribe plugin changes nothing of what the
      server sees and its file is the transcript of the run; [record_then_replay]: the replay plugin
      gives the recorded nodes and faults back, tic by tic; [replayed_run_same_calls]: so a server that
      replays makes the calls of the run that was recorded; [replay_tic_terminates]: on any file.
      [recorded_program_replays]: the same for the whole program, with the shipped plugins, from the text of
      the two configuration files to the writes on the standard output.
    - The server.  [run_dispatches_faults] and [do_tic_completes]: what a tic and a run do, with and without
      pacing; [start_follows_last_reports]: the synchronised start; what
      arrives on the backchannel meanwhile changes nothing of the faults handed on.  [main_exits_explained]: what has
      happened when [main] ends with a status, [parse_requests] among its causes.  [server_log]: a regular run writes to the
      standard error stream (srv/README.md says standard out) and to the file of the file logger what the level of the options asks for.
    - Plugins and configuration.  [manager_invariant] and [manager_refines_registry]: the manager answers every
      sequence of requests as an abstract finite map does; [configured_plugins_capable], [config_roundtrip], [assign_roles_spec]; [inits_register]
      and [transcribe_post_spec] for the plugins' hooks; [random_fails_once]; [loggers_agree].
    - The whole server.  [no_undefined_behaviour]: under the contract of Typing.v, which all shipped plugins keep, no run
      goes through a null pointer or has other undefined behaviour, whatever the arguments, the configuration file (given
      the library arguments named there) and the environment, but for the destructor of the MQTT plugin at the end.  The
      clock and the tic length are supposed to keep clear of the end of the 64 bit range; [long_tic_overflows] shows
      what happens otherwise.  [transcript_safe]: replay may be given what transcribe has written.
    - Everything together.  [simulated_faults_reach_nodes]: a server that replays a file of faults over MQTT, its
      synchronised start included, makes the backends of the nodes execute the faults of their nodes; it then breaks
      in the destructor of the MQTT plugin.  [laik_told_each_tic]: in every run a LAIK application is told, tic by tic,
      which nodes failed and recovered, as long as each tic with faults has one of a whole node.
    - Delivery.  [notify_spec], [callback_spec], [backend_executes], and their composition
      [faults_take_effect]; [node_reacts]: what any actor then does; [network_failure_hits_open_sockets]:
      the preload library's list against the sockets the application has open, and
      [failure_hits_sockets_among_threads] the same for any interleaving of threads (a step relation, with an
      invariant of the reachable states), but for the descriptors of which [accept_race] shows that the library may
      get them wrong; [application_ends]: the life of the library in an application, whether the library's thread ends it or the
      application itself, which is undefined behaviour, for then [exit] is called twice;
      [supervision_stops_application]: the launcher around it.
    - Where the code breaks.  [on_message_overflow], [socket_list_overflow], [recovery_is_not_safe], [accept_race],
      [unknown_component_hits_previous], [privileged_unusable], the copy in [descriptors_owned],
      [init_ext_com_overflows], [long_tic_overflows].

    ** Parameters and hypotheses
    Code that is not in the repository is a parameter: dlmopen and dlsym and the functions behind them,
    getopt, libmosquitto, the generated protobuf code, the clock, rand, the results of system calls, and
    the files of the file system.  Other threads appear as parameters too: the signal handler's flag by
    its value at each test, the messages of the backchannel by what has arrived before each test.  The
    delivery theorem supposes that the broker hands a client the messages published for its node, in
    order.  [usable n] is what an allocation of [n] bytes provides.  The client and the preload library ask for fewer bytes than
    they use, and the theorems about overflows show where the blocks end.  The theorems that they work take the allocator of glibc
    ([glibc_usable]: at least 24 bytes) and stay within its smallest block: at most one message for each call of [get_faults]
    ([one_by_one]) and at most six open internet sockets ([open_at_most]).

    ** Bounds
    A loop that the code does not bound has a fuel argument, and running out of it is the halt
    [OutOfFuel].  The replay plugin's loops read a line per round, so the length of the file is enough, and
    [replay_tic_terminates] shows it; for the tic loop one more than the tic limit is enough
    ([run_dispatches_faults]); the catching up with the clock ends within the [lead] of the clock
    ([do_tic_completes]); the waiting loops end with the poll that finds what is waited for
    ([start_follows_last_reports], [supervision_stops_application]); the command loop reads a line per round
    ([backend_executes]).  Printing a number has a step per bit, more than its digits.

    ** Simplifications
    Allocations fail only where the code tests for it, and in the random plugin also a [calloc] of a fault it does not test.  The server holds a copy of the nodes the fault
    manager returns, not the fault manager's own array.  A post init hook may
    not register further plugins (the server walks over the map as it was).  A message of the backchannel takes
    effect at the next test of the termination flag (or poll of the synchronised start), not within a tic, and none
    arrives during the cleanup, when the nodes it would change are freed.  The deletion of the singletons at the end of main has no effect that is modelled.  dlmopen with LM_ID_NEWLM gives a
    library that is loaded twice its own globals each time; here they are shared.  [exit] in the constructor of
    the preload library ends the process without its destructor.  In Threads.v calls that fail are left out; a
    fault and each call's work on the list, which run under the mutex, are one step, and the comparison at the end of [is_in_list], after
    the mutex has been given back, is another, which reads the present length of the list.  The command loop of the backend finds the
    next line of the fifo whenever [select] does not report the request to close; in the code a line that is already in the stream's
    buffer may have to wait for the next one to arrive.  Each of the three processes of
    the launcher is a run of its [main] with the values fork has for it.

    ** Not modelled
    Generated code and build files.  The headers com/laik/laik_intf.c includes are not in the repository (and no build
    file names it): the client, the decoder and the topic they declare are parameters.

    ** Next
    Messages of the backchannel within a tic and during the cleanup. *)

From stdpp Require Export base tactics list numbers strings sets.
From Stdlib Require Export ZArith Lia.

#[export] Set Default Goal Selector "!".

(** ** Automation

    [lausim] holds the rewriting rules and small facts used by every component. *)

Create HintDb lausim.
Create Rewrite HintDb lausim_words.

Declare Scope prog_scope.
Delimit Scope prog_scope with prog.

(** Splits the boolean tests of the code into the propositions they decide. *)
Ltac bool_cases :=
  repeat match goal with
  | |- context [Z.eqb ?a ?b] => destruct (Z.eqb_spec a b)
  | |- context [Z.leb ?a ?b] => destruct (Z.leb_spec a b)
  | |- context [Z.ltb ?a ?b] => destruct (Z.ltb_spec a b)
  | H : context [Z.eqb ?a ?b] |- _ => destruct (Z.eqb_spec a b)
  | H : context [Z.leb ?a ?b] |- _ => destruct (Z.leb_spec a b)
  | H : context [Z.ltb ?a ?b] |- _ => destruct (Z.ltb_spec a b)
  end.

(** Case analysis on the scrutinee of a [match] or [if] of the goal, keeping the equation. *)
Ltac case_goal :=
  match goal with
  | |- context [match ?x with _ => _ end] =>
      lazymatch x with context [match _ with _ => _ end] => fail | _ => destruct x eqn:? end
  end.

(** ** Machine integers (LP64: [int]/[unsigned] 32 bits, [long]/[size_t]/[uint64_t] 64 bits) *)

Definition u32 (z : Z) : Z := z mod 2 ^ 32.
Definition u64 (z : Z) : Z := z mod 2 ^ 64.
Definition u8 (z : Z) : Z := z mod 2 ^ 8.
Definition s32 (z : Z) : Z := (z + 2 ^ 31) mod 2 ^ 32 - 2 ^ 31.
Definition s64 (z : Z) : Z := (z + 2 ^ 63) mod 2 ^ 64 - 2 ^ 63.

Definition is_u32 (z : Z) : Prop := (0 <= z < 2 ^ 32)%Z.
Definition is_u64 (z : Z) : Prop := (0 <= z < 2 ^ 64)%Z.
Definition fits_s64 (z : Z) : bool := ((- 2 ^ 63 <=? z) && (z <? 2 ^ 63))%Z.

Section Words.
Local Open Scope Z_scope.

Lemma u32_range z : is_u32 (u32 z).
Proof. unfold is_u32, u32. apply Z.mod_pos_bound. lia. Qed.

Lemma u64_range z : is_u64 (u64 z).
Proof. unfold is_u64, u64. apply Z.mod_pos_bound. lia. Qed.

Lemma u32_id z : is_u32 z -> u32 z = z.
Proof. unfold is_u32, u32. intros. by apply Z.mod_small. Qed.

Lemma u64_id z : is_u64 z -> u64 z = z.
Proof. unfold is_u64, u64. intros. by apply Z.mod_small. Qed.

Lemma u32_u64 z : u32 (u64 z) = u32 z.
Proof.
  unfold u32, u64. rewrite Z.mod_mod_divide; [done|].
  by exists (2 ^ 32).
Qed.

Lemma fits_s64_true z : - 2 ^ 63 <= z < 2 ^ 63 -> fits_s64 z = true.
Proof. intros H. unfold fits_s64. apply andb_true_intro. split; [apply Z.leb_le|apply Z.ltb_lt]; lia. Qed.

Lemma s64_small z : - 2 ^ 63 <= z < 2 ^ 63 -> s64 z = z.
Proof. intros. unfold s64. rewrite Z.mod_small; lia. Qed.

Lemma s64_large z : 2 ^ 63 <= z < 2 ^ 64 -> s64 z = z - 2 ^ 64.
Proof. intros. unfold s64. rewrite <- (Z.mod_unique (z + 2 ^ 63) (2 ^ 64) 1 (z - 2 ^ 63)); lia. Qed.

Lemma s32_range z : - 2 ^ 31 <= s32 z < 2 ^ 31.
Proof. unfold s32. pose proof (Z.mod_pos_bound (z + 2 ^ 31) (2 ^ 32)). lia. Qed.

Lemma s32_small z : 0 <= z < 2 ^ 31 -> s32 z = z.
Proof. intros. unfold s32. rewrite Z.mod_small; lia. Qed.

Lemma s32_large z : 2 ^ 31 <= z < 2 ^ 32 -> s32 z = z - 2 ^ 32.
Proof.
  intros. unfold s32. rewrite <- (Z.mod_unique (z + 2 ^ 31) (2 ^ 32) 1 (z - 2 ^ 31)); lia.
Qed.

Lemma u32_s32 z : u32 (s32 z) = u32 z.
Proof.
  unfold u32, s32. rewrite Zminus_mod_idemp_l. f_equal. lia.
Qed.

End Words.

#[export] Hint Resolve u32_range u64_range u32_id u64_id : lausim.
#[export] Hint Rewrite u32_u64 u32_s32 : lausim_words.

(** ** Lists *)

Section Lists.
Context {A : Type}.
Implicit Types (p : A -> bool) (l : list A).

(** The longest prefix satisfying [p], and what follows it. *)
Fixpoint span p l : list A * list A :=
  match l with
  | [] => ([], [])
  | x :: l' => if p x then let (a, b) := span p l' in (x :: a, b) else ([], l)
  end.

(** [stops p l]: a [span p] that reaches [l] ends there. *)
Definition stops p l : Prop := match l with [] => True | x :: _ => p x = false end.

Lemma span_app p l r : forallb p l = true -> stops p r -> span p (l ++ r) = (l, r).
Proof.
  induction l as [|x l IH]; simpl; intros Hl Hr.
  - destruct r as [|y r]; [done|]. simpl in *. by rewrite Hr.
  - apply andb_prop in Hl as [-> Hl]. by rewrite IH.
Qed.

Lemma span_split p l : let (a, b) := span p l in l = a ++ b /\ forallb p a = true /\ stops p b.
Proof.
  induction l as [|x l IH]; simpl; [done|].
  destruct (p x) eqn:Hx; [|by simpl]. destruct (span p l) as [a b].
  destruct IH as (-> & Ha & Hb). simpl. by rewrite Hx, Ha.
Qed.

Lemma span_nil p l : stops p l -> span p l = ([], l).
Proof. intros. by apply (span_app p [] l). Qed.

Lemma span_length p l : length (span p l).2 <= length l.
Proof.
  pose proof (span_split p l) as H. destruct (span p l) as [a b].
  destruct H as [-> _]. rewrite length_app. simpl. lia.
Qed.

End Lists.

#[export] Hint Resolve span_nil span_app : lausim.

(** Occurrence of a list in another, as a boolean test. *)
Section Sublist.
Context {A : Type} `{EqDecision A}.

Fixpoint starts_with (p l : list A) : bool :=
  match p, l with
  | [], _ => true
  | x :: p', y :: l' => bool_decide (x = y) && starts_with p' l'
  | _ :: _, [] => false
  end.

Fixpoint contains (p l : list A) : bool :=
  starts_with p l || match l with [] => false | _ :: l' => contains p l' end.

Lemma starts_with_app p l : starts_with p (p ++ l) = true.
Proof. induction p; simpl; [done|]. by rewrite bool_decide_true. Qed.

Lemma starts_with_spec p l : starts_with p l = true <-> exists r, l = p ++ r.
Proof.
  revert l. induction p as [|x p IH]; intros l; simpl.
  - split; [by eexists|done].
  - destruct l as [|y l]; [by split; [|intros [? ?]]|].
    rewrite andb_true_iff, bool_decide_eq_true, IH.
    split; [intros [-> [r ->]]; by eexists|intros [r [= -> ->]]; eauto].
Qed.

Lemma contains_spec p l : contains p l = true <-> exists a b, l = a ++ p ++ b.
Proof.
  induction l as [|y l IH]; simpl; rewrite orb_true_iff, starts_with_spec.
  - split; [intros [[r Hr]|]; [by exists [], r|done]|].
    intros (a & b & Hab). left. destruct a; [by exists b|done].
  - rewrite IH. split.
    + intros [[r Hr]|(a & b & ->)]; [by exists [], r|by exists (y :: a), b].
    + intros ([|z a] & b & Hab); simplify_list_eq; [left; by exists b|right; by exists a, b].
Qed.

(** A list with an element that does not occur in [l] does not occur in [l]. *)
Lemma contains_false x p l : x ∈ p -> x ∉ l -> contains p l = false.
Proof.
  intros Hp Hx. apply not_true_iff_false. rewrite contains_spec.
  intros (a & b & ->). apply Hx. set_solver.
Qed.

End Sublist.

(** ** Programs

    A C routine is a [prog E S A]: from a state [S] it finishes with a result and a new state, having
    emitted observable events, or it stops for good (undefined behaviour, an exception nobody
    catches, process exit, a failed assertion).  [OutOfFuel] marks the bound of a loop of the model; the theorems show it
    is never reached. *)

Inductive halt :=
| Undefined
| Uncaught (exn : string)
| Exited (status : Z)
| Aborted
| OutOfFuel.

Inductive outcome (E S A : Type) :=
| Done (a : A) (s : S) (tr : list E)
| Halt (h : halt) (tr : list E).
Arguments Done {E S A} a s tr.
Arguments Halt {E S A} h tr.

Definition prog (E S A : Type) : Type := S -> outcome E S A.

Section Prog.
Context {E : Type}.

Definition ret {S A} (a : A) : prog E S A := fun s => Done a s [].

Definition bind {S A B} (m : prog E S A) (k : A -> prog E S B) : prog E S B := fun s =>
  match m s with
  | Done a s1 t1 =>
      match k a s1 with
      | Done b s2 t2 => Done b s2 (t1 ++ t2)
      | Halt h t2 => Halt h (t1 ++ t2)
      end
  | Halt h t1 => Halt h t1
  end.

Definition get {S} : prog E S S := fun s => Done s s [].
Definition put {S} (s : S) : prog E S unit := fun _ => Done tt s [].
Definition modify {S} (f : S -> S) : prog E S unit := fun s => Done tt (f s) [].
Definition emit {S} (e : E) : prog E S unit := fun s => Done tt s [e].
Definition stop {S A} (h : halt) : prog E S A := fun _ => Halt h [].

(** Runs a routine of another component, whose state is a part of [S]. *)
Definition zoom {S T A} (proj : S -> T) (upd : T -> S -> S) (m : prog E T A) : prog E S A := fun s =>
  match m (proj s) with
  | Done a t tr => Done a (upd t s) tr
  | Halt h tr => Halt h tr
  end.

Fixpoint for_each {S A} (l : list A) (body : A -> prog E S unit) : prog E S unit :=
  match l with
  | [] => ret tt
  | x :: l' => bind (body x) (fun _ => for_each l' body)
  end.

End Prog.

Notation "x <- m ;; k" := (bind m (fun x => k))
  (at level 100, m at next level, k at level 200, right associativity) : prog_scope.
Notation "m ;; k" := (bind m (fun _ => k))
  (at level 100, k at level 200, right associativity) : prog_scope.

Section ProgLemmas.
Context {E S : Type}.
Implicit Types s : S.

Lemma bind_done {A B} (m : prog E S A) (k : A -> prog E S B) s a s1 t1 b s2 t2 :
  m s = Done a s1 t1 -> k a s1 = Done b s2 t2 -> bind m k s = Done b s2 (t1 ++ t2).
Proof. unfold bind. by intros -> ->. Qed.

Lemma bind_done_inv {A B} (m : prog E S A) (k : A -> prog E S B) s b s2 tr :
  bind m k s = Done b s2 tr ->
  exists a s1 t1 t2, m s = Done a s1 t1 /\ k a s1 = Done b s2 t2 /\ tr = t1 ++ t2.
Proof.
  unfold bind. destruct (m s) as [a s1 t1|]; [|done].
  destruct (k a s1) eqn:Hk; [|done]. intros [= <- <- <-]. by repeat eexists.
Qed.

Lemma bind_halt {A B} (m : prog E S A) (k : A -> prog E S B) s h t :
  m s = Halt h t -> bind m k s = Halt h t.
Proof. unfold bind. by intros ->. Qed.

Lemma for_each_app {A} (l1 l2 : list A) (body : A -> prog E S unit) s :
  for_each (l1 ++ l2) body s = bind (for_each l1 body) (fun _ => for_each l2 body) s.
Proof.
  revert s. induction l1 as [|x l1 IH]; intros s; simpl.
  - unfold bind, ret. simpl. by destruct (for_each l2 body s).
  - unfold bind in *. destruct (body x s) as [[] s1 t1|]; [|done]. rewrite IH.
    destruct (for_each l1 body s1) as [[] s2 t2|]; [|done].
    destruct (for_each l2 body s2); by rewrite app_assoc.
Qed.

(** A loop whose body always finishes, finishes. *)
Lemma for_each_total {A} (I : S -> Prop) (l : list A) (body : A -> prog E S unit) s :
  (forall x s, x ∈ l -> I s -> exists s' t, body x s = Done tt s' t /\ I s') ->
  I s -> exists s' t, for_each l body s = Done tt s' t /\ I s'.
Proof.
  revert s. induction l as [|x l IH]; intros s Hb Hs; simpl; [by exists s, []|].
  destruct (Hb x s) as (s1 & t1 & H1 & I1); [set_solver|done|].
  destruct (IH s1) as (s2 & t2 & H2 & I2); [set_solver|done|].
  exists s2, (t1 ++ t2). by rewrite (bind_done _ _ _ _ _ _ _ _ _ H1 H2).
Qed.

End ProgLemmas.

(** ** Preservation of an invariant *)

Section Preserves.
Context {E S : Type}.

(** [m] leaves [I] intact whenever it finishes. *)
Definition preserves {A} (I : S -> Prop) (m : prog E S A) : Prop :=
  forall s, I s -> match m s with Done _ s' _ => I s' | Halt _ _ => True end.

Lemma preserves_ret {A} I (a : A) : preserves I (ret a).
Proof. by intros s. Qed.
Lemma preserves_get I : preserves I get.
Proof. by intros s. Qed.
Lemma preserves_emit I e : preserves I (emit e).
Proof. by intros s. Qed.
Lemma preserves_stop {A} I h : preserves I (stop (A := A) h).
Proof. by intros s. Qed.

Lemma preserves_modify (I : S -> Prop) f : (forall s, I s -> I (f s)) -> preserves I (modify f).
Proof. intros H s Hs. by apply H. Qed.

Lemma preserves_bind {A B} I (m : prog E S A) (k : A -> prog E S B) :
  preserves I m -> (forall a, preserves I (k a)) -> preserves I (bind m k).
Proof.
  intros Hm Hk s Hs. unfold bind. specialize (Hm s Hs). destruct (m s) as [a s1 t1|]; [|done].
  specialize (Hk a s1 Hm). by destruct (k a s1).
Qed.

Lemma preserves_if {A} I (b : bool) (m1 m2 : prog E S A) :
  preserves I m1 -> preserves I m2 -> preserves I (if b then m1 else m2).
Proof. by destruct b. Qed.

Lemma preserves_for_each {A} I (l : list A) (body : A -> prog E S unit) :
  (forall x, preserves I (body x)) -> preserves I (for_each l body).
Proof.
  intros H. induction l as [|x l IH]; cbn; [apply preserves_ret|]. by apply preserves_bind.
Qed.

Lemma preserves_done {A} (I : S -> Prop) (m : prog E S A) s a s' tr :
  preserves I m -> I s -> m s = Done a s' tr -> I s'.
Proof. intros H Hs E'. specialize (H s Hs). by rewrite E' in H. Qed.

End Preserves.

#[export] Hint Resolve preserves_ret preserves_get preserves_emit preserves_stop preserves_bind
  preserves_if preserves_for_each : lausim.

(** ** Pre- and postconditions *)

Section Triple.
Context {E S : Type}.

(** From [P], [m] ends in [Q] whenever it finishes. *)
Definition triple {A} (P : S -> Prop) (m : prog E S A) (Q : A -> S -> Prop) : Prop :=
  forall s, P s -> match m s with Done a s' _ => Q a s' | Halt _ _ => True end.

Lemma triple_ret {A} (P : S -> Prop) (Q : A -> S -> Prop) a : (forall s, P s -> Q a s) -> triple P (ret a) Q.
Proof. intros H s Hs. by apply H. Qed.

Lemma triple_bind {A B} P (R : A -> S -> Prop) (Q : B -> S -> Prop) (m : prog E S A) (k : A -> prog E S B) :
  triple P m R -> (forall a, triple (R a) (k a) Q) -> triple P (bind m k) Q.
Proof.
  intros Hm Hk s Hs. unfold bind. specialize (Hm s Hs). destruct (m s) as [a s1 t1|]; [|done].
  specialize (Hk a s1 Hm). by destruct (k a s1).
Qed.

Lemma triple_if {A} P (Q : A -> S -> Prop) (b : bool) (m1 m2 : prog E S A) :
  triple P m1 Q -> triple P m2 Q -> triple P (if b then m1 else m2) Q.
Proof. by destruct b. Qed.

Lemma triple_preserves {A} (I : S -> Prop) (m : prog E S A) : preserves I m -> triple I m (fun _ => I).
Proof. done. Qed.

Lemma triple_stop {A} P h (Q : A -> S -> Prop) : triple P (stop h) Q.
Proof. by intros s Hs. Qed.

(** After a routine that preserves [P]. *)
Lemma triple_after {A B} P (Q : B -> S -> Prop) (m : prog E S A) (k : A -> prog E S B) :
  preserves P m -> (forall a, triple P (k a) Q) -> triple P (bind m k) Q.
Proof. intros Hm Hk. eapply triple_bind; [by apply triple_preserves|done]. Qed.

End Triple.

#[export] Hint Resolve triple_ret triple_if triple_stop triple_after : lausim.

(** ** Where a routine may stop *)

Section Guarded.
Context {E S : Type} (R : halt -> Prop).

(** From [P], [m] ends in [Q], or stops for a reason in [R]. *)
Definition guarded {A} (P : S -> Prop) (m : prog E S A) (Q : A -> S -> Prop) : Prop :=
  forall s, P s -> match m s with Done a s' _ => Q a s' | Halt h _ => R h end.

(** From [P], [m] ends in [P], or stops for a reason in [R]. *)
Definition keeps {A} (P : S -> Prop) (m : prog E S A) : Prop := guarded P m (fun _ => P).

Lemma guarded_ret {A} (P : S -> Prop) (Q : A -> S -> Prop) a : (forall s, P s -> Q a s) -> guarded P (ret a) Q.
Proof. intros H s Hs. by apply H. Qed.
Lemma guarded_stop {A} P h (Q : A -> S -> Prop) : R h -> guarded P (stop h) Q.
Proof. by intros H s _. Qed.
Lemma guarded_modify (P : S -> Prop) (Q : unit -> S -> Prop) f : (forall s, P s -> Q tt (f s)) -> guarded P (modify f) Q.
Proof. intros H s Hs. by apply H. Qed.
Lemma guarded_put (P : S -> Prop) (Q : unit -> S -> Prop) s' : (forall s, P s -> Q tt s') -> guarded P (put s') Q.
Proof. intros H s Hs. by apply (H s). Qed.
Lemma keeps_emit P e : keeps P (emit e).
Proof. by intros s. Qed.

Lemma guarded_bind {A B} P (Q1 : A -> S -> Prop) (Q : B -> S -> Prop) (m : prog E S A) (k : A -> prog E S B) :
  guarded P m Q1 -> (forall a, guarded (Q1 a) (k a) Q) -> guarded P (bind m k) Q.
Proof.
  intros Hm Hk s Hs. unfold bind. specialize (Hm s Hs). destruct (m s) as [a s1 t1|]; [|done].
  specialize (Hk a s1 Hm). by destruct (k a s1).
Qed.

Lemma guarded_weaken {A} (P P' : S -> Prop) (Q Q' : A -> S -> Prop) (m : prog E S A) :
  guarded P m Q -> (forall s, P' s -> P s) -> (forall a s, Q a s -> Q' a s) -> guarded P' m Q'.
Proof. intros Hm HP HQ s Hs. specialize (Hm s (HP s Hs)). destruct (m s); auto. Qed.

Lemma guarded_after {A B} P (Q : B -> S -> Prop) (m : prog E S A) (k : A -> prog E S B) :
  keeps P m -> (forall a, guarded P (k a) Q) -> guarded P (bind m k) Q.
Proof. intros Hm Hk. by eapply guarded_bind. Qed.

Lemma guarded_then {A B} P P' (Q : B -> S -> Prop) (m : prog E S A) (k : A -> prog E S B) :
  guarded P m (fun _ => P') -> (forall a, guarded P' (k a) Q) -> guarded P (bind m k) Q.
Proof. intros Hm Hk. by eapply guarded_bind. Qed.

Lemma guarded_pure {A} (P : S -> Prop) (phi : Prop) (Q : A -> S -> Prop) (m : prog E S A) :
  (phi -> guarded P m Q) -> guarded (fun s => P s /\ phi) m Q.
Proof. intros H s [Hs Hphi]. by apply H. Qed.

Lemma guarded_value {A B} P (Q : B -> S -> Prop) (a : A) (k : A -> prog E S B) : guarded P (k a) Q -> guarded P (bind (ret a) k) Q.
Proof. intros Hk s Hs. specialize (Hk s Hs). unfold bind, ret. by destruct (k a s). Qed.

(** What holds of a state that is read holds of the value. *)
Lemma guarded_read {B} (P : S -> Prop) (Q : B -> S -> Prop) (k : S -> prog E S B) :
  (forall s, P s -> guarded P (k s) Q) -> guarded P (bind get k) Q.
Proof. intros H s Hs. specialize (H s Hs s Hs). unfold bind, get. by destruct (k s s). Qed.

Lemma guarded_read_eq {B} (P : S -> Prop) (Q : B -> S -> Prop) (k : S -> prog E S B) :
  (forall s, P s -> guarded (eq s) (k s) Q) -> guarded P (bind get k) Q.
Proof. intros H s Hs. specialize (H s Hs s eq_refl). unfold bind, get. by destruct (k s s). Qed.

Lemma guarded_if {A} P (Q : A -> S -> Prop) (b : bool) (m1 m2 : prog E S A) :
  (b = true -> guarded P m1 Q) -> (b = false -> guarded P m2 Q) -> guarded P (if b then m1 else m2) Q.
Proof. destruct b; auto. Qed.

Lemma keeps_for_each {A} P (l : list A) (body : A -> prog E S unit) : (forall x, x ∈ l -> keeps P (body x)) -> keeps P (for_each l body).
Proof.
  induction l as [|x l IH]; intros H; cbn; [by apply guarded_ret|].
  apply guarded_after; [apply H; by left|]. intros _. apply IH. intros y Hy. apply H. by right.
Qed.

Lemma guarded_halt {A} P (m : prog E S A) Q s h t : guarded P m Q -> P s -> m s = Halt h t -> R h.
Proof. intros Hm Hs Eh. specialize (Hm s Hs). by rewrite Eh in Hm. Qed.

End Guarded.

(** ** How a routine may end *)

Section Ends.
Context {E S : Type} (R : halt -> Prop).

(** From [P], if [m] stops it does so for a reason in [R], or in a way [B] allows, which may depend on what has been emitted. *)
Definition ends {A} (P : S -> Prop) (m : prog E S A) (B : halt -> list E -> Prop) : Prop :=
  forall s, P s -> match m s with Done _ _ _ => True | Halt h t => R h \/ B h t end.

(** [B] does not mind what has been emitted before. *)
Definition late (B : halt -> list E -> Prop) : Prop := forall h t t', B h t -> B h (t' ++ t).

Lemma guarded_ends {A} P (m : prog E S A) Q B : guarded R P m Q -> ends P m B.
Proof. intros Hm s Hs. specialize (Hm s Hs). destruct (m s); [done|by left]. Qed.

Lemma ends_bind {A C} P (Q : A -> S -> Prop) (m : prog E S A) (k : A -> prog E S C) B :
  late B -> guarded R P m Q -> (forall a, ends (Q a) (k a) B) -> ends P (bind m k) B.
Proof.
  intros HB Hm Hk s Hs. unfold bind. specialize (Hm s Hs). destruct (m s) as [a s1 t1|]; [|by left].
  specialize (Hk a s1 Hm). destruct (k a s1); [done|]. destruct Hk; [by left|right; by apply HB].
Qed.

Lemma ends_after {A C} P (m : prog E S A) (k : A -> prog E S C) B : late B -> keeps R P m -> (forall a, ends P (k a) B) -> ends P (bind m k) B.
Proof. intros HB Hm Hk. by eapply ends_bind. Qed.

(** After [e] has been emitted. *)
Lemma ends_emit {C} P e (k : unit -> prog E S C) B : late B -> ends P (k tt) B -> ends P (bind (emit e) k) (fun h t => B h t /\ e ∈ t).
Proof.
  intros HB Hk s Hs. unfold bind, emit. specialize (Hk s Hs). destruct (k tt s) as [|h t]; [done|]. destruct Hk as [|Hk]; [by left|right].
  split; [by apply (HB h t [e])|]. by constructor.
Qed.

Lemma ends_if {A} P (b : bool) (m1 m2 : prog E S A) B : (b = true -> ends P m1 B) -> (b = false -> ends P m2 B) -> ends P (if b then m1 else m2) B.
Proof. destruct b; auto. Qed.

Lemma ends_weaken {A} (P P' : S -> Prop) (m : prog E S A) B : ends P m B -> (forall s, P' s -> P s) -> ends P' m B.
Proof. intros Hm HP s Hs. by apply Hm, HP. Qed.

End Ends.

(** ** What a routine that ends has emitted *)

Section Yields.
Context {E S : Type}.

(** From [P], if [m] ends then [Q] holds of its result, of the state and of what it has emitted. *)
Definition yields {A} (P : S -> Prop) (m : prog E S A) (Q : A -> S -> list E -> Prop) : Prop :=
  forall s, P s -> match m s with Done a s' tr => Q a s' tr | Halt _ _ => True end.

Lemma yields_bind {A B} P (Q1 : A -> S -> list E -> Prop) (Q : B -> S -> list E -> Prop) (m : prog E S A) (k : A -> prog E S B) :
  yields P m Q1 -> (forall a t1, yields (fun s => Q1 a s t1) (k a) (fun b s t2 => Q b s (t1 ++ t2))) -> yields P (bind m k) Q.
Proof.
  intros Hm Hk s Hs. unfold bind. specialize (Hm s Hs). destruct (m s) as [a s1 t1|]; [|done].
  specialize (Hk a t1 s1 Hm). by destruct (k a s1).
Qed.

(** After a routine of which nothing matters. *)
Lemma yields_any {A B} (P : S -> Prop) (Q : B -> S -> list E -> Prop) (m : prog E S A) (k : A -> prog E S B) :
  (forall b s t1 t2, Q b s t2 -> Q b s (t1 ++ t2)) -> (forall a, yields (fun _ => True) (k a) Q) -> yields P (bind m k) Q.
Proof.
  intros HQ Hk s Hs. unfold bind. destruct (m s) as [a s1 t1|]; [|done]. specialize (Hk a s1 Logic.I). destruct (k a s1); [by apply HQ|done].
Qed.

Lemma yields_ret {A} (P : S -> Prop) (Q : A -> S -> list E -> Prop) a : (forall s, P s -> Q a s []) -> yields P (ret a) Q.
Proof. intros H s Hs. by apply H. Qed.

Lemma yields_if {A} P (Q : A -> S -> list E -> Prop) (b : bool) (m1 m2 : prog E S A) :
  (b = true -> yields P m1 Q) -> (b = false -> yields P m2 Q) -> yields P (if b then m1 else m2) Q.
Proof. destruct b; auto. Qed.

Lemma yields_weaken {A} (P P' : S -> Prop) (Q Q' : A -> S -> list E -> Prop) (m : prog E S A) :
  yields P m Q -> (forall s, P' s -> P s) -> (forall a s t, Q a s t -> Q' a s t) -> yields P' m Q'.
Proof. intros Hm HP HQ s Hs. specialize (Hm s (HP s Hs)). destruct (m s); auto. Qed.

End Yields.

(** Goes through the steps of a routine; what is left are calls and case distinctions. *)
Ltac guarding_step := lazymatch goal with
  | |- keeps _ _ _ => unfold keeps
  | |- guarded _ _ (emit _) _ => apply keeps_emit
  | |- guarded _ _ (ret _) _ => apply guarded_ret; by auto
  | |- guarded _ _ (modify _) _ => apply guarded_modify; by auto
  | |- guarded _ _ (put _) _ => apply guarded_put; by auto
  | |- guarded _ _ (stop _) _ => apply guarded_stop; by auto with lausim
  | |- guarded _ _ (bind get _) _ => apply guarded_read; intros ? ?
  | |- guarded _ _ (bind (ret _) _) _ => apply guarded_value
  | |- guarded _ _ (bind _ _) _ => apply guarded_after; [|intros ?]
  | |- guarded _ _ (for_each _ _) _ => apply keeps_for_each; intros ? ?
  | |- guarded _ _ (if _ then _ else _) _ => apply guarded_if; intros ?
  end.
Ltac guarding := repeat guarding_step.

(** ** Kinds of events *)

Section Emits.
Context {E S : Type} (P : E -> Prop).

(** Every event of [m] satisfies [P]. *)
Definition emits {A} (m : prog E S A) : Prop :=
  forall s, match m s with Done _ _ tr | Halt _ tr => Forall P tr end.

Lemma emits_ret {A} (a : A) : emits (ret a).
Proof. intros s. constructor. Qed.
Lemma emits_get : emits get.
Proof. intros s. constructor. Qed.
Lemma emits_put s : emits (put s).
Proof. intros s'. constructor. Qed.
Lemma emits_modify f : emits (modify f).
Proof. intros s. constructor. Qed.
Lemma emits_stop {A} h : emits (stop (A := A) h).
Proof. intros s. constructor. Qed.
Lemma emits_emit e : P e -> emits (emit e).
Proof. intros He s. by constructor. Qed.

Lemma emits_bind {A B} (m : prog E S A) (k : A -> prog E S B) : emits m -> (forall a, emits (k a)) -> emits (bind m k).
Proof.
  intros Hm Hk s. unfold bind. specialize (Hm s). destruct (m s) as [a s1 t1|]; [|done].
  specialize (Hk a s1). destruct (k a s1); by apply Forall_app_2.
Qed.

Lemma emits_if {A} (b : bool) (m1 m2 : prog E S A) : emits m1 -> emits m2 -> emits (if b then m1 else m2).
Proof. by destruct b. Qed.

Lemma emits_for_each {A} (l : list A) (body : A -> prog E S unit) : (forall x, emits (body x)) -> emits (for_each l body).
Proof. intros H. induction l as [|x l IH]; cbn; [apply emits_ret|]. by apply emits_bind. Qed.

Lemma emits_zoom {T A} (proj : T -> S) (upd : S -> T -> T) (m : prog E S A) s :
  emits m -> match zoom proj upd m s with Done _ _ tr | Halt _ tr => Forall P tr end.
Proof. intros H. specialize (H (proj s)). unfold zoom. by destruct (m (proj s)). Qed.

Lemma emits_done {A} (m : prog E S A) s a s' tr : emits m -> m s = Done a s' tr -> Forall P tr.
Proof. intros H E'. specialize (H s). by rewrite E' in H. Qed.

End Emits.

#[export] Hint Resolve emits_ret emits_get emits_put emits_modify emits_stop emits_emit emits_bind emits_if
  emits_for_each : lausim.

(** ** Programs up to what they emit *)

Section Results.
Context {E S : Type}.

(** How a run ends, without its events. *)
Definition result {A} (o : outcome E S A) : (A * S) + halt :=
  match o with Done a s _ => inl (a, s) | Halt h _ => inr h end.

(** The events of a run. *)
Definition trace_of {A} (o : outcome E S A) : list E := match o with Done _ _ tr | Halt _ tr => tr end.

Definition same_result {A} (m m' : prog E S A) : Prop := forall s, result (m s) = result (m' s).

#[export] Instance same_result_equivalence A : Equivalence (@same_result A).
Proof.
  split; [by intros m s|by intros m m' H s; rewrite H|]. intros m1 m2 m3 H1 H2 s. by rewrite H1.
Qed.

Lemma result_bind {A B} (m : prog E S A) (k : A -> prog E S B) s :
  result (bind m k s) = match result (m s) with inl (a, s1) => result (k a s1) | inr h => inr h end.
Proof. unfold bind. destruct (m s) as [a s1 t1|]; [|done]. cbn. by destruct (k a s1). Qed.

#[export] Instance bind_proper A B :
  Proper (same_result ==> pointwise_relation A same_result ==> same_result) (@bind E S A B).
Proof. intros m m' Hm k k' Hk s. rewrite !result_bind, Hm. destruct (result (m' s)) as [[a s1]|]; [apply Hk|done]. Qed.

Lemma emit_bind {B} (e : E) (k : unit -> prog E S B) : same_result (bind (emit e) k) (k tt).
Proof. intros s. by rewrite result_bind. Qed.

Lemma ret_bind {A B} (a : A) (k : A -> prog E S B) : same_result (bind (ret a) k) (k a).
Proof. intros s. by rewrite result_bind. Qed.

Lemma bind_bind {A B C} (m : prog E S A) (k : A -> prog E S B) (l : B -> prog E S C) :
  same_result (bind (bind m k) l) (bind m (fun a => bind (k a) l)).
Proof. intros s. rewrite !result_bind. destruct (result (m s)) as [[a s1]|]; [|done]. by rewrite result_bind. Qed.

Lemma result_done {A} (o : outcome E S A) a s : result o = inl (a, s) -> exists tr, o = Done a s tr.
Proof. destruct o; [|done]. intros [= -> ->]. by eexists. Qed.

Lemma result_halt {A} (o : outcome E S A) h : result o = inr h -> exists tr, o = Halt h tr.
Proof. destruct o; [done|]. intros [= ->]. by eexists. Qed.

End Results.

Infix "≈" := same_result (at level 70, no associativity) : prog_scope.

(** Computes the monad away on a routine whose pieces are known. *)
Ltac prog_simpl :=
  cbn [bind ret get put modify emit stop zoom for_each app] in *.

Ltac prog_unfold := unfold bind, ret, get, put, modify, emit, stop, zoom in *.
