(* ===== verification/CString.v ===== *)
(** * The C library routines on strings that the sources call

    Strings are lists of characters without the terminating NUL.  [strtok], [strtoull] and its
    relatives, [getline], the conversions of [printf] and the extraction of words from a
    [std::stringstream] are written as the C and C++ standards describe them in the C locale, for
    64-bit [long].  The second half gives the round trips between printing and scanning. *)

From Stdlib Require Export Ascii.
From S2P Require Import Prelude.
Local Open Scope Z_scope.

Abbreviation cstr := (list ascii).

(** A string literal of the source. *)
Definition str (s : string) : cstr := String.list_ascii_of_string s.

Definition code (c : ascii) : Z := Z.of_N (N_of_ascii c).
Definition chr (z : Z) : ascii := ascii_of_N (Z.to_N z).

Definition NUL : ascii := chr 0.
Definition NL : ascii := chr 10.
Definition TAB : ascii := chr 9.
Definition COMMA : ascii := ","%char.

(** ** Character classes *)

Definition is_space (c : ascii) : bool := ((9 <=? code c) && (code c <=? 13)) || (code c =? 32).

Definition to_lower (c : ascii) : ascii :=
  if (65 <=? code c) && (code c <=? 90) then chr (code c + 32) else c.

Definition digit_val (c : ascii) : option Z :=
  let n := code c in
  if (48 <=? n) && (n <=? 57) then Some (n - 48)
  else if (97 <=? n) && (n <=? 122) then Some (n - 87)
  else if (65 <=? n) && (n <=? 90) then Some (n - 55)
  else None.

Definition digit_in (base : Z) (c : ascii) : bool :=
  match digit_val c with Some d => d <? base | None => false end.

Definition digit_char (d : Z) : ascii := if d <? 10 then chr (48 + d) else chr (87 + d).

(** ** Comparison and search *)

Definition strcmp_eq (a b : cstr) : bool := bool_decide (a = b).
Definition strcasecmp_eq (a b : cstr) : bool := bool_decide (map to_lower a = map to_lower b).

(** [strchr]: the text before the first [c] and the text after it. *)
Definition strchr (s : cstr) (c : ascii) : option (cstr * cstr) :=
  match span (fun x => negb (bool_decide (x = c))) s with
  | (_, []) => None
  | (a, _ :: b) => Some (a, b)
  end.

(** [strstr(s, sub) != NULL]. *)
Definition strstr (s sub : cstr) : bool := contains sub s.

Definition is_delim (delim : cstr) (c : ascii) : bool := bool_decide (c ∈ delim).

(** [strtok]: the token, if any, and the text from which the next call with [NULL] continues. *)
Definition strtok (s delim : cstr) : option cstr * cstr :=
  match (span (is_delim delim) s).2 with
  | [] => (None, [])
  | s' => let (tok, rest) := span (fun c => negb (is_delim delim c)) s' in (Some tok, drop 1 rest)
  end.

(** [stream >> word]: the next word, if any, and the rest of the stream. *)
Definition next_word (s : cstr) : option cstr * cstr :=
  match (span is_space s).2 with
  | [] => (None, [])
  | s' => let (w, rest) := span (fun c => negb (is_space c)) s' in (Some w, rest)
  end.

(** ** Scanning numbers *)

Fixpoint scan_digits (base acc : Z) (s : cstr) : Z * cstr :=
  match s with
  | c :: s' =>
      match digit_val c with
      | Some d => if d <? base then scan_digits base (acc * base + d) s' else (acc, s)
      | None => (acc, s)
      end
  | [] => (acc, [])
  end.

Definition scan_sign (s : cstr) : bool * cstr :=
  match s with
  | c :: s' =>
      if bool_decide (c = "-"%char) then (true, s')
      else if bool_decide (c = "+"%char) then (false, s') else (false, s)
  | [] => (false, s)
  end.

(** The base and the digits of a subject sequence, for a requested base of 0, 10 or 16. *)
Definition scan_base (base : Z) (s : cstr) : Z * cstr :=
  match s with
  | c :: s' =>
      if bool_decide (c = "0"%char) then
        match s' with
        | x :: h :: _ =>
            if ((base =? 0) || (base =? 16)) && bool_decide (to_lower x = "x"%char) && digit_in 16 h
            then (16, drop 1 s')
            else (if base =? 0 then 8 else base, s)
        | _ => (if base =? 0 then 8 else base, s)
        end
      else (if base =? 0 then 10 else base, s)
  | [] => (if base =? 0 then 10 else base, s)
  end.

(** Sign, magnitude and end pointer of the [strto*] family; [None] when there is no conversion. *)
Definition strto (s : cstr) (base : Z) : option (bool * Z * cstr) :=
  let (neg, s2) := scan_sign (span is_space s).2 in
  let (b, s3) := scan_base base s2 in
  match s3 with
  | c :: _ => if digit_in b c then let (m, e) := scan_digits b 0 s3 in Some (neg, m, e) else None
  | [] => None
  end.

(** [strtoull] (and [strtoul], 64-bit [long]): the value and the end pointer. *)
Definition strtoull (s : cstr) (base : Z) : Z * cstr :=
  match strto s base with
  | None => (0, s)
  | Some (neg, m, e) => (if 2 ^ 64 <=? m then 2 ^ 64 - 1 else if (neg : bool) then u64 (- m) else m, e)
  end.

Definition strtol (s : cstr) (base : Z) : Z :=
  match strto s base with
  | None => 0
  | Some (neg, m, _) => let v := if (neg : bool) then - m else m in Z.max (- 2 ^ 63) (Z.min v (2 ^ 63 - 1))
  end.

Inductive stoul_result := StoulValue (v : Z) | StoulInvalidArgument | StoulOutOfRange.

(** [std::stoul], base 10. *)
Definition stoul (s : cstr) : stoul_result :=
  match strto s 10 with
  | None => StoulInvalidArgument
  | Some (neg, m, _) =>
      if 2 ^ 64 <=? m then StoulOutOfRange else StoulValue (if (neg : bool) then u64 (- m) else m)
  end.

(** ** Printing *)

Fixpoint print_digits (fuel : nat) (base n : Z) (acc : cstr) : cstr :=
  match fuel with
  | O => acc
  | S fuel' =>
      let acc' := digit_char (n mod base) :: acc in
      if n <? base then acc' else print_digits fuel' base (n / base) acc'
  end.

(** Digits of a nonnegative number; [Z.log2 n + 1] steps are enough for any base from 2. *)
Definition print_base (base n : Z) : cstr := print_digits (S (Z.to_nat (Z.log2 n))) base n [].

(** [%u], [%zu], [%lu]. *)
Definition print_u (n : Z) : cstr := print_base 10 n.
(** [%x]. *)
Definition print_x (n : Z) : cstr := print_base 16 n.
(** [%d] of a 32-bit and [%ld] of a 64-bit argument, given as the signed value. *)
Definition print_signed (z : Z) : cstr := if z <? 0 then "-"%char :: print_u (- z) else print_u z.
Definition print_d (z : Z) : cstr := print_signed (s32 z).
Definition print_ld (z : Z) : cstr := print_signed (s64 z).

(** [snprintf(buf, n, ...)]: the string left in the buffer. *)
Definition snprintf (n : nat) (s : cstr) : cstr := take (n - 1) s.

(** The C string at the start of a buffer: everything before the first NUL. *)
Definition c_str (buf : cstr) : cstr := (span (fun c => negb (bool_decide (c = NUL))) buf).1.

(** [getline]: the next line, its newline included, and the rest of the file; [None] is -1. *)
Definition getline (file : cstr) : option (cstr * cstr) :=
  match file with
  | [] => None
  | _ =>
      match span (fun c => negb (bool_decide (c = NL))) file with
      | (l, []) => Some (l, [])
      | (l, nl :: rest) => Some (l ++ [nl], rest)
      end
  end.

(** ** Characters of printed numbers *)

Lemma code_range c : 0 <= code c < 256.
Proof. unfold code. pose proof (N_ascii_bounded c). lia. Qed.

Lemma code_chr z : 0 <= z < 256 -> code (chr z) = z.
Proof. intros. unfold code, chr. rewrite N_ascii_embedding; lia. Qed.

Lemma code_inj a b : code a = code b -> a = b.
Proof.
  unfold code. intros H%N2Z.inj. by rewrite <- (ascii_N_embedding a), H, ascii_N_embedding.
Qed.

Lemma digit_val_digit_char d : 0 <= d < 36 -> digit_val (digit_char d) = Some d.
Proof.
  intros. unfold digit_val, digit_char. destruct (Z.ltb_spec d 10).
  all: rewrite code_chr by lia; bool_cases; simpl; try lia; f_equal; lia.
Qed.

Lemma digit_in_digit_char b d : 0 <= d < b -> b <= 36 -> digit_in b (digit_char d) = true.
Proof. intros. unfold digit_in. rewrite digit_val_digit_char by lia. apply Z.ltb_lt. lia. Qed.

Lemma digit_in_mono b b' c : b <= b' -> digit_in b c = true -> digit_in b' c = true.
Proof. unfold digit_in. destruct (digit_val c); [|done]. intros ? ?%Z.ltb_lt. apply Z.ltb_lt. lia. Qed.

Lemma stops_digit_mono b b' r : b <= b' -> stops (digit_in b') r -> stops (digit_in b) r.
Proof.
  destruct r as [|c r]; simpl; [done|]. intros ? Hc.
  destruct (digit_in b c) eqn:Hb; [|done]. by rewrite (digit_in_mono b b') in Hc.
Qed.

(** A digit or letter is none of the separators of the file formats. *)
Lemma digit_in_code b c : digit_in b c = true ->
  48 <= code c <= 57 \/ 65 <= code c <= 90 \/ 97 <= code c <= 122.
Proof. unfold digit_in, digit_val. bool_cases; simpl; intros; first [lia | done]. Qed.

Lemma digit_char_inj a b : 0 <= a < 36 -> 0 <= b < 36 -> digit_char a = digit_char b -> a = b.
Proof. intros ? ? H. apply (f_equal digit_val) in H. rewrite !digit_val_digit_char in H by lia. congruence. Qed.

(** ** Printing then scanning *)

Section PrintScan.
Context (b : Z) (Hb : 2 <= b <= 36).

Lemma print_digits_app fuel n acc r :
  print_digits fuel b n acc ++ r = print_digits fuel b n (acc ++ r).
Proof.
  revert n acc. induction fuel as [|fuel IH]; intros n acc; simpl; [done|].
  destruct (n <? b); [done|]. by rewrite IH.
Qed.

Lemma log2_fuel n : 0 <= n -> n < b ^ Z.of_nat (S (Z.to_nat (Z.log2 n))).
Proof.
  intros Hn. pose proof (Z.log2_nonneg n). rewrite Nat2Z.inj_succ, Z2Nat.id by done.
  destruct (Z.eq_dec n 0) as [->|]; [apply Z.pow_pos_nonneg; lia|].
  apply Z.lt_le_trans with (2 ^ Z.succ (Z.log2 n)); [apply Z.log2_spec; lia|].
  apply Z.pow_le_mono_l; lia.
Qed.

Lemma div_fuel fuel n : b <= n -> n < b ^ Z.of_nat (S fuel) -> 0 < n / b < b ^ Z.of_nat fuel.
Proof.
  rewrite Nat2Z.inj_succ, Z.pow_succ_r by lia. intros. split.
  - apply Z.div_str_pos. lia.
  - apply Z.div_lt_upper_bound; lia.
Qed.

Lemma scan_print_digits fuel n acc a : 0 <= n < b ^ Z.of_nat fuel -> (0 < fuel)%nat ->
  exists k, scan_digits b a (print_digits fuel b n acc) = scan_digits b (a * b ^ k + n) acc /\ 0 <= k.
Proof.
  revert n acc a. induction fuel as [|fuel IH]; intros n acc a Hn Hf; [lia|]. simpl.
  assert (Hd : digit_val (digit_char (n mod b)) = Some (n mod b) /\ (n mod b <? b) = true).
  { pose proof (Z.mod_pos_bound n b). rewrite digit_val_digit_char by lia. split; [done|]. apply Z.ltb_lt. lia. }
  destruct Hd as [Hd Hlt]. destruct (Z.ltb_spec n b) as [Hnb|Hnb].
  - exists 1. simpl. rewrite Hd, Hlt, Z.mod_small, Z.pow_1_r by lia. split; [done|lia].
  - pose proof (div_fuel fuel n Hnb ltac:(lia)) as Hq.
    assert (0 < fuel)%nat by (destruct fuel; simpl in *; lia).
    destruct (IH (n / b) (digit_char (n mod b) :: acc) a) as (k & -> & Hk); [lia|done|].
    exists (k + 1). simpl. rewrite Hd, Hlt. split; [|lia]. f_equal.
    rewrite Z.pow_add_r, Z.pow_1_r by lia. pose proof (Z.div_mod n b). lia.
Qed.

Lemma scan_digits_stop a r : stops (digit_in b) r -> scan_digits b a r = (a, r).
Proof.
  destruct r as [|c r]; simpl; [done|]. unfold digit_in.
  destruct (digit_val c) as [d|]; [|done]. by intros ->.
Qed.

Lemma scan_print_base n r : 0 <= n -> stops (digit_in b) r -> scan_digits b 0 (print_base b n ++ r) = (n, r).
Proof.
  intros Hn Hr. unfold print_base. rewrite print_digits_app. simpl app.
  destruct (scan_print_digits (S (Z.to_nat (Z.log2 n))) n r 0) as (k & -> & _).
  - split; [done|]. by apply log2_fuel.
  - lia.
  - by apply scan_digits_stop.
Qed.

(** The leading digit is not zero, except for the number 0 itself. *)
Lemma print_digits_head fuel n acc : 0 < n < b ^ Z.of_nat fuel ->
  exists d l, print_digits fuel b n acc = digit_char d :: l /\ 0 < d < b.
Proof.
  revert n acc. induction fuel as [|fuel IH]; intros n acc Hn; [simpl in *; lia|].
  simpl. destruct (Z.ltb_spec n b).
  - exists n, acc. rewrite Z.mod_small by lia. split; [done|lia].
  - apply IH. apply div_fuel; lia.
Qed.

Lemma print_base_head n : 0 < n -> exists d l, print_base b n = digit_char d :: l /\ 0 < d < b.
Proof. intros. apply print_digits_head. split; [done|]. apply log2_fuel. lia. Qed.

Lemma print_base_0 : print_base b 0 = [digit_char 0].
Proof. unfold print_base. simpl. destruct (Z.ltb_spec 0 b); [done|lia]. Qed.

Lemma print_digits_chars fuel n acc c : 0 <= n ->
  c ∈ print_digits fuel b n acc -> digit_in b c = true \/ c ∈ acc.
Proof.
  revert n acc. induction fuel as [|fuel IH]; intros n acc Hn; simpl; [by right|].
  assert (Hd : digit_in b (digit_char (n mod b)) = true).
  { apply digit_in_digit_char; [|lia]. apply Z.mod_pos_bound. lia. }
  destruct (n <? b).
  - intros [->|?]%elem_of_cons; [by left|by right].
  - intros [?|[->|?]%elem_of_cons]%IH; try (by left); [by right|]. apply Z.div_pos; lia.
Qed.

Lemma print_base_chars n c : 0 <= n -> c ∈ print_base b n -> digit_in b c = true.
Proof. intros Hn [?|?]%print_digits_chars; [done|set_solver|done]. Qed.

End PrintScan.

(** [strto] on the pieces the program prints.  [alnum_stop r]: what follows is no letter or digit. *)

Definition alnum_stop (r : cstr) : Prop := stops (digit_in 36) r.

Lemma alnum_stop_base b r : b <= 36 -> alnum_stop r -> stops (digit_in b) r.
Proof. apply stops_digit_mono. Qed.

Lemma digit_char_not_sign d : 0 <= d < 36 ->
  is_space (digit_char d) = false /\ digit_char d <> "-"%char /\ digit_char d <> "+"%char.
Proof.
  intros Hd. pose proof (digit_in_code 36 (digit_char d)) as H.
  rewrite digit_in_digit_char in H by lia. specialize (H eq_refl). split.
  - unfold is_space. bool_cases; simpl; first [lia | done].
  - assert (code "-"%char = 45 /\ code "+"%char = 43) as [? ?] by done. split; intros E; rewrite E in H; lia.
Qed.

(** A subject sequence starting with a digit has no blanks and no sign to skip. *)
Lemma strto_digit d l base : 0 <= d < 36 ->
  strto (digit_char d :: l) base =
  let (b, s3) := scan_base base (digit_char d :: l) in
  match s3 with
  | c :: _ => if digit_in b c then let (m, e) := scan_digits b 0 s3 in Some (false, m, e) else None
  | [] => None
  end.
Proof.
  intros Hd. destruct (digit_char_not_sign d Hd) as (Hs & Hm & Hp).
  unfold strto. rewrite span_nil by done. cbn [snd scan_sign]. by rewrite !bool_decide_false by done.
Qed.

Lemma scan_base_0 r : alnum_stop r -> scan_base 0 (digit_char 0 :: r) = (8, digit_char 0 :: r).
Proof.
  intros Hr. unfold scan_base. rewrite bool_decide_true by done.
  destruct r as [|x [|h r]]; [done|done|]. simpl in Hr.
  assert (Hx : to_lower x <> "x"%char).
  { intros Hx. unfold to_lower in Hx. destruct ((65 <=? code x) && (code x <=? 90)) eqn:Hc.
    - unfold digit_in, digit_val in Hr. bool_cases; simpl in *; try lia; try done.
    - subst x. by vm_compute in Hr. }
  rewrite (bool_decide_false _ Hx). by rewrite andb_false_r.
Qed.

Lemma scan_base_nz base d l : 0 < d < 36 -> scan_base base (digit_char d :: l) =
  (if base =? 0 then 10 else base, digit_char d :: l).
Proof.
  intros Hd. unfold scan_base. rewrite bool_decide_false; [done|].
  change "0"%char with (digit_char 0). intros H%digit_char_inj; lia.
Qed.

Lemma strto_print_u n r : 0 <= n -> alnum_stop r -> strto (print_u n ++ r) 0 = Some (false, n, r).
Proof.
  intros Hn Hr. unfold print_u. destruct (Z.eq_dec n 0) as [->|Hnz].
  - rewrite print_base_0 by lia. cbn [app]. rewrite strto_digit, scan_base_0 by (done || lia).
    pose proof (scan_print_base 8 ltac:(lia) 0 r ltac:(lia)) as H.
    rewrite print_base_0 in H by lia. cbn [app] in H.
    rewrite digit_in_digit_char, H by first [lia | by apply alnum_stop_base]. done.
  - pose proof (scan_print_base 10 ltac:(lia) n r Hn) as H.
    destruct (print_base_head 10 ltac:(lia) n) as (d & l & E & Hd); [lia|].
    rewrite E in H |- *. cbn [app] in *.
    rewrite strto_digit, scan_base_nz, Z.eqb_refl, digit_in_digit_char, H by first [lia | by apply alnum_stop_base]. done.
Qed.

(** The number printed is read back, and the end pointer is where the number ended. *)
Lemma strtoull_print_u n r : is_u64 n -> alnum_stop r -> strtoull (print_u n ++ r) 0 = (n, r).
Proof.
  intros [? ?] ?. unfold strtoull. rewrite strto_print_u by done.
  destruct (Z.leb_spec (2 ^ 64) n); [lia|done].
Qed.

Lemma strto_minus s base : stops is_space s -> forall m e, strto s base = Some (false, m, e) ->
  (match s with c :: _ => c <> "-"%char /\ c <> "+"%char | [] => True end) ->
  strto ("-"%char :: s) base = Some (true, m, e).
Proof.
  intros Hs m e H Hc. unfold strto in *. rewrite span_nil in H by done. rewrite span_nil by done.
  destruct s as [|c s]; [by destruct base|]. destruct Hc as [Hc1 Hc2].
  cbn [snd scan_sign] in *. rewrite !bool_decide_false in H by done. rewrite bool_decide_true by done.
  destruct (scan_base base (c :: s)) as [b [|c' s']]; [done|].
  destruct (digit_in b c'); [|done]. destruct (scan_digits b 0 (c' :: s')). congruence.
Qed.

Lemma print_u_head n r : 0 <= n -> exists d l, print_u n ++ r = digit_char d :: l /\ 0 <= d < 10.
Proof.
  intros. unfold print_u. destruct (Z.eq_dec n 0) as [->|].
  - rewrite print_base_0 by lia. exists 0, r. split; [done|lia].
  - destruct (print_base_head 10 ltac:(lia) n) as (d & l & -> & ?); [lia|].
    exists d, (l ++ r). split; [done|lia].
Qed.

(** A negative number reads back as its two's complement in 64 bits. *)
Lemma strtoull_print_neg n r : 0 < n < 2 ^ 64 -> alnum_stop r ->
  strtoull (print_signed (- n) ++ r) 0 = (2 ^ 64 - n, r).
Proof.
  intros Hn Hr. unfold print_signed. destruct (Z.ltb_spec (- n) 0); [|lia].
  rewrite Z.opp_involutive. cbn [app]. unfold strtoull.
  assert (Hs : strto ("-"%char :: print_u n ++ r) 0 = Some (true, n, r)).
  { apply strto_minus; [| |].
    - destruct (print_u_head n r) as (d & l & -> & ?); [lia|]. simpl. apply digit_char_not_sign. lia.
    - apply strto_print_u; [lia|done].
    - destruct (print_u_head n r) as (d & l & -> & ?); [lia|]. apply digit_char_not_sign. lia. }
  rewrite Hs. destruct (Z.leb_spec (2 ^ 64) n); [lia|]. f_equal. unfold u64.
  rewrite <- (Z.mod_unique (- n) (2 ^ 64) (-1) (2 ^ 64 - n)); lia.
Qed.

(** An [unsigned] printed with [%d] and read with [strtoull] comes back after truncation to 32 bits,
    also where [%d] shows it as negative. *)
Lemma strtoull_print_d n r : is_u32 n -> alnum_stop r ->
  u32 (strtoull (print_d n ++ r) 0).1 = n /\ (strtoull (print_d n ++ r) 0).2 = r.
Proof.
  intros [? ?] ?. unfold print_d. destruct (Z.lt_ge_cases n (2 ^ 31)).
  - rewrite s32_small by lia. unfold print_signed. destruct (Z.ltb_spec n 0); [lia|].
    rewrite strtoull_print_u; [|by split; lia|done]. split; [|done]. apply u32_id. by split; lia.
  - rewrite s32_large by lia. replace (n - 2 ^ 32) with (- (2 ^ 32 - n)) by lia.
    rewrite strtoull_print_neg by (lia || done). split; [|done]. simpl fst. unfold u32.
    rewrite <- (Z.mod_unique _ (2 ^ 32) (2 ^ 32 - 1) n); lia.
Qed.

(** The value read: the number as an [int], extended to 64 bits. *)
Lemma strtoull_print_d_value n r : is_u32 n -> alnum_stop r ->
  strtoull (print_d n ++ r) 0 = (u64 (s32 n), r).
Proof.
  intros [? ?] ?. unfold print_d. destruct (Z.lt_ge_cases n (2 ^ 31)).
  - rewrite s32_small by lia. unfold print_signed. destruct (Z.ltb_spec n 0); [lia|].
    rewrite strtoull_print_u, u64_id; [done|by split; lia|by split; lia|done].
  - rewrite s32_large by lia. replace (n - 2 ^ 32) with (- (2 ^ 32 - n)) by lia.
    rewrite strtoull_print_neg by (lia || done). f_equal. unfold u64.
    rewrite <- (Z.mod_unique (- (2 ^ 32 - n)) (2 ^ 64) (-1) (2 ^ 64 - (2 ^ 32 - n))); lia.
Qed.

Lemma scan_base_0x d l : 0 <= d < 16 ->
  scan_base 0 ("0"%char :: "x"%char :: digit_char d :: l) = (16, digit_char d :: l).
Proof.
  intros Hd. unfold scan_base. rewrite digit_in_digit_char by lia.
  by rewrite (bool_decide_true ("0"%char = "0"%char)), (bool_decide_true (to_lower _ = _)).
Qed.

Lemma strto_print_x n r : 0 <= n -> alnum_stop r ->
  strto (str "0x" ++ print_x n ++ r) 0 = Some (false, n, r).
Proof.
  intros Hn Hr. pose proof (scan_print_base 16 ltac:(lia) n r Hn) as H.
  assert (exists d l, print_x n ++ r = digit_char d :: l /\ 0 <= d < 16) as (d & l & E & Hd).
  { unfold print_x. destruct (Z.eq_dec n 0) as [->|].
    - rewrite print_base_0 by lia. exists 0, r. split; [done|lia].
    - destruct (print_base_head 16 ltac:(lia) n) as (d & l & -> & ?); [lia|].
      exists d, (l ++ r). split; [done|lia]. }
  unfold print_x in *. rewrite E in H |- *. unfold strto. rewrite span_nil by done.
  replace (scan_sign _) with (false, "0"%char :: "x"%char :: digit_char d :: l) by done.
  rewrite scan_base_0x, digit_in_digit_char, H by first [lia | by apply alnum_stop_base]. done.
Qed.

Lemma strtoull_print_x n r : is_u64 n -> alnum_stop r -> strtoull (str "0x" ++ print_x n ++ r) 0 = (n, r).
Proof.
  intros [? ?] ?. unfold strtoull. rewrite strto_print_x by done.
  destruct (Z.leb_spec (2 ^ 64) n); [lia|done].
Qed.

(** ** Searching and splitting *)

Lemma neg_delim_forallb (P : ascii -> bool) (s : cstr) :
  (forall c, c ∈ s -> P c = false) -> forallb (fun c => negb (P c)) s = true.
Proof. intros H. apply forallb_forall. intros c Hc%list_elem_of_In. by rewrite H. Qed.

Lemma not_char_forallb x (s : cstr) : x ∉ s -> forallb (fun c => negb (bool_decide (c = x))) s = true.
Proof. intros Hx. apply neg_delim_forallb. intros c Hc. apply bool_decide_false. by intros ->. Qed.

Lemma strchr_app a c b : c ∉ a -> strchr (a ++ c :: b) c = Some (a, b).
Proof.
  intros Ha. unfold strchr. rewrite span_app; [done|by apply not_char_forallb|].
  simpl. by rewrite bool_decide_true.
Qed.

Lemma strchr_none a c : c ∉ a -> strchr a c = None.
Proof.
  intros Ha. unfold strchr. rewrite <- (app_nil_r a), span_app; [done|by apply not_char_forallb|done].
Qed.

(** What [strchr] splits is put together again. *)
Lemma strchr_split s c a b : strchr s c = Some (a, b) -> s = a ++ c :: b /\ c ∉ a.
Proof.
  unfold strchr. pose proof (span_split (fun x => negb (bool_decide (x = c))) s) as H.
  destruct (span _ s) as [a' [|c' b']]; [done|]. intros [= -> ->].
  destruct H as (-> & Ha & Hb). simpl in Hb. apply negb_false_iff, bool_decide_eq_true in Hb as ->.
  split; [done|]. intros Hc. apply forallb_forall with (x := c) in Ha; [|by apply list_elem_of_In].
  by rewrite bool_decide_true in Ha.
Qed.

Lemma getline_app l r : NL ∉ l -> getline (l ++ NL :: r) = Some (l ++ [NL], r).
Proof.
  intros Hl. unfold getline. destruct (l ++ NL :: r) eqn:E; [by destruct l|]. rewrite <- E.
  by rewrite span_app; [|apply not_char_forallb|].
Qed.

(** A line read leaves a strictly shorter file. *)
Lemma getline_shorter f l r : getline f = Some (l, r) -> (length r < length f)%nat /\ l <> [].
Proof.
  unfold getline. destruct f as [|c f]; [done|].
  pose proof (span_split (fun x => negb (bool_decide (x = NL))) (c :: f)) as H.
  destruct (span _ (c :: f)) as [a [|x b]]; destruct H as [H _]; intros [= <- <-].
  - rewrite H, app_nil_r. split; [destruct a; simpl in *; [done|lia]|]. intros ->. done.
  - rewrite H, length_app. simpl. split; [lia|]. by destruct a.
Qed.

Lemma c_str_id s : NUL ∉ s -> c_str s = s.
Proof.
  intros Hs. unfold c_str. rewrite <- (app_nil_r s) at 1.
  rewrite span_app; [done|by apply not_char_forallb|done].
Qed.

Lemma strtok_token delim tok rest : tok <> [] -> (forall c, c ∈ tok -> c ∉ delim) ->
  (match rest with [] => True | c :: _ => c ∈ delim end) ->
  strtok (tok ++ rest) delim = (Some tok, drop 1 rest).
Proof.
  intros Hne Htok Hrest. unfold strtok.
  assert (Hd : forall c, c ∈ tok -> is_delim delim c = false).
  { intros c Hc. apply bool_decide_false. by apply Htok. }
  rewrite span_nil.
  - cbn [snd]. destruct (tok ++ rest) eqn:E; [by destruct tok|]. rewrite <- E.
    rewrite span_app; [done|by apply neg_delim_forallb|].
    destruct rest; cbn [stops]; [done|]. unfold is_delim. by rewrite (bool_decide_true _ Hrest).
  - destruct tok as [|c tok]; [done|]. simpl. apply Hd. set_solver.
Qed.

Lemma strtok_nil delim : strtok [] delim = (None, []).
Proof. done. Qed.

(** Leading separators are skipped. *)
Lemma strtok_skip delim c s : c ∈ delim -> strtok (c :: s) delim = strtok s delim.
Proof.
  intros Hc. unfold strtok. simpl. unfold is_delim at 1. rewrite (bool_decide_true _ Hc).
  by destruct (span (is_delim delim) s).
Qed.

Lemma strtok_shorter s delim tok rest : strtok s delim = (Some tok, rest) -> (length rest < length s)%nat.
Proof.
  unfold strtok. pose proof (span_length (is_delim delim) s) as H1.
  pose proof (span_split (is_delim delim) s) as Hs.
  destruct (span (is_delim delim) s) as [a s']; cbn [snd] in *. destruct s' as [|c s']; [done|].
  destruct Hs as (_ & _ & Hc). simpl in Hc. simpl span. rewrite Hc. cbn [negb].
  pose proof (span_length (fun c => negb (is_delim delim c)) s') as H2.
  destruct (span _ s') as [t r]. intros [= <- <-]. rewrite length_drop. simpl in *. lia.
Qed.

(** ** Membership in small sets of characters *)

Lemma not_elem_sub (big small : cstr) c :
  forallb (fun x => bool_decide (x ∈ big)) small = true -> c ∉ big -> c ∉ small.
Proof.
  intros H Hc Hin. apply Hc. rewrite forallb_forall in H.
  by apply list_elem_of_In, H, bool_decide_eq_true in Hin.
Qed.

(** Decides [x ∈ l] and [x ∉ l] for closed terms. *)
Ltac elem_dec := refine (bool_decide_unpack _ _); vm_compute; exact I.

(** Closes [c ∉ small] from [H : c ∉ big], or any goal when [H] says a concrete member is absent. *)
Ltac excluded H :=
  first [ refine (not_elem_sub _ _ _ _ H); reflexivity | exfalso; apply H; elem_dec ].

(** ** Words of a stream *)

(** A text that [stream >> word] extracts whole. *)
Definition word_ok (w : cstr) : Prop := w <> [] /\ forallb (fun c => negb (is_space c)) w = true.

Lemma next_word_app w rest : word_ok w -> stops (fun c => negb (is_space c)) rest ->
  next_word (w ++ rest) = (Some w, rest).
Proof.
  intros [Hne Hw] Hr. unfold next_word. destruct w as [|c w]; [done|].
  rewrite span_nil by (simpl in *; apply andb_prop in Hw as [Hc _]; by apply negb_true_iff in Hc).
  cbn [snd app]. change (c :: w ++ rest) with ((c :: w) ++ rest). by rewrite span_app.
Qed.

Lemma next_word_space c s : is_space c = true -> next_word (c :: s) = next_word s.
Proof. intros Hc. unfold next_word. simpl. rewrite Hc. by destruct (span is_space s). Qed.

Lemma word_ok_not_space w c : word_ok w -> c ∈ w -> is_space c = false.
Proof.
  intros [_ Hw] Hc. rewrite forallb_forall in Hw. apply list_elem_of_In, Hw in Hc. by apply negb_true_iff.
Qed.

Lemma scan_digits_nonneg b s : 0 <= b -> forall acc, 0 <= acc -> 0 <= (scan_digits b acc s).1.
Proof.
  intros Hb. induction s as [|c s IH]; intros acc Ha; cbn [scan_digits]; [done|]. destruct (digit_val c) as [d|] eqn:E; [|done].
  destruct (d <? b); [|done]. apply IH. assert (0 <= d); [|nia]. unfold digit_val in E. revert E. bool_cases; cbn; intros [= <-]; lia.
Qed.

Lemma stoul_range s v : stoul s = StoulValue v -> is_u64 v.
Proof.
  unfold stoul, strto. destruct (scan_sign _) as [neg s2]. destruct (scan_base 10 s2) as [b s3] eqn:Eb.
  assert (0 <= b) as Hb.
  { unfold scan_base in Eb. destruct s2 as [|c s2]; [by injection Eb as <- _|]. destruct (bool_decide _); [|by injection Eb as <- _].
    destruct s2 as [|x [|h s2]]; [by injection Eb as <- _..|]. destruct (_ && _); by injection Eb as <- _. }
  destruct s3 as [|c s3]; [done|]. destruct (digit_in b c); [|done].
  pose proof (scan_digits_nonneg b (c :: s3) Hb 0 (Z.le_refl 0)) as Hm. destruct (scan_digits b 0 (c :: s3)) as [m e]. cbn in Hm.
  destruct (Z.leb_spec (2 ^ 64) m); [done|]. intros [= <-]. destruct neg; [apply u64_range|unfold is_u64; lia].
Qed.

Lemma stoul_print_u n : is_u64 n -> stoul (print_u n) = StoulValue n.
Proof.
  intros [? ?]. unfold stoul.
  assert (strto (print_u n) 10 = Some (false, n, [])) as ->.
  { pose proof (scan_print_base 10 ltac:(lia) n [] ltac:(lia) I) as H'. rewrite app_nil_r in H'.
    destruct (print_u_head n []) as (d & l & E & ?); [lia|]. rewrite app_nil_r in E.
    unfold print_u in *. rewrite E in *. rewrite strto_digit by lia.
    assert (scan_base 10 (digit_char d :: l) = (10, digit_char d :: l)) as ->.
    { unfold scan_base. destruct (bool_decide _); [|done]. destruct l as [|? [|? ?]]; done. }
    rewrite digit_in_digit_char, H' by lia. done. }
  destruct (Z.leb_spec (2 ^ 64) n); [lia|done].
Qed.

Lemma print_u_word n : 0 <= n -> word_ok (print_u n).
Proof.
  intros Hn. split.
  - destruct (print_u_head n []) as (d & l & E & _); [done|]. rewrite app_nil_r in E. by rewrite E.
  - apply neg_delim_forallb. intros c Hc. unfold print_u in Hc.
    apply (print_base_chars 10) in Hc; [|lia|lia]. apply digit_in_code in Hc.
    unfold is_space. bool_cases; simpl; first [lia | done].
Qed.

(** ** Characters of numbers *)

(** The characters of a printed number. *)
Definition number_char (c : ascii) : Prop := digit_in 36 c = true \/ c = "-"%char.

Lemma print_u_chars n c : 0 <= n -> c ∈ print_u n -> digit_in 36 c = true.
Proof.
  intros ? Hc. apply (digit_in_mono 10); [lia|]. eapply (print_base_chars 10); [lia|done|exact Hc].
Qed.

Lemma print_signed_chars z c : c ∈ print_signed z -> number_char c.
Proof.
  unfold print_signed. destruct (Z.ltb_spec z 0).
  - intros [->|Hc]%elem_of_cons; [by right|left]. eapply print_u_chars; [|exact Hc]. lia.
  - intros Hc. left. by eapply print_u_chars.
Qed.

Lemma number_char_not c : number_char c -> c ∉ [COMMA; NL; NUL; "#"%char; " "%char; TAB; "/"%char].
Proof.
  assert (Forall (fun x => digit_in 36 x = false /\ x <> "-"%char)
    [COMMA; NL; NUL; "#"%char; " "%char; TAB; "/"%char]) as H by (repeat constructor; done).
  rewrite Forall_forall in H. intros Hc Hin. destruct (H c Hin) as [H1 H2]. destruct Hc; congruence.
Qed.

Lemma print_signed_ne z : print_signed z <> [].
Proof.
  unfold print_signed. destruct (Z.ltb_spec z 0); [done|].
  destruct (print_u_head z []) as (d & l & E & _); [done|]. rewrite app_nil_r in E. by rewrite E.
Qed.

