(* ===== verification/Types.v ===== *)
(** * Shared data and interfaces (include/lausim/*.h)

    Log levels, nodes, components and faults, the events a run shows to the outside, and the records
    of operations by which the server talks to a fault manager, a communication backend and a
    logger.  A record of operations is parametric in the state [St] its operations work on. *)

From S2P Require Import Prelude CString.
Local Open Scope Z_scope.

(** ** include/lausim/types.h *)

Inductive log_level := LL_None | LL_Debug | LL_Info | LL_Warning | LL_Error | LL_Fatal.

#[export] Instance log_level_eq_dec : EqDecision log_level.
Proof. solve_decision. Defined.

(** The numeric value of a level. *)
Definition ll_num (l : log_level) : Z :=
  match l with
  | LL_None => 0 | LL_Debug => 1 | LL_Info => 2 | LL_Warning => 3 | LL_Error => 4 | LL_Fatal => 5
  end.

(** ** include/lausim/node.h *)

Definition NODE_STATE_UNKNOWN : Z := 0.
Definition NODE_STATE_READY : Z := 1.
Definition NODE_STATE_ERROR : Z := 2.
Definition NODE_STATE_FINISHED : Z := 3.

Inductive node_type_t := uniform_node | network_switch | pdu.

Record component := Component { c_name : cstr; c_severity : Z }.

Record node := Node {
  n_name : cstr;
  n_id : Z;
  n_type : node_type_t;
  n_state : Z;
  n_num_components : Z;
  n_components : list component
}.

(** ** include/lausim/fault_manager.h *)

Record fault := Fault {
  f_id : Z;
  f_name : option cstr;
  f_component : option cstr;
  f_node : cstr;
  f_severity : Z
}.

#[export] Instance component_eq_dec : EqDecision component.
Proof. solve_decision. Defined.
#[export] Instance node_type_eq_dec : EqDecision node_type_t.
Proof. solve_decision. Defined.
#[export] Instance node_eq_dec : EqDecision node.
Proof. solve_decision. Defined.
#[export] Instance fault_eq_dec : EqDecision fault.
Proof. solve_decision. Defined.

(** ** What the outside sees *)

Inductive event :=
| ELog (l : log_level) (msg : cstr)       (** a call of the logger in use *)
| ESetLogLevel (l : log_level)            (** a call of [set_ll] of the logger in use *)
| EStdout (text : cstr)
| EStderr (text : cstr)
| EPublish (topic payload : cstr)         (** a message handed to the MQTT library *)
| ESleepUntil (t : Z)                     (** the thread sleeps until a reading of the clock *)
| ESleepFor (seconds : Z).

#[export] Instance event_eq_dec : EqDecision event.
Proof. solve_decision. Defined.

Definition log {S} (l : log_level) (msg : cstr) : prog event S unit := emit (ELog l msg).

(** What a run prints. *)
Definition stdout_text (tr : list event) : cstr :=
  concat (omap (fun e => match e with EStdout t => Some t | _ => None end) tr).

Lemma stdout_text_app a b : stdout_text (a ++ b) = stdout_text a ++ stdout_text b.
Proof. unfold stdout_text. by rewrite omap_app, concat_app. Qed.

(** The events that leave the process on purpose: output, and messages for the MQTT library. *)
Definition visible (e : event) : bool := match e with EStdout _ | EPublish _ _ => true | _ => false end.
Definition silent (e : event) : Prop := if visible e then False else True.
#[export] Hint Extern 1 (silent _) => exact I : lausim.

Lemma visible_silent tr : Forall silent tr -> List.filter visible tr = [].
Proof. induction 1 as [|e tr He _ IH]; [done|]. unfold silent in He. cbn. by destruct (visible e). Qed.

Lemma stdout_visible tr : stdout_text (List.filter visible tr) = stdout_text tr.
Proof. unfold stdout_text. induction tr as [|e tr IH]; [done|]. destruct e; cbn; by rewrite ?IH. Qed.

Lemma emits_log {S} l msg : emits (S := S) silent (log l msg).
Proof. by apply emits_emit. Qed.
#[export] Hint Resolve emits_log : lausim.

(** [m] ends from [s] in [s'] with result [a]; [out] is what could be seen of it. *)
Definition runs {S A} (m : prog event S A) (s : S) (a : A) (s' : S) (out : list event) : Prop :=
  exists tr, m s = Done a s' tr /\ List.filter visible tr = out.

Section Runs.
Context {S : Type}.
Implicit Types s : S.

Lemma runs_bind {A B} (m : prog event S A) (k : A -> prog event S B) s a s1 o1 b s2 o2 :
  runs m s a s1 o1 -> runs (k a) s1 b s2 o2 -> runs (bind m k) s b s2 (o1 ++ o2).
Proof.
  intros (t1 & E1 & <-) (t2 & E2 & <-). exists (t1 ++ t2). split; [by eapply bind_done|apply List.filter_app].
Qed.

(** Nothing is seen of the first part. *)
Lemma runs_then {A B} (m : prog event S A) (k : A -> prog event S B) s a s1 b s2 o :
  runs m s a s1 [] -> runs (k a) s1 b s2 o -> runs (bind m k) s b s2 o.
Proof. apply runs_bind. Qed.

Lemma runs_ret {A} (a : A) s : runs (ret a) s a s [].
Proof. by exists []. Qed.
Lemma runs_emit e s : silent e -> runs (emit e) s tt s [].
Proof. intros H. exists [e]. split; [done|]. by apply visible_silent, Forall_singleton. Qed.
Lemma runs_log l msg s : runs (log l msg) s tt s [].
Proof. by apply runs_emit. Qed.

Lemma runs_done {A} (m : prog event S A) s a s' tr : m s = Done a s' tr -> Forall silent tr -> runs m s a s' [].
Proof. intros E H. exists tr. split; [done|by apply visible_silent]. Qed.

Lemma runs_emits {A} (m : prog event S A) s a s' tr : m s = Done a s' tr -> emits silent m -> runs m s a s' [].
Proof. intros E H. eapply runs_done; [done|]. by eapply emits_done. Qed.

Lemma runs_zoom {T A} (proj : T -> S) (upd : S -> T -> T) (m : prog event S A) (t : T) a s' o :
  runs m (proj t) a s' o -> runs (zoom proj upd m) t a (upd s' t) o.
Proof. intros (tr & E & Ho). exists tr. unfold zoom. by rewrite E. Qed.

(** [m] comes from [s] to [s'], where [k] is left to do; [out] is what could be seen of it. *)
Definition comes_to {A} (m : prog event S A) s (k : prog event S A) s' (out : list event) : Prop :=
  exists tr, List.filter visible tr = out /\
    m s = match k s' with Done a s2 t => Done a s2 (tr ++ t) | Halt h t => Halt h (tr ++ t) end.

Lemma comes_here {A} (k : prog event S A) s : comes_to k s k s [].
Proof. exists []. split; [done|]. by destruct (k s). Qed.

Lemma comes_bind {A B} (m : prog event S A) (f : A -> prog event S B) s a s1 o1 k s2 o2 :
  runs m s a s1 o1 -> comes_to (f a) s1 k s2 o2 -> comes_to (bind m f) s k s2 (o1 ++ o2).
Proof.
  intros (t1 & E1 & <-) (t2 & <- & E2). exists (t1 ++ t2). split; [apply List.filter_app|].
  unfold bind. rewrite E1, E2. destruct (k s2); by rewrite app_assoc.
Qed.

(** Nothing is seen of the first part. *)
Lemma comes_then {A B} (m : prog event S A) (f : A -> prog event S B) s a s1 k s2 o :
  runs m s a s1 [] -> comes_to (f a) s1 k s2 o -> comes_to (bind m f) s k s2 o.
Proof. apply comes_bind. Qed.

Lemma comes_done {A} (m k : prog event S A) s s1 o1 a s2 o2 : comes_to m s k s1 o1 -> runs k s1 a s2 o2 -> runs m s a s2 (o1 ++ o2).
Proof. intros (t1 & <- & E1) (t2 & E2 & <-). exists (t1 ++ t2). rewrite E1, E2. split; [done|apply List.filter_app]. Qed.

Lemma comes_halt {A} (m k : prog event S A) s s1 o h t : comes_to m s k s1 o -> k s1 = Halt h t ->
  exists tr, m s = Halt h (tr ++ t) /\ List.filter visible tr = o.
Proof. intros (tr & Ho & E) Ek. exists tr. by rewrite E, Ek. Qed.

End Runs.

#[export] Hint Resolve runs_ret runs_emit runs_log : lausim.

(** A [FILE *]: NULL, or a file with the text written to it. *)
Inductive file_ptr := FileNull | FileOpen (text : cstr) | FileClosed (text : cstr).

(** [get_nodes] gives the return code and the array of nodes ([*num_nodes] is its length), [get_fail]
    the array of faults (its return value is the length). *)
Record fault_manager (St : Type) := FaultManager {
  fm_version : Z;
  fm_get_nodes : prog event St (Z * list node);
  fm_tic : prog event St unit;
  fm_get_fail : prog event St (list fault);
  fm_inject_fail : fault -> prog event St Z
}.
Arguments FaultManager {St}.
Arguments fm_version {St}.
Arguments fm_get_nodes {St}.
Arguments fm_tic {St}.
Arguments fm_get_fail {St}.
Arguments fm_inject_fail {St}.

(** ** include/lausim/com.h *)

Definition COM_NONE : Z := 0.
Definition COM_SYNC : Z := 1.
Definition COM_ASYNC : Z := 2.

(** A [msg_callback]: null, the server's [on_message], or the function of another part. *)
Inductive msg_callback := cb_null | cb_server | cb_other (n : Z).

#[export] Instance msg_callback_eq_dec : EqDecision msg_callback.
Proof. solve_decision. Defined.

(** An optional operation is a function pointer that may be NULL. *)
Record com (St : Type) := Com {
  com_capabilities : Z;
  com_notify_fail : cstr -> option cstr -> Z -> prog event St Z;
  com_notify_extern : cstr -> prog event St Z;
  com_set_mode : option (Z -> prog event St Z);
  com_set_callback : option (msg_callback -> prog event St msg_callback);
  com_get_msg : option (prog event St (list cstr))
}.
Arguments Com {St}.
Arguments com_capabilities {St}.
Arguments com_notify_fail {St}.
Arguments com_notify_extern {St}.
Arguments com_set_mode {St}.
Arguments com_set_callback {St}.
Arguments com_get_msg {St}.

(** ** include/lausim/logger.h *)

Record logger (St : Type) := Logger {
  lg_version : Z;
  lg_set_ll : log_level -> prog event St unit;
  lg_log_fun : log_level -> cstr -> prog event St unit
}.
Arguments Logger {St}.
Arguments lg_version {St}.
Arguments lg_set_ll {St}.
Arguments lg_log_fun {St}.

(** ** include/lausim/plugin.h *)

Definition PL_INTF_VERSION : Z := 7.
Definition PL_NONE : Z := 0.
Definition PL_COM_ACTOR : Z := 1.
Definition PL_COM_EXTERN : Z := 2.
Definition PL_FAULT_MANAGER : Z := 4.
Definition PL_LOGGER : Z := 8.
Definition PL_TOPOLOGY : Z := 16.
Definition PL_OTHER : Z := 32.

(** A [plugin *]: the address of a plugin struct; the null pointer is [None] where one may occur. *)
Abbreviation plugin_ptr := Z.

(** The data of a plugin struct; a function pointer that may be NULL is an option.  [W] is the state
    the plugins work on, [H] the state the manager interface and the plugins share. *)
Record plugin (W H : Type) := Plugin {
  pl_version : Z;
  pl_type : Z;
  pl_name : cstr;
  pl_post_init : option (prog event H Z);
  pl_cleanup : option (prog event H Z);
  pl_c : option (com W);
  pl_fm : option (fault_manager W);
  pl_lf : option (logger W)
}.
Arguments Plugin {W H}.
Arguments pl_version {W H}.
Arguments pl_type {W H}.
Arguments pl_name {W H}.
Arguments pl_post_init {W H}.
Arguments pl_cleanup {W H}.
Arguments pl_c {W H}.
Arguments pl_fm {W H}.
Arguments pl_lf {W H}.

(** [HAS_PL_TYPE(pl, t)]. *)
Definition HAS_PL_TYPE {W H} (pl : plugin W H) (t : Z) : bool := negb (Z.land (pl_type pl) t =? 0).

(** A [logger *] that the manager hands out: the server's own logger, or that of a plugin. *)
Inductive logger_ref := standard_logger | plugin_logger (p : plugin_ptr).

(** The operations the manager offers to plugins.  Where a plugin keeps the logger it has got, its messages are [ELog] events, which
    Loggers.v and Logging.v hand to the logger in use. *)
Record plugin_manager_interface (H : Type) := Interface {
  pmi_version : Z;
  pmi_register_plugin : plugin_ptr -> prog event H Z;
  pmi_by_name : cstr -> prog event H (option plugin_ptr);
  pmi_by_type : Z -> prog event H (option plugin_ptr);
  pmi_get_logger : prog event H logger_ref;
  pmi_all_plugins : prog event H (list (Z * plugin_ptr));
  pmi_set_role : option plugin_ptr -> Z -> prog event H Z;
  pmi_add_role : option plugin_ptr -> Z -> prog event H Z
}.
Arguments Interface {H}.
Arguments pmi_version {H}.
Arguments pmi_register_plugin {H}.
Arguments pmi_by_name {H}.
Arguments pmi_by_type {H}.
Arguments pmi_get_logger {H}.
Arguments pmi_all_plugins {H}.
Arguments pmi_set_role {H}.
Arguments pmi_add_role {H}.

(** ** Operations on a part of the state *)

Section Zoom.
Context {S T : Type} (proj : S -> T) (upd : T -> S -> S).

Definition zoom_fm (fm : fault_manager T) : fault_manager S :=
  FaultManager (fm_version fm) (zoom proj upd (fm_get_nodes fm)) (zoom proj upd (fm_tic fm))
    (zoom proj upd (fm_get_fail fm)) (fun f => zoom proj upd (fm_inject_fail fm f)).

Definition zoom_com (c : com T) : com S :=
  Com (com_capabilities c)
    (fun n k v => zoom proj upd (com_notify_fail c n k v))
    (fun m => zoom proj upd (com_notify_extern c m))
    (match com_set_mode c with Some f => Some (fun m => zoom proj upd (f m)) | None => None end)
    (match com_set_callback c with Some f => Some (fun cb => zoom proj upd (f cb)) | None => None end)
    (match com_get_msg c with Some f => Some (zoom proj upd f) | None => None end).

Definition zoom_logger (l : logger T) : logger S :=
  Logger (lg_version l) (fun v => zoom proj upd (lg_set_ll l v)) (fun v m => zoom proj upd (lg_log_fun l v m)).

End Zoom.

(** ** Running a fault manager the way the server does *)

Section Observe.
Context {St : Type} (fm : fault_manager St).
Local Open Scope prog_scope.

(** [n] tics, each followed by the query for the faults of that tic. *)
Fixpoint fm_tics (n : nat) : prog event St (list (list fault)) :=
  match n with
  | O => ret []
  | S n' =>
      fm_tic fm ;;
      fs <- fm_get_fail fm ;;
      rest <- fm_tics n' ;;
      ret (fs :: rest)
  end.

(** The whole interaction: the nodes once, then [n] tics. *)
Definition fm_observe (n : nat) : prog event St (Z * list node * list (list fault)) :=
  ns <- fm_get_nodes fm ;;
  fss <- fm_tics n ;;
  ret (ns, fss).

End Observe.

Lemma fm_tics_length {St} (fm : fault_manager St) n : forall s fss s' tr, fm_tics fm n s = Done fss s' tr -> length fss = n.
Proof.
  induction n as [|n IH]; intros s fss s' tr E; [by injection E as <- <- <-|].
  cbn [fm_tics] in E. apply bind_done_inv in E as (_ & s1 & t1 & u1 & _ & E & _).
  apply bind_done_inv in E as (fs & s2 & t2 & u2 & _ & E & _). apply bind_done_inv in E as (rest & s3 & t3 & u3 & E & F & _).
  injection F as <- <- <-. cbn. f_equal. by eapply IH.
Qed.

(** A fault manager that works on a part of its state like another one, wherever [P] holds, is run like it. *)
Section ZoomRun.
Context {S T : Type} (proj : S -> T) (upd : T -> S -> S) (P : S -> Prop).
Context (fm' : fault_manager S) (fm : fault_manager T).
Hypothesis proj_upd : forall t s, P s -> proj (upd t s) = t /\ P (upd t s).
Hypothesis upd_upd : forall t t' s, upd t (upd t' s) = upd t s.
Hypothesis upd_proj : forall s, P s -> upd (proj s) s = s.
Hypothesis tic_zoom : forall s, P s -> fm_tic fm' s = zoom proj upd (fm_tic fm) s.
Hypothesis get_fail_zoom : forall s, P s -> fm_get_fail fm' s = zoom proj upd (fm_get_fail fm) s.

Lemma zoom_tics n : forall s, P s -> fm_tics fm' n s = zoom proj upd (fm_tics fm n) s.
Proof.
  induction n as [|n IH]; intros s Hs; unfold zoom; cbn [fm_tics].
  { unfold ret. by rewrite upd_proj. }
  unfold bind. rewrite tic_zoom by done. unfold zoom at 1. destruct (fm_tic fm (proj s)) as [[] t1 tr1|]; [|done].
  destruct (proj_upd t1 s Hs) as [E1 P1]. rewrite get_fail_zoom by done. unfold zoom at 1. rewrite E1.
  destruct (fm_get_fail fm t1) as [fs t2 tr2|]; [|done]. rewrite upd_upd.
  destruct (proj_upd t2 s Hs) as [E2 P2]. rewrite IH by done. unfold zoom. rewrite E2.
  destruct (fm_tics fm n t2) as [fss t3 tr3|]; [|done]. unfold ret. by rewrite upd_upd.
Qed.

End ZoomRun.

(** ** The contract between a fault manager and the server

    From a state satisfying the invariant the operations the server calls always return, and the
    invariant holds again.  [fm_ready] is the invariant before [get_nodes], [fm_inv] after it. *)
Class FaultManagerSafe {St : Type} (fm : fault_manager St) := {
  fm_inv : St -> Prop;
  fm_tic_safe s : fm_inv s -> exists s' tr, fm_tic fm s = Done tt s' tr /\ fm_inv s';
  fm_get_fail_safe s : fm_inv s -> exists fs s' tr, fm_get_fail fm s = Done fs s' tr /\ fm_inv s'
}.

Lemma fm_tics_safe {St} (fm : fault_manager St) `{!FaultManagerSafe fm} n s : fm_inv s ->
  exists fss s' tr, fm_tics fm n s = Done fss s' tr /\ length fss = n /\ fm_inv s'.
Proof.
  revert s. induction n as [|n IH]; intros s Hs; [by exists [], s, []|].
  destruct (fm_tic_safe s Hs) as (s1 & t1 & E1 & H1).
  destruct (fm_get_fail_safe s1 H1) as (fs & s2 & t2 & E2 & H2).
  destruct (IH s2 H2) as (fss & s3 & t3 & E3 & Hl & H3).
  exists (fs :: fss), s3, (t1 ++ t2 ++ t3 ++ []). simpl. unfold bind. rewrite E1, E2, E3.
  split; [done|]. split; [simpl; congruence|done].
Qed.

(** A fault manager that prints nothing itself. *)
Class SilentFM {St : Type} (fm : fault_manager St) := {
  silent_get_nodes : emits silent (fm_get_nodes fm);
  silent_tic : emits silent (fm_tic fm);
  silent_get_fail : emits silent (fm_get_fail fm)
}.

#[export] Instance zoom_silent {S T} (proj : S -> T) (upd : T -> S -> S) (fm : fault_manager T) `{!SilentFM fm} :
  SilentFM (zoom_fm proj upd fm).
Proof. constructor; intros s; apply emits_zoom; apply SilentFM0. Qed.

(** ** The contract between a communication backend and the server *)
Class ComSafe {St : Type} (c : com St) := {
  com_inv : St -> Prop;
  com_notify_fail_safe n k v s : com_inv s ->
    exists r s' tr, com_notify_fail c n k v s = Done r s' tr /\ com_inv s';
  com_notify_extern_safe m s : com_inv s ->
    exists r s' tr, com_notify_extern c m s = Done r s' tr /\ com_inv s'
}.

(** What the server's tic loop relies on: on the states satisfying [I] the fault manager and the two
    backends always return, and [I] holds again. *)
Class PluginsSafe {W : Type} (I : W -> Prop) (fm : fault_manager W) (actor notify : com W) := {
  ps_tic w : I w -> exists w' tr, fm_tic fm w = Done tt w' tr /\ I w';
  ps_get_fail w : I w -> exists fs w' tr, fm_get_fail fm w = Done fs w' tr /\ I w';
  ps_notify_fail n k v w : I w -> exists r w' tr, com_notify_fail actor n k v w = Done r w' tr /\ I w';
  ps_notify_extern m w : I w -> exists r w' tr, com_notify_extern notify m w = Done r w' tr /\ I w'
}.

Lemma zoom_done {S T A} (proj : S -> T) (upd : T -> S -> S) (m : prog event T A) s a t tr :
  m (proj s) = Done a t tr -> zoom proj upd m s = Done a (upd t s) tr.
Proof. unfold zoom. by intros ->. Qed.

(** A fault manager and a backend that keep to themselves satisfy the contract side by side. *)
#[export] Instance plugins_safe_pair {F C} (fm : fault_manager F) (c : com C)
    `{!FaultManagerSafe fm, !ComSafe c} :
  PluginsSafe (fun w : F * C => fm_inv w.1 /\ com_inv w.2)
    (zoom_fm fst (fun f w => (f, w.2)) fm)
    (zoom_com snd (fun c w => (w.1, c)) c) (zoom_com snd (fun c w => (w.1, c)) c).
Proof.
  split; cbn; intros; destruct w as [wf wc]; match goal with H : _ /\ _ |- _ => destruct H as [Hf Hc] end.
  - destruct (fm_tic_safe _ Hf) as (f' & tr & E & H). eexists _, _. by rewrite (zoom_done _ _ _ _ _ _ _ E).
  - destruct (fm_get_fail_safe _ Hf) as (fs & f' & tr & E & H). eexists _, _, _.
    by rewrite (zoom_done _ _ _ _ _ _ _ E).
  - destruct (com_notify_fail_safe n k v _ Hc) as (r & c' & tr & E & H). eexists _, _, _.
    by rewrite (zoom_done _ _ _ _ _ _ _ E).
  - destruct (com_notify_extern_safe m _ Hc) as (r & c' & tr & E & H). eexists _, _, _.
    by rewrite (zoom_done _ _ _ _ _ _ _ E).
Qed.

(** ** A scripted fault manager

    It has a fixed list of nodes and reports given faults tic by tic; examples run on it. *)

Record script := Script { sc_nodes : list node; sc_current : list fault; sc_later : list (list fault) }.

Definition scripted : fault_manager script :=
  FaultManager 1 (fun s => Done (0, sc_nodes s) s [])
    (fun s => Done tt (Script (sc_nodes s) (default [] (head (sc_later s))) (tail (sc_later s))) [])
    (fun s => Done (sc_current s) s [])
    (fun _ s => Done 1 s []).

#[export] Instance scripted_safe : FaultManagerSafe scripted.
Proof. refine {| fm_inv := fun _ => True |}; intros; by repeat eexists. Defined.

Definition example_node (name : string) : node :=
  Node (str name) 0 uniform_node NODE_STATE_UNKNOWN 1 [Component (str "cpu") 0].
Definition example_fault (name : string) (severity : Z) : fault := Fault 0 None None (str name) severity.
Definition example_script : script :=
  Script [example_node "node0"; example_node "node1"] []
    [[example_fault "node0" 100]; []; [example_fault "node1" 1; example_fault "node0" 0]].
