(* ===== verification/Transcribe.v ===== *)
(** * The transcribe plugin (plugins/transcribe/transcribe.c)

    A fault manager that forwards every call to a nested one and writes what it sees to a file.  The
    operations are those of transcribe.c over an arbitrary nested manager; the file format is given
    a second time as a plain function of nodes and faults ([transcript]) and the two are shown to
    agree. *)

From S2P Require Import Prelude CString Types.
Local Open Scope Z_scope.

(** The globals of transcribe.c; [nested_st] is the state behind the [nested] pointer and [file] the
    text written so far. *)
Record transcribe (N : Type) := Transcribe {
  tr_tic_num : Z;
  tr_file : cstr;
  nested_st : N
}.
Arguments Transcribe {N}.
Arguments tr_tic_num {N}.
Arguments tr_file {N}.
Arguments nested_st {N}.

Section Transcribe.
Context {N : Type} (nested : fault_manager N).
Local Open Scope prog_scope.

(** [fprintf(file, ...)]. *)
Definition fprint (text : cstr) : prog event (transcribe N) unit :=
  modify (fun s => Transcribe (tr_tic_num s) (tr_file s ++ text) (nested_st s)).

(** A call of the nested manager. *)
Definition call_nested {A} (m : prog event N A) : prog event (transcribe N) A :=
  zoom nested_st (fun n s => Transcribe (tr_tic_num s) (tr_file s) n) m.

(** The inner loop of [get_nodes], over the component indices. *)
Definition write_component (n : node) (j : nat) : prog event (transcribe N) unit :=
  match n_components n !! j with
  | None => stop Undefined
  | Some c => fprint (COMMA :: c_name c)
  end.

Definition write_node (n : node) : prog event (transcribe N) unit :=
  fprint (n_name n ++ COMMA :: print_u (n_num_components n)) ;;
  for_each (seq 0 (Z.to_nat (n_num_components n))) (write_component n) ;;
  fprint [NL].

Definition get_nodes : prog event (transcribe N) (Z * list node) :=
  r <- call_nested (fm_get_nodes nested) ;;
  if fst r =? 0 then
    fprint (print_u (Z.of_nat (length (snd r))) ++ [NL]) ;;
    for_each (snd r) write_node ;;
    ret r
  else ret r.

Definition tic : prog event (transcribe N) unit :=
  s <- get ;;
  fprint (str "[tic#" ++ print_ld (tr_tic_num s) ++ str "]" ++ [NL]) ;;
  modify (fun s => Transcribe (u64 (tr_tic_num s + 1)) (tr_file s) (nested_st s)) ;;
  call_nested (fm_tic nested).

Definition write_fault (flt : fault) : prog event (transcribe N) unit :=
  fprint (f_node flt ++ COMMA :: default [] (f_component flt) ++ COMMA ::
          print_d (f_severity flt) ++ [NL]).

Definition get_fail : prog event (transcribe N) (list fault) :=
  failed <- call_nested (fm_get_fail nested) ;;
  for_each failed write_fault ;;
  ret failed.

Definition inject_fail (f : fault) : prog event (transcribe N) Z := call_nested (fm_inject_fail nested f).

(** The [fm] struct. *)
Definition transcribe_fm : fault_manager (transcribe N) :=
  FaultManager 1 get_nodes tic get_fail inject_fail.

End Transcribe.

(** ** The file format *)

Definition node_line (n : node) : cstr :=
  n_name n ++ COMMA :: print_u (n_num_components n) ++
  concat (map (fun c => COMMA :: c_name c) (n_components n)) ++ [NL].

Definition header (nodes : list node) : cstr :=
  print_u (Z.of_nat (length nodes)) ++ [NL] ++ concat (map node_line nodes).

Definition fault_line (flt : fault) : cstr :=
  f_node flt ++ COMMA :: default [] (f_component flt) ++ COMMA :: print_d (f_severity flt) ++ [NL].

Definition tic_line (k : Z) : cstr := str "[tic#" ++ print_ld k ++ str "]" ++ [NL].

(** The blocks of the tics from number [k] on. *)
Fixpoint tic_blocks (k : Z) (fss : list (list fault)) : cstr :=
  match fss with
  | [] => []
  | fs :: rest => tic_line k ++ concat (map fault_line fs) ++ tic_blocks (u64 (k + 1)) rest
  end.

Definition transcript (nodes : list node) (fss : list (list fault)) : cstr :=
  header nodes ++ tic_blocks 0 fss.

(** ** The operations write the format and change nothing else *)

(** The component array of a node has as many entries as the node says. *)
Definition components_ok (n : node) : Prop := n_num_components n = Z.of_nat (length (n_components n)).

Section Correct.
Context {N : Type} (nested : fault_manager N).
Implicit Types (s : transcribe N).

Lemma write_components_spec n k s : (k <= length (n_components n))%nat ->
  for_each (seq k (length (n_components n) - k)) (write_component n) s =
  Done tt (Transcribe (tr_tic_num s)
    (tr_file s ++ concat (map (fun c => COMMA :: c_name c) (drop k (n_components n)))) (nested_st s)) [].
Proof.
  remember (length (n_components n) - k)%nat as m eqn:Hm. revert k s Hm.
  induction m as [|m IH]; intros k s Hm Hk.
  - rewrite drop_ge by lia. cbn. rewrite app_nil_r. by destruct s.
  - destruct (lookup_lt_is_Some_2 (n_components n) k) as [c Hc]; [lia|].
    cbn [seq for_each]. unfold bind at 1, write_component at 1. rewrite Hc. cbn [fprint modify].
    rewrite IH by (simpl; lia). cbn. by rewrite (drop_S _ c k Hc), <- app_assoc.
Qed.

Lemma write_node_spec n s : components_ok n ->
  write_node n s = Done tt (Transcribe (tr_tic_num s) (tr_file s ++ node_line n) (nested_st s)) [].
Proof.
  intros Hn. unfold write_node, node_line. unfold bind at 1. cbn [fprint modify].
  rewrite Hn, Nat2Z.id. unfold bind at 1.
  pose proof (write_components_spec n 0) as H. rewrite Nat.sub_0_r in H. rewrite H by lia.
  cbn. rewrite drop_0. by rewrite !app_comm_cons, <- !app_assoc.
Qed.

Lemma write_nodes_spec ns s : Forall components_ok ns ->
  for_each ns write_node s =
  Done tt (Transcribe (tr_tic_num s) (tr_file s ++ concat (map node_line ns)) (nested_st s)) [].
Proof.
  intros Hns. revert s. induction Hns as [|n ns Hn _ IH]; intros s; cbn.
  - rewrite app_nil_r. by destruct s.
  - unfold bind. rewrite write_node_spec by done. rewrite IH. cbn. by rewrite <- app_assoc.
Qed.

Lemma write_faults_spec fs s :
  for_each fs write_fault s =
  Done tt (Transcribe (tr_tic_num s) (tr_file s ++ concat (map fault_line fs)) (nested_st s)) [].
Proof.
  revert s. induction fs as [|f fs IH]; intros s; cbn [for_each map concat].
  - rewrite app_nil_r. by destruct s.
  - unfold bind. cbn [write_fault fprint modify]. rewrite IH. cbn. unfold fault_line.
    by rewrite <- !app_assoc, <- !app_comm_cons, <- !app_assoc.
Qed.

Lemma get_nodes_spec s ns n1 tr : Forall components_ok ns ->
  fm_get_nodes nested (nested_st s) = Done (0, ns) n1 tr ->
  get_nodes nested s = Done (0, ns) (Transcribe (tr_tic_num s) (tr_file s ++ header ns) n1) tr.
Proof.
  intros Hns E. unfold get_nodes, call_nested. unfold bind at 1, zoom. rewrite E.
  cbn [fst snd Z.eqb]. unfold bind at 1. cbn [fprint modify]. unfold bind at 1.
  rewrite write_nodes_spec by done. cbn. unfold header.
  by rewrite <- !app_assoc, app_nil_r.
Qed.

Lemma tic_get_fail_spec s n1 t1 fs n2 t2 :
  fm_tic nested (nested_st s) = Done tt n1 t1 -> fm_get_fail nested n1 = Done fs n2 t2 ->
  exists s1, tic nested s = Done tt s1 t1 /\
    get_fail nested s1 = Done fs (Transcribe (u64 (tr_tic_num s + 1))
      (tr_file s ++ tic_line (tr_tic_num s) ++ concat (map fault_line fs)) n2) t2.
Proof.
  intros E1 E2. eexists. split.
  - unfold tic, call_nested, bind, zoom, get. cbn -[u64 str print_ld tic_line]. by rewrite E1.
  - unfold get_fail, call_nested. unfold bind at 1, zoom. cbn -[u64 str print_ld]. rewrite E2.
    unfold bind at 1. rewrite write_faults_spec. cbn -[u64 str print_ld]. unfold tic_line.
    by rewrite <- !app_assoc, app_nil_r.
Qed.

Lemma tics_spec n s fss n1 tr : fm_tics nested n (nested_st s) = Done fss n1 tr ->
  exists k, fm_tics (transcribe_fm nested) n s =
    Done fss (Transcribe k (tr_file s ++ tic_blocks (tr_tic_num s) fss) n1) tr.
Proof.
  revert s fss n1 tr. induction n as [|n IH]; intros s fss n1 tr; cbn [fm_tics].
  - intros [= <- <- <-]. exists (tr_tic_num s). cbn. rewrite app_nil_r. by destruct s.
  - intros ([] & m1 & t1 & t1' & E1 & E & ->)%bind_done_inv.
    apply bind_done_inv in E as (fs & m2 & t2 & t2' & E2 & E & ->).
    apply bind_done_inv in E as (rest & m3 & t3 & t3' & E3 & E & ->).
    injection E as <- <- <-.
    destruct (tic_get_fail_spec s m1 t1 fs m2 t2 E1 E2) as (s1 & F1 & F2).
    match type of F2 with _ = Done _ ?s2 _ => destruct (IH s2 rest m3 t3 E3) as (k & F3) end.
    exists k. unfold bind. cbn [transcribe_fm fm_tic fm_get_fail]. rewrite F1, F2, F3.
    cbn -[u64 tic_line]. by rewrite <- !app_assoc.
Qed.

(** The run of the plugin, tic by tic with the nested manager. *)
Lemma transcribe_run n n0 ns fss n1 tr :
  Forall components_ok ns ->
  fm_observe nested n n0 = Done (0, ns, fss) n1 tr ->
  exists k, fm_observe (transcribe_fm nested) n (Transcribe 0 [] n0) =
    Done (0, ns, fss) (Transcribe k (transcript ns fss) n1) tr.
Proof.
  intros Hns E. unfold fm_observe in *.
  apply bind_done_inv in E as ([r ns'] & m1 & t1 & t1' & E1 & E & ->).
  apply bind_done_inv in E as (fss' & m2 & t2 & t2' & E2 & E & ->).
  injection E as -> -> -> <- <-.
  pose proof (get_nodes_spec (Transcribe 0 [] n0) ns m1 t1 Hns E1) as F1.
  match type of F1 with _ = Done _ ?s1 _ => destruct (tics_spec n s1 fss m2 t2 E2) as (k & F2) end.
  exists k. unfold bind. cbn [transcribe_fm fm_get_nodes]. rewrite F1, F2.
  cbn -[tic_blocks header]. by unfold transcript.
Qed.

(** C12: the transcribe plugin is invisible. Over any nested manager the server sees exactly the nodes,
    the return code and the faults the nested manager gives, and the plugin's file then holds the
    transcript of the run; when the nested manager has no nodes its return code is passed on and
    nothing is written. *)
Theorem transcribe_transparent n n0 :
  (forall ns fss n1 tr, Forall components_ok ns -> fm_observe nested n n0 = Done (0, ns, fss) n1 tr ->
    exists k, fm_observe (transcribe_fm nested) n (Transcribe 0 [] n0) =
      Done (0, ns, fss) (Transcribe k (transcript ns fss) n1) tr) /\
  (forall rc ns n1 tr, rc <> 0 -> fm_get_nodes nested n0 = Done (rc, ns) n1 tr ->
    fm_get_nodes (transcribe_fm nested) (Transcribe 0 [] n0) = Done (rc, ns) (Transcribe 0 [] n1) tr).
Proof.
  split; [intros; by eapply transcribe_run|]. intros rc ns n1 tr Hrc E. cbn. unfold get_nodes, call_nested.
  unfold bind, zoom. cbn. rewrite E. cbn. destruct (Z.eqb_spec rc 0); [done|]. cbn. by rewrite app_nil_r.
Qed.

End Correct.

(** The contract of a fault manager carries over from the nested manager. *)
#[export] Instance transcribe_safe {N} (nested : fault_manager N) `{!FaultManagerSafe nested} :
  FaultManagerSafe (transcribe_fm nested).
Proof.
  refine {| fm_inv := fun s => fm_inv (nested_st s) |}.
  - intros s Hs. destruct (fm_tic_safe _ Hs) as (n1 & t1 & E1 & H1).
    eexists (Transcribe _ _ n1), t1. split; [|exact H1].
    cbn [transcribe_fm fm_tic]. unfold tic, call_nested, bind, zoom, get. cbn -[u64 str print_ld].
    rewrite E1. cbn. reflexivity.
  - intros s Hs. destruct (fm_get_fail_safe _ Hs) as (fs & n1 & t1 & E1 & H1).
    eexists fs, (Transcribe _ _ n1), (t1 ++ []). split; [|exact H1].
    cbn [transcribe_fm fm_get_fail]. unfold get_fail, call_nested. unfold bind at 1, zoom. rewrite E1.
    unfold bind. rewrite write_faults_spec. cbn. reflexivity.
Defined.

#[export] Instance transcribe_silent {N} (nested : fault_manager N) `{!SilentFM nested} : SilentFM (transcribe_fm nested).
Proof.
  assert (forall text, emits silent (fprint (N := N) text)) as Hf by (intros; apply emits_modify).
  assert (forall f, emits silent (write_fault (N := N) f)) as Hw by (intros; apply Hf).
  assert (forall n, emits silent (write_node (N := N) n)) as Hn.
  { intros n. apply emits_bind; [auto with lausim|intros _]. apply emits_bind; [|auto with lausim].
    apply emits_for_each. intros j. unfold write_component. destruct (_ !! j); auto with lausim. }
  assert (forall A (m : prog event N A), emits silent m -> emits silent (call_nested m)) as Hc
    by (intros A m Hm s; by apply emits_zoom).
  constructor.
  - apply emits_bind; [apply Hc, silent_get_nodes|intros r]. apply emits_if; auto 6 with lausim.
  - apply emits_bind; [auto with lausim|intros s]. apply emits_bind; [auto with lausim|intros _].
    apply emits_bind; [auto with lausim|intros _]. apply Hc, silent_tic.
  - apply emits_bind; [apply Hc, silent_get_fail|intros r]. auto with lausim.
Qed.

(** ** An example *)

Lemma transcribe_transparent_witness :
  exists k st, fm_observe (transcribe_fm scripted) 2 (Transcribe 0 [] example_script) =
    Done (0, sc_nodes example_script, [[example_fault "node0" 100]; []])
      (Transcribe k (transcript (sc_nodes example_script) [[example_fault "node0" 100]; []]) st) [].
Proof.
  destruct (proj1 (transcribe_transparent scripted 2 example_script) (sc_nodes example_script)
    [[example_fault "node0" 100]; []] (Script (sc_nodes example_script) [] [[example_fault "node1" 1; example_fault "node0" 0]]) []) as [k Hk].
  - by repeat constructor.
  - reflexivity.
  - eexists k, _. exact Hk.
Defined.
