(* ===== verification/Replay.v ===== *)
(** * The replay plugin (plugins/replay/replay.c)

    A fault manager that reads nodes and faults back from a transcript.  The globals of replay.c are
    one record; [file] is the part of the file not read yet.  Where the code tests the result of an
    allocation, [allocs] says which allocations fail (an exhausted list: all later ones succeed).
    The loops consume at least a line per round, so the length of the file bounds them. *)

From S2P Require Import Prelude CString Types.
Local Open Scope Z_scope.

(** ** The state *)

Record replay := Replay {
  tic_num : Z;
  nxt_tic : Z;
  last_id : Z;                (** [id] *)
  file : cstr;
  is_done : bool;             (** [done] *)
  nodes : list node;
  faults : list fault;        (** [num_fault] is the length *)
  allocs : list bool
}.

Definition set_tic_num v s := Replay v (nxt_tic s) (last_id s) (file s) (is_done s) (nodes s) (faults s) (allocs s).
Definition set_nxt_tic v s := Replay (tic_num s) v (last_id s) (file s) (is_done s) (nodes s) (faults s) (allocs s).
Definition set_last_id v s := Replay (tic_num s) (nxt_tic s) v (file s) (is_done s) (nodes s) (faults s) (allocs s).
Definition set_file v s := Replay (tic_num s) (nxt_tic s) (last_id s) v (is_done s) (nodes s) (faults s) (allocs s).
Definition set_done v s := Replay (tic_num s) (nxt_tic s) (last_id s) (file s) v (nodes s) (faults s) (allocs s).
Definition set_nodes v s := Replay (tic_num s) (nxt_tic s) (last_id s) (file s) (is_done s) v (faults s) (allocs s).
Definition set_faults v s := Replay (tic_num s) (nxt_tic s) (last_id s) (file s) (is_done s) (nodes s) v (allocs s).
Definition set_allocs v s := Replay (tic_num s) (nxt_tic s) (last_id s) (file s) (is_done s) (nodes s) (faults s) v.

(** Static storage: every global starts as zero. *)
Definition replay_zero : replay := Replay 0 0 0 [] false [] [] [].

Section Replay.
Local Open Scope prog_scope.

Definition warn (msg : string) : prog event replay unit := log LL_Warning (str msg).
Definition error (msg : string) : prog event replay unit := log LL_Error (str msg).

(** The result of an allocation the code checks. *)
Definition alloc : prog event replay bool :=
  s <- get ;;
  match allocs s with
  | [] => ret true
  | b :: bs => put (set_allocs bs s) ;; ret b
  end.

(** [getline(&buf, &size, file)]: the bytes read, or [None] for -1. *)
Definition read_line : prog event replay (option cstr) :=
  s <- get ;;
  match getline (file s) with
  | None => ret None
  | Some (line, rest) => put (set_file rest s) ;; ret (Some line)
  end.

Definition log_line (buf : cstr) : prog event replay unit :=
  log LL_Debug (snprintf 512 (str "[REPLAY] line: " ++ buf)).

(** ** [get_tic_num] *)

Definition tic_delim : cstr := str " #" ++ [TAB; NL].

(** The tokens after the first, until one starts with a number; [num] is the variable of that name,
    [None] while it is uninitialised. *)
Fixpoint tic_num_loop (fuel : nat) (rest : cstr) (num : option Z) : option Z :=
  match fuel with
  | O => num
  | S fuel' =>
      match strtok rest tic_delim with
      | (None, _) => num
      | (Some start, rest') =>
          let (v, end_) := strtoull start 0 in
          if bool_decide (start = end_) then tic_num_loop fuel' rest' (Some v) else Some v
      end
  end.

(** [None]: the value returned is indeterminate. *)
Definition get_tic_num (buf : cstr) : option Z :=
  let rest := (strtok buf tic_delim).2 in tic_num_loop (S (length rest)) rest None.

(** [nxt_tic = get_tic_num(buf)]: using an indeterminate value is undefined behaviour. *)
Definition assign_nxt_tic (buf : cstr) : prog event replay unit :=
  match get_tic_num buf with
  | None => stop Undefined
  | Some v => modify (set_nxt_tic v)
  end.

(** ** [get_nodes] *)

Definition node_delim : cstr := [COMMA; NL].

(** The inner loop of [get_nodes] over the component names; [None] when the line ends early. *)
Fixpoint read_components (fuel : nat) (j num : Z) (rest : cstr) (acc : list component) :
    option (list component * cstr) :=
  if j <? num then
    match fuel with
    | O => None
    | S fuel' =>
        match strtok rest node_delim with
        | (None, _) => None
        | (Some cur, rest') => read_components fuel' (j + 1) num rest' (acc ++ [Component cur 0])
        end
    end
  else Some (acc, rest).

(** One round of the outer loop of [get_nodes]: the node of line [buf]; [None] after an error that
    makes [get_nodes] return 1. *)
Definition read_node (i : Z) (buf : cstr) : prog event replay (option node) :=
  match strtok buf node_delim with
  | (None, _) => stop Undefined                      (* strlen(NULL) *)
  | (Some name, rest) =>
      ok <- alloc ;;
      if ok : bool then
        match strtok rest node_delim with
        | (None, _) => error "[REPLAY] unexpected end of line" ;; ret None
        | (Some cur, rest') =>
            let num := u32 (strtoull cur 0).1 in
            match read_components (S (length rest')) 0 num rest' [] with
            | None => error "[REPLAY] unexpected end of line" ;; ret None
            | Some (comps, rest'') =>
                match strtok rest'' node_delim with
                | (Some _, _) => warn "[REPLAY] garbage at the end of the line"
                | (None, _) => ret tt
                end ;;
                ret (Some (Node name (s32 (u64 i)) uniform_node NODE_STATE_UNKNOWN num comps))
            end
        end
      else error "[REPLAY] not enough memory to allocate node name" ;; ret None
  end.

(** The outer loop of [get_nodes]; false after an error. *)
Fixpoint read_nodes (fuel : nat) (i nodes_num : Z) : prog event replay bool :=
  if i <? nodes_num then
    match fuel with
    | O => stop OutOfFuel
    | S fuel' =>
        line <- read_line ;;
        match line with
        | None => error "[REPLAY] unable to read line" ;; ret false
        | Some buf =>
            log_line (c_str buf) ;;
            n <- read_node i (c_str buf) ;;
            match n with
            | None => ret false
            | Some n => modify (fun s => set_nodes (nodes s ++ [n]) s) ;; read_nodes fuel' (i + 1) nodes_num
            end
        end
    end
  else ret true.

(** The line after the nodes: the first tic of the transcript. *)
Definition read_first_tic : prog event replay unit :=
  line <- read_line ;;
  match line with
  | None => warn "[REPLAY] no tic information present"
  | Some buf =>
      log_line (c_str buf) ;;
      if strstr (c_str buf) (str "tic") then assign_nxt_tic (c_str buf) else ret tt
  end.

Definition get_nodes : prog event replay (Z * list node) :=
  line <- read_line ;;
  match line with
  | None => error "[REPLAY] unable to read line" ;; ret (1, [])
  | Some buf0 =>
      let buf := c_str buf0 in
      log_line buf ;;
      let (nodes_num, cur) := strtoull buf 0 in
      log LL_Debug (snprintf 512 (str "[REPLAY] nodes_num: " ++ print_u nodes_num)) ;;
      if bool_decide (cur = buf) then
        error "[REPLAY] unable to read number of nodes" ;; ret (1, [])
      else
        ok1 <- alloc ;;
        ok2 <- alloc ;;
        if negb ok1 || negb ok2 then error "[REPLAY] not enough memory" ;; ret (1, [])
        else
          s <- get ;;
          modify (set_nodes []) ;;
          ok <- read_nodes (S (length (file s))) 0 nodes_num ;;
          if ok : bool then
            read_first_tic ;;
            s <- get ;;
            ret (0, nodes s)
          else ret (1, [])
  end.

(** ** [tic] *)

(** Appends the fault of a complete line. *)
Definition add_fault (name comp : cstr) (severity : Z) : prog event replay unit :=
  s <- get ;;
  let id := u64 (last_id s + 1) in
  put (set_last_id id (set_faults
    (faults s ++ [Fault (s32 id) None (match comp with [] => None | _ => Some comp end) name (u32 severity)]) s)).

(** What one round of the loop does with a line of [len] bytes that reads as [buf]. *)
Definition tic_round_line (len : Z) (buf : cstr) : prog event replay unit :=
  log_line buf ;;
  if len =? 0 then warn "[REPLAY] unexpected empty line"
  else if strstr buf (str "tic#") then
    assign_nxt_tic buf ;;
    s <- get ;;
    if nxt_tic s <? tic_num s then warn "[REPLAY] tic numbers not strict monotone" else ret tt
  else
    match strchr buf COMMA with
    | None => warn "[REPLAY] incomplete line"
    | Some (name, comp_sev) =>
        match strchr comp_sev COMMA with
        | None => warn "[REPLAY] incomplete line"
        | Some (comp, sev_str) =>
            let (severity, tmp) := strtoull sev_str 0 in
            if bool_decide (tmp = sev_str) then warn "[REPLAY] expected severity to be a number"
            else add_fault name comp severity
        end
    end.

Definition tic_round : prog event replay unit :=
  line <- read_line ;;
  match line with
  | None => modify (set_done true)
  | Some buf => tic_round_line (Z.of_nat (length buf)) (c_str buf)
  end.

Fixpoint tic_loop (fuel : nat) : prog event replay unit :=
  s <- get ;;
  if (nxt_tic s <? tic_num s) && negb (is_done s) then
    match fuel with
    | O => stop OutOfFuel
    | S fuel' => tic_round ;; tic_loop fuel'
    end
  else ret tt.

Definition free_faults : prog event replay unit := modify (set_faults []).

Definition tic : prog event replay unit :=
  free_faults ;;
  s <- get ;;
  if is_done s then ret tt
  else
    let t := tic_num s in
    modify (set_tic_num (u64 (t + 1))) ;;
    if t <? nxt_tic s then ret tt
    else tic_loop (S (length (file s))).

Definition get_fail : prog event replay (list fault) := s <- get ;; ret (faults s).

Definition inject_fail (f : fault) : prog event replay Z :=
  error "[REPLAY] injecting faults in replay mode is not possible" ;; ret 1.

(** The [fm] struct. *)
Definition replay_fm : fault_manager replay := FaultManager 1 get_nodes tic get_fail inject_fail.

End Replay.

(** ** Termination *)

Lemma read_line_spec s :
  (file s = [] /\ read_line s = Done None s []) \/
  (exists l r, getline (file s) = Some (l, r) /\ (length r < length (file s))%nat /\
     read_line s = Done (Some l) (set_file r s) []).
Proof.
  unfold read_line, bind, get. destruct (getline (file s)) as [[l r]|] eqn:E.
  - right. exists l, r. split; [done|]. split; [|done]. by eapply getline_shorter.
  - left. split; [|done]. destruct (file s) as [|c f]; [done|].
    unfold getline in E. by destruct (span _ _) as [? [|? ?]].
Qed.

(** Neither the file nor the [done] flag is touched once the line is read. *)
Definition keeps_input {A} (m : prog event replay A) : Prop :=
  forall s, match m s with
            | Done _ s' _ => file s' = file s /\ is_done s' = is_done s
            | Halt h _ => h = Undefined
            end.

Lemma keeps_bind {A B} (m : prog event replay A) (k : A -> prog event replay B) :
  keeps_input m -> (forall a, keeps_input (k a)) -> keeps_input (bind m k).
Proof.
  intros Hm Hk s. unfold bind. specialize (Hm s). destruct (m s) as [a s1 t1|]; [|done].
  specialize (Hk a s1). destruct (k a s1); [|done]. destruct Hm, Hk. by split; etransitivity.
Qed.

Lemma keeps_ret {A} (a : A) : keeps_input (ret a).
Proof. done. Qed.

Lemma keeps_input_emit e : keeps_input (emit e).
Proof. done. Qed.

Lemma keeps_assign buf : keeps_input (assign_nxt_tic buf).
Proof. intros s. unfold assign_nxt_tic. by destruct (get_tic_num buf). Qed.

Lemma keeps_add_fault a b c : keeps_input (add_fault a b c).
Proof. done. Qed.

Lemma keeps_get : keeps_input get.
Proof. done. Qed.

#[local] Hint Resolve keeps_ret keeps_input_emit keeps_assign keeps_add_fault keeps_get keeps_bind : lausim.

Lemma keeps_round_line len buf : keeps_input (tic_round_line len buf).
Proof.
  unfold tic_round_line, log_line, warn, log.
  apply keeps_bind; [auto with lausim|]. intros _.
  repeat case_goal; auto with lausim.
  apply keeps_bind; [auto with lausim|]. intros _. apply keeps_bind; [auto with lausim|].
  intros s. case_goal; auto with lausim.
Qed.

(** A round either ends the file or shortens it. *)
Lemma tic_round_progress s : is_done s = false ->
  match tic_round s with
  | Done _ s' _ => (length (file s') < length (file s))%nat \/ is_done s' = true
  | Halt h _ => h = Undefined
  end.
Proof.
  intros Hd. unfold tic_round, bind at 1.
  destruct (read_line_spec s) as [[_ ->]|(l & r & _ & Hlt & ->)]; [by right|].
  pose proof (keeps_round_line (Z.of_nat (length l)) (c_str l) (set_file r s)) as H.
  destruct (tic_round_line _ _ _) as [[] s' tr|]; [|done]. left. destruct H as [-> _]. done.
Qed.

Lemma tic_loop_enough_fuel fuel s : (length (file s) < fuel)%nat -> forall tr, tic_loop fuel s <> Halt OutOfFuel tr.
Proof.
  revert s. induction fuel as [|fuel IH]; intros s Hf tr; [lia|].
  cbn [tic_loop]. unfold bind at 1, get. destruct (_ && _) eqn:Hc; [|done].
  apply andb_prop in Hc as [_ Hd%negb_true_iff].
  pose proof (tic_round_progress s Hd) as Hp. unfold bind.
  destruct (tic_round s) as [[] s1 t1|h t1]; [|by subst h].
  destruct Hp as [Hp|Hp].
  - specialize (IH s1 ltac:(lia)). destruct (tic_loop fuel s1) as [|h t2] eqn:E; [done|].
    intros [= ->]. by eapply IH.
  - destruct fuel; cbn [tic_loop]; unfold bind, get; rewrite Hp, andb_false_r; done.
Qed.

Lemma tic_round_halt s : match tic_round s with Done _ _ _ => True | Halt h _ => h = Undefined end.
Proof.
  unfold tic_round, bind at 1. destruct (read_line_spec s) as [[_ ->]|(l & r & _ & _ & ->)]; [done|].
  pose proof (keeps_round_line (Z.of_nat (length l)) (c_str l) (set_file r s)) as H.
  by destruct (tic_round_line _ _ _).
Qed.

Lemma tic_loop_halt fuel s :
  match tic_loop fuel s with Done _ _ _ => True | Halt h _ => h = Undefined \/ h = OutOfFuel end.
Proof.
  revert s. induction fuel as [|fuel IH]; intros s; cbn [tic_loop]; unfold bind at 1, get.
  - destruct (_ && _); [by right|done].
  - destruct (_ && _); [|done]. unfold bind. pose proof (tic_round_halt s) as Hr.
    destruct (tic_round s) as [[] s1 t1|]; [|by left]. specialize (IH s1).
    by destruct (tic_loop fuel s1).
Qed.

(** More fuel changes nothing. *)
Lemma tic_loop_mono fuel fuel' s s' tr : (fuel <= fuel')%nat ->
  tic_loop fuel s = Done tt s' tr -> tic_loop fuel' s = Done tt s' tr.
Proof.
  revert fuel' s s' tr. induction fuel as [|fuel IH]; intros fuel' s s' tr Hf; cbn [tic_loop].
  - unfold bind at 1, get. destruct (_ && _) eqn:Hc; [done|]. intros E.
    destruct fuel'; cbn [tic_loop]; unfold bind at 1, get; by rewrite Hc.
  - destruct fuel' as [|fuel']; [lia|]. cbn [tic_loop]. unfold bind at 1 3, get.
    destruct (_ && _); [|done]. unfold bind.
    destruct (tic_round s) as [[] s1 t1|]; [|done].
    destruct (tic_loop fuel s1) as [[] s2 t2|] eqn:E; [|done].
    by rewrite (IH fuel' s1 s2 t2 ltac:(lia) E).
Qed.

(** Transcripts in which every tic line has a number. *)
Inductive numbered : cstr -> Prop :=
| numbered_end text : getline text = None -> numbered text
| numbered_line text l r : getline text = Some (l, r) ->
    (strstr (c_str l) (str "tic#") = true -> is_Some (get_tic_num (c_str l))) -> numbered r -> numbered text.

Lemma round_line_halts len buf s h tr : tic_round_line len buf s = Halt h tr ->
  strstr buf (str "tic#") = true /\ get_tic_num buf = None.
Proof.
  unfold tic_round_line, log_line, warn, log, assign_nxt_tic. unfold bind at 1, emit at 1.
  destruct (len =? 0); [done|]. destruct (strstr buf (str "tic#")).
  - unfold bind, stop, modify, get. destruct (get_tic_num buf) as [v|]; [|done]. cbn. by destruct (v <? tic_num s).
  - destruct (strchr buf COMMA) as [[name cs]|]; [|done]. destruct (strchr cs COMMA) as [[comp sev]|]; [|done].
    destruct (strtoull sev 0) as [v tmp]. by destruct (bool_decide (tmp = sev)).
Qed.

Lemma numbered_round s : numbered (file s) -> exists s' tr, tic_round s = Done tt s' tr /\ numbered (file s').
Proof.
  intros Hn. unfold tic_round. unfold bind, read_line, get. unfold bind.
  inversion Hn as [? Hg|? l r Hg Hl Hr]; rewrite Hg; [by eexists _, _|]. cbn -[tic_round_line].
  pose proof (keeps_round_line (Z.of_nat (length l)) (c_str l) (set_file r s)) as Hk.
  destruct (tic_round_line _ _ _) as [[] s' tr|h tr] eqn:E.
  - exists s'. eexists. split; [reflexivity|]. destruct Hk as [-> _]. done.
  - destruct (round_line_halts _ _ _ _ _ E) as [H1 H2]. destruct (Hl H1) as [v Hv]. congruence.
Qed.

Lemma numbered_loop fuel : forall s, numbered (file s) ->
  match tic_loop fuel s with Done _ s' _ => numbered (file s') | Halt h _ => h = OutOfFuel end.
Proof.
  induction fuel as [|fuel IH]; intros s Hn; cbn [tic_loop]; unfold bind at 1, get; destruct (_ && _); try done.
  destruct (numbered_round s Hn) as (s1 & t1 & E & Hn1). unfold bind. rewrite E. specialize (IH s1 Hn1).
  by destruct (tic_loop fuel s1).
Qed.

Lemma numbered_tic s : numbered (file s) -> exists s' tr, tic s = Done tt s' tr /\ numbered (file s').
Proof.
  intros Hn. unfold tic, free_faults, bind, modify, get. cbn [is_done set_faults].
  destruct (is_done s); [by repeat eexists|]. cbn -[tic_loop u64].
  destruct (_ <? _); [by repeat eexists|]. set (s1 := set_tic_num _ _).
  pose proof (tic_loop_enough_fuel (S (length (file s))) s1 ltac:(simpl; lia)) as Hf.
  pose proof (numbered_loop (S (length (file s))) s1 Hn) as Hh.
  destruct (tic_loop _ s1) as [[] s2 t2|h t2]; [by repeat eexists|]. subst h. by destruct (Hf t2).
Qed.

(** On such a transcript the plugin keeps the contract of a fault manager. *)
#[export] Instance replay_safe : FaultManagerSafe replay_fm.
Proof.
  refine {| fm_inv := fun s => numbered (file s) |}; intros s Hs; [by apply numbered_tic|]. by repeat eexists.
Defined.

Lemma silent_log l msg : emits (S := replay) silent (log l msg).
Proof. by apply emits_emit. Qed.
Lemma silent_warn msg : emits silent (warn msg).
Proof. apply silent_log. Qed.
Lemma silent_error msg : emits silent (error msg).
Proof. apply silent_log. Qed.
Lemma silent_log_line buf : emits silent (log_line buf).
Proof. apply silent_log. Qed.
Lemma silent_add_fault name comp severity : emits silent (add_fault name comp severity).
Proof. apply emits_bind; auto with lausim. Qed.
Lemma silent_assign buf : emits silent (assign_nxt_tic buf).
Proof. unfold assign_nxt_tic. destruct (get_tic_num buf); auto with lausim. Qed.
Lemma silent_read_line : emits silent read_line.
Proof.
  apply emits_bind; [auto with lausim|intros s]. destruct (getline (file s)) as [[l r]|]; auto with lausim.
Qed.
#[local] Hint Resolve silent_log silent_warn silent_error silent_log_line silent_add_fault silent_assign silent_read_line : lausim.

Lemma silent_round : emits silent tic_round.
Proof.
  apply emits_bind; [auto with lausim|intros [buf|]; [|auto with lausim]]. unfold tic_round_line.
  apply emits_bind; [auto with lausim|intros _]. apply emits_if; [auto with lausim|].
  apply emits_if; [auto 6 with lausim|]. destruct (strchr _ COMMA) as [[name comp_sev]|]; [|auto with lausim].
  destruct (strchr comp_sev COMMA) as [[comp sev_str]|]; [|auto with lausim].
  destruct (strtoull sev_str 0). auto 6 with lausim.
Qed.

Lemma silent_read_nodes fuel : forall i n, emits silent (read_nodes fuel i n).
Proof.
  induction fuel as [|fuel IH]; intros i n; cbn [read_nodes]; (apply emits_if; [|auto with lausim]); [auto with lausim|].
  apply emits_bind; [auto with lausim|intros [buf|]; [|auto with lausim]].
  apply emits_bind; [auto with lausim|intros _]. apply emits_bind; [|intros []; auto with lausim].
  unfold read_node. destruct (strtok (c_str buf) node_delim) as [[name|] rest]; [|auto with lausim].
  apply emits_bind.
  { apply emits_bind; [auto with lausim|intros s]. destruct (allocs s); auto with lausim. }
  intros []; [|auto with lausim]. destruct (strtok rest node_delim) as [[cur|] rest']; [|auto with lausim].
  destruct (read_components _ _ _ _ _) as [[comps rest'']|]; [|auto with lausim].
  apply emits_bind; [destruct (strtok rest'' node_delim) as [[]]|]; auto with lausim.
Qed.

Lemma silent_first_tic : emits silent read_first_tic.
Proof.
  apply emits_bind; [auto with lausim|intros [buf|]; auto with lausim].
Qed.

#[export] Instance replay_silent : SilentFM replay_fm.
Proof.
  assert (emits silent alloc) as Ha.
  { apply emits_bind; [auto with lausim|intros s]. destruct (allocs s); auto with lausim. }
  constructor.
  - cbn. unfold get_nodes. apply emits_bind; [auto with lausim|intros [buf|]; [|auto with lausim]].
    apply emits_bind; [auto with lausim|intros _]. destruct (strtoull (c_str buf) 0) as [num cur].
    apply emits_bind; [auto with lausim|intros _]. apply emits_if; [auto with lausim|].
    apply emits_bind; [done|intros ok1]. apply emits_bind; [done|intros ok2]. apply emits_if; [auto with lausim|].
    apply emits_bind; [auto with lausim|intros s]. apply emits_bind; [auto with lausim|intros _].
    apply emits_bind; [apply silent_read_nodes|intros []; [|auto with lausim]].
    apply emits_bind; [apply silent_first_tic|auto with lausim].
  - cbn. assert (forall fuel, emits silent (tic_loop fuel)) as Hl.
    { induction fuel as [|fuel IH]; (apply emits_bind; [auto with lausim|intros s]; apply emits_if; [|auto with lausim]);
        [auto with lausim|]. apply emits_bind; [apply silent_round|done]. }
    unfold tic, free_faults. auto 10 with lausim.
  - apply emits_bind; auto with lausim.
Qed.

(** C20: whatever the transcript contains, [tic] finishes its loop within one round per line and a final
    one for the end of the file; the only way it does not return is the use of an uninitialised tic
    number, and on a transcript whose tic lines all have numbers it always returns. *)
Theorem replay_tic_terminates s :
  ((exists s' tr, tic s = Done tt s' tr) \/ (exists tr, tic s = Halt Undefined tr)) /\
  (numbered (file s) -> exists s' tr, tic s = Done tt s' tr /\ numbered (file s')).
Proof.
  split; [|apply numbered_tic]. unfold tic, free_faults, bind, modify, get. cbn [is_done set_faults].
  destruct (is_done s); [by left; repeat eexists|]. cbn -[tic_loop u64].
  destruct (_ <? _); [by left; repeat eexists|].
  set (s1 := set_tic_num _ _).
  pose proof (tic_loop_enough_fuel (S (length (file s))) s1 ltac:(simpl; lia)) as Hf.
  pose proof (tic_loop_halt (S (length (file s))) s1) as Hh.
  destruct (tic_loop _ s1) as [[] s2 t2|h t2]; [by left; repeat eexists|].
  right. destruct Hh as [-> | ->]; [by eexists|]. by destruct (Hf t2).
Qed.

Lemma replay_tic_terminates_witness :
  exists s' tr, tic (set_file (str "node0,net,5" ++ [NL] ++ str "[tic#3]" ++ [NL]) replay_zero) = Done tt s' tr /\ numbered (file s').
Proof.
  apply (proj2 (replay_tic_terminates (set_file (str "node0,net,5" ++ [NL] ++ str "[tic#3]" ++ [NL]) replay_zero))).
  eapply numbered_line; [reflexivity|by vm_compute|]. eapply numbered_line; [reflexivity|by eexists|]. by apply numbered_end.
Defined.
