(* ===== verification/RecordReplay.v ===== *)
(** * Recording a run and replaying it (transcribe.c against replay.c)

    The file written by the transcribe plugin, given to the replay plugin, reproduces the recorded
    run tic by tic.  What is lost is stated by [replay_node] and [replay_faults]: fault names, node
    types and component severities are not in the file, fault ids are numbered afresh, and an empty
    component name comes back as no component. *)

From S2P Require Import Prelude CString Types Transcribe Replay.
Local Open Scope Z_scope.

(** ** What the file format can carry *)

(** A name that may stand in a field of a line. *)
Definition name_ok (s : cstr) : bool := forallb (fun c => negb (bool_decide (c ∈ [COMMA; NL; NUL]))) s.

(** A field of a fault line, which moreover must not look like a tic line. *)
Definition field_ok (s : cstr) : bool :=
  forallb (fun c => negb (bool_decide (c ∈ [COMMA; NL; NUL; "#"%char]))) s.

(** Node and component names are separated by [strtok], so they must not be empty. *)
Definition node_ok (n : node) : Prop :=
  n_name n <> [] /\ name_ok (n_name n) = true /\
  Forall (fun c => c_name c <> [] /\ name_ok (c_name c) = true) (n_components n) /\
  components_ok n /\ is_u32 (n_num_components n).

Definition fault_ok (f : fault) : Prop :=
  field_ok (f_node f) = true /\ field_ok (default [] (f_component f)) = true /\ is_u32 (f_severity f).

(** ** What comes back *)

Definition replay_node (i : nat) (n : node) : node :=
  Node (n_name n) (s32 (u64 (Z.of_nat i))) uniform_node NODE_STATE_UNKNOWN (n_num_components n)
    (map (fun c => Component (c_name c) 0) (n_components n)).

Definition replay_fault (id : Z) (f : fault) : fault :=
  Fault (s32 id) None (match f_component f with Some [] => None | c => c end) (f_node f) (f_severity f).

(** The faults of one tic when the last id given out is [id]. *)
Fixpoint replay_faults (id : Z) (fs : list fault) : list fault :=
  match fs with
  | [] => []
  | f :: fs' => replay_fault (u64 (id + 1)) f :: replay_faults (u64 (id + 1)) fs'
  end.

Fixpoint next_id (id : Z) (fs : list fault) : Z :=
  match fs with [] => id | _ :: fs' => next_id (u64 (id + 1)) fs' end.

Fixpoint replay_tics (id : Z) (fss : list (list fault)) : list (list fault) :=
  match fss with
  | [] => []
  | fs :: rest => replay_faults id fs :: replay_tics (next_id id fs) rest
  end.

(** The replay plugin after [init] opened a transcript with the given text. *)
Definition replay_of (text : cstr) : replay := Replay.set_file text replay_zero.

(** ** Lines *)

Lemma name_ok_not s c : name_ok s = true -> c ∈ s -> c ∉ [COMMA; NL; NUL].
Proof.
  intros Hs Hc. apply list_elem_of_In in Hc. unfold name_ok in Hs. rewrite forallb_forall in Hs.
  specialize (Hs c Hc). by apply negb_true_iff, bool_decide_eq_false in Hs.
Qed.

Lemma field_ok_not s c : field_ok s = true -> c ∈ s -> c ∉ [COMMA; NL; NUL; "#"%char].
Proof.
  intros Hs Hc. apply list_elem_of_In in Hc. unfold field_ok in Hs. rewrite forallb_forall in Hs.
  specialize (Hs c Hc). by apply negb_true_iff, bool_decide_eq_false in Hs.
Qed.

(** *** Fault lines *)

Definition fault_body (f : fault) : cstr :=
  f_node f ++ COMMA :: default [] (f_component f) ++ COMMA :: print_d (f_severity f).

Lemma fault_line_body f : fault_line f = fault_body f ++ [NL].
Proof. unfold fault_line, fault_body. by rewrite <- !app_assoc, <- !app_comm_cons, <- !app_assoc. Qed.

Lemma fault_body_chars f c : fault_ok f -> c ∈ fault_body f -> c ∉ [NL; NUL; "#"%char].
Proof.
  intros (Hn & Hc & _) H. unfold fault_body in H.
  rewrite !elem_of_app, !elem_of_cons, !elem_of_app, !elem_of_cons in H.
  destruct H as [H|[->|[H|[->|H]]]].
  - excluded (field_ok_not _ _ Hn H).
  - elem_dec.
  - excluded (field_ok_not _ _ Hc H).
  - elem_dec.
  - excluded (number_char_not _ (print_signed_chars _ _ H)).
Qed.

Lemma fault_line_getline f r : fault_ok f -> getline (fault_line f ++ r) = Some (fault_line f, r).
Proof.
  intros Hf. rewrite fault_line_body, <- app_assoc. apply getline_app.
  intros H. excluded (fault_body_chars f _ Hf H).
Qed.

(** A character of the line that is not a character of its body is the newline. *)
Lemma fault_line_not f c : fault_ok f -> c ∈ [NUL; "#"%char] -> c ∉ fault_line f.
Proof.
  intros Hf Hc. rewrite fault_line_body, elem_of_app, list_elem_of_singleton.
  intros [H| ->]; [|assert (NL ∉ [NUL; "#"%char]) by elem_dec; done].
  apply (fault_body_chars f c Hf H). by constructor.
Qed.

Lemma fault_line_c_str f : fault_ok f -> c_str (fault_line f) = fault_line f.
Proof. intros Hf. apply c_str_id, fault_line_not; [done|elem_dec]. Qed.

Lemma fault_line_not_tic f : fault_ok f -> strstr (fault_line f) (str "tic#") = false.
Proof. intros Hf. apply (contains_false "#"%char); [elem_dec|]. apply fault_line_not; [done|elem_dec]. Qed.

Definition after_fault (f : fault) (r : cstr) (s : replay) : replay :=
  set_last_id (u64 (last_id s + 1))
    (set_faults (faults s ++ [replay_fault (u64 (last_id s + 1)) f]) (set_file r s)).

(** A fault line read by the loop of [tic] adds exactly its fault. *)
Lemma tic_round_fault f r s : fault_ok f -> file s = fault_line f ++ r ->
  exists tr, tic_round s = Done tt (after_fault f r s) tr.
Proof.
  intros Hf Hs. pose proof Hf as (Hn & Hc & Hsev).
  unfold tic_round, read_line. unfold bind at 1 2, get at 1. rewrite Hs, fault_line_getline by done.
  unfold bind at 1, put. unfold ret at 1. unfold tic_round_line, log_line, log.
  unfold bind at 1, emit. rewrite fault_line_c_str, fault_line_not_tic by done.
  assert (length (fault_line f) <> 0%nat) as Hlen.
  { rewrite fault_line_body, length_app. simpl. lia. }
  destruct (Z.eqb_spec (Z.of_nat (length (fault_line f))) 0) as [E|_]; [lia|].
  unfold fault_line at 1. rewrite strchr_app by (intros H; excluded (field_ok_not _ _ Hn H)).
  rewrite strchr_app by (intros H; excluded (field_ok_not _ _ Hc H)).
  destruct (strtoull_print_d (f_severity f) [NL] Hsev) as [Hv He]; [done|].
  destruct (strtoull _ 0) as [v e]. cbn [fst snd] in Hv, He. subst e.
  rewrite bool_decide_false.
  - eexists. unfold add_fault, bind, get, put. unfold after_fault, replay_fault. rewrite Hv.
    destruct (f_component f) as [[|]|]; reflexivity.
  - intros E. apply (print_signed_ne (s32 (f_severity f))).
    by apply (app_inv_tail [NL] (print_d (f_severity f)) []).
Qed.

(** *** Tic lines *)

Definition small_tic (k : Z) : Prop := 0 <= k < 2 ^ 63.

Lemma print_ld_small k : small_tic k -> print_ld k = print_u k.
Proof.
  intros Hk. unfold print_ld, print_signed, s64. unfold small_tic in Hk. rewrite Z.mod_small by lia.
  replace (k + 2 ^ 63 - 2 ^ 63) with k by lia. destruct (Z.ltb_spec k 0); [lia|done].
Qed.

Lemma tic_line_chars k c : small_tic k -> c ∈ str "[tic#" ++ print_u k ++ str "]" -> c ∉ [NL; NUL].
Proof.
  intros [Hk _] H. rewrite !elem_of_app in H. destruct H as [H|[H|H]].
  - cbn in H. by repeat (apply elem_of_cons in H as [->|H]; [elem_dec|]); apply not_elem_of_nil in H.
  - excluded (number_char_not c (or_introl (print_u_chars k c Hk H))).
  - apply list_elem_of_singleton in H as ->. elem_dec.
Qed.

Lemma tic_line_split k : small_tic k -> tic_line k = (str "[tic#" ++ print_u k ++ str "]") ++ [NL].
Proof. intros Hk. unfold tic_line. by rewrite print_ld_small, <- !app_assoc. Qed.

Lemma tic_line_getline k r : small_tic k -> getline (tic_line k ++ r) = Some (tic_line k, r).
Proof.
  intros Hk. rewrite tic_line_split, <- (app_assoc _ [NL]) by done. apply getline_app.
  intros H. excluded (tic_line_chars k _ Hk H).
Qed.

Lemma tic_line_c_str k : small_tic k -> c_str (tic_line k) = tic_line k.
Proof.
  intros Hk. rewrite tic_line_split by done. apply c_str_id. rewrite (elem_of_app _ [NL]).
  intros [H|H%list_elem_of_singleton]; [|done]. excluded (tic_line_chars k _ Hk H).
Qed.

Lemma tic_line_strstr k sub : (sub = str "tic#" \/ sub = str "tic") -> strstr (tic_line k) sub = true.
Proof.
  intros Hsub. apply contains_spec. unfold tic_line.
  destruct Hsub as [-> | ->]; [exists (str "["), (print_ld k ++ str "]" ++ [NL])|
    exists (str "["), (str "#" ++ print_ld k ++ str "]" ++ [NL])]; done.
Qed.

(** The number of a tic line is found by [get_tic_num]. *)
Lemma get_tic_num_line k : small_tic k -> get_tic_num (tic_line k) = Some k.
Proof.
  intros Hk. unfold get_tic_num.
  assert (strtok (tic_line k) tic_delim = (Some (str "[tic"), print_u k ++ str "]" ++ [NL])) as ->.
  { unfold tic_line. rewrite print_ld_small by done.
    apply (strtok_token _ (str "[tic") (str "#" ++ print_u k ++ str "]" ++ [NL])); [done| |].
    - intros c Hc. cbn in Hc.
      by repeat (apply elem_of_cons in Hc as [->|Hc]; [elem_dec|]); apply not_elem_of_nil in Hc.
    - elem_dec. }
  cbn [snd tic_num_loop]. rewrite app_assoc, (strtok_token _ (print_u k ++ str "]")); [| | |elem_dec].
  - rewrite strtoull_print_u; [|unfold small_tic, is_u64 in *; lia|done].
    rewrite bool_decide_false; [done|]. intros E.
    destruct (print_u_head k []) as (d & l & E' & _); [unfold small_tic in *; lia|].
    rewrite app_nil_r in E'. rewrite E' in E. apply (f_equal length) in E.
    simpl in E. rewrite length_app in E. simpl in E. lia.
  - by destruct (print_u k).
  - intros c. rewrite elem_of_app. intros [H|H%list_elem_of_singleton]; [|subst c; elem_dec].
    destruct Hk as [Hk _]. excluded (number_char_not c (or_introl (print_u_chars k c Hk H))).
Qed.

(** A tic line read by the loop of [tic], for a tic not before the current one. *)
Lemma tic_round_tic k r s : small_tic k -> file s = tic_line k ++ r -> tic_num s <= k ->
  exists tr, tic_round s = Done tt (set_nxt_tic k (set_file r s)) tr.
Proof.
  intros Hk Hs Hle.
  unfold tic_round, read_line. unfold bind at 1 2, get at 1. rewrite Hs, tic_line_getline by done.
  unfold bind at 1, put. unfold ret at 1. unfold tic_round_line, log_line, log.
  unfold bind at 1, emit. rewrite tic_line_c_str, tic_line_strstr by auto.
  assert (length (tic_line k) <> 0%nat) as Hlen by (unfold tic_line; simpl; lia).
  destruct (Z.eqb_spec (Z.of_nat (length (tic_line k))) 0) as [E|_]; [lia|].
  unfold assign_nxt_tic. rewrite get_tic_num_line by done.
  unfold bind, modify, get. cbn [nxt_tic set_nxt_tic tic_num set_file].
  destruct (Z.ltb_spec k (tic_num s)); [lia|]. by eexists.
Qed.

(** *** The tics *)

Definition after_faults (fs : list fault) (r : cstr) (s : replay) : replay :=
  Replay (tic_num s) (nxt_tic s) (next_id (last_id s) fs) r (is_done s) (nodes s)
    (faults s ++ replay_faults (last_id s) fs) (allocs s).

Lemma loop_faults fs r s fuel s' tr : Forall fault_ok fs ->
  file s = concat (map fault_line fs) ++ r -> is_done s = false -> nxt_tic s < tic_num s ->
  tic_loop fuel (after_faults fs r s) = Done tt s' tr ->
  exists tr', tic_loop (length fs + fuel) s = Done tt s' tr'.
Proof.
  intros Hfs. revert s tr. induction Hfs as [|f fs Hf _ IH]; intros s tr Hs Hd Ht E.
  - unfold after_faults in E. cbn in *. rewrite app_nil_r in E. subst r. destruct s. cbn in *.
    by exists tr.
  - cbn [map concat length plus] in *. rewrite <- app_assoc in Hs.
    destruct (tic_round_fault f _ s Hf Hs) as [t1 E1].
    destruct (IH (after_fault f (concat (map fault_line fs) ++ r) s) tr) as [t2 E2]; [done|done|done| |].
    { rewrite <- E. f_equal. unfold after_faults, after_fault. cbn. by rewrite <- app_assoc. }
    exists (t1 ++ t2). cbn [tic_loop]. unfold bind at 1, get. rewrite Hd.
    destruct (Z.ltb_spec (nxt_tic s) (tic_num s)); [|lia]. cbn [negb andb].
    unfold bind. by rewrite E1, E2.
Qed.

(** Between two tics: the next tic of the server is number [k] and its lines come next. *)
Definition at_tic (k id : Z) (text : cstr) (s : replay) : Prop :=
  tic_num s = k /\ nxt_tic s = k /\ is_done s = false /\ last_id s = id /\ file s = text.

(** What is left of the transcript once the line of tic [k] has been read. *)
Definition remaining (k : Z) (fss : list (list fault)) : cstr :=
  match fss with
  | [] => []
  | fs :: rest => concat (map fault_line fs) ++ tic_blocks (u64 (k + 1)) rest
  end.

Lemma tic_blocks_remaining k fss : fss <> [] -> tic_blocks k fss = tic_line k ++ remaining k fss.
Proof. by destruct fss. Qed.

(** The loop once the fault lines are consumed: it ends at the next tic line, or at the end. *)
Lemma loop_end k id fs rest s : small_tic k -> small_tic (k + 1) ->
  tic_num s = k + 1 -> nxt_tic s = k -> is_done s = false -> last_id s = id ->
  file s = tic_blocks (u64 (k + 1)) rest -> faults s = fs ->
  exists s' tr, tic_loop 1 s = Done tt s' tr /\ faults s' = fs /\
    match rest with [] => is_done s' = true | _ => at_tic (k + 1) id (remaining (k + 1) rest) s' end.
Proof.
  intros Hk Hk1 Ht Hn Hd Hid Hfile Hfs. unfold small_tic in Hk1.
  rewrite u64_id in Hfile by (unfold is_u64; lia).
  cbn [tic_loop]. unfold bind at 1, get. rewrite Hd, Ht, Hn.
  destruct (Z.ltb_spec k (k + 1)); [|lia]. cbn [negb andb]. destruct rest as [|fs' rest].
  - unfold tic_round, read_line, bind, get. rewrite Hfile. cbn. rewrite andb_false_r. by repeat eexists.
  - rewrite tic_blocks_remaining in Hfile by done.
    destruct (tic_round_tic (k + 1) _ s Hk1 Hfile ltac:(lia)) as [t1 E1].
    unfold bind. rewrite E1. cbn [nxt_tic set_nxt_tic tic_num set_file]. rewrite Ht, Z.ltb_irrefl. cbn [andb].
    by repeat eexists.
Qed.

Lemma replay_tic_spec k id fs rest s : small_tic k -> small_tic (k + 1) -> Forall fault_ok fs ->
  at_tic k id (remaining k (fs :: rest)) s ->
  exists s' tr, Replay.tic s = Done tt s' tr /\ faults s' = replay_faults id fs /\
    match rest with
    | [] => is_done s' = true
    | _ => at_tic (k + 1) (next_id id fs) (remaining (k + 1) rest) s'
    end.
Proof.
  intros Hk Hk1 Hfs (Ht & Hn & Hd & Hid & Hfile). unfold Replay.tic, free_faults.
  unfold bind at 1 2, modify, get. cbn [is_done set_faults]. rewrite Hd.
  unfold bind at 1. cbn [tic_num set_faults nxt_tic]. rewrite Ht, Hn, Z.ltb_irrefl.
  set (s1 := set_tic_num _ _).
  assert (u64 (k + 1) = k + 1) as Hu by (apply u64_id; unfold small_tic, is_u64 in *; lia).
  destruct (loop_end k (next_id id fs) (replay_faults id fs) rest
    (after_faults fs (tic_blocks (u64 (k + 1)) rest) s1)) as (s' & t & E & Hf & Hr);
    [done|done|done|done|done|by cbn; rewrite Hid|done|by cbn; rewrite Hid|].
  destruct (loop_faults fs (tic_blocks (u64 (k + 1)) rest) s1 1 s' t) as [t' E'];
    [done|done|done|cbn; lia|done|].
  exists s', ([] ++ [] ++ [] ++ t'). split; [|done].
  rewrite (tic_loop_mono (length fs + 1) _ s1 s' t'); [done| |done].
  cbn. rewrite Hfile. cbn [remaining]. rewrite length_app.
  assert (length fs <= length (concat (map fault_line fs)))%nat; [|lia].
  clear. induction fs as [|f fs IH]; [done|]. cbn [map concat length]. rewrite length_app.
  rewrite fault_line_body, length_app. simpl. lia.
Qed.

(** After the end of the file every tic is without faults. *)
Lemma tic_done s : is_done s = true -> exists s' tr, Replay.tic s = Done tt s' tr /\ faults s' = [] /\ is_done s' = true.
Proof.
  intros Hd. unfold Replay.tic, free_faults, bind, modify, get. cbn. rewrite Hd. by repeat eexists.
Qed.

Lemma tics_step {St} (fm : fault_manager St) n s s1 t1 fs s2 t2 fss s3 t3 :
  fm_tic fm s = Done tt s1 t1 -> fm_get_fail fm s1 = Done fs s2 t2 -> fm_tics fm n s2 = Done fss s3 t3 ->
  fm_tics fm (S n) s = Done (fs :: fss) s3 (t1 ++ t2 ++ t3 ++ []).
Proof. intros E1 E2 E3. cbn [fm_tics]. unfold bind. by rewrite E1, E2, E3. Qed.

Lemma tics_done m s : is_done s = true ->
  exists s' tr, fm_tics replay_fm m s = Done (replicate m []) s' tr.
Proof.
  revert s. induction m as [|m IH]; intros s Hd; [by exists s, []|].
  destruct (tic_done s Hd) as (s1 & t1 & E1 & Hf & Hd1).
  destruct (IH s1 Hd1) as (s2 & t2 & E2).
  pose proof (tics_step replay_fm m s s1 t1 (faults s1) s1 [] _ s2 t2 E1 eq_refl E2) as E.
  rewrite Hf in E. by eexists s2, _.
Qed.

Lemma tics_replay fss m k id s : fss <> [] -> small_tic k -> small_tic (k + Z.of_nat (length fss)) ->
  Forall (Forall fault_ok) fss -> at_tic k id (remaining k fss) s ->
  exists s' tr, fm_tics replay_fm (length fss + m) s = Done (replay_tics id fss ++ replicate m []) s' tr.
Proof.
  revert k id s. induction fss as [|fs rest IH]; intros k id s Hne Hk Hlen Hok Hat; [done|].
  inversion Hok as [|? ? Hfs Hrest]; subst. cbn [length] in Hlen. unfold small_tic in *.
  destruct (replay_tic_spec k id fs rest s) as (s1 & t1 & E1 & Hf & Hn); try (unfold small_tic; lia); try done.
  cbn [length plus replay_tics]. rewrite <- Hf. destruct rest as [|fs' rest].
  - destruct (tics_done m s1 Hn) as (s2 & t2 & E2). eexists s2, _.
    by apply (tics_step replay_fm m s s1 t1 (faults s1) s1 []).
  - destruct (IH (k + 1) (next_id id fs) s1) as (s2 & t2 & E2); [done|lia|cbn [length] in *; lia|done|done|].
    eexists s2, _. by apply (tics_step replay_fm _ s s1 t1 (faults s1) s1 []).
Qed.

(** *** The nodes *)

Definition components_text (cs : list component) : cstr := concat (map (fun c => COMMA :: c_name c) cs) ++ [NL].

Lemma components_text_head cs : match components_text cs with [] => True | c :: _ => c ∈ node_delim end.
Proof. destruct cs; elem_dec. Qed.

(** A well-formed name is a token of the node line. *)
Lemma name_token name cs : name <> [] -> name_ok name = true ->
  strtok (name ++ components_text cs) node_delim = (Some name, drop 1 (components_text cs)).
Proof.
  intros Hne Hok. apply strtok_token; [done| |apply components_text_head].
  intros c Hc. excluded (name_ok_not _ _ Hok Hc).
Qed.

Lemma read_components_spec cs fuel j acc :
  Forall (fun c => c_name c <> [] /\ name_ok (c_name c) = true) cs -> (length cs <= fuel)%nat ->
  read_components fuel j (j + Z.of_nat (length cs)) (drop 1 (components_text cs)) acc =
  Some (acc ++ map (fun c => Component (c_name c) 0) cs, []).
Proof.
  intros Hcs. revert fuel j acc. induction Hcs as [|c cs [Hne Hok] _ IH]; intros fuel j acc Hf.
  - rewrite app_nil_r. cbn [length].
    destruct fuel; cbn [read_components]; destruct (Z.ltb_spec j (j + Z.of_nat 0)); by first [lia | done].
  - destruct fuel as [|fuel]; [simpl in Hf; lia|]. cbn [read_components length map].
    destruct (Z.ltb_spec j (j + Z.of_nat (S (length cs)))); [|lia].
    replace (drop 1 (components_text (c :: cs))) with (c_name c ++ components_text cs).
    + rewrite name_token by done.
      replace (j + Z.of_nat (S (length cs))) with (j + 1 + Z.of_nat (length cs)) by lia.
      rewrite IH by (simpl in Hf; lia). by rewrite <- app_assoc.
    + unfold components_text. cbn. by rewrite <- app_assoc.
Qed.

Lemma node_line_text n : node_line n = n_name n ++ COMMA :: print_u (n_num_components n) ++ components_text (n_components n).
Proof. done. Qed.

Lemma components_length cs : (length cs <= length (drop 1 (components_text cs)))%nat.
Proof.
  unfold components_text. rewrite length_drop, length_app. simpl. rewrite Nat.add_sub.
  induction cs as [|c cs IH]; simpl; [lia|]. rewrite length_app. lia.
Qed.

(** Reading one node line gives the node, without any message. *)
Lemma read_node_spec i n s : node_ok n -> allocs s = [] ->
  read_node (Z.of_nat i) (node_line n) s = Done (Some (replay_node i n)) s [].
Proof.
  intros (Hne & Hok & Hcs & Hlen & Hnum) Ha. rewrite node_line_text. unfold read_node.
  rewrite strtok_token; [|done|intros c Hc; excluded (name_ok_not _ _ Hok Hc)|elem_dec].
  rewrite skipn_cons, drop_0. unfold bind at 1, alloc. unfold bind at 1, get. rewrite Ha. cbn [ret].
  rewrite strtok_token; [| | |apply components_text_head].
  - pose proof (strtoull_print_u (n_num_components n) []) as Hv. rewrite app_nil_r in Hv.
    rewrite Hv by (done || (unfold is_u32, is_u64 in *; lia)). cbn [fst].
    rewrite u32_id by done.
    pose proof (read_components_spec (n_components n) (S (length (drop 1 (components_text (n_components n))))) 0 [] Hcs) as Hr.
    rewrite Z.add_0_l, <- Hlen in Hr. rewrite Hr by (pose proof (components_length (n_components n)); lia).
    rewrite strtok_nil. by unfold bind, ret.
  - destruct (print_u_head (n_num_components n) []) as (d & l & E & _); [apply Hnum|].
    rewrite app_nil_r in E. by rewrite E.
  - intros c Hc. destruct Hnum as [Hnum _].
    excluded (number_char_not c (or_introl (print_u_chars _ c Hnum Hc))).
Qed.

Lemma node_body_chars n c : node_ok n ->
  c ∈ n_name n ++ COMMA :: print_u (n_num_components n) ++ concat (map (fun c => COMMA :: c_name c) (n_components n)) ->
  c ∉ [NL; NUL].
Proof.
  intros (_ & Hok & Hcs & _ & [Hnum _]) H. rewrite !elem_of_app, elem_of_cons, elem_of_app in H.
  destruct H as [H|[->|[H|H]]].
  - excluded (name_ok_not _ _ Hok H).
  - elem_dec.
  - excluded (number_char_not c (or_introl (print_u_chars _ c Hnum H))).
  - revert H. induction Hcs as [|x cs [_ Hx] _ IH]; simpl; [by intros ?%not_elem_of_nil|].
    rewrite elem_of_cons, elem_of_app. intros [->|[H|H]]; [elem_dec|excluded (name_ok_not _ _ Hx H)|by apply IH].
Qed.

Lemma node_line_getline n r : node_ok n ->
  getline (node_line n ++ r) = Some (node_line n, r) /\ c_str (node_line n) = node_line n.
Proof.
  intros Hn. pose proof (node_body_chars n) as Hb.
  assert (node_line n = (n_name n ++ COMMA :: print_u (n_num_components n) ++
    concat (map (fun c => COMMA :: c_name c) (n_components n))) ++ [NL]) as ->.
  { unfold node_line. by rewrite <- !app_assoc, <- !app_comm_cons, <- !app_assoc. }
  split.
  - rewrite <- (app_assoc _ [NL]). apply getline_app. intros H. excluded (Hb _ Hn H).
  - apply c_str_id. rewrite (elem_of_app _ [NL]). intros [H|H%list_elem_of_singleton]; [|done].
    excluded (Hb _ Hn H).
Qed.

Lemma read_nodes_spec ns i fuel r s : Forall node_ok ns -> allocs s = [] ->
  file s = concat (map node_line ns) ++ r -> (length ns <= fuel)%nat ->
  exists tr, read_nodes fuel (Z.of_nat i) (Z.of_nat i + Z.of_nat (length ns)) s =
    Done true (Replay.set_nodes (nodes s ++ imap (fun j => replay_node (i + j)) ns) (set_file r s)) tr.
Proof.
  intros Hns. revert i fuel s. induction Hns as [|n ns Hn _ IH]; intros i fuel s Ha Hfile Hf.
  - exists []. cbn in Hfile. cbn [imap length]. rewrite app_nil_r. subst r.
    destruct fuel; cbn [read_nodes]; destruct (Z.ltb_spec (Z.of_nat i) (Z.of_nat i + Z.of_nat 0)); try lia; by destruct s.
  - destruct fuel as [|fuel]; [simpl in Hf; lia|]. cbn [read_nodes length map concat] in *.
    destruct (Z.ltb_spec (Z.of_nat i) (Z.of_nat i + Z.of_nat (S (length ns)))); [|lia].
    rewrite <- app_assoc in Hfile. destruct (node_line_getline n (concat (map node_line ns) ++ r) Hn) as [Hg Hc].
    set (s1 := set_file (concat (map node_line ns) ++ r) s).
    destruct (IH (S i) fuel (Replay.set_nodes (nodes s1 ++ [replay_node i n]) s1)) as [t E]; [done|done|lia|].
    eexists. unfold read_line. unfold bind at 1 2, get. rewrite Hfile, Hg.
    unfold bind at 1, put, ret at 1. unfold log_line, log. unfold bind at 1, emit. rewrite Hc.
    unfold bind at 1. rewrite read_node_spec by done. unfold bind at 1, modify.
    replace (Z.of_nat i + Z.of_nat (S (length ns))) with (Z.of_nat (S i) + Z.of_nat (length ns)) by lia.
    replace (Z.of_nat i + 1) with (Z.of_nat (S i)) by lia. fold s1. rewrite E. f_equal.
    unfold Replay.set_nodes, set_file. cbn. rewrite <- app_assoc, Nat.add_0_r.
    do 3 f_equal. apply imap_ext. intros j x _. cbn. by rewrite Nat.add_succ_r.
Qed.

Lemma header_getline ns r : getline (header ns ++ r) =
    Some (print_u (Z.of_nat (length ns)) ++ [NL], concat (map node_line ns) ++ r) /\
  c_str (print_u (Z.of_nat (length ns)) ++ [NL]) = print_u (Z.of_nat (length ns)) ++ [NL].
Proof.
  assert (forall c, c ∈ print_u (Z.of_nat (length ns)) -> number_char c) as Hc.
  { intros c Hc. left. eapply print_u_chars; [|exact Hc]. lia. }
  split.
  - unfold header. rewrite <- !app_assoc. apply getline_app. intros H. excluded (number_char_not _ (Hc _ H)).
  - apply c_str_id. rewrite (elem_of_app _ [NL]). intros [H|H%list_elem_of_singleton]; [|done].
    excluded (number_char_not _ (Hc _ H)).
Qed.

Lemma nodes_fuel ns r : (length ns <= length (concat (map node_line ns) ++ r))%nat.
Proof.
  rewrite length_app. induction ns as [|n ns IH]; simpl; [lia|].
  rewrite length_app. unfold node_line at 1. rewrite length_app. simpl. lia.
Qed.

Lemma alloc_ok s : allocs s = [] -> alloc s = Done true s [].
Proof. intros Ha. unfold alloc, bind, get. by rewrite Ha. Qed.

Lemma read_line_done s l r : getline (file s) = Some (l, r) -> read_line s = Done (Some l) (set_file r s) [].
Proof. intros E. unfold read_line, bind, get. by rewrite E. Qed.

Lemma print_u_app_ne n : 0 <= n -> [NL] <> print_u n ++ [NL].
Proof.
  intros Hn E. destruct (print_u_head n []) as (d & l & E' & _); [done|].
  rewrite app_nil_r in E'. rewrite E' in E. destruct l; simpl in E; congruence.
Qed.

(** The line after the nodes sets the number of the first tic, which is 0 already. *)
Lemma read_first_tic_spec fss s : file s = tic_blocks 0 fss ->
  exists tr, read_first_tic s =
    Done tt (match fss with [] => s | _ => set_nxt_tic 0 (set_file (remaining 0 fss) s) end) tr.
Proof.
  intros Hfile. unfold read_first_tic. destruct fss as [|fs rest].
  - eexists. eapply bind_done; [unfold read_line, bind, get; by rewrite Hfile|reflexivity].
  - rewrite tic_blocks_remaining in Hfile by done.
    assert (small_tic 0) as H0 by (unfold small_tic; lia). eexists.
    eapply bind_done; [apply read_line_done; rewrite Hfile; by apply tic_line_getline|].
    cbv beta iota. rewrite tic_line_c_str by done.
    eapply bind_done; [reflexivity|]. rewrite tic_line_strstr by auto.
    unfold assign_nxt_tic. rewrite get_tic_num_line by done. reflexivity.
Qed.

(** [get_nodes] of the replay plugin on the header written by the transcribe plugin. *)
Lemma get_nodes_replay ns fss : Forall node_ok ns -> is_u64 (Z.of_nat (length ns)) ->
  exists s' tr, Replay.get_nodes (replay_of (transcript ns fss)) = Done (0, imap replay_node ns) s' tr /\
    at_tic 0 0 (remaining 0 fss) s'.
Proof.
  intros Hns Hlen. destruct (header_getline ns (tic_blocks 0 fss)) as [Hg Hc].
  set (s1 := Replay.set_nodes [] (set_file (concat (map node_line ns) ++ tic_blocks 0 fss) (replay_of (transcript ns fss)))).
  destruct (read_nodes_spec ns 0 (S (length (file s1))) (tic_blocks 0 fss) s1 Hns) as [t E];
    [done|done|cbn; pose proof (nodes_fuel ns (tic_blocks 0 fss)); lia|].
  match type of E with _ = Done _ ?s2 _ => destruct (read_first_tic_spec fss s2 eq_refl) as [t' E'] end.
  eexists _, _. split.
  - unfold Replay.get_nodes. eapply bind_done; [by apply read_line_done|]. cbv beta iota.
    rewrite Hc. eapply bind_done; [reflexivity|]. rewrite strtoull_print_u by done.
    eapply bind_done; [reflexivity|]. rewrite bool_decide_false by (apply print_u_app_ne; lia).
    eapply bind_done; [by apply alloc_ok|]. eapply bind_done; [by apply alloc_ok|]. cbn [negb orb].
    eapply bind_done; [reflexivity|]. eapply bind_done; [reflexivity|].
    eapply bind_done; [exact E|]. cbv beta iota.
    eapply bind_done; [exact E'|]. eapply bind_done; [reflexivity|]. cbv beta. unfold ret.
    replace (nodes _) with (imap replay_node ns); [reflexivity|by destruct fss].
  - by destruct fss.
Qed.

Lemma replay_run ns fss m :
  Forall node_ok ns -> is_u64 (Z.of_nat (length ns)) ->
  Forall (Forall fault_ok) fss -> small_tic (Z.of_nat (length fss)) ->
  exists s' tr, fm_observe replay_fm (length fss + m) (replay_of (transcript ns fss)) =
    Done (0, imap replay_node ns, replay_tics 0 fss ++ replicate m []) s' tr.
Proof.
  intros Hns Hlen Hok Hn. destruct (get_nodes_replay ns fss Hns Hlen) as (s1 & t1 & E1 & Hat).
  assert (exists s2 t2, fm_tics replay_fm (length fss + m) s1 =
    Done (replay_tics 0 fss ++ replicate m []) s2 t2) as (s2 & t2 & E2).
  { destruct fss as [|fs fss].
    - destruct m as [|m]; [by exists s1, []|].
      (* a transcript without tics reads like one whose only tic is empty *)
      apply (tics_replay [[]] m 0 0 s1); try done. by constructor.
    - by apply (tics_replay _ m 0). }
  exists s2. eexists. unfold fm_observe. eapply bind_done; [exact E1|].
  eapply bind_done; [exact E2|]. reflexivity.
Qed.

(** C11: the whole path. Whatever fault manager is wrapped by the transcribe plugin, recording is
    invisible to the server, and replaying the file the plugin wrote during [length fss] tics gives the
    server the same nodes (up to the data the file does not carry) and, tic by tic, the same faults;
    every tic after the end of the recording is without faults. *)
Theorem record_then_replay {N} (nested : fault_manager N) n0 ns fss n1 tr0 m :
  fm_observe nested (length fss) n0 = Done (0, ns, fss) n1 tr0 ->
  Forall node_ok ns -> is_u64 (Z.of_nat (length ns)) ->
  Forall (Forall fault_ok) fss -> small_tic (Z.of_nat (length fss)) ->
  exists rec tr, fm_observe (transcribe_fm nested) (length fss) (Transcribe 0 [] n0) = Done (0, ns, fss) rec tr0 /\
    exists s', fm_observe replay_fm (length fss + m) (replay_of (tr_file rec)) =
      Done (0, imap replay_node ns, replay_tics 0 fss ++ replicate m []) s' tr.
Proof.
  intros E Hns Hlen Hok Hn.
  destruct (transcribe_run nested (length fss) n0 ns fss n1 tr0) as [k Hk]; [|done|].
  - eapply Forall_impl; [exact Hns|]. by intros n (_ & _ & _ & ? & _).
  - destruct (replay_run ns fss m Hns Hlen Hok Hn) as (s' & tr & Hr).
    exists (Transcribe k (transcript ns fss) n1), tr. split; [done|]. by exists s'.
Qed.

Lemma record_then_replay_witness :
  exists rec tr s', fm_observe (transcribe_fm scripted) 3 (Transcribe 0 [] example_script) =
      Done (0, sc_nodes example_script, sc_later example_script) rec [] /\
    fm_observe replay_fm 4 (replay_of (tr_file rec)) =
      Done (0, imap replay_node (sc_nodes example_script), replay_tics 0 (sc_later example_script) ++ [[]]) s' tr.
Proof.
  destruct (record_then_replay scripted example_script (sc_nodes example_script) (sc_later example_script)
    (Script (sc_nodes example_script) [example_fault "node1" 1; example_fault "node0" 0] []) [] 1)
    as (rec & tr & E1 & s' & E2).
  - reflexivity.
  - repeat constructor; by vm_compute.
  - by vm_compute.
  - repeat constructor; by vm_compute.
  - by vm_compute.
  - by exists rec, tr, s'.
Defined.
