(* ===== verification/Loggers.v ===== *)
(** * The two loggers (srv/stdoutLog.cpp, plugins/filelogger/filelogger.c)

    Each logger is a minimal level and a stream.  The file logger's stream is the text of its file;
    the stream of the standard logger is what it writes to [std::cerr]. *)

From S2P Require Import Prelude CString Types.
Local Open Scope Z_scope.

(** ** srv/stdoutLog.cpp *)

Definition log_level_from_int (level : Z) : log_level :=
  if level =? 0 then LL_None
  else if level =? 1 then LL_Debug
  else if level =? 2 then LL_Info
  else if level =? 3 then LL_Warning
  else if level =? 4 then LL_Error
  else if level =? 5 then LL_Fatal
  else LL_Warning.

Module Stdout.

(** [ll_min]. *)
Record state := State { ll_min : log_level }.
Definition initial : state := State LL_None.

Definition prefix (l : log_level) : cstr :=
  match l with
  | LL_None => str "[NONE] "
  | LL_Debug => str "[DEBUG]"
  | LL_Info => str "[INFO] "
  | LL_Warning => str "[WARN] "
  | LL_Error => str "[ERROR]"
  | LL_Fatal => str "[FATAL]"
  end.

Definition log_stdout (l : log_level) (msg : cstr) : prog event state unit := fun s =>
  if ll_num l <? ll_num (ll_min s) then ret tt s
  else emit (EStderr (prefix l ++ str " " ++ msg ++ [NL])) s.

Definition set_min_log_level (l : log_level) : prog event state unit := put (State l).

Definition standard_log : logger state := Logger 2 set_min_log_level log_stdout.

End Stdout.

(** ** plugins/filelogger/filelogger.c *)

Module Filelogger.

(** [lvl] and [log_file]. *)
Record state := State { lvl : log_level; log_file : file_ptr }.
Definition initial : state := State LL_None FileNull.

Definition prefix (level : log_level) : cstr :=
  match level with
  | LL_None => str "[NONE] "
  | LL_Debug => str "[DEBUG]"
  | LL_Info => str "[INFO] "
  | LL_Warning => str "[WARN] "
  | LL_Error => str "[ERROR]"
  | LL_Fatal => str "[FATAL]"
  end.

Definition set_log_level (level : log_level) : prog event state unit :=
  modify (fun s => State level (log_file s)).

Definition logging_fun (level : log_level) (msg : cstr) : prog event state unit := fun s =>
  if ll_num (lvl s) <=? ll_num level then
    match log_file s with
    | FileOpen text => Done tt (State (lvl s) (FileOpen (text ++ prefix level ++ str " " ++ msg ++ [NL]))) []
    | _ => Halt Undefined []
    end
  else Done tt s [].

Definition file_log : logger state := Logger 0 set_log_level logging_fun.

End Filelogger.

(** ** What a logger is for *)

(** The lines a logger at level [min] owes for a sequence of messages. *)
Definition logged (min : log_level) (msgs : list (log_level * cstr)) : cstr :=
  concat (map (fun m => Stdout.prefix m.1 ++ str " " ++ m.2 ++ [NL])
    (filter (fun m => ll_num min <= ll_num m.1) msgs)).

(** The text an event puts on the standard error stream. *)
Definition stderr_text (tr : list event) : cstr :=
  concat (map (fun e => match e with EStderr t => t | _ => [] end) tr).

Definition log_all {St} (lg : logger St) (msgs : list (log_level * cstr)) : prog event St unit :=
  for_each msgs (fun m => lg_log_fun lg m.1 m.2).

Lemma logged_cons min m msgs : logged min (m :: msgs) =
  (if ll_num min <=? ll_num m.1 then Stdout.prefix m.1 ++ str " " ++ m.2 ++ [NL] else []) ++ logged min msgs.
Proof.
  unfold logged. rewrite filter_cons. case_decide; destruct (Z.leb_spec (ll_num min) (ll_num m.1)); done || lia.
Qed.

Lemma stdout_log min l m :
  lg_log_fun Stdout.standard_log l m (Stdout.State min) = Done tt (Stdout.State min)
    (if ll_num min <=? ll_num l then [EStderr (Stdout.prefix l ++ str " " ++ m ++ [NL])] else []).
Proof.
  cbn [Stdout.standard_log lg_log_fun]. unfold Stdout.log_stdout. cbn [Stdout.ll_min].
  by destruct (Z.ltb_spec (ll_num l) (ll_num min)), (Z.leb_spec (ll_num min) (ll_num l)); try lia.
Qed.

Lemma file_log min text l m :
  lg_log_fun Filelogger.file_log l m (Filelogger.State min (FileOpen text)) = Done tt (Filelogger.State min
    (FileOpen (text ++ if ll_num min <=? ll_num l then Stdout.prefix l ++ str " " ++ m ++ [NL] else []))) [].
Proof.
  cbn [Filelogger.file_log lg_log_fun]. unfold Filelogger.logging_fun.
  cbn [Filelogger.lvl Filelogger.log_file]. destruct (ll_num min <=? ll_num l).
  - by destruct l.
  - by rewrite app_nil_r.
Qed.

Lemma stdout_run min msgs :
  exists tr, log_all Stdout.standard_log msgs (Stdout.State min) = Done tt (Stdout.State min) tr /\
    stderr_text tr = logged min msgs.
Proof.
  induction msgs as [|m msgs (tr & E & Ht)]; [by exists []|]. unfold log_all in *. cbn [for_each].
  rewrite logged_cons. unfold bind. rewrite stdout_log, E. eexists. split; [done|].
  unfold stderr_text in *. rewrite map_app, concat_app, Ht. destruct (_ <=? _); [|done].
  cbn [map concat]. by rewrite app_nil_r.
Qed.

Lemma file_run min text msgs :
  log_all Filelogger.file_log msgs (Filelogger.State min (FileOpen text)) =
  Done tt (Filelogger.State min (FileOpen (text ++ logged min msgs))) [].
Proof.
  revert text. induction msgs as [|m msgs IH]; intros text; [cbn; by rewrite app_nil_r|].
  unfold log_all in *. cbn [for_each]. rewrite logged_cons. unfold bind. rewrite file_log, IH.
  by rewrite <- app_assoc.
Qed.

(** C31: the two loggers are interchangeable: set to the same level and given the same messages, the
    file logger appends to its file exactly the bytes the standard logger writes to the standard
    error stream, namely one line per message of at least that level, in order.  That it is the error stream is what
    srv/stdoutLog.cpp says ([std::cerr]); srv/README.md has it log to the standard output. *)
Theorem loggers_agree min text msgs s0 f0 :
  exists tr,
    bind (lg_set_ll Stdout.standard_log min) (fun _ => log_all Stdout.standard_log msgs) s0 =
      Done tt (Stdout.State min) tr /\
    bind (lg_set_ll Filelogger.file_log min) (fun _ => log_all Filelogger.file_log msgs)
      (Filelogger.State f0 (FileOpen text)) =
      Done tt (Filelogger.State min (FileOpen (text ++ stderr_text tr))) [] /\
    stderr_text tr = logged min msgs.
Proof.
  destruct (stdout_run min msgs) as (tr & E & Ht). exists tr. repeat split; [|rewrite Ht|done].
  - unfold bind. cbn -[log_all]. by rewrite E.
  - unfold bind. cbn -[log_all logged]. by rewrite file_run.
Qed.

(** The numeric option is turned into the level of that number, and into warning when there is
    none: [log_level_from_int] inverts the numbering of the levels. *)
Theorem log_level_from_int_spec level :
  (forall l, ll_num l = level -> log_level_from_int level = l) /\
  ((forall l, ll_num l <> level) -> log_level_from_int level = LL_Warning).
Proof.
  split; unfold log_level_from_int.
  - by intros [] <-.
  - intros H. pose proof (H LL_None). pose proof (H LL_Debug). pose proof (H LL_Info).
    pose proof (H LL_Warning). pose proof (H LL_Error). pose proof (H LL_Fatal).
    cbn in *. bool_cases; congruence.
Qed.

Lemma log_level_from_int_spec_witness :
  log_level_from_int 4 = LL_Error /\ log_level_from_int 9 = LL_Warning.
Proof.
  split.
  - exact (proj1 (log_level_from_int_spec 4) LL_Error eq_refl).
  - apply (proj2 (log_level_from_int_spec 9)). by intros [].
Defined.
