(* ===== verification/Options.v ===== *)
(** * Command line options (srv/options.cpp)

    [getopt] is a library function: [args] is the list of the options it returns, in order, each
    with [optarg]; an option it does not know comes as the question mark. *)

From S2P Require Import Prelude CString Types Loggers.
Local Open Scope Z_scope.

Record options := Options {
  cfile : cstr;
  loglevel : log_level;
  sync : bool;
  max_tics : Z
}.

(** [Options::Options] *)
Definition new_options : options := Options [] LL_Warning false 0.

Local Open Scope prog_scope.

(** The loop of [parse]; the result is the return code. *)
Fixpoint parse (args : list (ascii * cstr)) : prog event options Z :=
  match args with
  | [] => ret 0
  | (opt, optarg) :: args' =>
      if bool_decide (opt = "c"%char) then
        modify (fun o => Options optarg (loglevel o) (sync o) (max_tics o)) ;; parse args'
      else if bool_decide (opt = "l"%char) then
        modify (fun o => Options (cfile o) (log_level_from_int (u32 (strtoull optarg 0).1)) (sync o) (max_tics o)) ;;
        parse args'
      else if bool_decide (opt = "s"%char) then
        modify (fun o => Options (cfile o) (loglevel o) true (max_tics o)) ;; parse args'
      else if bool_decide (opt = "n"%char) then
        modify (fun o => Options (cfile o) (loglevel o) (sync o) (u32 (strtoull optarg 0).1)) ;; parse args'
      else
        emit (EStderr (str "unrecognized option '" ++ [opt] ++ str "'" ++ [NL])) ;; ret (-1)
  end.

(** ** The options as a user means them *)

Inductive request :=
| RConfig (file : cstr)
| RLevel (n : Z)
| RSync
| RTics (n : Z).

Definition to_arg (r : request) : ascii * cstr :=
  match r with
  | RConfig f => ("c"%char, f)
  | RLevel n => ("l"%char, print_u n)
  | RSync => ("s"%char, [])
  | RTics n => ("n"%char, print_u n)
  end.

Definition apply_request (r : request) (o : options) : options :=
  match r with
  | RConfig f => Options f (loglevel o) (sync o) (max_tics o)
  | RLevel n => Options (cfile o) (log_level_from_int (u32 n)) (sync o) (max_tics o)
  | RSync => Options (cfile o) (loglevel o) true (max_tics o)
  | RTics n => Options (cfile o) (loglevel o) (sync o) (u32 n)
  end.

Definition request_ok (r : request) : Prop :=
  match r with RLevel n | RTics n => is_u64 n | _ => True end.

Lemma strtoull_print n : is_u64 n -> strtoull (print_u n) 0 = (n, []).
Proof. intros H. pose proof (strtoull_print_u n [] H) as E. rewrite app_nil_r in E. by apply E. Qed.

Lemma parse_request r args o : request_ok r -> parse (to_arg r :: args) o = parse args (apply_request r o).
Proof.
  intros Hr. assert (forall m : prog event options Z, forall o1,
    match m o1 with Done b s2 t2 => Done b s2 ([] ++ t2) | Halt h t2 => Halt h ([] ++ t2) end = m o1) as E
    by (intros m o1; by destruct (m o1)).
  destruct r as [f|n| |n]; cbn [to_arg parse apply_request request_ok] in *;
    rewrite ?strtoull_print by exact Hr; apply (E (parse args)).
Qed.

(** C32: the options are taken from left to right, so the last of a kind wins, whatever numbers they
    carry; the tic limit is cut to 32 bits (a limit of 2^32 is none at all), and a logging level beyond
    the known ones means warnings.  An unknown option ends the parsing with -1, and the options after
    it are not looked at. *)
Theorem parse_requests rs more o : Forall request_ok rs ->
  let o' := foldl (fun o r => apply_request r o) o rs in
  parse (map to_arg rs) o = Done 0 o' [] /\
  parse (map to_arg rs ++ ("?"%char, []) :: more) o =
    Done (-1) o' [EStderr (str "unrecognized option '?'" ++ [NL])].
Proof.
  cbn zeta. intros H. revert o. induction H as [|r rs Hr _ IH]; intros o; [done|].
  cbn [foldl map app]. rewrite !parse_request by done. apply IH.
Qed.

Lemma parse_requests_witness :
  parse [("c"%char, str "run.cfg"); ("n"%char, str "5"); ("l"%char, str "4"); ("n"%char, str "4294967297")] new_options =
  Done 0 (Options (str "run.cfg") LL_Error false 1) [].
Proof.
  exact (proj1 (parse_requests [RConfig (str "run.cfg"); RTics 5; RLevel 4; RTics 4294967297] []
    new_options ltac:(repeat constructor; done))).
Defined.
