(* ===== verification/PluginManager.v ===== *)
(** * The plugin manager and the library loader (srv/plugin_internal.cpp, srv/library.cpp)

    The manager keeps a [std::map] from plugin addresses to the roles the plugins are used in; here it
    is an association list sorted by address, so iteration order is the map's.  The plugin structs
    behind the addresses are static data of the loaded libraries: [mem].  The dynamic loader and the
    functions it finds are parameters. *)

From Stdlib Require Import Sorting.Sorted.
From S2P Require Import Prelude CString Types.
Local Open Scope Z_scope.

(** ** [std::map<plugin *, plugin_type_t>] *)

Definition role_map : Type := list (plugin_ptr * Z).

Fixpoint map_find (k : plugin_ptr) (m : role_map) : option Z :=
  match m with
  | [] => None
  | (k', v) :: m' => if k =? k' then Some v else map_find k m'
  end.

(** [emplace]: nothing happens when the key is there already. *)
Fixpoint map_emplace (k : plugin_ptr) (v : Z) (m : role_map) : role_map :=
  match m with
  | [] => [(k, v)]
  | (k', v') :: m' =>
      if k =? k' then m
      else if k <? k' then (k, v) :: m
      else (k', v') :: map_emplace k v m'
  end.

(** [at(k) = f(at(k))]; [None] is the exception [std::out_of_range]. *)
Fixpoint map_at (k : plugin_ptr) (f : Z -> Z) (m : role_map) : option role_map :=
  match m with
  | [] => None
  | (k', v) :: m' =>
      if k =? k' then Some ((k', f v) :: m')
      else match map_at k f m' with Some m'' => Some ((k', v) :: m'') | None => None end
  end.

Fixpoint map_find_if (test : plugin_ptr * Z -> bool) (m : role_map) : option plugin_ptr :=
  match m with
  | [] => None
  | e :: m' => if test e then Some e.1 else map_find_if test m'
  end.

(** ** State *)

(** srv/library.h; [l_handle] and [l_argv] are unset in a fresh object. *)
Record library := Library {
  l_is_init : bool;
  l_name : cstr;
  l_handle : option Z;
  l_argv : list cstr
}.

Definition new_library : library := Library false [] None [].

Record plugin_manager := Manager {
  logger_used : logger_ref;
  plugins : role_map;
  libraries : list library
}.

(** The manager and the state of the plugins, which call each other. *)
Record host (W : Type) := Host { h_pm : plugin_manager; h_world : W }.
Arguments Host {W}.
Arguments h_pm {W}.
Arguments h_world {W}.

(** [plugin_manager::plugin_manager] *)
Definition new_manager : plugin_manager := Manager standard_logger [] [].

Section Manager.
Context {W : Type}.
#[local] Abbreviation H := (host W).
Context (mem : plugin_ptr -> plugin W H).
(* the dynamic loader: dlmopen, dlerror, dlsym, and the functions at the addresses it gives *)
Context (dlmopen : cstr -> option Z) (dlerror : cstr) (dlsym : Z -> cstr -> option Z)
        (init_at : Z -> list cstr -> prog event H Z).
Local Open Scope prog_scope.

Definition set_plugins (m : role_map) (h : H) : H :=
  Host (Manager (logger_used (h_pm h)) m (libraries (h_pm h))) (h_world h).

Definition set_libraries (ls : list library) (h : H) : H :=
  Host (Manager (logger_used (h_pm h)) (plugins (h_pm h)) ls) (h_world h).

(** *** srv/library.cpp *)

Definition library_open (l : library) (filename : cstr) : Z * library :=
  if l_is_init l then (-1, l)
  else match dlmopen filename with
       | None => (-2, Library false (l_name l) None (l_argv l))
       | Some h => (0, Library true filename (Some h) (l_argv l))
       end.

Definition get_sym_addr (l : library) (symname : cstr) : option Z :=
  if l_is_init l then match l_handle l with Some h => dlsym h symname | None => None end else None.

(** *** Lookup *)

Definition find_by_name (name : cstr) (m : role_map) : option plugin_ptr :=
  map_find_if (fun info => strcmp_eq name (pl_name (mem info.1))) m.

Definition get_by_name (name : cstr) : prog event H (option plugin_ptr) :=
  h <- get ;; ret (find_by_name name (plugins (h_pm h))).

Definition find_by_type (type : Z) (m : role_map) : option plugin_ptr :=
  map_find_if (fun info => Z.land info.2 type =? type) m.

Definition get_by_type (type : Z) : prog event H (option plugin_ptr) :=
  h <- get ;; ret (find_by_type type (plugins (h_pm h))).

(** *** Registration and roles *)

Definition register_plugin (p : plugin_ptr) : prog event H Z :=
  log LL_Debug (str "trying to register new plugin " ++ pl_name (mem p)) ;;
  h <- get ;;
  let m := plugins (h_pm h) in
  match find_by_name (pl_name (mem p)) m, map_find p m with
  | None, None => put (set_plugins (map_emplace p PL_NONE m) h) ;; ret 0
  | _, _ => ret (-1)
  end.

(** The common shape of [set_role] and [add_role]. *)
Definition update_role (pl : option plugin_ptr) (new_role : Z) (f : Z -> Z) : prog event H Z :=
  match pl with
  | None => ret (-1)
  | Some p =>
      if negb (Z.land (pl_type (mem p)) new_role =? new_role) then ret (-1)
      else
        h <- get ;;
        match map_at p f (plugins (h_pm h)) with
        | None => stop (Uncaught "std::out_of_range")
        | Some m => put (set_plugins m h) ;; ret 0
        end
  end.

Definition set_role (pl : option plugin_ptr) (new_role : Z) : prog event H Z :=
  update_role pl new_role (fun _ => new_role).

Definition add_role (pl : option plugin_ptr) (new_role : Z) : prog event H Z :=
  update_role pl new_role (fun r => Z.lor r new_role).

Definition all_plugins : prog event H (list (Z * plugin_ptr)) :=
  h <- get ;; ret (map (fun e => (e.2, e.1)) (plugins (h_pm h))).

(** The struct handed to the [init] functions. *)
Definition get_logger : prog event H logger_ref := h <- get ;; ret (logger_used (h_pm h)).

Definition interface : plugin_manager_interface H :=
  Interface PL_INTF_VERSION register_plugin get_by_name get_by_type get_logger all_plugins set_role add_role.

(** *** Loading and unloading *)

Definition load_library (file : cstr) (argv : list cstr) : prog event H Z :=
  let (rc, nlib) := library_open new_library file in
  if negb (rc =? 0) then
    emit (EStdout (str "[FATAL] unable to load " ++ file ++ str ": " ++ dlerror ++ [NL])) ;; ret (-1)
  else
    match get_sym_addr nlib (str "init") with
    | None =>
        emit (EStdout (str "[FATAL] unable to get symbol init in " ++ file ++ [NL])) ;; ret (-2)
    | Some init =>
        r <- init_at init argv ;;
        if negb (r =? 0) then
          emit (EStdout (str "[FATAL] initialization of " ++ file ++ str " failed" ++ [NL])) ;; ret (-3)
        else
          modify (fun h => set_libraries (libraries (h_pm h) ++
            [Library (l_is_init nlib) (l_name nlib) (l_handle nlib) argv]) h) ;;
          ret 0
    end.

(** The cleanup functions of all plugins in address order, then the libraries. *)
Definition cleanup : prog event H unit :=
  h <- get ;;
  for_each (plugins (h_pm h)) (fun e =>
    match pl_cleanup (mem e.1) with
    | None => ret tt
    | Some f => f ;; ret tt
    end) ;;
  modify (set_libraries []).

End Manager.

(** ** The map operations *)

Definition keys (m : role_map) : list plugin_ptr := map fst m.
Definition sorted_keys (m : role_map) : Prop := StronglySorted Z.lt (keys m).

Lemma map_find_elem k v m : sorted_keys m -> map_find k m = Some v <-> (k, v) ∈ m.
Proof.
  unfold sorted_keys, keys. induction m as [|[k' v'] m IH]; cbn; intros Hs.
  - split; [done|]. by intros ?%not_elem_of_nil.
  - inversion Hs as [|? ? Hs' Hall]; subst. destruct (Z.eqb_spec k k') as [->|Hne].
    + split; [intros [= ->]; by left|]. intros [[= ->]|Hin]%elem_of_cons; [done|].
      rewrite Forall_forall in Hall. specialize (Hall k'). lapply Hall; [lia|].
      apply list_elem_of_fmap. by exists (k', v).
    + rewrite (IH Hs'), elem_of_cons. split; [by right|]. intros [[= <- <-]|?]; done.
Qed.

Lemma sorted_nodup m : sorted_keys m -> NoDup (keys m).
Proof.
  unfold sorted_keys. induction 1 as [|k ks _ IH Hlt]; constructor; [|done]. intros Hin.
  rewrite Forall_forall in Hlt. specialize (Hlt k Hin). lia.
Qed.

Lemma map_find_none k m : map_find k m = None <-> k ∉ keys m.
Proof.
  induction m as [|[k' v'] m IH]; cbn; [split; [by intros _ ?%not_elem_of_nil|done]|].
  destruct (Z.eqb_spec k k'); rewrite not_elem_of_cons; [split; [done|]; naive_solver|]. naive_solver.
Qed.

Lemma map_find_keys k v m : map_find k m = Some v -> k ∈ keys m.
Proof. intros Hf. destruct (decide (k ∈ keys m)) as [|Hn]; [done|]. apply map_find_none in Hn. by rewrite Hn in Hf. Qed.

Lemma keys_emplace k v m p : p ∈ keys (map_emplace k v m) <-> p = k \/ p ∈ keys m.
Proof.
  induction m as [|[k' v'] m IH]; cbn; [by rewrite elem_of_cons|].
  destruct (Z.eqb_spec k k') as [->|]; [cbn; rewrite elem_of_cons; naive_solver|].
  destruct (k <? k'); cbn; [by rewrite elem_of_cons|]. fold keys in *.
  change (p ∈ k' :: keys (map_emplace k v m) <-> p = k \/ p ∈ k' :: keys m).
  rewrite !elem_of_cons, IH. naive_solver.
Qed.

Lemma sorted_emplace k v m : sorted_keys m -> sorted_keys (map_emplace k v m).
Proof.
  unfold sorted_keys. induction m as [|[k' v'] m IH]; cbn; intros Hs; [by repeat constructor|].
  inversion Hs as [|? ? Hs' Hall]; subst. destruct (Z.eqb_spec k k') as [->|]; [done|].
  destruct (Z.ltb_spec k k').
  - constructor; [done|]. constructor; [done|]. eapply Forall_impl; [exact Hall|]. cbn. lia.
  - constructor; [by apply IH|]. apply Forall_forall. intros p Hp.
    apply (keys_emplace k v m p) in Hp as [->|Hp]; [cbn; lia|]. rewrite Forall_forall in Hall. by apply Hall.
Qed.

Lemma elem_emplace k v m p r : map_find k m = None ->
  (p, r) ∈ map_emplace k v m <-> (p = k /\ r = v) \/ (p, r) ∈ m.
Proof.
  induction m as [|[k' v'] m IH]; cbn; [rewrite elem_of_cons; naive_solver|].
  destruct (k =? k'); [done|]. destruct (k <? k'); intros Hk; rewrite !elem_of_cons; [naive_solver|].
  rewrite IH by done. naive_solver.
Qed.

Lemma map_at_spec k f m : match map_at k f m with
  | None => k ∉ keys m
  | Some m' => k ∈ keys m /\ keys m' = keys m /\
      (forall p r, (p, r) ∈ m' -> (p, r) ∈ m \/ (p = k /\ exists r0, (k, r0) ∈ m /\ r = f r0)) /\
      (sorted_keys m -> forall r, map_find k m = Some r -> map_find k m' = Some (f r)) /\
      (forall p, p <> k -> map_find p m' = map_find p m)
  end.
Proof.
  induction m as [|[k' v] m IH]; cbn; [by intros ?%not_elem_of_nil|].
  destruct (Z.eqb_spec k k') as [->|Hne].
  - split; [by left|]. split; [done|]. split; [|split].
    + intros p r. rewrite elem_of_cons. intros [[= -> ->]|Hin]; [right; split; [done|]; exists v; split; [by left|done]|left; by right].
    + intros _ r [= ->]. cbn. by rewrite Z.eqb_refl.
    + intros p Hp. cbn. by destruct (Z.eqb_spec p k').
  - destruct (map_at k f m) as [m'|]; cbn.
    + destruct IH as (Hk & Hkeys & Hin & Hf & Ho). split; [by right|]. split; [unfold keys in *; cbn; congruence|]. split; [|split].
      * intros p r. rewrite elem_of_cons. intros [[= -> ->]|H]; [left; by left|].
        destruct (Hin _ _ H) as [?|(-> & r0 & ? & ->)]; [left; by right|]. right. split; [done|]. exists r0. split; [by right|done].
      * intros Hs r Hr. inversion Hs; subst. destruct (Z.eqb_spec k k'); [done|]. by apply Hf.
      * intros p Hp. rewrite Ho by done. done.
    + rewrite not_elem_of_cons. done.
Qed.

Lemma map_find_if_some test m p : map_find_if test m = Some p -> exists r, (p, r) ∈ m /\ test (p, r) = true.
Proof.
  induction m as [|[k v] m IH]; cbn; [done|]. destruct (test (k, v)) eqn:Ht.
  - intros [= <-]. exists v. split; [by left|done].
  - intros (r & Hr & ?)%IH. exists r. split; [by right|done].
Qed.

Lemma map_find_if_none test m : map_find_if test m = None <-> forall e, e ∈ m -> test e = false.
Proof.
  induction m as [|e m IH]; cbn; [split; [by intros _ ? ?%not_elem_of_nil|done]|].
  destruct (test e) eqn:Ht; [split; [done|]; intros Ha; rewrite Ha in Ht; [done|by left]|].
  rewrite IH. setoid_rewrite elem_of_cons. naive_solver.
Qed.

(** The entry found is the first one in address order. *)
Lemma map_find_if_first test m p : sorted_keys m -> map_find_if test m = Some p ->
  forall q r, (q, r) ∈ m -> test (q, r) = true -> p <= q.
Proof.
  unfold sorted_keys. induction m as [|[k v] m IH]; cbn; [done|]. intros Hs.
  inversion Hs as [|? ? Hs' Hall]; subst. rewrite Forall_forall in Hall.
  destruct (test (k, v)) eqn:Ht.
  - intros [= <-] q r [[= <- <-]|Hq]%elem_of_cons _; [lia|].
    assert (q ∈ keys m) as Hk by (apply list_elem_of_fmap; by exists (q, r)). specialize (Hall q Hk). lia.
  - intros Hp q r [[= -> ->]|Hq]%elem_of_cons Hqt; [congruence|]. by eapply IH.
Qed.

(** ** The invariant of the manager *)

Section Invariant.
Context {W : Type} (mem : plugin_ptr -> plugin W (host W)).

Record manager_ok (m : role_map) : Prop := {
  mo_sorted : sorted_keys m;
  mo_names : forall p q, p ∈ keys m -> q ∈ keys m -> pl_name (mem p) = pl_name (mem q) -> p = q;
  mo_roles : forall p r, (p, r) ∈ m -> Z.land (pl_type (mem p)) r = r
}.

Lemma manager_ok_new : manager_ok [].
Proof. split; [constructor| |]; intros ? ? H; by apply not_elem_of_nil in H. Qed.

Lemma elem_keys p r m : (p, r) ∈ m -> p ∈ keys m.
Proof. intros H. apply list_elem_of_fmap. by exists (p, r). Qed.

Lemma keys_elem p m : p ∈ keys m -> exists r, (p, r) ∈ m.
Proof. intros ([? r] & -> & H)%list_elem_of_fmap. by exists r. Qed.

Lemma find_by_name_some name m p : find_by_name mem name m = Some p -> p ∈ keys m /\ pl_name (mem p) = name.
Proof.
  intros (r & Hin & Ht%bool_decide_eq_true)%map_find_if_some. cbn in Ht. split; [by eapply elem_keys|done].
Qed.

Lemma find_by_name_none name m : find_by_name mem name m = None <-> forall p, p ∈ keys m -> pl_name (mem p) <> name.
Proof.
  unfold find_by_name. rewrite map_find_if_none. split.
  - intros Hf p (r & Hr)%keys_elem. specialize (Hf _ Hr). apply bool_decide_eq_false in Hf. cbn in Hf. congruence.
  - intros Hf [p r] Hr%elem_keys. apply bool_decide_eq_false. cbn. intros ->. by apply (Hf p).
Qed.

Lemma manager_ok_register p m : manager_ok m -> find_by_name mem (pl_name (mem p)) m = None ->
  map_find p m = None -> manager_ok (map_emplace p PL_NONE m).
Proof.
  intros [Hs Hn Hr] Hname Hp. rewrite find_by_name_none in Hname. split.
  - by apply sorted_emplace.
  - intros a b Ha Hb E. apply keys_emplace in Ha, Hb.
    destruct Ha as [->|Ha], Hb as [->|Hb]; [done| | |by apply Hn]; exfalso; by eapply Hname.
  - intros a r [[-> ->]|Ha]%elem_emplace; [apply Z.land_0_r|by apply Hr|done].
Qed.

Lemma manager_ok_update p f m m' : manager_ok m -> map_at p f m = Some m' ->
  (forall r, Z.land (pl_type (mem p)) r = r -> Z.land (pl_type (mem p)) (f r) = f r) -> manager_ok m'.
Proof.
  intros [Hs Hn Hr] E Hf. pose proof (map_at_spec p f m) as H. rewrite E in H.
  destruct H as (_ & Hk & Hin & _). split.
  - unfold sorted_keys. by rewrite Hk.
  - rewrite Hk. done.
  - intros q r Hq. destruct (Hin _ _ Hq) as [?|(-> & r0 & Hr0 & ->)]; [by apply Hr|]. by apply Hf, Hr.
Qed.

(** The calls a plugin or the server can make that change the map. *)
Inductive manager_op :=
| OpRegister (p : plugin_ptr)
| OpSetRole (p : option plugin_ptr) (role : Z)
| OpAddRole (p : option plugin_ptr) (role : Z).

Definition run_op (op : manager_op) : prog event (host W) Z :=
  match op with
  | OpRegister p => register_plugin mem p
  | OpSetRole p r => set_role mem p r
  | OpAddRole p r => add_role mem p r
  end.

(** The hosts that calls of the manager, in any order and mixed with changes of the plugins' own
    state, lead to. *)
Inductive reachable : host W -> Prop :=
| reach_new w : reachable (Host new_manager w)
| reach_world h w : reachable h -> reachable (Host (h_pm h) w)
| reach_op h op z h' tr : reachable h -> run_op op h = Done z h' tr -> reachable h'.

Lemma update_role_ok pl role f h z h' tr : manager_ok (plugins (h_pm h)) ->
  (forall p r, pl = Some p -> Z.land (pl_type (mem p)) role = role ->
     Z.land (pl_type (mem p)) r = r -> Z.land (pl_type (mem p)) (f r) = f r) ->
  update_role mem pl role f h = Done z h' tr -> manager_ok (plugins (h_pm h')).
Proof.
  intros Hok Hf. unfold update_role. destruct pl as [p|]; [|by intros [= <- <- <-]].
  destruct (Z.eqb_spec (Z.land (pl_type (mem p)) role) role); cbn [negb]; [|by intros [= <- <- <-]].
  unfold bind, get, put, ret, stop. destruct (map_at p f _) as [m|] eqn:E; [|done].
  intros [= <- <- <-]. cbn. eapply manager_ok_update; [exact Hok|exact E|]. intros. by apply Hf.
Qed.

Lemma run_op_ok op h z h' tr : manager_ok (plugins (h_pm h)) -> run_op op h = Done z h' tr ->
  manager_ok (plugins (h_pm h')).
Proof.
  intros Hok. destruct op as [p|pl role|pl role]; cbn [run_op].
  - unfold register_plugin, log, bind, emit, get, put, ret.
    destruct (find_by_name _ _ _) eqn:E1; [by intros [= <- <- <-]|].
    destruct (map_find _ _) eqn:E2; [by intros [= <- <- <-]|]. intros [= <- <- <-]. by apply manager_ok_register.
  - apply update_role_ok; [done|]. intros p r _ Hr _. done.
  - apply update_role_ok; [done|]. intros p r _ Hr Hr0. by rewrite Z.land_lor_distr_r, Hr, Hr0.
Qed.

(** What a change of the role of a registered and capable plugin does. *)
Lemma update_role_effect p role f h r : manager_ok (plugins (h_pm h)) -> Z.land (pl_type (mem p)) role = role ->
  (forall r, Z.land (pl_type (mem p)) r = r -> Z.land (pl_type (mem p)) (f r) = f r) ->
  map_find p (plugins (h_pm h)) = Some r ->
  exists h', update_role mem (Some p) role f h = Done 0 h' [] /\ h_world h' = h_world h /\
    manager_ok (plugins (h_pm h')) /\ map_find p (plugins (h_pm h')) = Some (f r) /\
    forall q, q <> p -> map_find q (plugins (h_pm h')) = map_find q (plugins (h_pm h)).
Proof.
  intros Hok Ht Hf Hr. unfold update_role. rewrite Ht, Z.eqb_refl. cbn [negb].
  unfold bind, get, put, ret, stop. pose proof (map_at_spec p f (plugins (h_pm h))) as Hat.
  destruct (map_at p f _) as [m|] eqn:E; [|by apply map_find_none in Hat; congruence].
  destruct Hat as (_ & _ & _ & Hp & Ho). eexists. split; [reflexivity|]. split; [done|]. split; [|split].
  - eapply manager_ok_update; [exact Hok|exact E|done].
  - apply Hp; [apply Hok|done].
  - done.
Qed.

(** A single capability bit is there or not. *)
Lemma land_pow2 a k : 0 <= k -> Z.land a (2 ^ k) <> 0 -> Z.land a (2 ^ k) = 2 ^ k.
Proof.
  intros Hk Hne. apply Z.bits_inj'. intros n Hn. rewrite Z.land_spec, Z.pow2_bits_eqb by done.
  destruct (Z.eqb_spec k n) as [<-|]; [|by rewrite andb_false_r]. rewrite andb_true_r.
  destruct (Z.testbit a k) eqn:E; [done|]. destruct Hne. apply Z.bits_inj'. intros m Hm.
  rewrite Z.land_spec, Z.pow2_bits_eqb, Z.bits_0 by done.
  destruct (Z.eqb_spec k m) as [<-|]; [by rewrite E|by rewrite andb_false_r].
Qed.

(** [add_role] of a null or registered and capable plugin: what every entry of the map becomes. *)
Lemma add_role_effect pl role h : manager_ok (plugins (h_pm h)) ->
  (forall p, pl = Some p -> p ∈ keys (plugins (h_pm h)) /\ Z.land (pl_type (mem p)) role = role) ->
  exists z h', add_role mem pl role h = Done z h' [] /\ h_world h' = h_world h /\
    manager_ok (plugins (h_pm h')) /\ keys (plugins (h_pm h')) = keys (plugins (h_pm h)) /\
    forall q, map_find q (plugins (h_pm h')) =
      (fun r => Z.lor r (if decide (pl = Some q) then role else 0)) <$> map_find q (plugins (h_pm h)).
Proof.
  intros Hok Hpl. destruct pl as [p|].
  - destruct (Hpl p eq_refl) as [Hin Ht]. unfold add_role, update_role. rewrite Ht, Z.eqb_refl. cbn [negb].
    unfold bind, get, put, ret, stop. pose proof (map_at_spec p (fun r => Z.lor r role) (plugins (h_pm h))) as Hat.
    destruct (map_at _ _ _) as [m|] eqn:E; [|done]. destruct Hat as (_ & Hk & _ & Hp & Ho).
    eexists 0, _. split; [reflexivity|]. split; [done|]. split; [|split; [done|]].
    + eapply manager_ok_update; [exact Hok|exact E|]. intros r Hr. cbv beta. by rewrite Z.land_lor_distr_r, Hr, Ht.
    + intros q. cbn. destruct (decide (Some p = Some q)) as [[= <-]|Hne].
      * apply keys_elem in Hin as [r Hr]. rewrite <- (map_find_elem p r) in Hr by apply Hok.
        rewrite Hr. cbn. apply Hp; [apply Hok|done].
      * rewrite Ho by congruence. destruct (map_find q _); cbn; [by rewrite Z.lor_0_r|done].
  - exists (-1), h. split; [done|]. split; [done|]. split; [done|]. split; [done|]. intros q.
    rewrite decide_False by done. destruct (map_find q _); cbn; [by rewrite Z.lor_0_r|done].
Qed.

(** C13: in every reachable state of the plugin manager the map is sorted by address, no two registered
    plugins share a name, and every plugin is used only in roles it has the capability for. *)
Theorem manager_invariant h : reachable h -> manager_ok (plugins (h_pm h)).
Proof.
  induction 1 as [w|h w _ IH|h op z h' tr _ IH E]; [apply manager_ok_new|done|by eapply run_op_ok].
Qed.

(** Looking a plugin up by name finds the one registered plugin of that name, whatever the
    addresses are, and finds nothing exactly when no plugin of that name is registered. *)
Theorem get_by_name_spec name h : manager_ok (plugins (h_pm h)) ->
  exists r, get_by_name mem name h = Done r h [] /\
    forall p, r = Some p <-> p ∈ keys (plugins (h_pm h)) /\ pl_name (mem p) = name.
Proof.
  intros [_ Hn _]. eexists. split; [reflexivity|]. intros p. split; [apply find_by_name_some|].
  intros [Hp Hname]. destruct (find_by_name mem name (plugins (h_pm h))) as [q|] eqn:E.
  - destruct (find_by_name_some _ _ _ E) as [Hq Hqn]. f_equal. apply Hn; [done|done|congruence].
  - rewrite find_by_name_none in E. by destruct (E p).
Qed.

(** Registering succeeds exactly when neither the plugin nor another plugin of its name is
    registered; it then adds the plugin without any role and changes no other entry, and otherwise
    returns -1 and changes nothing. *)
Theorem register_plugin_spec p h :
  let m := plugins (h_pm h) in
  exists z h' tr, register_plugin mem p h = Done z h' tr /\ h_world h' = h_world h /\
    (((p ∉ keys m /\ forall q, q ∈ keys m -> pl_name (mem q) <> pl_name (mem p)) /\ z = 0 /\
      forall q r, (q, r) ∈ plugins (h_pm h') <-> (q = p /\ r = PL_NONE) \/ (q, r) ∈ m) \/
     ((p ∈ keys m \/ exists q, q ∈ keys m /\ pl_name (mem q) = pl_name (mem p)) /\ z = -1 /\ h' = h)).
Proof.
  intros m. unfold register_plugin, log, bind, emit, get, put, ret. fold m.
  destruct (find_by_name mem (pl_name (mem p)) m) as [q|] eqn:E1.
  { do 3 eexists. split; [reflexivity|]. split; [done|]. right. split; [|done]. right. exists q.
    by apply find_by_name_some in E1. }
  destruct (map_find p m) as [r|] eqn:E2; do 3 eexists; (split; [reflexivity|]; split; [done|]).
  - right. split; [|done]. left. destruct (decide (p ∈ keys m)) as [|Hp]; [done|].
    apply map_find_none in Hp. congruence.
  - left. split; [split; [by apply map_find_none|by apply find_by_name_none]|]. split; [done|].
    intros q r. by apply elem_emplace.
Qed.

(** Giving a registered plugin a role it is capable of sets it ([set_role]) or adds it to the roles
    it has ([add_role]) and leaves every other plugin alone; a null pointer or a role beyond the
    capabilities is refused with -1 and no change; an unregistered plugin is an uncaught
    [std::out_of_range]. *)
Theorem roles_spec (adding : bool) p role h : sorted_keys (plugins (h_pm h)) ->
  let op pl := if adding then add_role mem pl role else set_role mem pl role in
  op None h = Done (-1) h [] /\
  (Z.land (pl_type (mem p)) role <> role -> op (Some p) h = Done (-1) h []) /\
  (Z.land (pl_type (mem p)) role = role ->
   match map_find p (plugins (h_pm h)) with
   | None => op (Some p) h = Halt (Uncaught "std::out_of_range") []
   | Some r => exists h', op (Some p) h = Done 0 h' [] /\
       map_find p (plugins (h_pm h')) = Some (if adding then Z.lor r role else role) /\
       forall q, q <> p -> map_find q (plugins (h_pm h')) = map_find q (plugins (h_pm h))
   end).
Proof.
  intros Hs op. split; [by destruct adding|].
  assert (forall pl, op pl h = update_role mem pl role (fun r => if adding then Z.lor r role else role) h) as Hop
    by (intros; unfold op, add_role, set_role; by destruct adding).
  rewrite !Hop. unfold update_role. split.
  - intros Hne. by destruct (Z.eqb_spec (Z.land (pl_type (mem p)) role) role).
  - intros ->. rewrite Z.eqb_refl. cbn [negb]. unfold bind, get, put, ret, stop.
    set (f := fun r => if adding then Z.lor r role else role).
    pose proof (map_at_spec p f (plugins (h_pm h))) as Hat.
    destruct (map_find p (plugins (h_pm h))) as [r|] eqn:E.
    + destruct (map_at p f _) as [m|]; [|by apply map_find_none in Hat; congruence].
      destruct Hat as (_ & _ & _ & Hp & Ho). eexists. split; [reflexivity|]. cbn. split; [by apply Hp|done].
    + apply map_find_none in E. destruct (map_at p f _); [by destruct Hat|done].
Qed.

(** Looking a plugin up by type gives the plugin of lowest address among those used in all the
    requested roles, and nothing when there is none. *)
Theorem get_by_type_spec type (h : host W) : sorted_keys (plugins (h_pm h)) ->
  exists r, get_by_type type h = Done r h [] /\
    match r with
    | Some p => exists role, (p, role) ∈ plugins (h_pm h) /\ Z.land role type = type /\
        forall q role', (q, role') ∈ plugins (h_pm h) -> Z.land role' type = type -> p <= q
    | None => forall q role', (q, role') ∈ plugins (h_pm h) -> Z.land role' type <> type
    end.
Proof.
  intros Hs. eexists. split; [reflexivity|]. unfold find_by_type.
  destruct (map_find_if _ _) as [p|] eqn:E.
  - destruct (map_find_if_some _ _ _ E) as (role & Hin & Ht%Z.eqb_eq). exists role. split; [done|]. split; [done|].
    intros q role' Hq Hr. eapply (map_find_if_first _ _ _ Hs E); [exact Hq|]. by apply Z.eqb_eq.
  - rewrite map_find_if_none in E. intros q role' Hq. specialize (E _ Hq). by apply Z.eqb_neq in E.
Qed.

End Invariant.

(** ** An example: a backend and a fault manager *)

Definition example_mem {W} (p : plugin_ptr) : plugin W (host W) :=
  if p =? 16 then Plugin PL_INTF_VERSION (Z.lor PL_COM_ACTOR PL_COM_EXTERN) (str "echo") None None None None None
  else Plugin PL_INTF_VERSION PL_FAULT_MANAGER (str "replay") None None None None None.

Definition example_manager : plugin_manager := Manager standard_logger [(16, PL_COM_ACTOR); (32, PL_NONE)] [].
Definition example_host : host unit := Host example_manager tt.

Lemma example_reachable : reachable example_mem example_host.
Proof.
  set (tr (name : string) := [ELog LL_Debug (str "trying to register new plugin " ++ str name)]).
  apply (reach_op _ (Host (Manager standard_logger [(16, PL_NONE); (32, PL_NONE)] []) tt) (OpAddRole (Some 16) PL_COM_ACTOR) 0 _ []);
    [|reflexivity].
  apply (reach_op _ (Host (Manager standard_logger [(16, PL_NONE)] []) tt) (OpRegister 32) 0 _ (tr "replay")); [|reflexivity].
  apply (reach_op _ (Host new_manager tt) (OpRegister 16) 0 _ (tr "echo")); [apply reach_new|reflexivity].
Qed.

Lemma example_manager_ok {W} : manager_ok (@example_mem W) (plugins example_manager).
Proof.
  split.
  - repeat constructor.
  - intros p q Hp Hq. apply list_elem_of_In in Hp as [<-|[<-|[]]], Hq as [<-|[<-|[]]]; done.
  - intros p r Hr. by apply list_elem_of_In in Hr as [[= <- <-]|[[= <- <-]|[]]].
Qed.

Lemma manager_invariant_witness : reachable example_mem example_host /\ manager_ok (@example_mem unit) (plugins example_manager).
Proof. split; [exact example_reachable|exact (manager_invariant example_mem example_host example_reachable)]. Defined.

Lemma get_by_name_spec_witness :
  exists r, get_by_name example_mem (str "replay") example_host = Done r example_host [] /\
    forall p, r = Some p <-> p ∈ keys (plugins example_manager) /\ pl_name (@example_mem unit p) = str "replay".
Proof. exact (get_by_name_spec example_mem (str "replay") example_host example_manager_ok). Defined.

Lemma roles_spec_witness :
  add_role example_mem None PL_COM_EXTERN example_host = Done (-1) example_host [] /\
  add_role example_mem (Some 32) PL_COM_EXTERN example_host = Done (-1) example_host [] /\
  set_role example_mem (Some 7) PL_FAULT_MANAGER example_host = Halt (Uncaught "std::out_of_range") [].
Proof.
  pose proof (mo_sorted _ _ (@example_manager_ok unit)) as Hs.
  destruct (roles_spec example_mem true 32 PL_COM_EXTERN example_host Hs) as (H1 & H2 & _).
  destruct (roles_spec example_mem false 7 PL_FAULT_MANAGER example_host Hs) as (_ & _ & H3).
  split; [exact H1|]. split; [by apply H2|by apply H3].
Defined.

Lemma get_by_type_spec_witness :
  exists r, get_by_type PL_COM_ACTOR example_host = Done r example_host [] /\ r = Some 16.
Proof.
  destruct (get_by_type_spec PL_COM_ACTOR example_host) as (r & E & _);
    [exact (mo_sorted _ _ (@example_manager_ok unit))|]. exists r. split; [exact E|]. by injection E as <-.
Defined.
