(* ===== verification/Registry.v ===== *)
(** * What the plugin manager promises
    An abstract registry: a finite map from plugins to the roles they are used in, and what each request of a plugin
    or of the server answers and changes.  The plugin manager of PluginManager.v, with its sorted map, its searches
    and its tests, answers every sequence of requests as the registry does. *)

From S2P Require Import Prelude CString Types Loggers PluginManager.
From stdpp Require Import gmap.
Local Open Scope Z_scope.

Abbreviation registry := (gmap plugin_ptr Z).

Inductive request :=
| RegisterPlugin (p : plugin_ptr)
| SetRole (pl : option plugin_ptr) (role : Z)
| AddRole (pl : option plugin_ptr) (role : Z)
| GetByName (name : cstr)
| GetByType (type : Z).

Inductive answer := Code (z : Z) | Found (pl : option plugin_ptr).

Section Registry.
Context {W : Type} (mem : plugin_ptr -> plugin W (host W)).
#[local] Abbreviation name p := (pl_name (mem p)).

(** The plugin [p] may be used in [role]. *)
Definition capable (p : plugin_ptr) (role : Z) : Prop := Z.land (pl_type (mem p)) role = role.

Definition unknown (g : registry) (p : plugin_ptr) : Prop := g !! p = None /\ forall q, q ∈ dom g -> name q <> name p.

(** [f] gives the new role from the old one. *)
Inductive changes (g : registry) (role : Z) (f : Z -> Z) : option plugin_ptr -> answer -> registry -> Prop :=
| change_null : changes g role f None (Code (-1)) g
| change_incapable p : ~ capable p role -> changes g role f (Some p) (Code (-1)) g
| change_role p r : capable p role -> g !! p = Some r -> changes g role f (Some p) (Code 0) (<[p := f r]> g).

(** The answers of the registry, and what it is afterwards. *)
Inductive serves (g : registry) : request -> answer -> registry -> Prop :=
| serve_new p : unknown g p -> serves g (RegisterPlugin p) (Code 0) (<[p := PL_NONE]> g)
| serve_known p : ~ unknown g p -> serves g (RegisterPlugin p) (Code (-1)) g
| serve_set pl role a g' : changes g role (fun _ => role) pl a g' -> serves g (SetRole pl role) a g'
| serve_add pl role a g' : changes g role (fun r => Z.lor r role) pl a g' -> serves g (AddRole pl role) a g'
| serve_name n p : p ∈ dom g -> name p = n -> serves g (GetByName n) (Found (Some p)) g
| serve_no_name n : (forall p, p ∈ dom g -> name p <> n) -> serves g (GetByName n) (Found None) g
| serve_type t p role : g !! p = Some role -> Z.land role t = t ->
    (forall q r, g !! q = Some r -> Z.land r t = t -> p <= q) -> serves g (GetByType t) (Found (Some p)) g
| serve_no_type t : (forall q r, g !! q = Some r -> Z.land r t <> t) -> serves g (GetByType t) (Found None) g.

(** Giving a capable plugin that is not registered a role raises [std::out_of_range]. *)
Inductive raises (g : registry) : request -> Prop :=
| raise_set p role : capable p role -> g !! p = None -> raises g (SetRole (Some p) role)
| raise_add p role : capable p role -> g !! p = None -> raises g (AddRole (Some p) role).

(** A sequence of requests and its answers; the last request may raise. *)
Inductive session : registry -> list request -> list answer -> registry -> Prop :=
| session_end g : session g [] [] g
| session_step g q qs a as_ g1 g2 : serves g q a g1 -> session g1 qs as_ g2 -> session g (q :: qs) (a :: as_) g2.
Definition breaks (g : registry) (qs : list request) : Prop :=
  exists qs1 q qs2 as_ g1, qs = qs1 ++ q :: qs2 /\ session g qs1 as_ g1 /\ raises g1 q.

Local Open Scope prog_scope.

(** The same with the plugin manager. *)
Definition ask (q : request) : prog event (host W) answer :=
  match q with
  | RegisterPlugin p => z <- register_plugin mem p ;; ret (Code z)
  | SetRole pl role => z <- set_role mem pl role ;; ret (Code z)
  | AddRole pl role => z <- add_role mem pl role ;; ret (Code z)
  | GetByName n => r <- get_by_name mem n ;; ret (Found r)
  | GetByType t => r <- get_by_type t ;; ret (Found r)
  end.
Fixpoint ask_all (qs : list request) : prog event (host W) (list answer) :=
  match qs with
  | [] => ret []
  | q :: qs' => a <- ask q ;; as_ <- ask_all qs' ;; ret (a :: as_)
  end.

(** The map of the manager holds what the registry says. *)
Definition represents (h : host W) (g : registry) : Prop :=
  manager_ok mem (plugins (h_pm h)) /\ forall p, map_find p (plugins (h_pm h)) = g !! p.

Lemma represents_dom h g p : represents h g -> p ∈ dom g <-> p ∈ keys (plugins (h_pm h)).
Proof.
  intros [_ Hg]. rewrite elem_of_dom, <- Hg. destruct (map_find p (plugins (h_pm h))) as [r|] eqn:E.
  - split; [intros _; by eapply map_find_keys|by eexists].
  - apply map_find_none in E. split; [by intros [? [=]]|done].
Qed.

Lemma represents_elem h g p r : represents h g -> (p, r) ∈ plugins (h_pm h) <-> g !! p = Some r.
Proof. intros [[Hs _ _] Hg]. by rewrite <- Hg, map_find_elem. Qed.

(** What becomes of one request. *)
Definition answered (g : registry) (q : request) (o : outcome event (host W) answer) : Prop :=
  match o with
  | Done a h' _ => exists g', serves g q a g' /\ represents h' g'
  | Halt hl _ => hl = Uncaught "std::out_of_range" /\ raises g q
  end.

Lemma register_answered p h g : represents h g -> answered g (RegisterPlugin p) (ask (RegisterPlugin p) h).
Proof.
  intros Hr. pose proof Hr as [Hok Hg]. cbn [ask]. unfold register_plugin, log, bind, emit, get, put, ret.
  assert (find_by_name mem (name p) (plugins (h_pm h)) = None /\ map_find p (plugins (h_pm h)) = None <-> unknown g p) as Hu.
  { unfold unknown. rewrite <- Hg, find_by_name_none. setoid_rewrite (represents_dom h g); [|done]. tauto. }
  destruct (find_by_name mem (name p) (plugins (h_pm h))) eqn:E1; [|destruct (map_find p (plugins (h_pm h))) eqn:E2]; cbn.
  1-2: exists g; split; [apply serve_known; by intros [??]%Hu|done].
  exists (<[p := PL_NONE]> g). split; [by apply serve_new, Hu|]. split; [by apply manager_ok_register|]. intros q. cbn.
  destruct (map_find q (map_emplace p PL_NONE (plugins (h_pm h)))) as [r|] eqn:Eq.
  - apply map_find_elem in Eq; [|apply sorted_emplace, Hok]. apply elem_emplace in Eq as [[-> ->]|Hin]; [by rewrite lookup_insert_eq| |done].
    rewrite lookup_insert_ne; [symmetry; by apply (represents_elem h)|]. intros ->. apply map_find_none in E2. by apply E2, (elem_keys _ r).
  - apply map_find_none in Eq. rewrite keys_emplace in Eq. rewrite lookup_insert_ne by (intros ->; tauto). rewrite <- Hg. symmetry. apply map_find_none. tauto.
Qed.

Lemma change_answered (f : Z -> Z) pl role q h g : represents h g ->
  (forall p r, capable p role -> capable p r -> capable p (f r)) ->
  (forall a g', changes g role f pl a g' -> serves g q a g') -> (forall p, pl = Some p -> capable p role -> g !! p = None -> raises g q) ->
  answered g q (bind (update_role mem pl role f) (fun z => ret (Code z)) h).
Proof.
  intros Hr Hf Hserve Hraise. pose proof Hr as [Hok Hg]. unfold update_role. destruct pl as [p|]; cbn.
  2:{ exists g. split; [apply Hserve; constructor|done]. }
  destruct (Z.eqb_spec (Z.land (pl_type (mem p)) role) role) as [Hc|Hc]; cbn; [|exists g; split; [apply Hserve; by constructor|done]].
  unfold bind, get, put, ret, stop. pose proof (map_at_spec p f (plugins (h_pm h))) as Hat. destruct (map_at p f _) as [m|] eqn:E; cbn.
  - destruct Hat as (Hin & _ & _ & Hp & Ho). apply keys_elem in Hin as [r Hin]. assert (g !! p = Some r) as Hgp by by apply (represents_elem h).
    exists (<[p := f r]> g). split; [apply Hserve; by constructor|]. split.
    + eapply manager_ok_update; [exact Hok|exact E|]. intros r'. by apply Hf.
    + intros q'. cbn. destruct (decide (q' = p)) as [->|Hne]; [rewrite lookup_insert_eq; apply Hp; [apply Hok|by rewrite Hg]|].
      by rewrite lookup_insert_ne, Ho by done.
  - split; [done|]. apply (Hraise p); [done..|]. rewrite <- Hg. by apply map_find_none.
Qed.

Lemma ask_answered q h g : represents h g -> answered g q (ask q h).
Proof.
  intros Hr. pose proof Hr as [Hok Hg]. destruct q as [p|pl role|pl role|n|t].
  - by apply register_answered.
  - apply (change_answered (fun _ => role)); [done|done|intros; by constructor|intros p ->; by constructor].
  - apply (change_answered (fun r => Z.lor r role)); [done| |intros; by constructor|intros p ->; by constructor].
    intros p r Hc Hr'. unfold capable in *. by rewrite Z.land_lor_distr_r, Hr', Hc.
  - destruct (get_by_name_spec mem n h Hok) as (r & E & Hn). cbn [ask]. unfold bind. rewrite E. exists g. split; [|done].
    destruct r as [p|].
    + destruct (Hn p) as [H _]. destruct (H eq_refl). apply serve_name; [by apply (represents_dom h)|done].
    + apply serve_no_name. intros p Hp%(represents_dom h); [|done]. intros E'. destruct (Hn p) as [_ H]. by discriminate H.
  - destruct (get_by_type_spec t h (mo_sorted _ _ Hok)) as (r & E & Ht). cbn [ask]. unfold bind. rewrite E. exists g. split; [|done].
    destruct r as [p|].
    + destruct Ht as (role & Hin & Hl & Hmin). apply (serve_type _ _ _ role); [by apply (represents_elem h)|done|].
      intros q r Hq%(represents_elem h); [|done]. by apply Hmin.
    + apply serve_no_type. intros q r Hq%(represents_elem h); [|done]. by apply (Ht q).
Qed.

Lemma represents_new w : represents (Host new_manager w) ∅.
Proof. split; [apply manager_ok_new|]. intros p. by rewrite lookup_empty. Qed.

(** C27: the plugin manager is a registry.  Whatever requests come, in whatever order, its answers are those of the
    abstract registry and afterwards its map holds what the registry says; the one way not to answer is the exception
    [std::out_of_range], at a request that gives a role to a capable plugin that is not registered. *)
Theorem manager_refines_registry qs h g : represents h g ->
  match ask_all qs h with
  | Done as_ h' _ => exists g', session g qs as_ g' /\ represents h' g'
  | Halt hl _ => hl = Uncaught "std::out_of_range" /\ breaks g qs
  end.
Proof.
  revert h g. induction qs as [|q qs IH]; intros h g Hr; cbn [ask_all]; [exists g; by split; [constructor|]|].
  pose proof (ask_answered q h g Hr) as Ha. unfold bind at 1. destruct (ask q h) as [a h1 t1|hl t1].
  - destruct Ha as (g1 & Hs & Hr1). specialize (IH h1 g1 Hr1). unfold bind. destruct (ask_all qs h1) as [as_ h2 t2|hl t2]; cbn.
    + destruct IH as (g2 & Hss & Hr2). exists g2. by split; [econstructor|].
    + destruct IH as (-> & qs1 & q' & qs2 & as_ & g2 & -> & Hss & Hq). split; [done|]. exists (q :: qs1), q', qs2, (a :: as_), g2.
      split; [done|]. by split; [econstructor|].
  - destruct Ha as [-> Hq]. split; [done|]. exists [], q, qs, [], g. by split; [|split; [constructor|]].
Qed.

End Registry.

(** A session with the plugins of PluginManager.v's example: both are registered, one of them twice, the backend is given its role,
    and is found by it, the fault manager by its name. *)
Definition example_requests : list request :=
  [RegisterPlugin 32; RegisterPlugin 16; RegisterPlugin 32; AddRole (Some 16) PL_COM_ACTOR; SetRole (Some 16) PL_LOGGER; GetByType PL_COM_ACTOR; GetByName (str "replay")].

Definition example_answers : list answer := [Code 0; Code 0; Code (-1); Code 0; Code (-1); Found (Some 16); Found (Some 32)].

Lemma example_asked : exists h t, ask_all (@example_mem unit) example_requests (Host new_manager tt) = Done example_answers h t /\
  map_find 16 (plugins (h_pm h)) = Some PL_COM_ACTOR.
Proof. do 2 eexists. split; vm_compute; reflexivity. Qed.

Lemma manager_refines_registry_witness : exists g, session (@example_mem unit) ∅ example_requests example_answers g /\ g !! 16 = Some PL_COM_ACTOR.
Proof.
  destruct example_asked as (h & t & E & Hf).
  pose proof (manager_refines_registry example_mem example_requests (Host new_manager tt) ∅ (represents_new example_mem tt)) as H.
  rewrite E in H. destruct H as (g & Hs & Hr). exists g. split; [exact Hs|]. destruct Hr as [_ Hr]. rewrite <- Hr. exact Hf.
Defined.
