(* ===== verification/Config.v ===== *)
(** * The configuration file (srv/config.cpp)

    The parser of the configuration file, line by line, with the plugin manager it loads libraries
    into and looks plugins up in.  A [std::stringstream] is the text not extracted yet. *)

From S2P Require Import Prelude CString Types PluginManager.
Local Open Scope Z_scope.

(** ** Tokens *)

Definition config_id : Z := 0x0.
Definition libs_id : Z := 0x1.
Definition none_id : Z := 0xFFFF.
Definition decl_id : Z := 0x100.
Definition com_actor_id : Z := 0x100.
Definition com_notify_id : Z := 0x101.
Definition logger_id : Z := 0x102.
Definition manager_id : Z := 0x103.
Definition com_all_id : Z := 0x104.
Definition tic_id : Z := 0x105.

Definition tokenids : list (string * Z) := [
  ("[library]", libs_id); ("[lib]", libs_id); ("[libs]", libs_id); ("[config]", config_id);
  ("com-actor", com_actor_id); ("com_actor", com_actor_id); ("actor", com_actor_id);
  ("com-notify", com_notify_id); ("com_notify", com_notify_id); ("notify", com_notify_id);
  ("com", com_all_id);
  ("logger", logger_id); ("log", logger_id);
  ("fault-manager", manager_id); ("fault_manager", manager_id); ("fault", manager_id);
  ("manager", manager_id);
  ("tic", tic_id); ("tik", tic_id)].

Fixpoint lookup_token (tk : cstr) (ids : list (string * Z)) : Z :=
  match ids with
  | [] => none_id
  | (name, id) :: ids' => if strcasecmp_eq (c_str tk) (str name) then id else lookup_token tk ids'
  end.

Definition get_token_identifyer (tk : cstr) : Z := lookup_token tk tokenids.

(** [std::getline] until it fails: the lines of the file without their newlines. *)
Fixpoint cpp_lines_from (cur : cstr) (file : cstr) : list cstr :=
  match file with
  | [] => match cur with [] => [] | _ => [cur] end
  | c :: file' => if bool_decide (c = NL) then cur :: cpp_lines_from [] file' else cpp_lines_from (cur ++ [c]) file'
  end.

Definition cpp_lines (file : cstr) : list cstr := cpp_lines_from [] file.

(** [std::copy] of the words left in the stream. *)
Fixpoint words (fuel : nat) (stream : cstr) : list cstr :=
  match fuel with
  | O => []
  | S fuel' =>
      match next_word stream with
      | (None, _) => []
      | (Some w, rest) => w :: words fuel' rest
      end
  end.

(** ** State *)

Record config := Config {
  com_actor : option plugin_ptr;
  com_notify : option plugin_ptr;
  conf_fault_manager : option plugin_ptr;     (** [fault_manager] *)
  conf_logger : option plugin_ptr;            (** [logger] *)
  tic_length : Z;
  is_loaded : bool
}.

Definition new_config : config := Config None None None None 0 false.

Definition set_com_actor v c := Config v (com_notify c) (conf_fault_manager c) (conf_logger c) (tic_length c) (is_loaded c).
Definition set_com_notify v c := Config (com_actor c) v (conf_fault_manager c) (conf_logger c) (tic_length c) (is_loaded c).
Definition set_fault_manager v c := Config (com_actor c) (com_notify c) v (conf_logger c) (tic_length c) (is_loaded c).
Definition set_logger v c := Config (com_actor c) (com_notify c) (conf_fault_manager c) v (tic_length c) (is_loaded c).
Definition set_tic_length v c := Config (com_actor c) (com_notify c) (conf_fault_manager c) (conf_logger c) v (is_loaded c).
Definition set_is_loaded v c := Config (com_actor c) (com_notify c) (conf_fault_manager c) (conf_logger c) (tic_length c) v.

(** The configuration together with the plugin manager it works on. *)
Record csys (W : Type) := Csys { cs_conf : config; cs_host : host W }.
Arguments Csys {W}.
Arguments cs_conf {W}.
Arguments cs_host {W}.

Section Config.
Context {W : Type} (mem : plugin_ptr -> plugin W (host W)).
Context (dlmopen : cstr -> option Z) (dlerror : cstr) (dlsym : Z -> cstr -> option Z)
        (init_at : Z -> list cstr -> prog event (host W) Z).
(* the text of a configuration file that can be opened *)
Context (open_file : cstr -> option cstr).
Local Open Scope prog_scope.

Definition on_host {A} (m : prog event (host W) A) : prog event (csys W) A :=
  zoom cs_host (fun h s => Csys (cs_conf s) h) m.

Definition modify_conf (f : config -> config) : prog event (csys W) unit :=
  modify (fun s => Csys (f (cs_conf s)) (cs_host s)).

(** One role of the switch in [set_config]: the plugin [p] is stored with [setter] if it has the
    capability [type]. *)
Definition assign_role (current : config -> option plugin_ptr) (setter : option plugin_ptr -> config -> config)
    (type : Z) (what kind : string) (p : plugin_ptr) : prog event (csys W) Z :=
  s <- get ;;
  match current (cs_conf s) with
  | Some _ => log LL_Warning (str what ++ str " is reassigned")
  | None => ret tt
  end ;;
  if HAS_PL_TYPE (mem p) type then modify_conf (setter (Some p)) ;; ret 0
  else log LL_Error (str "plugin " ++ [chr 34] ++ pl_name (mem p) ++ [chr 34] ++ str " is not a " ++ str kind ++ str " plugin") ;;
       ret (-1).

Definition assign_com_actor := assign_role com_actor set_com_actor PL_COM_ACTOR "com actor" "com".
Definition assign_com_notify := assign_role com_notify set_com_notify PL_COM_EXTERN "com notify" "com".
Definition assign_logger := assign_role conf_logger set_logger PL_LOGGER "logger" "logger".
Definition assign_manager :=
  assign_role conf_fault_manager set_fault_manager PL_FAULT_MANAGER "fault manager" "fault manager".

Definition assign_tic (value : cstr) : prog event (csys W) Z :=
  s <- get ;;
  (if tic_length (cs_conf s) =? 0 then ret tt else log LL_Warning (str "tic length is reassigned")) ;;
  match stoul value with
  | StoulInvalidArgument => stop (Uncaught "std::invalid_argument")
  | StoulOutOfRange => stop (Uncaught "std::out_of_range")
  | StoulValue v => modify_conf (set_tic_length v) ;; ret 0
  end.

(** The switch of [set_config]; [p] is the plugin looked up, absent for [tic_id]. *)
Definition assign (id : Z) (value : cstr) (p : option plugin_ptr) : prog event (csys W) Z :=
  match p with
  | Some p =>
      if id =? com_all_id then
        r <- assign_com_actor p ;;
        if r =? 0 then assign_com_notify p else ret r
      else if id =? com_actor_id then assign_com_actor p
      else if id =? com_notify_id then assign_com_notify p
      else if id =? logger_id then assign_logger p
      else if id =? manager_id then assign_manager p
      else ret 0
  | None => assign_tic value
  end.

Definition set_config (id : Z) (stream : cstr) : prog event (csys W) Z :=
  match next_word stream with
  | (Some eq, stream') =>
      if negb (bool_decide (eq = str "=")) then log LL_Error (str "'=' expected in assignment") ;; ret (-1)
      else
        match next_word stream' with
        | (None, _) => log LL_Error (str "expected assignment before end of line") ;; ret (-1)
        | (Some value, _) =>
            if id =? tic_id then assign id value None
            else
              p <- on_host (get_by_name mem (c_str value)) ;;
              match p with
              | None => log LL_Error (str "plugin " ++ [chr 34] ++ value ++ [chr 34] ++ str " is not loaded") ;; ret (-1)
              | Some p => assign id value (Some p)
              end
        end
  | (None, _) => log LL_Error (str "'=' expected in assignment") ;; ret (-1)
  end.

Definition load_lib (name stream : cstr) : prog event (csys W) Z :=
  on_host (load_library dlmopen dlerror dlsym init_at (c_str name)
    (map c_str (words (S (length stream)) stream))).

(** The body of the loop over the lines: [inl rc] returns from [load_config], [inr state] goes on to the
    next line. *)
Definition config_line (state : Z) (line : cstr) : prog event (csys W) (Z + Z) :=
  log LL_Debug (str "Line: " ++ line) ;;
  match next_word line with
  | (None, _) => ret (inr state)
  | (Some token, linestr) =>
      if bool_decide (head token = Some "#"%char) then ret (inr state)
      else
        let id := get_token_identifyer token in
        if Z.land id decl_id =? 0 then ret (inr (u8 (Z.shiftl 1 id)))
        else if state =? Z.shiftl 1 libs_id then
          r <- load_lib token linestr ;;
          if r =? 0 then ret (inr state) else ret (inl (-1))
        else
          r <- set_config id linestr ;;
          if r =? 0 then ret (inr state) else ret (inl (-1))
  end.

Fixpoint config_lines (state : Z) (lines : list cstr) : prog event (csys W) Z :=
  match lines with
  | [] => modify_conf (set_is_loaded true) ;; ret 0
  | line :: lines' =>
      r <- config_line state line ;;
      match r with
      | inl rc => ret rc
      | inr state' => config_lines state' lines'
      end
  end.

Definition load_config (filename : cstr) : prog event (csys W) Z :=
  s <- get ;;
  if is_loaded (cs_conf s) then ret 1
  else
    match open_file filename with
    | None => log LL_Error (str "unable to open configuration file!") ;; ret (-1)
    | Some text => config_lines 0 (cpp_lines text)
    end.

End Config.

(** ** Only plugins that are loaded and capable are ever configured *)

Section ConfigOk.
Context {W : Type} (mem : plugin_ptr -> plugin W (host W)).
Context (dlmopen : cstr -> option Z) (dlerror : cstr) (dlsym : Z -> cstr -> option Z)
        (init_at : Z -> list cstr -> prog event (host W) Z) (open_file : cstr -> option cstr).

(** What a role field of the configuration may hold. *)
Definition role_ok (m : role_map) (type : Z) (p : option plugin_ptr) : Prop :=
  forall q, p = Some q -> q ∈ keys m /\ HAS_PL_TYPE (mem q) type = true.

Definition conf_ok (s : csys W) : Prop :=
  let m := plugins (h_pm (cs_host s)) in
  role_ok m PL_COM_ACTOR (com_actor (cs_conf s)) /\
  role_ok m PL_COM_EXTERN (com_notify (cs_conf s)) /\
  role_ok m PL_FAULT_MANAGER (conf_fault_manager (cs_conf s)) /\
  role_ok m PL_LOGGER (conf_logger (cs_conf s)).

Definition registered (p : plugin_ptr) (s : csys W) : Prop := p ∈ keys (plugins (h_pm (cs_host s))).

(** The [init] functions of plugins only ever add plugins to the manager. *)
Hypothesis init_registers : forall addr argv h z h' tr,
  init_at addr argv h = Done z h' tr -> keys (plugins (h_pm h)) ⊆ keys (plugins (h_pm h')).

Lemma conf_ok_new h : conf_ok (Csys new_config h).
Proof. unfold conf_ok, role_ok. cbn. by split_and!. Qed.

Lemma preserves_assign_role current setter type what kind p (I : csys W -> Prop) :
  (HAS_PL_TYPE (mem p) type = true -> forall s, I s -> I (Csys (setter (Some p) (cs_conf s)) (cs_host s))) ->
  preserves I (assign_role mem current setter type what kind p).
Proof.
  intros Hset. unfold assign_role, log. apply preserves_bind; [auto with lausim|]. intros s0.
  apply preserves_bind; [destruct (current (cs_conf s0)); auto with lausim|]. intros _.
  destruct (HAS_PL_TYPE (mem p) type); [|auto with lausim].
  apply preserves_bind; [|auto with lausim]. apply preserves_modify. intros s. by apply Hset.
Qed.

Definition conf_ok_with (p : plugin_ptr) (s : csys W) : Prop := conf_ok s /\ registered p s.

Lemma role_ok_some m type p : p ∈ keys m -> HAS_PL_TYPE (mem p) type = true -> role_ok m type (Some p).
Proof. by intros ? ? q [= <-]. Qed.

Ltac role_case := intros Ht s [(H1 & H2 & H3 & H4) Hp]; split; [|done];
  unfold conf_ok; cbn; split_and!; first [done | by apply role_ok_some].

Lemma preserves_com_actor p : preserves (conf_ok_with p) (assign_com_actor mem p).
Proof. apply preserves_assign_role. role_case. Qed.
Lemma preserves_com_notify p : preserves (conf_ok_with p) (assign_com_notify mem p).
Proof. apply preserves_assign_role. role_case. Qed.
Lemma preserves_logger p : preserves (conf_ok_with p) (assign_logger mem p).
Proof. apply preserves_assign_role. role_case. Qed.
Lemma preserves_manager p : preserves (conf_ok_with p) (assign_manager mem p).
Proof. apply preserves_assign_role. role_case. Qed.

#[local] Hint Resolve preserves_com_actor preserves_com_notify preserves_logger preserves_manager : lausim.

Lemma preserves_assign_some id value p : preserves (conf_ok_with p) (assign mem id value (Some p)).
Proof.
  unfold assign. repeat apply preserves_if; auto with lausim.
Qed.

Lemma preserves_assign_tic value : preserves conf_ok (assign_tic (W := W) value).
Proof.
  unfold assign_tic, log. apply preserves_bind; [auto with lausim|]. intros s0.
  apply preserves_bind; [auto with lausim|]. intros _. destruct (stoul value); auto with lausim.
  apply preserves_bind; [|auto with lausim]. apply preserves_modify. by intros s Hs.
Qed.

Lemma preserves_set_config id stream : preserves conf_ok (set_config mem id stream).
Proof.
  unfold set_config, log. destruct (next_word stream) as [[eq|] stream']; [|auto with lausim].
  apply preserves_if; [auto with lausim|].
  destruct (next_word stream') as [[value|] ?]; [|auto with lausim].
  apply preserves_if; [apply preserves_assign_tic|].
  intros s Hs. unfold bind, on_host, zoom, get_by_name, bind, get, ret.
  destruct (find_by_name _ _ _) as [p|] eqn:E; [|done].
  assert (conf_ok_with p s) as Hp by (split; [done|by apply find_by_name_some in E as [? _]]).
  destruct s as [c h]. cbn [cs_conf cs_host].
  destruct (assign mem id value (Some p) (Csys c h)) as [z s' t|] eqn:E'; [|done].
  by destruct (preserves_done _ _ _ _ _ _ (preserves_assign_some id value p) Hp E').
Qed.

Lemma conf_ok_more c h h' : keys (plugins (h_pm h)) ⊆ keys (plugins (h_pm h')) ->
  conf_ok (Csys c h) -> conf_ok (Csys c h').
Proof.
  intros Hk (H1 & H2 & H3 & H4). unfold conf_ok, role_ok in *. cbn in *.
  split_and!; intros q Hq; (split; [apply Hk|]); naive_solver.
Qed.

Lemma preserves_load_lib name stream : preserves conf_ok (load_lib dlmopen dlerror dlsym init_at name stream).
Proof.
  intros [c h] Hs. unfold load_lib, on_host, zoom. cbn [cs_host cs_conf].
  unfold load_library. destruct (library_open _ _ _) as [rc nlib].
  destruct (negb (rc =? 0)); [done|]. destruct (get_sym_addr _ _ _) as [addr|]; [|done].
  unfold bind. destruct (init_at addr _ h) as [r h1 t1|] eqn:E; [|done].
  apply init_registers in E. apply (conf_ok_more c h h1 E) in Hs. by destruct (negb (r =? 0)).
Qed.

Lemma preserves_config_line state line :
  preserves conf_ok (config_line mem dlmopen dlerror dlsym init_at state line).
Proof.
  unfold config_line, log. apply preserves_bind; [auto with lausim|]. intros _.
  destruct (next_word line) as [[token|] linestr]; [|auto with lausim].
  do 2 (apply preserves_if; [auto with lausim|]). apply preserves_if.
  - apply preserves_bind; [apply preserves_load_lib|]. auto with lausim.
  - apply preserves_bind; [apply preserves_set_config|]. auto with lausim.
Qed.

Lemma preserves_config_lines state lines :
  preserves conf_ok (config_lines mem dlmopen dlerror dlsym init_at state lines).
Proof.
  revert state. induction lines as [|line lines IH]; intros state; cbn [config_lines].
  - apply preserves_bind; [|auto with lausim]. apply preserves_modify. by intros s Hs.
  - apply preserves_bind; [apply preserves_config_line|]. intros [rc|state']; auto with lausim.
Qed.

Lemma load_config_conf_ok filename :
  preserves conf_ok (load_config mem dlmopen dlerror dlsym init_at open_file filename).
Proof.
  unfold load_config, log. apply preserves_bind; [auto with lausim|]. intros s0.
  apply preserves_if; [auto with lausim|]. destruct (open_file filename); [|auto with lausim].
  apply preserves_config_lines.
Qed.

(** C17: whatever the configuration file says, and whether or not loading it succeeds, every plugin
    the configuration then names is registered in the plugin manager and has the capability of the
    role it was configured for. *)
Theorem configured_plugins_capable filename s rc s' tr :
  conf_ok s -> load_config mem dlmopen dlerror dlsym init_at open_file filename s = Done rc s' tr -> conf_ok s'.
Proof. intros Hs E. eapply preserves_done; [apply load_config_conf_ok|exact Hs|exact E]. Qed.

End ConfigOk.

(** ** Writing a configuration and loading it *)

(** A line of the [config] section, with one of the accepted spellings of its key. *)
Inductive setting :=
| SCom (p : plugin_ptr)
| SActor (p : plugin_ptr)
| SNotify (p : plugin_ptr)
| SLogger (p : plugin_ptr)
| SFault (p : plugin_ptr)
| STic (n : Z).

Section Roundtrip.
Context {W : Type} (mem : plugin_ptr -> plugin W (host W)).
Context (dlmopen : cstr -> option Z) (dlerror : cstr) (dlsym : Z -> cstr -> option Z)
        (init_at : Z -> list cstr -> prog event (host W) Z) (open_file : cstr -> option cstr).

Definition setting_key (st : setting) : string :=
  match st with
  | SCom _ => "com" | SActor _ => "com-actor" | SNotify _ => "notify"
  | SLogger _ => "log" | SFault _ => "fault" | STic _ => "tic"
  end.

Definition setting_value (st : setting) : cstr :=
  match st with
  | SCom p | SActor p | SNotify p | SLogger p | SFault p => pl_name (mem p)
  | STic n => print_u n
  end.

Definition print_setting (st : setting) : cstr := str (setting_key st) ++ str " = " ++ setting_value st.

Definition apply_setting (c : config) (st : setting) : config :=
  match st with
  | SCom p => set_com_notify (Some p) (set_com_actor (Some p) c)
  | SActor p => set_com_actor (Some p) c
  | SNotify p => set_com_notify (Some p) c
  | SLogger p => set_logger (Some p) c
  | SFault p => set_fault_manager (Some p) c
  | STic n => set_tic_length n c
  end.

Definition plugin_ok (m : role_map) (types : list Z) (p : plugin_ptr) : Prop :=
  p ∈ keys m /\ word_ok (pl_name (mem p)) /\ NUL ∉ pl_name (mem p) /\
  Forall (fun t => HAS_PL_TYPE (mem p) t = true) types.

Definition setting_ok (m : role_map) (st : setting) : Prop :=
  match st with
  | SCom p => plugin_ok m [PL_COM_ACTOR; PL_COM_EXTERN] p
  | SActor p => plugin_ok m [PL_COM_ACTOR] p
  | SNotify p => plugin_ok m [PL_COM_EXTERN] p
  | SLogger p => plugin_ok m [PL_LOGGER] p
  | SFault p => plugin_ok m [PL_FAULT_MANAGER] p
  | STic n => is_u64 n
  end.

Definition config_file (sts : list setting) : cstr :=
  concat (map (fun l => l ++ [NL]) (str "[config]" :: map print_setting sts)).

Lemma setting_value_word m st : setting_ok m st -> word_ok (setting_value st).
Proof.
  destruct st; cbn; try (intros (_ & Hw & _ & _); exact Hw). intros [? ?]. by apply print_u_word.
Qed.

Lemma assign_role_run current setter type what kind p s : HAS_PL_TYPE (mem p) type = true ->
  exists tr, assign_role mem current setter type what kind p s =
    Done 0 (Csys (setter (Some p) (cs_conf s)) (cs_host s)) tr.
Proof.
  intros Ht. unfold assign_role, bind, get, log, emit, ret, modify_conf, modify. rewrite Ht.
  destruct (current (cs_conf s)); by eexists.
Qed.

(** The line of a role: the name leads back to the plugin, then the switch stores it. *)
Lemma set_config_plugin id p s s' types tr :
  manager_ok mem (plugins (h_pm (cs_host s))) -> plugin_ok (plugins (h_pm (cs_host s))) types p ->
  (id =? tic_id) = false -> assign mem id (pl_name (mem p)) (Some p) s = Done 0 s' tr ->
  exists tr', set_config mem id (str " = " ++ pl_name (mem p)) s = Done 0 s' tr'.
Proof.
  intros Hm (Hp & Hw & Hnul & _) Hid E. unfold set_config.
  replace (next_word (str " = " ++ pl_name (mem p))) with (Some (str "="), str " " ++ pl_name (mem p)) by done.
  cbn [negb bool_decide]. rewrite bool_decide_true by done. cbn [negb].
  change (str " " ++ pl_name (mem p)) with (" "%char :: pl_name (mem p)).
  rewrite next_word_space by done. pose proof (next_word_app _ [] Hw I) as Hn. rewrite app_nil_r in Hn.
  rewrite Hn, Hid, c_str_id by done. eexists. unfold on_host, zoom. unfold bind at 1.
  unfold get_by_name, bind, get, ret. cbn [cs_host].
  destruct (find_by_name mem (pl_name (mem p)) (plugins (h_pm (cs_host s)))) as [q|] eqn:Eq.
  - destruct (find_by_name_some _ _ _ _ Eq) as [Hq Hname]. destruct Hm as [_ Hn' _].
    rewrite (Hn' _ _ Hq Hp Hname). destruct s as [c h]. cbn [cs_conf cs_host]. by rewrite E.
  - rewrite find_by_name_none in Eq. by destruct (Eq p Hp).
Qed.

Lemma set_config_tic n c h : is_u64 n ->
  exists tr, set_config mem tic_id (str " = " ++ print_u n) (Csys c h) = Done 0 (Csys (set_tic_length n c) h) tr.
Proof.
  intros Hn. unfold set_config.
  replace (next_word (str " = " ++ print_u n)) with (Some (str "="), str " " ++ print_u n) by done.
  rewrite bool_decide_true by done. cbn [negb].
  change (str " " ++ print_u n) with (" "%char :: print_u n). rewrite next_word_space by done.
  pose proof (next_word_app (print_u n) [] ltac:(apply print_u_word; apply Hn) I) as Hw.
  rewrite app_nil_r in Hw. rewrite Hw, Z.eqb_refl. cbn [assign]. unfold assign_tic.
  eexists. eapply bind_done; [reflexivity|]. eapply bind_done.
  - instantiate (3 := tt). instantiate (2 := Csys c h).
    instantiate (1 := if tic_length c =? 0 then [] else [ELog LL_Warning (str "tic length is reassigned")]).
    cbn [cs_conf]. by destruct (tic_length c =? 0).
  - rewrite stoul_print_u by done. reflexivity.
Qed.

Lemma setting_key_word st : word_ok (str (setting_key st)) /\ head (str (setting_key st)) <> Some "#"%char.
Proof. by destruct st. Qed.

Ltac single_role run :=
  match goal with Hst : setting_ok _ _, Hm : manager_ok _ _ |- _ =>
    let Ha := fresh in let t := fresh in let E := fresh in
    pose proof Hst as (_ & _ & _ & [Ha _]%Forall_cons); destruct (run Ha) as [t E];
    eapply set_config_plugin; [exact Hm|exact Hst|reflexivity|exact E]
  end.

Lemma config_line_setting st s :
  manager_ok mem (plugins (h_pm (cs_host s))) -> setting_ok (plugins (h_pm (cs_host s))) st ->
  exists tr, config_line mem dlmopen dlerror dlsym init_at 1 (print_setting st) s =
    Done (inr 1) (Csys (apply_setting (cs_conf s) st) (cs_host s)) tr.
Proof.
  intros Hm Hst.
  assert (exists id, get_token_identifyer (str (setting_key st)) = id /\ Z.land id decl_id <> 0 /\
    exists tr, set_config mem id (str " = " ++ setting_value st) s =
      Done 0 (Csys (apply_setting (cs_conf s) st) (cs_host s)) tr) as (id & Hid & Hdecl & tr & E).
  { destruct st as [p|p|p|p|p|n]; cbn [setting_key setting_value apply_setting] in *; eexists;
      (split; [vm_compute; reflexivity|]; split; [done|]).
    - pose proof Hst as (_ & _ & _ & [Ha [Hb _]%Forall_cons]%Forall_cons).
      destruct (assign_role_run com_actor set_com_actor PL_COM_ACTOR "com actor" "com" p s Ha) as [t1 E1].
      destruct (assign_role_run com_notify set_com_notify PL_COM_EXTERN "com notify" "com" p
        (Csys (set_com_actor (Some p) (cs_conf s)) (cs_host s)) Hb) as [t2 E2].
      eapply set_config_plugin; [exact Hm|exact Hst|reflexivity|].
      exact (bind_done _ _ _ _ _ _ _ _ _ E1 E2).
    - single_role (assign_role_run com_actor set_com_actor PL_COM_ACTOR "com actor" "com" p s).
    - single_role (assign_role_run com_notify set_com_notify PL_COM_EXTERN "com notify" "com" p s).
    - single_role (assign_role_run conf_logger set_logger PL_LOGGER "logger" "logger" p s).
    - single_role (assign_role_run conf_fault_manager set_fault_manager PL_FAULT_MANAGER
        "fault manager" "fault manager" p s).
    - destruct s as [c h]. by apply set_config_tic. }
  exists ([ELog LL_Debug (str "Line: " ++ print_setting st)] ++ tr ++ []). unfold config_line, log.
  eapply bind_done; [reflexivity|]. unfold print_setting at 1.
  destruct (setting_key_word st) as [Hw Hh]. rewrite next_word_app by done.
  rewrite bool_decide_false by done. rewrite Hid. destruct (Z.eqb_spec (Z.land id decl_id) 0); [done|].
  change (1 =? Z.shiftl 1 libs_id) with false. cbv iota.
  eapply bind_done; [exact E|]. reflexivity.
Qed.

(** In the [config] section nothing is printed. *)
Lemma silent_config_line line : emits silent (config_line mem dlmopen dlerror dlsym init_at 1 line).
Proof.
  assert (forall current setter type what kind p, emits silent (assign_role mem current setter type what kind p)) as Hr.
  { intros. apply emits_bind; [auto with lausim|intros s]. apply emits_bind; [destruct (current (cs_conf s)); auto with lausim|].
    intros _. apply emits_if; [unfold modify_conf|]; auto with lausim. }
  assert (forall value, emits silent (assign_tic (W := W) value)) as Ht.
  { intros value. apply emits_bind; [auto with lausim|intros s]. apply emits_bind; [auto with lausim|intros _].
    destruct (stoul value); unfold modify_conf; auto with lausim. }
  unfold config_line. apply emits_bind; [auto with lausim|intros _]. destruct (next_word line) as [[token|] rest]; [|auto with lausim].
  apply emits_if; [auto with lausim|]. apply emits_if; [auto with lausim|]. change (1 =? Z.shiftl 1 libs_id) with false. cbv iota.
  apply emits_bind; [|auto with lausim]. unfold set_config. destruct (next_word rest) as [[eq|] rest']; [|auto with lausim].
  apply emits_if; [auto with lausim|]. destruct (next_word rest') as [[value|] _]; [|auto with lausim].
  apply emits_if; [apply Ht|]. apply emits_bind; [|intros [p|]; [|auto with lausim]].
  - intros s. apply emits_zoom. apply emits_bind; auto with lausim.
  - unfold assign. repeat apply emits_if; try apply Hr; auto with lausim.
    apply emits_bind; [apply Hr|intros r]. apply emits_if; [apply Hr|auto with lausim].
Qed.

Lemma config_lines_settings sts s :
  manager_ok mem (plugins (h_pm (cs_host s))) -> Forall (setting_ok (plugins (h_pm (cs_host s)))) sts ->
  runs (config_lines mem dlmopen dlerror dlsym init_at 1 (map print_setting sts)) s 0
    (Csys (set_is_loaded true (fold_left apply_setting sts (cs_conf s))) (cs_host s)) [].
Proof.
  intros Hm Hsts. revert s Hm Hsts. induction sts as [|st sts IH]; intros s Hm Hsts.
  { eapply runs_then; [by exists []|apply runs_ret]. }
  apply Forall_cons in Hsts as [Hst Hsts]. destruct (config_line_setting st s Hm Hst) as [t1 E1].
  cbn [map config_lines]. eapply runs_then; [eapply runs_emits; [exact E1|apply silent_config_line]|].
  exact (IH (Csys (apply_setting (cs_conf s) st) (cs_host s)) Hm Hsts).
Qed.

(** *** Library lines *)

Definition lib_line (path : cstr) (args : list cstr) : cstr := path ++ concat (map (fun a => " "%char :: a) args).

(** A path that is no comment and no section header. *)
Definition path_ok (path : cstr) : Prop :=
  word_ok path /\ NUL ∉ path /\ head path <> Some "#"%char /\ Z.land (get_token_identifyer path) decl_id <> 0.
Definition arg_ok (a : cstr) : Prop := word_ok a /\ NUL ∉ a.

Lemma words_args args : forall fuel, Forall arg_ok args -> (length args <= fuel)%nat ->
  words fuel (concat (map (fun a => " "%char :: a) args)) = args.
Proof.
  induction args as [|a args IH]; intros [|fuel] Ha Hf; cbn [length] in *; try lia; [done..|].
  apply Forall_cons in Ha as [[Hw _] Ha]. cbn [map concat words app]. rewrite next_word_space by done.
  rewrite next_word_app; [|done|by destruct args]. rewrite IH; [done..|lia].
Qed.

Lemma config_line_lib path args c h h' : path_ok path -> Forall arg_ok args ->
  runs (load_library dlmopen dlerror dlsym init_at path args) h 0 h' [] ->
  runs (config_line mem dlmopen dlerror dlsym init_at 2 (lib_line path args)) (Csys c h) (inr 2) (Csys c h') [].
Proof.
  intros (Hw & Hn & Hc & Hid) Ha Hl. unfold config_line. eapply runs_then; [apply runs_log|]. cbv beta. unfold lib_line.
  rewrite next_word_app; [|done|by destruct args]. rewrite bool_decide_false by done.
  destruct (Z.eqb_spec (Z.land (get_token_identifyer path) decl_id) 0) as [|_]; [done|].
  change (2 =? Z.shiftl 1 libs_id) with true. cbv iota.
  apply (runs_then _ _ _ 0 (Csys c h')); [|apply runs_ret].
  unfold load_lib. apply (runs_zoom cs_host (fun h s => Csys (cs_conf s) h)). cbn [cs_host].
  rewrite c_str_id by done. rewrite words_args; [|done|].
  - assert (map c_str args = args) as ->; [|exact Hl]. rewrite <- (map_id args) at 2. apply map_ext_Forall.
    eapply Forall_impl; [exact Ha|]. intros a [_ Hna]. by apply c_str_id.
  - clear. induction args as [|a args IH]; cbn; [lia|]. rewrite length_app. lia.
Qed.

Lemma cpp_lines_concat cur ls : Forall (fun l => NL ∉ l) ls ->
  cpp_lines_from cur (concat (map (fun l => l ++ [NL]) ls)) =
  match ls with [] => cpp_lines_from cur [] | l :: ls' => (cur ++ l) :: ls' end.
Proof.
  intros Hls. revert cur. induction Hls as [|l ls Hl _ IH]; intros cur; [done|].
  cbn [map concat]. rewrite <- app_assoc. revert cur. induction l as [|c l IHl]; intros cur.
  - cbn [app cpp_lines_from]. rewrite bool_decide_true, IH, app_nil_r by done. by destruct ls.
  - apply not_elem_of_cons in Hl as [Hc Hl]. cbn [app cpp_lines_from].
    rewrite bool_decide_false by done. rewrite IHl by done. by rewrite <- app_assoc.
Qed.

Lemma print_setting_line m st : setting_ok m st -> NL ∉ print_setting st.
Proof.
  intros Hst Hin. unfold print_setting in Hin. rewrite !elem_of_app in Hin. destruct Hin as [H|[H|H]].
  - revert H. destruct st; elem_dec.
  - revert H. elem_dec.
  - apply (word_ok_not_space _ _ (setting_value_word m st Hst)) in H. done.
Qed.

(** C16: a configuration file that lists settings for loaded plugins with the needed capabilities, one
    per line, loads without error, and the configuration is what the settings say, later ones
    overriding earlier ones. *)
Theorem config_roundtrip sts filename s :
  open_file filename = Some (config_file sts) -> is_loaded (cs_conf s) = false ->
  manager_ok mem (plugins (h_pm (cs_host s))) -> Forall (setting_ok (plugins (h_pm (cs_host s)))) sts ->
  exists tr, load_config mem dlmopen dlerror dlsym init_at open_file filename s =
    Done 0 (Csys (set_is_loaded true (fold_left apply_setting sts (cs_conf s))) (cs_host s)) tr.
Proof.
  intros Ho Hl Hm Hsts. destruct (config_lines_settings sts s Hm Hsts) as (t & E & _). eexists.
  unfold load_config. eapply bind_done; [reflexivity|]. rewrite Hl, Ho.
  unfold cpp_lines, config_file. rewrite cpp_lines_concat.
  - cbn [app]. eapply bind_done; [reflexivity|]. cbv beta iota. exact E.
  - constructor; [elem_dec|]. apply Forall_fmap. eapply Forall_impl; [exact Hsts|].
    intros st Hst. by eapply print_setting_line.
Qed.

End Roundtrip.

(** ** Examples *)

Definition example_settings : list setting := [SFault 32; SCom 16; STic 1000].

Definition example_open (name : cstr) : option cstr :=
  if strcmp_eq name (str "run.cfg") then Some (config_file (@example_mem unit) example_settings)
  else if strcmp_eq name (str "bad.cfg") then Some (str "com = echo" ++ [NL] ++ str "logger = replay" ++ [NL])
  else None.

Definition example_conf : csys unit := Csys new_config example_host.

Lemma configured_plugins_capable_witness :
  exists s' tr, load_config example_mem (fun _ => None) [] (fun _ _ => None) (fun _ _ => ret 0) example_open
      (str "bad.cfg") example_conf = Done (-1) s' tr /\
    com_actor (cs_conf s') = Some 16 /\ conf_ok example_mem s'.
Proof.
  eexists _, _. split; [reflexivity|]. split; [reflexivity|].
  eapply (configured_plugins_capable example_mem (fun _ => None) [] (fun _ _ => None) (fun _ _ => ret 0) example_open)
    with (filename := str "bad.cfg") (s := example_conf) (rc := -1);
    [|exact (conf_ok_new example_mem example_host)|reflexivity].
  by intros addr argv h z h' tr [= <- <- <-].
Defined.

Lemma config_roundtrip_witness :
  exists tr, load_config example_mem (fun _ => None) [] (fun _ _ => None) (fun _ _ => ret 0) example_open
      (str "run.cfg") example_conf =
    Done 0 (Csys (Config (Some 16) (Some 16) (Some 32) None 1000 true) example_host) tr.
Proof.
  apply (config_roundtrip example_mem (fun _ => None) [] (fun _ _ => None) (fun _ _ => ret 0) example_open
    example_settings (str "run.cfg") example_conf); [reflexivity|reflexivity|exact example_manager_ok|].
  repeat constructor; try done; try (apply list_elem_of_In; cbn; tauto); elem_dec.
Defined.
