(* ===== verification/Server.v ===== *)
(** * The server (srv/server.cpp)

    The coordinator: it starts the plugins, asks the fault manager for the faults of each tic, sends
    them to the communication backends and keeps time.  The fault manager and the backends are the
    records of operations found through the configuration; the generated protobuf code and the clock
    are parameters: [now i] is the [i]-th reading of the high resolution clock, in nanoseconds. *)

From S2P Require Import Prelude CString Types PluginManager Config.
Local Open Scope Z_scope.

(** ** Messages (proto/*.proto) *)

(** A decoded [Backchannel] message; enum fields are their numbers. *)
Record backchannel := Backchannel {
  bc_nodename : cstr;
  bc_type : Z;
  bc_logerrmsg : option cstr;
  bc_newstatus : option Z
}.

Definition LOG : Z := 0.
Definition ERROR : Z := 1.
Definition STATUS : Z := 2.
Definition STREADY : Z := 0.
Definition STERROR : Z := 1.
Definition STFINISHED : Z := 2.

(** [laik_ext_msg]. *)
Record laik_ext_msg := LaikExtMsg { failing_nodes : list cstr; spare_nodes : list cstr }.

(** ** State *)

Record server (W : Type) := Server {
  sv_tic : Z;
  sv_manager : option (fault_manager W);
  sv_com_actor : option (com W);
  sv_com_notify : option (com W);
  sv_nodes : list node;              (** [nodes], of length [num_nodes] *)
  sv_other_cb : msg_callback;
  sv_timestamp : Z;                  (** the global [timestamp] *)
  sv_duration : Z;                   (** the global [duration] *)
  sv_clock : nat                     (** readings of the clock so far *)
}.
Arguments Server {W}.
Arguments sv_tic {W}.
Arguments sv_manager {W}.
Arguments sv_com_actor {W}.
Arguments sv_com_notify {W}.
Arguments sv_nodes {W}.
Arguments sv_other_cb {W}.
Arguments sv_timestamp {W}.
Arguments sv_duration {W}.
Arguments sv_clock {W}.

(** [new Server()] zeroes the members. *)
Definition new_server {W} : server W := Server 0 None None None [] cb_null 0 0 0.

Section Setters.
Context {W : Type}.
Implicit Types s : server W.
Definition set_tic v s := Server v (sv_manager s) (sv_com_actor s) (sv_com_notify s) (sv_nodes s) (sv_other_cb s) (sv_timestamp s) (sv_duration s) (sv_clock s).
Definition set_manager v s := Server (sv_tic s) v (sv_com_actor s) (sv_com_notify s) (sv_nodes s) (sv_other_cb s) (sv_timestamp s) (sv_duration s) (sv_clock s).
Definition set_coms a n s := Server (sv_tic s) (sv_manager s) a n (sv_nodes s) (sv_other_cb s) (sv_timestamp s) (sv_duration s) (sv_clock s).
Definition set_nodes v s := Server (sv_tic s) (sv_manager s) (sv_com_actor s) (sv_com_notify s) v (sv_other_cb s) (sv_timestamp s) (sv_duration s) (sv_clock s).
Definition set_timestamp v s := Server (sv_tic s) (sv_manager s) (sv_com_actor s) (sv_com_notify s) (sv_nodes s) (sv_other_cb s) v (sv_duration s) (sv_clock s).
Definition set_duration v s := Server (sv_tic s) (sv_manager s) (sv_com_actor s) (sv_com_notify s) (sv_nodes s) (sv_other_cb s) (sv_timestamp s) v (sv_clock s).
Definition set_clock v s := Server (sv_tic s) (sv_manager s) (sv_com_actor s) (sv_com_notify s) (sv_nodes s) (sv_other_cb s) (sv_timestamp s) (sv_duration s) v.
End Setters.

(** The server, and the configuration and plugin manager it reaches through its pointers. *)
Record ssys (W : Type) := Ssys { ss_srv : server W; ss_csys : csys W }.
Arguments Ssys {W}.
Arguments ss_srv {W}.
Arguments ss_csys {W}.

Definition ss_conf {W} (s : ssys W) : config := cs_conf (ss_csys s).
Definition ss_host {W} (s : ssys W) : host W := cs_host (ss_csys s).
Definition ss_world {W} (s : ssys W) : W := h_world (ss_host s).

Definition with_host {W} (h : host W) (s : ssys W) : ssys W :=
  Ssys (ss_srv s) (Csys (cs_conf (ss_csys s)) h).
Definition with_world {W} (w : W) (s : ssys W) : ssys W := with_host (Host (h_pm (ss_host s)) w) s.

Section Server.
Context {W : Type} (mem : plugin_ptr -> plugin W (host W)).
Context (parse_backchannel : cstr -> option backchannel) (serialize : laik_ext_msg -> cstr).
Context (now : nat -> Z).
(* a callback of another part of the backend *)
Context (call_other : Z -> cstr -> prog event (ssys W) unit).
Local Open Scope prog_scope.

Definition on_host {A} (m : prog event (host W) A) : prog event (ssys W) A := zoom ss_host with_host m.
Definition on_world {A} (m : prog event W A) : prog event (ssys W) A := zoom ss_world with_world m.
Definition modify_srv (f : server W -> server W) : prog event (ssys W) unit :=
  modify (fun s => Ssys (f (ss_srv s)) (ss_csys s)).

(** Dereferences a pointer or calls a function pointer that must not be null. *)
Definition deref {A} (p : option A) : prog event (ssys W) A :=
  match p with Some a => ret a | None => stop Undefined end.

Definition read_clock : prog event (ssys W) Z :=
  s <- get ;;
  modify_srv (fun v => set_clock (S (sv_clock v)) v) ;;
  ret (now (sv_clock (ss_srv s))).

(** *** Initialisation *)

(** The post init hooks of the registered plugins, in address order; true when all returned 0. *)
Fixpoint run_post_init (ps : list plugin_ptr) : prog event (ssys W) bool :=
  match ps with
  | [] => ret true
  | p :: ps' =>
      match pl_post_init (mem p) with
      | None => run_post_init ps'
      | Some hook =>
          r <- on_host hook ;;
          if r =? 0 then run_post_init ps'
          else log LL_Fatal (str "error calling post init hook for " ++ pl_name (mem p)) ;; ret false
      end
  end.

(** The part of [init] after the check that the configuration is complete. *)
Definition connect_plugins (actor notify manager : plugin_ptr) : prog event (ssys W) Z :=
  ca <- deref (pl_c (mem actor)) ;;
  cn <- deref (pl_c (mem notify)) ;;
  modify_srv (set_coms (Some ca) (Some cn)) ;;
  (if Z.land (com_capabilities ca) COM_ASYNC =? COM_ASYNC then
     log LL_Debug (str "asynchronous backchannel") ;;
     set_callback <- deref (com_set_callback ca) ;;
     on_world (set_callback cb_server) ;;
     ret tt
   else ret tt) ;;
  fm <- deref (pl_fm (mem manager)) ;;
  modify_srv (set_manager (Some fm)) ;;
  r <- on_world (fm_get_nodes fm) ;;
  modify_srv (set_nodes (snd r)) ;;
  if negb (fst r =? 0) then log LL_Fatal (str "unable to get nodes") ;; ret 1
  else
    s <- get ;;
    modify_srv (set_duration (s64 (tic_length (ss_conf s)))) ;;
    ret 0.

Definition init : prog event (ssys W) Z :=
  modify_srv (set_tic 0) ;;
  log LL_Debug (str "config loaded successfully") ;;
  s <- get ;;
  ok <- run_post_init (keys (plugins (h_pm (ss_host s)))) ;;
  if negb ok then ret 1
  else
    s <- get ;;
    match com_actor (ss_conf s), com_notify (ss_conf s), conf_fault_manager (ss_conf s) with
    | Some a, Some n, Some f => connect_plugins a n f
    | _, _, _ => log LL_Fatal (str "configuration incomplete") ;; ret 1
    end.

(** *** Node states *)

Definition nodes_ready (ns : list node) : bool := forallb (fun n => n_state n =? NODE_STATE_READY) ns.

Definition all_nodes_ready : prog event (ssys W) bool := s <- get ;; ret (nodes_ready (sv_nodes (ss_srv s))).

(** The loop of [set_node_state]: the first node of the name; [None] when there is none. *)
Fixpoint update_node (name : cstr) (state : Z) (ns : list node) : option (list node) :=
  match ns with
  | [] => None
  | n :: ns' =>
      if strcmp_eq name (n_name n) then
        Some (Node (n_name n) (n_id n) (n_type n) state (n_num_components n) (n_components n) :: ns')
      else match update_node name state ns' with Some ns'' => Some (n :: ns'') | None => None end
  end.

Definition set_node_state (name : cstr) (state : Z) : prog event (ssys W) Z :=
  s <- get ;;
  match update_node name state (sv_nodes (ss_srv s)) with
  | Some ns => modify_srv (set_nodes ns) ;; ret 0
  | None => ret 1
  end.

(** The inner switch of [on_message]. *)
Definition status_of (st : Z) : cstr * Z :=
  if st =? STREADY then (str "ready", NODE_STATE_READY)
  else if st =? STERROR then (str "error", NODE_STATE_ERROR)
  else if st =? STFINISHED then (str "finished", NODE_STATE_FINISHED)
  else (str "unknown status", NODE_STATE_UNKNOWN).

Definition call_back (cb : msg_callback) (msg : cstr) : prog event (ssys W) unit :=
  match cb with
  | cb_other n => call_other n msg
  | _ => ret tt
  end.

(** [on_message] of an existing server; [other_cb] is never set to the server's own callback. *)
Definition on_message (msg : cstr) : prog event (ssys W) unit :=
  match parse_backchannel msg with
  | None => log LL_Warning (str "unable to decode message on backchannel")
  | Some back =>
      if bc_type back =? LOG then
        match bc_logerrmsg back with None => ret tt | Some m => log LL_Info (c_str m) end
      else if bc_type back =? ERROR then
        match bc_logerrmsg back with None => ret tt | Some m => log LL_Error (c_str m) end
      else if bc_type back =? STATUS then
        match bc_newstatus back with
        | None => log LL_Warning (str "status message did not contain a status")
        | Some st =>
            let (status, state) := status_of st in
            set_node_state (c_str (bc_nodename back)) state ;;
            log LL_Info (snprintf 127 (str "[" ++ c_str (bc_nodename back) ++ str "] new status: " ++ status))
        end
      else
        s <- get ;;
        call_back (sv_other_cb (ss_srv s)) msg
  end.

(** *** Tics *)

(** [timestamp += duration]: nanoseconds in a signed integer of 64 bits. *)
Definition add_duration : prog event (ssys W) unit :=
  s <- get ;;
  let t := sv_timestamp (ss_srv s) + sv_duration (ss_srv s) in
  if fits_s64 t then modify_srv (set_timestamp t) else stop Undefined.

(** The loop of [skip_to_end_of_tic] from the first comparison on; the result is [skip]. *)
Fixpoint skip_loop (fuel : nat) (skip : Z) : prog event (ssys W) Z :=
  match fuel with
  | O => stop OutOfFuel
  | S fuel' =>
      t <- read_clock ;;
      s <- get ;;
      if sv_timestamp (ss_srv s) <? t then
        add_duration ;;
        skip_loop fuel' (u32 (skip + 1))
      else ret skip
  end.

Definition skip_to_end_of_tic (fuel : nat) : prog event (ssys W) unit :=
  modify_srv (fun v => set_tic (u64 (sv_tic v + 1)) v) ;;
  s <- get ;;
  if tic_length (ss_conf s) =? 0 then ret tt
  else
    add_duration ;;
    skip <- skip_loop fuel 0 ;;
    (if skip =? 0 then ret tt
     else log LL_Warning (print_u skip ++ str " tics skipped - increase tic time?")) ;;
    s <- get ;;
    emit (ESleepUntil (sv_timestamp (ss_srv s))) ;;
    modify_srv (fun v => set_tic (u64 (sv_tic v + skip)) v).

(** The body of the loop of [manage_fails]. *)
Definition dispatch (f : fault) (m : laik_ext_msg) : prog event (ssys W) laik_ext_msg :=
  s <- get ;;
  actor <- deref (sv_com_actor (ss_srv s)) ;;
  on_world (com_notify_fail actor (f_node f) (f_component f) (f_severity f)) ;;
  match f_component f with
  | Some _ => ret m
  | None =>
      log LL_Info (snprintf 512 (str "Node " ++ f_node f ++ str " " ++
        (if f_severity f =? 0 then str "recovered" else str "failed"))) ;;
      if f_severity f =? 0 then ret (LaikExtMsg (failing_nodes m) (spare_nodes m ++ [f_node f]))
      else ret (LaikExtMsg (failing_nodes m ++ [f_node f]) (spare_nodes m))
  end.

Fixpoint dispatch_all (fs : list fault) (m : laik_ext_msg) : prog event (ssys W) laik_ext_msg :=
  match fs with
  | [] => ret m
  | f :: fs' => m' <- dispatch f m ;; dispatch_all fs' m'
  end.

Definition manage_fails : prog event (ssys W) unit :=
  s <- get ;;
  fm <- deref (sv_manager (ss_srv s)) ;;
  failed <- on_world (fm_get_fail fm) ;;
  if Z.of_nat (length failed) =? 0 then ret tt
  else
    s <- get ;;
    log LL_Info (snprintf 512 (str "Tic #" ++ print_u (sv_tic (ss_srv s)))) ;;
    m <- dispatch_all failed (LaikExtMsg [] []) ;;
    notify <- deref (sv_com_notify (ss_srv s)) ;;
    on_world (com_notify_extern notify (serialize m)) ;;
    ret tt.

Definition do_tic (fuel : nat) : prog event (ssys W) Z :=
  s <- get ;;
  (if sv_tic (ss_srv s) =? 0 then
     t <- read_clock ;; modify_srv (set_timestamp t)
   else ret tt) ;;
  fm <- deref (sv_manager (ss_srv s)) ;;
  on_world (fm_tic fm) ;;
  manage_fails ;;
  skip_to_end_of_tic fuel ;;
  ret 0.

Definition send_synced_signal : prog event (ssys W) unit :=
  s <- get ;;
  for_each (sv_nodes (ss_srv s)) (fun n =>
    actor <- deref (sv_com_actor (ss_srv s)) ;;
    on_world (com_notify_fail actor (n_name n) None 0) ;;
    ret tt).

(** [get_messages]. *)
Definition get_messages : prog event (ssys W) Z := ret 0.

End Server.

(** ** Node states *)

Lemma update_node_some name state ns ns' : update_node name state ns = Some ns' ->
  exists l n r, ns = l ++ n :: r /\ n_name n = name /\ (forall m, m ∈ l -> n_name m <> name) /\
    ns' = l ++ Node (n_name n) (n_id n) (n_type n) state (n_num_components n) (n_components n) :: r.
Proof.
  revert ns'. induction ns as [|n ns IH]; intros ns'; cbn; [done|]. unfold strcmp_eq. case_bool_decide as Hn.
  - intros [= <-]. exists [], n, ns. split; [done|]. split; [done|]. split; [|done]. by intros ? ?%not_elem_of_nil.
  - destruct (update_node name state ns) as [ns''|]; [|done]. intros [= <-].
    destruct (IH ns'' eq_refl) as (l & m & r & -> & Hm & Hl & ->). exists (n :: l), m, r.
    split; [done|]. split; [done|]. split; [|done]. intros x [->|Hx]%elem_of_cons; [congruence|by apply Hl].
Qed.

Lemma update_node_none name state ns : update_node name state ns = None <-> forall n, n ∈ ns -> n_name n <> name.
Proof.
  induction ns as [|n ns IH]; cbn; [split; [by intros _ ? ?%not_elem_of_nil|done]|].
  unfold strcmp_eq. case_bool_decide as Hn.
  - split; [done|]. intros H. destruct (H n); [by left|done].
  - destruct (update_node name state ns) as [ns'|].
    + split; [done|]. intros H. destruct IH as [_ IH]. lapply IH; [done|]. intros m Hm. apply H. by right.
    + split; [|done]. intros _ m [->|Hm]%elem_of_cons; [congruence|]. by apply (proj1 IH eq_refl).
Qed.

Section NodeStates.
Context {W : Type} (parse_backchannel : cstr -> option backchannel).
Context (call_other : Z -> cstr -> prog event (ssys W) unit).

(** The bytes of a status message of a node that reports it is ready. *)
Definition ready_message (name msg : cstr) : Prop :=
  exists m, parse_backchannel msg = Some m /\ bc_type m = STATUS /\
    bc_newstatus m = Some STREADY /\ c_str (bc_nodename m) = name.

Definition nodes_of (s : ssys W) : list node := sv_nodes (ss_srv s).

(** What a ready message does to the list of nodes. *)
Definition mark_ready (name : cstr) (ns : list node) : list node :=
  default ns (update_node name NODE_STATE_READY ns).

(** Only the nodes may differ. *)
Definition same_but_nodes (s s' : ssys W) : Prop := s' = Ssys (set_nodes (nodes_of s') (ss_srv s)) (ss_csys s).

Lemma same_but_nodes_refl s : same_but_nodes s s.
Proof. by destruct s as [[] cs]. Qed.

Lemma same_but_nodes_trans s s' s'' : same_but_nodes s s' -> same_but_nodes s' s'' -> same_but_nodes s s''.
Proof. unfold same_but_nodes. intros E1 E2. rewrite E2, E1. done. Qed.

Lemma on_message_ready name msg s : ready_message name msg ->
  exists s', runs (on_message parse_backchannel call_other msg) s tt s' [] /\
    nodes_of s' = mark_ready name (nodes_of s) /\ same_but_nodes s s'.
Proof.
  intros (m & Hp & Ht & Hs & Hn). unfold on_message. rewrite Hp, Ht, Hs. cbn [Z.eqb]. rewrite Hn.
  unfold runs, set_node_state, log, bind, get, ret, emit, modify_srv, modify, mark_ready, nodes_of. cbn.
  destruct (update_node name NODE_STATE_READY (sv_nodes (ss_srv s))) as [ns|]; eexists;
    (split; [by eexists|split; [done|]]); [done|apply same_but_nodes_refl].
Qed.

(** Without a callback of another part a message changes no more than the nodes, and nothing is seen of it. *)
Lemma on_message_nodes_only msg s : sv_other_cb (ss_srv s) = cb_null ->
  exists s', runs (on_message parse_backchannel call_other msg) s tt s' [] /\ same_but_nodes s s'.
Proof.
  intros Hcb. unfold on_message. destruct (parse_backchannel msg) as [m|]; [|exists s; split; [apply runs_log|apply same_but_nodes_refl]].
  destruct (bc_type m =? LOG); [destruct (bc_logerrmsg m); exists s; (split; [by eexists|apply same_but_nodes_refl])|].
  destruct (bc_type m =? ERROR); [destruct (bc_logerrmsg m); exists s; (split; [by eexists|apply same_but_nodes_refl])|].
  destruct (bc_type m =? STATUS).
  - destruct (bc_newstatus m) as [st|]; [|exists s; split; [apply runs_log|apply same_but_nodes_refl]]. destruct (status_of st) as [text z].
    unfold runs, set_node_state, log, bind, get, ret, emit, modify_srv, modify.
    destruct (update_node (c_str (bc_nodename m)) z (sv_nodes (ss_srv s))) as [ns|]; eexists; (split; [by eexists|]); [done|apply same_but_nodes_refl].
  - exists s. split; [|apply same_but_nodes_refl]. eapply runs_then; [by exists []|]. cbv beta. rewrite Hcb. apply runs_ret.
Qed.

Lemma mark_ready_names name ns : map n_name (mark_ready name ns) = map n_name ns.
Proof.
  unfold mark_ready. destruct (update_node _ _ ns) as [ns'|] eqn:E; [|done].
  apply update_node_some in E as (l & n & r & -> & _ & _ & ->). cbn. by rewrite !map_app.
Qed.

(** With distinct names: the node of the name becomes ready, the others stay as they are. *)
Lemma mark_ready_elem name ns n : NoDup (map n_name ns) -> n ∈ mark_ready name ns ->
  n_state n = NODE_STATE_READY \/ (n_name n <> name /\ n ∈ ns).
Proof.
  unfold mark_ready. intros Hd. destruct (update_node name NODE_STATE_READY ns) as [ns'|] eqn:E; cbn.
  - apply update_node_some in E as (l & n0 & r & -> & Hn & Hl & ->).
    rewrite map_app in Hd. apply NoDup_app in Hd as (_ & _ & Hd%NoDup_cons). destruct Hd as [Hd _].
    rewrite elem_of_app, elem_of_cons. intros [H|[->|H]]; [right|by left|right].
    + split; [by apply Hl|]. set_solver.
    + split; [|set_solver]. intros E. apply Hd. rewrite Hn, <- E. by apply list_elem_of_fmap_2.
  - intros H. right. split; [|done]. rewrite update_node_none in E. by apply E.
Qed.

Definition receive_all (msgs : list cstr) : prog event (ssys W) unit :=
  for_each msgs (on_message parse_backchannel call_other).

Lemma receive_all_ready names msgs s : Forall2 ready_message names msgs -> NoDup (map n_name (nodes_of s)) ->
  exists s', runs (receive_all msgs) s tt s' [] /\ same_but_nodes s s' /\
    map n_name (nodes_of s') = map n_name (nodes_of s) /\
    forall n, n ∈ nodes_of s' -> n_state n = NODE_STATE_READY \/ (n_name n ∉ names /\ n ∈ nodes_of s).
Proof.
  intros H. revert s. induction H as [|name msg names msgs Hm _ IH]; intros s Hd.
  - exists s. split; [apply runs_ret|]. split; [apply same_but_nodes_refl|]. split; [done|]. intros n Hn. right. split; [apply not_elem_of_nil|done].
  - destruct (on_message_ready name msg s Hm) as (s1 & R1 & Hs1 & Hb1).
    destruct (IH s1) as (s2 & R2 & Hb2 & Hnm & Hs2); [by rewrite Hs1, mark_ready_names|].
    exists s2. split; [unfold receive_all; cbn [for_each]; eapply runs_then; [exact R1|exact R2]|].
    split; [by eapply same_but_nodes_trans|].
    rewrite Hs1, mark_ready_names in Hnm. split; [done|]. intros n Hn.
    destruct (Hs2 n Hn) as [|[Hnn Hn1]]; [by left|]. rewrite Hs1 in Hn1.
    destruct (mark_ready_elem _ _ _ Hd Hn1) as [|[? ?]]; [by left|right]. by rewrite not_elem_of_cons.
Qed.

(** Once every node of a system with distinct node names has sent a status message saying it is
    ready, in whatever order the messages arrive, [all_nodes_ready] holds and the synchronised start
    can go ahead. *)
Theorem all_ready_after_messages names msgs s :
  NoDup (map n_name (nodes_of s)) -> Forall2 ready_message names msgs ->
  (forall n, n ∈ nodes_of s -> n_name n ∈ names) ->
  exists s' tr, receive_all msgs s = Done tt s' tr /\ all_nodes_ready s' = Done true s' [].
Proof.
  intros Hd Hm Hall. destruct (receive_all_ready names msgs s Hm Hd) as (s' & (tr & E & _) & _ & Hnm & Hs').
  exists s', tr. split; [done|]. unfold all_nodes_ready, bind, get, ret. do 2 f_equal.
  apply forallb_forall. intros n Hn%list_elem_of_In. apply Z.eqb_eq.
  destruct (Hs' n Hn) as [|[Hnot Hin]]; [done|]. by destruct Hnot; apply Hall.
Qed.

Lemma receive_nodes_only msgs : forall s, sv_other_cb (ss_srv s) = cb_null ->
  exists s', runs (receive_all msgs) s tt s' [] /\ same_but_nodes s s'.
Proof.
  induction msgs as [|msg msgs IH]; intros s Hcb; [exists s; split; [apply runs_ret|apply same_but_nodes_refl]|].
  destruct (on_message_nodes_only msg s Hcb) as (s1 & R1 & B1). destruct (IH s1) as (s2 & R2 & B2); [by rewrite B1|].
  exists s2. split; [eapply runs_then; [exact R1|exact R2]|by eapply same_but_nodes_trans].
Qed.

(** [set_node_state] changes the state of the first node of the given name and nothing else; a
    second node of the same name is never reached, and an unknown name gives 1. *)
Theorem set_node_state_spec name state (s : ssys W) :
  (forall l n r, nodes_of s = l ++ n :: r -> n_name n = name -> (forall m, m ∈ l -> n_name m <> name) ->
    exists s', set_node_state name state s = Done 0 s' [] /\ ss_csys s' = ss_csys s /\
      nodes_of s' = l ++ Node name (n_id n) (n_type n) state (n_num_components n) (n_components n) :: r) /\
  ((forall n, n ∈ nodes_of s -> n_name n <> name) -> set_node_state name state s = Done 1 s []).
Proof.
  unfold set_node_state, bind, get, ret, modify_srv, modify. split.
  - intros l n r Hs Hn Hl. unfold nodes_of in Hs. rewrite Hs.
    assert (update_node name state (l ++ n :: r) =
      Some (l ++ Node name (n_id n) (n_type n) state (n_num_components n) (n_components n) :: r)) as ->.
    { clear Hs. induction l as [|m l IH]; cbn; unfold strcmp_eq.
      - by rewrite bool_decide_true, Hn.
      - rewrite bool_decide_false by (intros ->; by apply (Hl m); [left|]).
        rewrite IH; [done|]. intros x Hx. apply Hl. by right. }
    by eexists.
  - intros Hno%(update_node_none name state). unfold nodes_of in Hno. by rewrite Hno.
Qed.

End NodeStates.

(** ** Examples

    In the examples a message is the name of a node that reports it is ready, and the message to the
    external backend is the concatenation of the names. *)

Definition example_parse (msg : cstr) : option backchannel := Some (Backchannel msg STATUS None (Some STREADY)).
Definition example_serialize (m : laik_ext_msg) : cstr := concat (failing_nodes m ++ spare_nodes m).
Definition example_other {W} (n : Z) (msg : cstr) : prog event (ssys W) unit := ret tt.

Definition example_nodes : list node := sc_nodes example_script.
Definition example_sys {W} (w : W) : ssys W :=
  Ssys (set_nodes example_nodes new_server) (Csys new_config (Host example_manager w)).

Lemma example_nodes_nodup : NoDup (map n_name example_nodes).
Proof. repeat constructor; elem_dec. Qed.

Lemma all_ready_after_messages_witness :
  exists s' tr, receive_all example_parse example_other [str "node1"; str "node0"] (example_sys tt) = Done tt s' tr /\
    all_nodes_ready s' = Done true s' [].
Proof.
  apply (all_ready_after_messages example_parse example_other [str "node1"; str "node0"]); [exact example_nodes_nodup| |].
  - repeat constructor; by eexists.
  - intros n Hn. by apply list_elem_of_In in Hn as [<-|[<-|[]]]; apply list_elem_of_In; cbn; tauto.
Defined.

Lemma set_node_state_spec_witness :
  (exists s', set_node_state (str "node1") NODE_STATE_ERROR (example_sys tt) = Done 0 s' [] /\
    all_nodes_ready s' = Done false s' []) /\
  set_node_state (str "node7") NODE_STATE_ERROR (example_sys tt) = Done 1 (example_sys tt) [].
Proof.
  destruct (set_node_state_spec (str "node1") NODE_STATE_ERROR (example_sys tt)) as [H _].
  destruct (set_node_state_spec (str "node7") NODE_STATE_ERROR (example_sys tt)) as [_ H7]. split.
  - destruct (H [example_node "node0"] (example_node "node1") []) as (s' & E & _ & Hn); [done|done| |].
    + by intros m Hm%list_elem_of_singleton; subst m.
    + exists s'. split; [done|]. unfold all_nodes_ready, bind, get, ret. fold (nodes_of s'). by rewrite Hn.
  - apply H7. intros n Hn. by apply list_elem_of_In in Hn as [<-|[<-|[]]].
Defined.
