(* ===== verification/ServerTics.v ===== *)
(** * The tic loop of the server: dispatch of the faults and time keeping

    Theorems about [do_tic], [manage_fails] and [skip_to_end_of_tic] of Server.v: every fault goes to
    the actor backend in order, the external backend gets one message that sorts the failed and the
    recovered nodes, and the tic counter stays in step with the clock. *)

From S2P Require Import Prelude CString Types PluginManager Config Server.
Local Open Scope Z_scope.

(** ** A backend that only remembers its calls *)

Inductive com_call :=
| CallFail (target : cstr) (component : option cstr) (severity : Z)
| CallExtern (msg : cstr).

Definition recorder : com (list com_call) :=
  Com COM_NONE
    (fun n k v => bind (modify (fun calls => calls ++ [CallFail n k v])) (fun _ => ret 0))
    (fun m => bind (modify (fun calls => calls ++ [CallExtern m])) (fun _ => ret 0))
    None None None.

#[export] Instance recorder_safe : ComSafe recorder.
Proof. by refine {| com_inv := fun _ => True |}; repeat eexists. Defined.

(** ** Dispatch *)

(** The names of the nodes that failed, or recovered, as a whole. *)
Definition whole_node (p : Z -> bool) (f : fault) : bool :=
  match f_component f with None => p (f_severity f) | Some _ => false end.
Definition recovered (f : fault) : bool := whole_node (fun v => v =? 0) f.
Definition failed (f : fault) : bool := whole_node (fun v => negb (v =? 0)) f.

Definition fail_message (fs : list fault) : laik_ext_msg :=
  LaikExtMsg (map f_node (List.filter failed fs)) (map f_node (List.filter recovered fs)).

(** The calls the backends owe for the faults of a tic. *)
Definition calls_of (serialize : laik_ext_msg -> cstr) (fs : list fault) : list com_call :=
  match fs with
  | [] => []
  | _ => map (fun f => CallFail (f_node f) (f_component f) (f_severity f)) fs ++ [CallExtern (serialize (fail_message fs))]
  end.

Section Dispatch.
Context {F : Type} (fm : fault_manager F) (serialize : laik_ext_msg -> cstr).
#[local] Abbreviation W := (F * list com_call)%type.

Definition rec_com : com W := zoom_com snd (fun c w => (w.1, c)) recorder.
Definition rec_fm : fault_manager W := zoom_fm fst (fun f w => (f, w.2)) fm.

(** A server whose backends remember their calls. *)
Definition recording (s : ssys W) : Prop :=
  sv_com_actor (ss_srv s) = Some rec_com /\ sv_com_notify (ss_srv s) = Some rec_com /\
  sv_manager (ss_srv s) = Some rec_fm /\ sv_other_cb (ss_srv s) = cb_null.

Definition append_calls (cs : list com_call) (s : ssys W) : ssys W :=
  with_world ((ss_world s).1, (ss_world s).2 ++ cs) s.

Lemma append_append a b s : append_calls b (append_calls a s) = append_calls (a ++ b) s.
Proof. unfold append_calls, with_world, with_host. cbn. by rewrite <- app_assoc. Qed.

Lemma append_nil s : append_calls [] s = s.
Proof. destruct s as [v [c [p [f l]]]]. unfold append_calls, with_world, with_host. cbn. by rewrite app_nil_r. Qed.

Lemma dispatch_spec f m s : recording s ->
  exists tr, dispatch f m s = Done
    (LaikExtMsg (failing_nodes m ++ map f_node (List.filter failed [f]))
                (spare_nodes m ++ map f_node (List.filter recovered [f])))
    (append_calls [CallFail (f_node f) (f_component f) (f_severity f)] s) tr.
Proof.
  intros (Ha & _). unfold dispatch. unfold bind at 1, get. rewrite Ha.
  unfold deref, on_world, bind, ret, zoom, log, emit. cbn. unfold failed, recovered, whole_node.
  destruct (f_component f); cbn; [rewrite !app_nil_r; destruct m; by eexists|].
  destruct (f_severity f =? 0); cbn; rewrite app_nil_r; by eexists.
Qed.

Lemma dispatch_all_spec fs m s : recording s ->
  exists tr, dispatch_all fs m s = Done
    (LaikExtMsg (failing_nodes m ++ map f_node (List.filter failed fs))
                (spare_nodes m ++ map f_node (List.filter recovered fs)))
    (append_calls (map (fun f => CallFail (f_node f) (f_component f) (f_severity f)) fs) s) tr.
Proof.
  revert m s. induction fs as [|f fs IH]; intros m s Hs.
  - exists []. cbn. rewrite !app_nil_r, append_nil. by destruct m.
  - destruct (dispatch_spec f m s Hs) as [t1 E1].
    edestruct IH as [t2 E2]; [|exists (t1 ++ t2);
      etransitivity; [exact (bind_done _ _ _ _ _ _ _ _ _ E1 E2)|]; f_equal].
    + exact Hs.
    + cbn [failing_nodes spare_nodes List.filter]. rewrite <- !app_assoc, <- !map_app.
      by destruct (failed f), (recovered f).
    + by rewrite append_append.
Qed.

(** What [manage_fails] does with the faults of a tic. *)
Lemma manage_fails_run fs f1 t1 s : recording s ->
  fm_get_fail fm (ss_world s).1 = Done fs f1 t1 ->
  exists tr, manage_fails serialize s =
    Done tt (with_world (f1, (ss_world s).2 ++ calls_of serialize fs) s) tr.
Proof.
  intros Hs E. pose proof Hs as (_ & Hn & Hm & _). unfold manage_fails. unfold bind at 1, get. rewrite Hm.
  unfold deref at 1. unfold bind at 1, ret at 1.
  assert (on_world (fm_get_fail rec_fm) s = Done fs (with_world (f1, (ss_world s).2) s) t1) as E'.
  { exact (zoom_done ss_world with_world _ s fs (f1, (ss_world s).2) t1
      (zoom_done fst (fun f w => (f, w.2)) _ (ss_world s) fs f1 t1 E)). }
  unfold bind at 1. rewrite E'. destruct fs as [|f fs].
  { cbn. rewrite app_nil_r. by eexists. }
  set (s1 := with_world (f1, (ss_world s).2) s).
  destruct (dispatch_all_spec (f :: fs) (LaikExtMsg [] []) s1 Hs) as [t2 E2].
  destruct (Z.eqb_spec (Z.of_nat (length (f :: fs))) 0) as [H0|_]; [simpl in H0; lia|].
  unfold bind at 1, log, emit. unfold bind at 1. unfold bind at 1. cbn [ss_srv with_world with_host s1].
  rewrite E2. cbn [ss_srv]. rewrite Hn. unfold deref, bind, ret, on_world, zoom. cbn. eexists. f_equal.
  unfold with_world, with_host. cbn. by rewrite <- app_assoc.
Qed.

End Dispatch.

(** ** Time keeping *)

Section Clock.
Context {W : Type} (serialize : laik_ext_msg -> cstr) (now : nat -> Z).
Implicit Types s : ssys W.

Definition ts s : Z := sv_timestamp (ss_srv s).
Definition dur s : Z := sv_duration (ss_srv s).
Definition readings s : nat := sv_clock (ss_srv s).

(** The state after [n] rounds of the loop: the timestamp moved by [n] durations. *)
Definition skipped (n : nat) s : ssys W :=
  Ssys (set_clock (readings s + n)%nat (set_timestamp (ts s + Z.of_nat n * dur s) (ss_srv s))) (ss_csys s).

(** The first [n] readings from [s] on are late, reading [n] is in time. *)
Definition late_by (n : nat) (base d : Z) (first : nat) : Prop :=
  (forall i, (i < n)%nat -> base + Z.of_nat i * d < now (first + i)%nat) /\
  now (first + n)%nat <= base + Z.of_nat n * d.

(** The end of the tic can be moved [n] times. *)
Definition room_for (n base d : Z) : Prop := - 2 ^ 63 <= base /\ 0 <= d /\ base + n * d < 2 ^ 63.

Lemma add_duration_spec s : room_for 1 (ts s) (dur s) ->
  add_duration s = Done tt (Ssys (set_timestamp (ts s + dur s) (ss_srv s)) (ss_csys s)) [].
Proof.
  intros (H1 & H2 & H3). unfold add_duration, modify_srv, modify, bind, get, ts, dur in *. by rewrite fits_s64_true by lia.
Qed.

Lemma skip_loop_spec n fuel skip s : late_by n (ts s) (dur s) (readings s) -> room_for (Z.of_nat n) (ts s) (dur s) ->
  (n < fuel)%nat -> 0 <= skip -> skip + Z.of_nat n < 2 ^ 32 ->
  skip_loop now fuel skip s = Done (skip + Z.of_nat n)
    (Ssys (set_clock (S (readings s + n)) (ss_srv (skipped n s))) (ss_csys s)) [].
Proof.
  unfold late_by. revert fuel skip s. induction n as [|n IH]; intros fuel skip s [Hl Hr] Hroom Hf H0 Hu.
  - destruct fuel as [|fuel]; [lia|]. cbn [skip_loop].
    unfold read_clock, modify_srv, bind, get, modify, ret. cbn.
    unfold ts, dur, readings in *. change (Z.of_nat 0) with 0 in Hr. rewrite Z.mul_0_l, Z.add_0_r, Nat.add_0_r in Hr.
    destruct (Z.ltb_spec (sv_timestamp (ss_srv s)) (now (sv_clock (ss_srv s)))); [lia|].
    unfold skipped, ts, dur, readings, set_timestamp, set_clock. cbn. rewrite !Z.add_0_r, Nat.add_0_r. by destruct s as [[] ?].
  - destruct fuel as [|fuel]; [lia|]. cbn [skip_loop].
    unfold read_clock, modify_srv. unfold bind at 1 2 3, get at 1, modify at 1, ret at 1.
    unfold bind at 1, get at 1. cbn [ss_srv set_clock sv_timestamp].
    pose proof (Hl 0%nat ltac:(lia)) as H. rewrite Z.mul_0_l, Z.add_0_r, Nat.add_0_r in H.
    unfold ts, readings in H. destruct (Z.ltb_spec (sv_timestamp (ss_srv s)) (now (sv_clock (ss_srv s)))); [|lia].
    unfold bind at 1. rewrite add_duration_spec by (unfold room_for, ts, dur in *; cbn; lia). rewrite u32_id by (unfold is_u32; lia).
    set (s1 := Ssys _ _).
    assert (ts s1 = ts s + dur s /\ dur s1 = dur s /\ readings s1 = S (readings s)) as (Ht & Hd & Hrd) by done.
    rewrite (IH fuel (skip + 1) s1); [| |rewrite Ht, Hd; unfold room_for in *; lia|lia|lia|lia].
    + cbn -[Z.of_nat]. rewrite Nat2Z.inj_succ. f_equal; [lia|].
      unfold skipped, ts, dur, readings. cbn -[Z.of_nat]. unfold set_clock, set_timestamp. cbn -[Z.of_nat].
      rewrite Nat.add_succ_r. do 2 f_equal. lia.
    + rewrite Ht, Hd, Hrd. split.
      * intros i Hi. specialize (Hl (S i) ltac:(lia)). rewrite Nat.add_succ_r in Hl. cbn [Nat.add]. lia.
      * rewrite Nat.add_succ_r in Hr. cbn [Nat.add]. lia.
Qed.

Lemma skip_to_end_spec n fuel s : tic_length (ss_conf s) <> 0 ->
  late_by n (ts s + dur s) (dur s) (readings s) -> room_for (1 + Z.of_nat n) (ts s) (dur s) -> (n < fuel)%nat ->
  0 <= sv_tic (ss_srv s) -> sv_tic (ss_srv s) + 1 + Z.of_nat n < 2 ^ 32 ->
  exists tr, skip_to_end_of_tic now fuel s = Done tt
    (Ssys (Server.set_tic (sv_tic (ss_srv s) + 1 + Z.of_nat n)
       (set_timestamp (ts s + (1 + Z.of_nat n) * dur s) (set_clock (S (readings s + n)) (ss_srv s)))) (ss_csys s)) tr.
Proof.
  intros Htl Hlate Hroom Hf H0 Hu. unfold skip_to_end_of_tic, modify_srv.
  unfold bind at 1 2, modify at 1, get at 1. unfold ss_conf. cbn [ss_csys]. fold (ss_conf s).
  destruct (Z.eqb_spec (tic_length (ss_conf s)) 0); [done|].
  unfold bind at 1. rewrite add_duration_spec by (unfold room_for, ts, dur in *; cbn -[Z.of_nat] in *; nia). cbn [ss_srv ss_csys]. set (s1 := Ssys _ _).
  unfold bind at 1. rewrite (skip_loop_spec n fuel 0 s1); [|done|unfold room_for, ts, dur in *; cbn -[Z.of_nat] in *; nia|done|lia|lia].
  rewrite Z.add_0_l. unfold bind at 1.
  assert (forall s', exists tr, (if Z.of_nat n =? 0 then ret tt else
    log LL_Warning (print_u (Z.of_nat n) ++ str " tics skipped - increase tic time?")) s' = Done tt s' tr) as Hlog.
  { intros s'. destruct (Z.of_nat n =? 0); by eexists. }
  match goal with |- context [(if Z.of_nat n =? 0 then _ else _) ?s'] => destruct (Hlog s') as [t ->] end.
  unfold modify. eexists. f_equal. unfold skipped, s1, ts, dur, readings, Server.set_tic, set_timestamp, set_clock.
  cbn -[Z.of_nat u64]. rewrite (u64_id (sv_tic (ss_srv s) + 1)), u64_id by (unfold is_u64; lia).
  do 2 f_equal. lia.
Qed.

(** With a negative duration the end of the tic moves away from the clock, until it is out of range: [n] more durations fit. *)
Lemma skip_loop_overflow n : forall fuel skip s, (forall i, (readings s <= i)%nat -> ts s < now i) -> dur s < 0 -> ts s < 2 ^ 63 ->
  - 2 ^ 63 <= ts s + Z.of_nat n * dur s -> ts s + (Z.of_nat n + 1) * dur s < - 2 ^ 63 ->
  skip_loop now fuel skip s = Halt (if Nat.ltb n fuel then Undefined else OutOfFuel) [].
Proof.
  induction n as [|n IH]; intros [|fuel] skip s Hl Hd Hr Hn Hn1; try done; cbn [skip_loop];
    unfold read_clock, modify_srv; unfold bind at 1 2 3, get at 1, modify at 1, ret at 1; unfold bind at 1, get at 1; cbn [ss_srv set_clock sv_timestamp];
    pose proof (Hl (readings s) (le_n _)) as Hlt; unfold ts, readings in Hlt; destruct (Z.ltb_spec (sv_timestamp (ss_srv s)) (now (sv_clock (ss_srv s)))); try lia.
  - unfold add_duration, bind, get. cbv zeta. cbn [ss_srv set_clock sv_timestamp sv_duration]. unfold ts, dur in *.
    destruct (fits_s64 _) eqn:E; [|done]. unfold fits_s64 in E. apply andb_prop in E as [E1%Z.leb_le _]. lia.
  - unfold add_duration, bind, get. cbv zeta. cbn [ss_srv set_clock sv_timestamp sv_duration]. unfold ts, dur, readings in *.
    rewrite fits_s64_true by nia. unfold modify_srv, modify. cbn [ss_srv ss_csys].
    rewrite IH; [done|..]; cbn [ss_srv set_clock set_timestamp sv_timestamp sv_duration sv_clock]; try nia.
    intros i Hi. specialize (Hl i ltac:(lia)). lia.
Qed.

(** The same for the end of a tic, which begins with a duration of its own. *)
Lemma skip_to_end_overflow n fuel s : tic_length (ss_conf s) <> 0 -> (forall i, (readings s <= i)%nat -> ts s <= now i) ->
  dur s < 0 -> ts s < 2 ^ 63 ->
  - 2 ^ 63 <= ts s + (Z.of_nat n + 1) * dur s -> ts s + (Z.of_nat n + 2) * dur s < - 2 ^ 63 ->
  skip_to_end_of_tic now fuel s = Halt (if Nat.ltb n fuel then Undefined else OutOfFuel) [].
Proof.
  intros Htl Hl Hd Hr Hn Hn1. unfold skip_to_end_of_tic, modify_srv, add_duration, bind, modify, get. cbv zeta.
  unfold ss_conf, ts, dur, readings in *. cbn [ss_srv ss_csys sv_timestamp sv_duration Server.set_tic].
  destruct (Z.eqb_spec (tic_length (cs_conf (ss_csys s))) 0); [done|]. cbn [ss_srv ss_csys sv_timestamp sv_duration Server.set_tic].
  rewrite fits_s64_true by nia. unfold modify_srv, modify. cbn [ss_srv ss_csys].
  rewrite (skip_loop_overflow n); [done|..]; unfold ts, dur, readings; cbn [ss_srv set_timestamp sv_timestamp sv_duration sv_clock Server.set_tic]; try lia.
  intros i Hi. specialize (Hl i Hi). lia.
Qed.

Context (I : W -> Prop) (fm : fault_manager W) (actor notify : com W) `{!PluginsSafe I fm actor notify}.

(** A server connected to its plugins, whose own state satisfies their contract. *)
Definition connected s : Prop :=
  sv_manager (ss_srv s) = Some fm /\ sv_com_actor (ss_srv s) = Some actor /\
  sv_com_notify (ss_srv s) = Some notify /\ I (ss_world s).

(** Only the plugins' state may differ. *)
Definition same_but_world s s' : Prop := ss_srv s' = ss_srv s /\ ss_conf s' = ss_conf s /\ h_pm (ss_host s') = h_pm (ss_host s).

Lemma on_world_safe {A} (m : prog event W A) s :
  (exists a w' tr, m (ss_world s) = Done a w' tr /\ I w') ->
  exists a s' tr, on_world m s = Done a s' tr /\ same_but_world s s' /\ I (ss_world s').
Proof.
  intros (a & w' & tr & E & HI). exists a, (with_world w' s), tr. split; [by apply zoom_done|]. done.
Qed.

Lemma dispatch_safe f m s : connected s -> exists m' s' tr, dispatch f m s = Done m' s' tr /\
  same_but_world s s' /\ I (ss_world s').
Proof.
  intros (Hm & Ha & Hn & HI). unfold dispatch. unfold bind at 1, get. rewrite Ha. unfold deref, ret.
  destruct (on_world_safe (com_notify_fail actor (f_node f) (f_component f) (f_severity f)) s)
    as (r & s' & tr & E & Hs & HI'); [by apply ps_notify_fail|].
  unfold bind, log, emit. rewrite E. destruct (f_component f); [by eexists _, s', _|].
  destruct (f_severity f =? 0); by eexists _, s', _.
Qed.

Lemma connected_same s s' : connected s -> same_but_world s s' -> I (ss_world s') -> connected s'.
Proof. unfold connected. intros (? & ? & ? & _) (-> & _) ?. by split_and!. Qed.

Lemma same_trans s s' s'' : same_but_world s s' -> same_but_world s' s'' -> same_but_world s s''.
Proof. unfold same_but_world. intros (-> & -> & ->) (-> & -> & ->). done. Qed.

Lemma dispatch_all_safe fs m s : connected s -> exists m' s' tr, dispatch_all fs m s = Done m' s' tr /\
  same_but_world s s' /\ I (ss_world s').
Proof.
  revert m s. induction fs as [|f fs IH]; intros m s Hc; [exists m, s, []; split; [done|]; split; [done|apply Hc]|].
  destruct (dispatch_safe f m s Hc) as (m1 & s1 & t1 & E1 & H1 & I1).
  destruct (IH m1 s1) as (m2 & s2 & t2 & E2 & H2 & I2); [by eapply connected_same|].
  exists m2, s2, (t1 ++ t2). split; [exact (bind_done _ _ _ _ _ _ _ _ _ E1 E2)|]. split; [by eapply same_trans|done].
Qed.

Lemma manage_fails_safe s : connected s -> exists s' tr, manage_fails serialize s = Done tt s' tr /\
  same_but_world s s' /\ I (ss_world s').
Proof.
  intros Hc. pose proof Hc as (Hm & _ & Hn & HI). unfold manage_fails. unfold bind at 1, get. rewrite Hm.
  unfold deref at 1, ret at 1. unfold bind at 1.
  destruct (on_world_safe (fm_get_fail fm) s) as (fs & s1 & t1 & E1 & H1 & I1); [by apply ps_get_fail|].
  unfold bind at 1. rewrite E1. destruct (Z.of_nat (length fs) =? 0); [by eexists s1, _|].
  destruct (dispatch_all_safe fs (LaikExtMsg [] []) s1) as (m & s2 & t2 & E2 & H2 & I2); [by eapply connected_same|].
  destruct (on_world_safe (com_notify_extern notify (serialize m)) s2) as (r & s3 & t3 & E3 & H3 & I3);
    [by apply ps_notify_extern|].
  assert (sv_com_notify (ss_srv s1) = Some notify) as Hn1 by (by destruct H1 as [-> _]).
  exists s3. unfold bind, log, emit. rewrite E2, Hn1. unfold deref, ret. rewrite E3. eexists.
  split; [done|]. split; [|done]. eapply same_trans; [done|]. by eapply same_trans.
Qed.

(** The clock reading a tic starts from, and the number of readings before its end is looked for: the
    first tic of a run takes the clock as its start. *)
Definition tic_base s : Z := if sv_tic (ss_srv s) =? 0 then now (readings s) else ts s.
Definition tic_first s : nat := if sv_tic (ss_srv s) =? 0 then S (readings s) else readings s.

(** A tic up to its end: the faults are dispatched. *)
Lemma do_tic_dispatches s : connected s -> exists s2 t2, connected s2 /\ ss_conf s2 = ss_conf s /\ dur s2 = dur s /\
  sv_tic (ss_srv s2) = sv_tic (ss_srv s) /\ ts s2 = tic_base s /\ readings s2 = tic_first s /\
  forall fuel, do_tic serialize now fuel s = match bind (skip_to_end_of_tic now fuel) (fun _ => ret 0) s2 with
    | Done a s' t => Done a s' (t2 ++ t) | Halt h t => Halt h (t2 ++ t) end.
Proof.
  intros Hc. set (s0 := if sv_tic (ss_srv s) =? 0
    then Ssys (set_timestamp (now (readings s)) (set_clock (S (readings s)) (ss_srv s))) (ss_csys s) else s).
  assert ((if sv_tic (ss_srv s) =? 0 then bind (read_clock now) (fun t => modify_srv (set_timestamp t)) else ret tt) s =
    Done tt s0 []) as E0.
  { unfold s0, readings. by destruct (sv_tic (ss_srv s) =? 0). }
  assert (connected s0 /\ ss_conf s0 = ss_conf s /\ dur s0 = dur s /\ sv_tic (ss_srv s0) = sv_tic (ss_srv s) /\
    ts s0 = tic_base s /\ readings s0 = tic_first s) as (Hc0 & Hcf & Hd & Htic & Hts & Hrd).
  { unfold s0, tic_base, tic_first. by destruct (sv_tic (ss_srv s) =? 0). }
  destruct (on_world_safe (fm_tic fm) s0) as (u & s1 & t1 & E1 & H1 & I1).
  { destruct Hc0 as (_ & _ & _ & HI). destruct (ps_tic _ HI) as (w' & tr & E & HI'). by exists tt, w', tr. }
  destruct (manage_fails_safe s1) as (s2 & t2 & E2 & H2 & I2); [by eapply connected_same|].
  exists s2, (t1 ++ t2). split; [eapply connected_same; [eapply connected_same|..]; done|].
  pose proof (same_trans _ _ _ H1 H2) as (Hsrv & Hconf & _). unfold ts, dur, readings in *. rewrite Hsrv, Hconf. split_and!; try done.
  intros fuel. unfold do_tic. unfold bind at 1, get at 1. unfold bind at 1. rewrite E0.
  assert (sv_manager (ss_srv s) = Some fm) as -> by apply Hc. unfold bind at 1, deref, ret at 1.
  unfold bind at 1. rewrite E1. unfold bind at 1. rewrite E2. destruct (bind (skip_to_end_of_tic _ _) _ s2); cbn; by rewrite <- ?app_assoc.
Qed.

Lemma do_tic_spec n fuel s : connected s -> tic_length (ss_conf s) <> 0 ->
  late_by n (tic_base s + dur s) (dur s) (tic_first s) -> room_for (1 + Z.of_nat n) (tic_base s) (dur s) -> (n < fuel)%nat ->
  0 <= sv_tic (ss_srv s) -> sv_tic (ss_srv s) + 1 + Z.of_nat n < 2 ^ 32 ->
  exists s' tr, do_tic serialize now fuel s = Done 0 s' tr /\ connected s' /\
    ss_conf s' = ss_conf s /\ dur s' = dur s /\
    sv_tic (ss_srv s') = sv_tic (ss_srv s) + 1 + Z.of_nat n /\
    ts s' = tic_base s + (1 + Z.of_nat n) * dur s.
Proof.
  intros Hc Htl Hlate Hroom Hf H0 Hu. destruct (do_tic_dispatches s Hc) as (s2 & t2 & Hc2 & Hcf & Hd & Htic & Hts & Hrd & E).
  destruct (skip_to_end_spec n fuel s2) as [t3 E3]; rewrite ?Hcf, ?Hts, ?Hd, ?Hrd, ?Htic; [done..|].
  rewrite E. unfold bind. rewrite E3. do 2 eexists. split; [reflexivity|]. split; [exact Hc2|]. unfold ts, dur in *. cbn -[Z.of_nat].
  by rewrite Hd, Htic, Hts, <- Hcf.
Qed.

(** In the next [k] readings from [first] on, between which nothing is done, the clock gains less than a tic each time; and
    it is a tic away from the end of time. *)
Definition quick_clock (d : Z) (first k : nat) : Prop :=
  forall i, (first <= i < first + k)%nat -> now (S i) < now i + d /\ now i + d < 2 ^ 63.

(** Such a clock is caught up with: at every round the lead of the clock shrinks. *)
Lemma quick_clock_late d first base : quick_clock d first (Z.to_nat (now first - base)) -> base < 2 ^ 63 ->
  exists n, late_by n base d first /\ Z.of_nat n <= Z.max 0 (now first - base) /\ base + Z.of_nat n * d < 2 ^ 63.
Proof.
  intros Hq. remember (Z.to_nat (now first - base)) as k eqn:Hk.
  revert first base Hq Hk. induction k as [k IH] using lt_wf_ind. intros first base Hq Hk Hb.
  destruct (Z.le_gt_cases (now first) base) as [Hle|Hgt].
  - exists 0%nat. split; [|lia]. split; [lia|]. rewrite Nat.add_0_r. lia.
  - pose proof (Hq first ltac:(lia)) as [H1 H2].
    edestruct (IH (Z.to_nat (now (S first) - (base + d)))) with (first := S first) (base := base + d) as (n & [Hl Hr] & Hn & Hb'); [|intros i Hi; apply Hq; lia|reflexivity|lia|].
    + lia.
    + exists (S n). split; [split|lia].
      * intros [|i] Hi; [rewrite Nat.add_0_r; lia|]. specialize (Hl i ltac:(lia)).
        rewrite Nat.add_succ_r. cbn [Nat.add] in Hl. lia.
      * rewrite Nat.add_succ_r. cbn [Nat.add] in Hr. lia.
Qed.

(** How far the clock is past the end of the tic when the catching up begins. *)
Definition lead s : Z := Z.max 0 (now (tic_first s) - (tic_base s + dur s)).

(** C19: with plugins that keep their contract, and a clock that does not gain a whole tic between two
    readings while the server catches up with it, a tic always completes; some number [n] of tics is skipped, the tic
    counter advances by one plus [n], and the timestamp moves by as many durations, to the first end of a tic that the
    clock has not passed.  The catching up is supposed not to take the tic counter to 2^32, where the 32 bit number of
    skipped tics would start over. *)
Theorem do_tic_completes fuel s : connected s -> tic_length (ss_conf s) <> 0 ->
  quick_clock (dur s) (tic_first s) (Z.to_nat (lead s)) -> room_for 1 (tic_base s) (dur s) -> lead s < Z.of_nat fuel ->
  0 <= sv_tic (ss_srv s) -> sv_tic (ss_srv s) + 1 + lead s < 2 ^ 32 ->
  exists n s' tr, do_tic serialize now fuel s = Done 0 s' tr /\ connected s' /\
    late_by n (tic_base s + dur s) (dur s) (tic_first s) /\
    sv_tic (ss_srv s') = sv_tic (ss_srv s) + 1 + Z.of_nat n /\
    ts s' = tic_base s + (1 + Z.of_nat n) * dur s.
Proof.
  intros Hc Htl Hq Hroom Hf H0 Hu. unfold lead in *. unfold room_for in Hroom.
  destruct (quick_clock_late (dur s) (tic_first s) (tic_base s + dur s)) as (n & Hl & Hn & Hb); [intros i Hi; apply Hq; lia|lia|].
  destruct (do_tic_spec n fuel s Hc Htl Hl) as (s' & tr & E & Hc' & _ & _ & Ht & Hts); [unfold room_for; nia|lia..|].
  by exists n, s', tr.
Qed.

End Clock.

(** ** An example: a scripted fault manager *)

Definition example_running (length : Z) : ssys (script * list com_call) :=
  Ssys (Server 0 (Some (rec_fm scripted)) (Some rec_com) (Some rec_com) example_nodes cb_null 0 length 0)
    (Csys (set_tic_length length new_config) (Host example_manager (example_script, []))).

(** A tic of 10 units whose faults take until 25; the clock then gains 3 with each reading. *)
Definition late_clock (i : nat) : Z := match i with O => 0 | _ => 22 + 3 * Z.of_nat i end.

(** Three tics are skipped. *)
Lemma do_tic_completes_witness :
  exists s' tr, do_tic example_serialize late_clock 16 (example_running 10) = Done 0 s' tr /\ sv_tic (ss_srv s') = 4 /\ ts s' = 40.
Proof.
  destruct (do_tic_completes example_serialize late_clock _ (rec_fm scripted) rec_com rec_com
    16 (example_running 10)) as (n & s' & tr & E & _ & [Hl Hr] & Ht & Hts); [by repeat split|done| |done|done|done|done|].
  - change (tic_first (example_running 10)) with 1%nat. intros [|i] [H1 H2]; [by apply Nat.nle_succ_0 in H1|].
    assert (S i < 16)%nat by exact H2. clear H1 H2.
    change (dur (example_running 10)) with 10. unfold late_clock. lia.
  - assert (n = 3%nat) as ->; [|exists s', tr; split; [exact E|]; split; [rewrite Ht; reflexivity|rewrite Hts; reflexivity]].
    destruct n as [|[|[|[|n]]]]; [vm_compute in Hr; by destruct Hr..|done|].
    specialize (Hl 3%nat ltac:(lia)). by vm_compute in Hl.
Defined.
