(* ===== verification/Mosquitto.v ===== *)
(** * The MQTT backend of the server (plugins/mosquitto/com_mosquitto.cpp)

    Faults go out as messages on the topic of their node, messages on the back channel come in through
    a callback.  libmosquitto is not part of the program: [publish_rc k] is the return code of the [k]-th
    publish, [connect_rc] and [subscribe_rc] those of the calls of [init], [strerror] its messages. *)

From S2P Require Import Prelude CString Types.
Local Open Scope Z_scope.

(** [ComMosquitto]; [mq_published] counts the messages handed to the library. *)
Record com_mosquitto := ComMosquitto {
  mq_id : cstr;
  mq_is_init : bool;
  mq_callback : msg_callback;      (** [lausim_callback] *)
  mq_published : nat
}.

(** The globals; [mg_log] is whether the pointer [log] has been set. *)
Record mosquitto := Mosquitto {
  init_state : bool;
  mq_instance : option com_mosquitto;  (** [instance] *)
  mg_log : bool;
  mg_looping : bool                (** between [loop_start] and [loop_stop] *)
}.

Definition mosquitto_zero : mosquitto := Mosquitto false None false false.

Definition back_topic : cstr := str "envelope/master/#".

(** [topic] and [msg_buf] of [notify_fail]. *)
Definition fault_topic (target : cstr) (cmp : option cstr) : cstr :=
  str "envelope/" ++ target ++ match cmp with None => [] | Some c => str "/" ++ c end.
Definition fault_payload (severity : Z) : cstr := str "0x" ++ print_x severity.

Section Mosquitto.
Context (publish_rc : nat -> Z) (lib_init_rc : Z) (connect_rc : cstr -> Z -> Z -> Z) (subscribe_rc : Z).
Context (strerror : Z -> cstr).
(* the function behind a callback pointer *)
Context (call_back : msg_callback -> cstr -> prog event mosquitto unit).
Local Open Scope prog_scope.

(** The object behind the pointer [instance]. *)
Definition the_instance : prog event mosquitto com_mosquitto :=
  s <- get ;; match mq_instance s with Some c => ret c | None => stop Undefined end.

Definition put_instance (c : com_mosquitto) : prog event mosquitto unit :=
  modify (fun s => Mosquitto (init_state s) (Some c) (mg_log s) (mg_looping s)).

Definition publish (c : com_mosquitto) (topic payload : cstr) : prog event mosquitto Z :=
  emit (EPublish topic payload) ;;
  put_instance (ComMosquitto (mq_id c) (mq_is_init c) (mq_callback c) (S (mq_published c))) ;;
  ret (publish_rc (mq_published c)).

(** *** Messages to the nodes *)

Definition notify_fail (target : cstr) (cmp : option cstr) (severity : Z) : prog event mosquitto Z :=
  c <- the_instance ;;
  if negb (mq_is_init c) then ret 0          (* return false *)
  else
    log LL_Debug (str "sending msg") ;;
    msqerr <- publish c (fault_topic target cmp) (fault_payload severity) ;;
    if negb (msqerr =? 0) then log LL_Error (strerror msqerr) ;; ret (-1) else ret 0.

Definition notify_extern (msg : cstr) : prog event mosquitto Z :=
  c <- the_instance ;;
  if negb (mq_is_init c) then ret 1
  else publish c (str "envelope/lausim") msg ;; ret 0.

(** *** Messages from the nodes *)

Definition set_callback (cb : msg_callback) : prog event mosquitto msg_callback :=
  c <- the_instance ;;
  put_instance (ComMosquitto (mq_id c) (mq_is_init c) cb (mq_published c)) ;;
  ret (mq_callback c).

(** [on_message], called by the library's thread; the payload has [payloadlen] bytes. *)
Definition on_message (payload : cstr) : prog event mosquitto unit :=
  log LL_Debug (str "[MQTT] message received") ;;
  c <- the_instance ;;
  if (Z.of_nat (length payload) <=? 0) || bool_decide (mq_callback c = cb_null) then ret tt
  else call_back (mq_callback c) payload.

Definition com_interface : com mosquitto :=
  Com COM_ASYNC notify_fail notify_extern None (Some set_callback) None.

(** *** Life cycle *)

(** [ComMosquitto::init_mosquitto] *)
Definition init_mosquitto : prog event mosquitto Z :=
  s <- get ;;
  (if init_state s then ret 0
   else
     modify (fun s => Mosquitto (lib_init_rc =? 0) (mq_instance s) (mg_log s) (mg_looping s)) ;;
     ret lib_init_rc).

(** [ComMosquitto::cleanup_mosquitto]; no caller looks at its result. *)
Definition cleanup_mosquitto : prog event mosquitto unit := log LL_Debug (str "[MQTT] lib cleanup").

(** [ComMosquitto::ComMosquitto] *)
Definition new_instance (id : cstr) : com_mosquitto := ComMosquitto id false cb_null 0.

(** [ComMosquitto::init] *)
Definition init_instance (addr : cstr) (port keep_alive : Z) : prog event mosquitto Z :=
  s <- get ;;
  c <- the_instance ;;
  if mq_is_init c || negb (init_state s) then ret (-1)
  else
    log LL_Debug (str "[MQTT] connecting") ;;
    let msqerr := connect_rc addr port keep_alive in
    if negb (msqerr =? 0) then log LL_Error (strerror msqerr) ;; ret (-1)
    else
      log LL_Debug (str "[MQTT] connected") ;;
      (if subscribe_rc =? 0 then ret tt else log LL_Warning (strerror subscribe_rc)) ;;
      put_instance (ComMosquitto (mq_id c) true (mq_callback c) (mq_published c)) ;;
      ret 0.

(** The [switch (argc)] of [init]. *)
Definition init_with_args (argv : list cstr) : prog event mosquitto Z :=
  match argv with
  | _ :: addr :: port :: keep :: _ => init_instance addr (s32 (strtoull port 0).1) (u32 (strtoull keep 0).1)
  | [_; addr; port] => init_instance addr (s32 (strtoull port 0).1) 60
  | [_; addr] => init_instance addr 1883 60
  | _ => init_instance (str "localhost") 1883 60
  end.

(** [init], with the call of the plugin manager as an argument. *)
Definition init {H} (get_st : H -> mosquitto) (set_st : mosquitto -> H -> H) (inter : plugin_manager_interface H)
    (self : plugin_ptr) (argv : list cstr) : prog event H Z :=
  let mine {A} (m : prog event mosquitto A) : prog event H A := zoom get_st set_st m in
  match argv with
  | [] =>
      s <- mine get ;;
      if mg_log s then log LL_Error (str "[MQTT] id required") ;; ret 1 else stop Undefined
  | id :: _ =>
      if negb (pmi_version inter =? PL_INTF_VERSION) then
        emit (EStderr (str "[MQTT] Plugin Interface Version Missmatch" ++ [NL])) ;; ret 1
      else
        mine (modify (fun s => Mosquitto (init_state s) (mq_instance s) true (mg_looping s))) ;;
        mine init_mosquitto ;;
        log LL_Debug (str "[MQTT] lib initialized") ;;
        mine (put_instance (new_instance id)) ;;
        sc <- mine (init_with_args argv) ;;
        if negb (sc =? 0) then log LL_Error (str "[MQTT] initialization failed") ;; ret sc
        else
          log LL_Debug (str "[MQTT] init finished") ;;
          r <- pmi_register_plugin inter self ;;
          if negb (r =? 0) then mine cleanup_mosquitto ;; ret 1
          else ret 0
  end.

Definition post_init : prog event mosquitto Z :=
  the_instance ;;
  modify (fun s => Mosquitto (init_state s) (mq_instance s) true true) ;;
  ret 0.

(** [ComMosquitto::cleanup] *)
Definition disconnect_instance : prog event mosquitto unit :=
  c <- the_instance ;;
  if mq_is_init c then modify (fun s => Mosquitto (init_state s) (mq_instance s) (mg_log s) false) else ret tt.

(** [delete instance].  [~ComMosquitto] calls the destructor of its base class, which runs again when it returns, on an
    object that is no more; where that destructor is virtual the call is one of [~ComMosquitto] itself. *)
Definition delete_instance : prog event mosquitto unit := the_instance ;; stop Undefined.

Definition cleanup : prog event mosquitto Z :=
  disconnect_instance ;; delete_instance ;; cleanup_mosquitto ;; ret 0.

End Mosquitto.

(** ** Correctness *)

Section Correct.
Context (publish_rc : nat -> Z) (strerror : Z -> cstr).
Context (call_back : msg_callback -> cstr -> prog event mosquitto unit).

(** The messages handed to the library in a trace. *)
Definition published (tr : list event) : list (cstr * cstr) :=
  omap (fun e => match e with EPublish t p => Some (t, p) | _ => None end) tr.

Definition bump (c : com_mosquitto) : com_mosquitto :=
  ComMosquitto (mq_id c) (mq_is_init c) (mq_callback c) (S (mq_published c)).
Definition with_instance (c : com_mosquitto) (s : mosquitto) : mosquitto :=
  Mosquitto (init_state s) (Some c) (mg_log s) (mg_looping s).

(** C29: on a connected instance a fault becomes exactly one message, on the topic envelope/ and the name of its node, with
    / and the component behind it if it has one, and with 0x and the severity in hexadecimal digits, which [strtoull] reads back, as its
    payload; the result is 0 exactly when the library accepted it, and otherwise its error is logged.  An external message goes to envelope/lausim as
    it is, and its result does not depend on the library.  An instance that is not connected sends nothing, and yet reports success for faults (but not for external messages). *)
Theorem notify_spec target cmp severity msg c s : mq_instance s = Some c -> is_u32 severity ->
  let rc := publish_rc (mq_published c) in
  (exists digits, strtoull (str "0x" ++ digits) 0 = (severity, []) /\ Forall (fun d => digit_in 16 d = true) digits /\
    notify_fail publish_rc strerror target cmp severity s =
    if mq_is_init c then
      Done (if rc =? 0 then 0 else -1) (with_instance (bump c) s)
        (ELog LL_Debug (str "sending msg") ::
         EPublish (str "envelope/" ++ target ++ match cmp with Some k => "/"%char :: k | None => [] end) (str "0x" ++ digits) ::
         if rc =? 0 then [] else [ELog LL_Error (strerror rc)])
    else Done 0 s []) /\
  notify_extern publish_rc msg s =
    if mq_is_init c then Done 0 (with_instance (bump c) s) [EPublish (str "envelope/lausim") msg] else Done 1 s [].
Proof.
  intros Hc [H0 Hs] rc. split.
  - exists (print_x severity). split.
    { pose proof (strtoull_print_x severity []) as E. rewrite app_nil_r in E. apply E; [unfold is_u64; lia|done]. }
    split; [apply Forall_forall; intros d; by apply (print_base_chars 16)|].
    unfold notify_fail, fault_topic, fault_payload, the_instance, publish, put_instance, log, bind, get, ret, emit, modify. rewrite Hc. fold rc.
    destruct (mq_is_init c) eqn:Hi; cbn [negb]; [|done]. unfold bump. rewrite Hi. fold rc. by destruct (rc =? 0), cmp.
  - unfold notify_extern, the_instance, publish, put_instance, bind, get, ret, emit, modify. rewrite Hc. unfold bump. by destruct (mq_is_init c).
Qed.

(** C30: the callback that [set_callback] installs is the one that gets the next message of the back
    channel, byte for byte, and the previous callback is handed back; empty messages, and messages
    while no callback is set, are dropped. *)
Theorem callback_spec cb payload c s : mq_instance s = Some c ->
  exists s', set_callback cb s = Done (mq_callback c) s' [] /\
    let run := on_message call_back payload s' in
    if bool_decide (payload = []) || bool_decide (cb = cb_null)
    then run = Done tt s' [ELog LL_Debug (str "[MQTT] message received")]
    else run = match call_back cb payload s' with
               | Done _ s'' tr => Done tt s'' (ELog LL_Debug (str "[MQTT] message received") :: tr)
               | Halt h tr => Halt h (ELog LL_Debug (str "[MQTT] message received") :: tr)
               end.
Proof.
  intros Hc. exists (with_instance (ComMosquitto (mq_id c) (mq_is_init c) cb (mq_published c)) s).
  unfold set_callback, on_message, the_instance, put_instance, log, bind, get, ret, emit, modify.
  rewrite Hc. cbn -[Z.of_nat]. split; [done|].
  destruct payload as [|x payload]; [done|]. rewrite (bool_decide_false (x :: payload = [])) by done.
  destruct (Z.leb_spec (Z.of_nat (length (x :: payload))) 0) as [H|_]; [simpl in H; lia|]. cbn [orb].
  destruct (decide (cb = cb_null)) as [->|Hcb]; [done|]. rewrite !bool_decide_false by done.
  destruct (call_back cb (x :: payload) _) as [[] s' tr|]; done.
Qed.

(** The backend keeps the contract the server relies on as long as there is an instance. *)
#[export] Instance mosquitto_safe : ComSafe (com_interface publish_rc strerror).
Proof.
  refine {| com_inv := fun s => is_Some (mq_instance s) |}; cbn.
  - intros n k v s [c Hc]. unfold notify_fail, the_instance, publish, put_instance, log, bind, get, ret, emit, modify.
    rewrite Hc. destruct (mq_is_init c); cbn; [|by repeat eexists].
    destruct (publish_rc (mq_published c) =? 0); by repeat eexists.
  - intros m s [c Hc]. unfold notify_extern, the_instance, publish, put_instance, bind, get, ret, emit, modify.
    rewrite Hc. destruct (mq_is_init c); cbn; by repeat eexists.
Defined.

End Correct.

Definition example_mosquitto (connected : bool) : mosquitto :=
  Mosquitto true (Some (ComMosquitto (str "master") connected cb_null 0)) true true.

Lemma notify_spec_witness :
  exists digits, strtoull (str "0x" ++ digits) 0 = (100, []) /\
    notify_fail (fun _ => 4) (fun _ => str "no connection") (str "node0") (Some (str "net")) 100 (example_mosquitto true) =
    Done (-1) (with_instance (bump (ComMosquitto (str "master") true cb_null 0)) (example_mosquitto true))
      [ELog LL_Debug (str "sending msg"); EPublish (str "envelope/node0/net") (str "0x" ++ digits); ELog LL_Error (str "no connection")].
Proof.
  destruct (proj1 (notify_spec (fun _ => 4) (fun _ => str "no connection") (str "node0") (Some (str "net")) 100 [] _
    (example_mosquitto true) eq_refl ltac:(done))) as (digits & Hd & _ & E). by exists digits.
Defined.

Lemma callback_spec_witness :
  exists s', set_callback cb_server (example_mosquitto true) = Done cb_null s' [] /\
    on_message (fun _ _ => ret tt) (str "x") s' = Done tt s' [ELog LL_Debug (str "[MQTT] message received")].
Proof.
  destruct (callback_spec (fun _ _ => ret tt) cb_server (str "x") _ (example_mosquitto true) eq_refl) as (s' & E & H).
  exists s'. split; [exact E|exact H].
Defined.
