(* ===== verification/Random.v ===== *)
(** * The random fault manager (plugins/random/random.c)

    Every healthy node fails with a fixed probability at each tic, and never recovers.  [rand k] is
    the [k]-th result of the C library's generator; [realloc_ok k] and [calloc_ok k] tell whether the
    allocation for the [k]-th number drawn succeeds; [r_allocs] are the results of the allocations of [init] that the code tests (an
    exhausted list: all later ones succeed). *)

From S2P Require Import Prelude CString Types.
Local Open Scope Z_scope.

(** [mynode] *)
Record mynode := Mynode { my_p : node; my_healthy : Z }.

(** The globals; [r_drawn] counts the calls of [rand]. *)
Record random := Random {
  r_num : Z;
  r_nodes : list mynode;
  r_faults : list fault;          (** [faults], of length [num_fault] *)
  r_drawn : nat;
  r_allocs : list bool
}.

Definition random_zero : random := Random (-1) [] [] 0 [].

Definition RAND_MAX : Z := 2147483647.
Definition prob : Z := RAND_MAX / 10.

Section Random.
Context (rand : nat -> Z) (realloc_ok calloc_ok : nat -> bool).
Local Open Scope prog_scope.

Definition get_nodes : prog event random (Z * list node) :=
  s <- get ;;
  if r_num s <=? 0 then ret (-1, []) else ret (0, map my_p (r_nodes s)).

Definition free_faults : prog event random unit :=
  modify (fun s => Random (r_num s) (r_nodes s) [] (r_drawn s) (r_allocs s)).

Definition node_fault (n : node) : fault := Fault (n_id n) (Some (str "node-failed")) None (n_name n) 100.

(** The loop of [tic] from node [i] on, with the nodes in front of it; [false] after the [return] inside. *)
Fixpoint tic_loop (front rest : list mynode) : prog event random bool :=
  match rest with
  | [] => ret true
  | n :: rest' =>
      if my_healthy n =? 0 then tic_loop (front ++ [n]) rest'
      else
        s <- get ;;
        let k := r_drawn s in
        if negb (rand k <? prob) then
          put (Random (r_num s) (r_nodes s) (r_faults s) (S k) (r_allocs s)) ;;
          tic_loop (front ++ [n]) rest'
        else
          let nodes := front ++ Mynode (my_p n) 0 :: rest' in
          if negb (realloc_ok k) then
            put (Random (r_num s) nodes [] (S k) (r_allocs s)) ;; ret false
          else if negb (calloc_ok k) then stop Undefined       (* faults[num_fault]->id *)
          else
            put (Random (r_num s) nodes (r_faults s ++ [node_fault (my_p n)]) (S k) (r_allocs s)) ;;
            tic_loop (front ++ [Mynode (my_p n) 0]) rest'
  end.

Definition tic : prog event random unit :=
  free_faults ;;
  s <- get ;;
  tic_loop [] (r_nodes s) ;;
  ret tt.

Definition get_fail : prog event random (list fault) := s <- get ;; ret (r_faults s).

Definition inject_fail (f : fault) : prog event random Z :=
  emit (EStdout (str "[ERROR] Fault injection is not supportet" ++ [NL])) ;; ret 1.

Definition random_fm : fault_manager random := FaultManager 1 get_nodes tic get_fail inject_fail.

(** The nodes [init] makes. *)
Definition new_node (i : nat) : mynode :=
  Mynode (Node (snprintf 0x40 (str "node" ++ print_d (Z.of_nat i))) 0 uniform_node NODE_STATE_UNKNOWN 0 []) 1.

(** The result of an allocation that [init] tests. *)
Definition tested_alloc : prog event random bool :=
  s <- get ;;
  match r_allocs s with
  | [] => ret true
  | b :: bs => put (Random (r_num s) (r_nodes s) (r_faults s) (r_drawn s) bs) ;; ret b
  end.

(** The loop of [init] over the nodes from [i] on; [false] after the [return] of one that cannot be allocated, or its name. *)
Fixpoint make_nodes (todo i : nat) : prog event random bool :=
  match todo with
  | O => ret true
  | S todo' =>
      node <- tested_alloc ;;
      if negb node then ret false
      else
        name <- tested_alloc ;;
        if negb name then ret false
        else
          modify (fun s => Random (r_num s) (r_nodes s ++ [new_node i]) (r_faults s) (r_drawn s) (r_allocs s)) ;;
          make_nodes todo' (S i)
  end.

(** [init] from the argument check to the registration; [None] when it goes on to register. *)
Definition setup (argv : list cstr) : prog event random (option Z) :=
  match argv with
  | [] => log LL_Error (str "[RANDOM] No node number is specifyed") ;; ret (Some (-1))
  | a :: _ =>
      let num := s32 (strtol a 0) in
      modify (fun s => Random num (r_nodes s) (r_faults s) (r_drawn s) (r_allocs s)) ;;
      if num <? 0 then log LL_Error (str "[RANDOM] invalid number of nodes") ;; ret (Some (-1))
      else
        log LL_Debug (snprintf 512 (str "[RANDOM] creating " ++ print_d num ++ str " nodes")) ;;
        modify (fun s => Random num [] (r_faults s) (r_drawn s) (r_allocs s)) ;;
        ok <- make_nodes (Z.to_nat num) 0 ;;
        ret (if ok : bool then None else Some (-1))
  end.

Definition cleanup : prog event random Z :=
  free_faults ;;
  modify (fun s => Random (r_num s) [] (r_faults s) (r_drawn s) (r_allocs s)) ;;
  ret 0.

End Random.

(** ** Correctness *)

(** The names of the nodes that are down. *)
Definition down (ns : list mynode) : list cstr :=
  map (fun n => n_name (my_p n)) (List.filter (fun n => my_healthy n =? 0) ns).
Definition node_names (ns : list mynode) : list cstr := map (fun n => n_name (my_p n)) ns.

(** A fault of a whole node. *)
Definition whole (f : fault) : Prop := f_severity f = 100 /\ f_component f = None.

Section Correct.
Context (rand : nat -> Z) (realloc_ok calloc_ok : nat -> bool).
#[local] Abbreviation fm := (random_fm rand realloc_ok calloc_ok).

(** A state in which the node behind [front] has been looked at. *)
Definition advanced (s : random) (nodes : list mynode) (fs : list fault) : random :=
  Random (r_num s) nodes (r_faults s ++ fs) (S (r_drawn s)) (r_allocs s).

(** What a round of [tic] does to the nodes: [new] go down, and they are the ones reported unless an allocation fails. *)
Lemma tic_loop_spec rest : forall front s, r_nodes s = front ++ rest ->
  match tic_loop rand realloc_ok calloc_ok front rest s with
  | Done b s' tr => tr = [] /\ r_num s' = r_num s /\ exists rest' new fs, r_nodes s' = front ++ rest' /\ map my_p rest' = map my_p rest /\
      down rest' ≡ₚ down rest ++ new /\ map f_node fs = new /\ Forall whole fs /\
      if b : bool then r_faults s' = r_faults s ++ fs else r_faults s' = [] /\ exists k, realloc_ok k = false
  | Halt h _ => h = Undefined /\ exists k, calloc_ok k = false
  end.
Proof.
  induction rest as [|n rest IH]; intros front s Hs; cbn [tic_loop].
  { cbn. split_and!; [done..|]. exists [], [], []. rewrite app_nil_r in Hs. rewrite !app_nil_r. by split_and!. }
  unfold down. destruct (my_healthy n =? 0) eqn:Hh.
  - specialize (IH (front ++ [n]) s ltac:(by rewrite <- app_assoc)). destruct (tic_loop _ _ _ _ _ _) as [b s' tr|]; [|done].
    destruct IH as (Ht & Hn & rest' & new & fs & H1 & H2 & H3 & H4 & H5 & H6). split; [done|]. split; [done|]. exists (n :: rest'), new, fs.
    rewrite <- app_assoc in H1. split; [done|]. split; [cbn; by rewrite H2|]. split; [|done]. unfold down in H3. cbn. rewrite Hh. cbn. by rewrite H3.
  - unfold bind at 1, get. destruct (rand (r_drawn s) <? prob); cbn [negb].
    + destruct (realloc_ok (r_drawn s)) eqn:Er; cbn [negb].
      2:{ cbn. split; [done|]. split; [done|]. exists (Mynode (my_p n) 0 :: rest), [n_name (my_p n)], [node_fault (my_p n)].
          split; [done|]. split; [done|]. cbn. rewrite Hh. cbn. split; [by rewrite Permutation_cons_append|]. split; [done|]. split; [by repeat constructor|].
          split; [done|by eexists]. }
      destruct (calloc_ok (r_drawn s)) eqn:Ec; cbn [negb]; [|split; [done|by eexists]]. unfold bind, put.
      set (s1 := Random _ _ _ _ _). specialize (IH (front ++ [Mynode (my_p n) 0]) s1 ltac:(cbn; by rewrite <- app_assoc)).
      destruct (tic_loop _ _ _ _ _ _) as [b s' tr|]; [|done]. destruct IH as (-> & Hn & rest' & new & fs & H1 & H2 & H3 & H4 & H5 & H6).
      split; [done|]. split; [done|]. exists (Mynode (my_p n) 0 :: rest'), (n_name (my_p n) :: new), (node_fault (my_p n) :: fs).
      rewrite <- app_assoc in H1. split; [done|]. split; [cbn; by rewrite H2|]. unfold down in H3. cbn. rewrite Hh. cbn.
      split; [rewrite H3; by rewrite Permutation_middle|]. split; [by rewrite H4|]. split; [by constructor|]. destruct b; [|done].
      rewrite H6. cbn. by rewrite <- app_assoc.
    + unfold bind, put. set (s1 := Random _ _ _ _ _). specialize (IH (front ++ [n]) s1 ltac:(cbn; by rewrite <- app_assoc)).
      destruct (tic_loop _ _ _ _ _ _) as [b s' tr|]; [|done]. destruct IH as (-> & Hn & rest' & new & fs & H1 & H2 & H3 & H4 & H5 & H6).
      split; [done|]. split; [done|]. exists (n :: rest'), new, fs. rewrite <- app_assoc in H1. split; [done|]. split; [cbn; by rewrite H2|].
      unfold down in H3. cbn. rewrite Hh. cbn. by rewrite H3.
Qed.

Lemma tic_spec s : match tic rand realloc_ok calloc_ok s with
  | Done _ s' tr => tr = [] /\ r_num s' = r_num s /\ map my_p (r_nodes s') = map my_p (r_nodes s) /\
      exists new, down (r_nodes s') ≡ₚ down (r_nodes s) ++ new /\ map f_node (r_faults s') ⊆+ new /\
        ((forall k, realloc_ok k = true) -> map f_node (r_faults s') = new) /\ Forall whole (r_faults s')
  | Halt h _ => h = Undefined /\ exists k, calloc_ok k = false
  end.
Proof.
  unfold tic, free_faults, bind, modify, get, ret. cbn [r_nodes].
  pose proof (tic_loop_spec (r_nodes s) [] (Random (r_num s) (r_nodes s) [] (r_drawn s) (r_allocs s)) eq_refl) as H.
  destruct (tic_loop _ _ _ _ _ _) as [b s' tr|]; [|done]. destruct H as (-> & Hn & rest' & new & fs & H1 & H2 & H3 & H4 & H5 & H6). cbn in H1, H6.
  split; [done|]. split; [done|]. rewrite H1. split; [done|]. exists new. split; [done|]. destruct b.
  - rewrite H6, H4. split_and!; done.
  - destruct H6 as [-> [k Hk]]. split_and!; [apply submseteq_nil_l|intros Hr; by rewrite Hr in Hk|constructor].
Qed.

Lemma names_same ns ns' : map my_p ns' = map my_p ns -> node_names ns' = node_names ns.
Proof. unfold node_names. intros H. rewrite <- !(map_map my_p n_name). by rewrite H. Qed.

Lemma tics_run n : forall s, match fm_tics fm n s with
  | Done fss s' tr => tr = [] /\ node_names (r_nodes s') = node_names (r_nodes s) /\
      exists new, down (r_nodes s') ≡ₚ down (r_nodes s) ++ new /\ map f_node (concat fss) ⊆+ new /\
        ((forall k, realloc_ok k = true) -> map f_node (concat fss) = new) /\ Forall whole (concat fss)
  | Halt h _ => h = Undefined /\ exists k, calloc_ok k = false
  end.
Proof.
  induction n as [|n IH]; intros s; cbn [fm_tics].
  { cbn. split; [done|]. split; [done|]. exists []. by rewrite app_nil_r. }
  cbn [fm_tic fm_get_fail random_fm]. unfold bind at 1. pose proof (tic_spec s) as H1. destruct (tic _ _ _ s) as [[] s1 t1|]; [|done].
  destruct H1 as (-> & _ & Hp1 & new1 & Hd1 & Hs1 & He1 & Hw1). unfold get_fail, bind, get, ret. cbn [app].
  specialize (IH s1). destruct (fm_tics _ n s1) as [fss s2 t2|]; [|done]. destruct IH as (-> & Hn2 & new2 & Hd2 & Hs2 & He2 & Hw2). cbn [app concat].
  split; [done|]. split; [rewrite Hn2; by apply names_same|]. exists (new1 ++ new2). split; [by rewrite Hd2, Hd1, app_assoc|].
  rewrite map_app. split; [by apply submseteq_app|]. split; [intros Hr; by rewrite He1, He2|by apply Forall_app_2].
Qed.

Lemma down_sub ns : down ns ⊆+ node_names ns.
Proof.
  unfold down, node_names. induction ns as [|n ns IH]; cbn; [done|].
  destruct (my_healthy n =? 0); cbn; [by constructor|by constructor].
Qed.

(** A run from a state in which all nodes are up. *)
Lemma fails_once_run n s : down (r_nodes s) = [] -> NoDup (node_names (r_nodes s)) ->
  match fm_tics fm n s with
  | Done fss s' tr => tr = [] /\ NoDup (map f_node (concat fss)) /\ map f_node (concat fss) ⊆ down (r_nodes s') /\
      ((forall k, realloc_ok k = true) -> down (r_nodes s') ⊆ map f_node (concat fss)) /\
      map f_node (concat fss) ⊆ node_names (r_nodes s) /\ Forall whole (concat fss)
  | Halt h _ => h = Undefined /\ exists k, calloc_ok k = false
  end.
Proof.
  intros Hd Hn. pose proof (tics_run n s) as H. destruct (fm_tics fm n s) as [fss s' tr|]; [|done].
  destruct H as (-> & Hn' & new & Hd' & Hs & He & Hw). rewrite Hd in Hd'. cbn in Hd'. split; [done|].
  assert (map f_node (concat fss) ⊆+ node_names (r_nodes s)) as Hsub by (rewrite <- Hn'; etransitivity; [exact Hs|rewrite <- Hd'; apply down_sub]).
  split_and!.
  - apply submseteq_Permutation in Hsub as [k Hk]. rewrite Hk in Hn. by apply NoDup_app in Hn as [Hn _].
  - intros x Hx. rewrite Hd'. by eapply elem_of_submseteq.
  - intros Hr x Hx. rewrite Hd' in Hx. by rewrite He.
  - intros x Hx. by eapply elem_of_submseteq.
  - done.
Qed.

End Correct.

(** Without a failing allocation. *)
Lemma random_tic_spec rand s : exists s' fs, tic rand (fun _ => true) (fun _ => true) s = Done tt s' [] /\ r_faults s' = fs /\
  node_names (r_nodes s') = node_names (r_nodes s) /\ map my_p (r_nodes s') = map my_p (r_nodes s) /\ r_num s' = r_num s /\
  down (r_nodes s') ≡ₚ down (r_nodes s) ++ map f_node fs /\ Forall whole fs.
Proof.
  pose proof (tic_spec rand (fun _ => true) (fun _ => true) s) as H. destruct (tic _ _ _ s) as [[] s' tr|]; [|by destruct H as [_ [_ ?]]].
  destruct H as (-> & Hn & Hp & new & Hd & _ & He & Hw). exists s', (r_faults s'). rewrite <- (He (fun _ => eq_refl)) in Hd. split_and!; try done. by apply names_same.
Qed.

Definition with_allocs (l : list bool) (s : random) : random := Random (r_num s) (r_nodes s) (r_faults s) (r_drawn s) l.

Lemma tested_alloc_run s : tested_alloc s = Done (default true (head (r_allocs s))) (with_allocs (tail (r_allocs s)) s) [].
Proof. unfold tested_alloc, bind, get, put, ret, with_allocs. destruct s as [? ? ? ? [|]]; done. Qed.

(** [init] makes the nodes one by one until it cannot. *)
Lemma make_nodes_spec todo : forall i s, exists m l, (m <= todo)%nat /\
  make_nodes todo i s = Done (bool_decide (m = todo)) (Random (r_num s) (r_nodes s ++ map new_node (seq i m)) (r_faults s) (r_drawn s) l) [] /\
  (m = todo <-> false ∉ take (2 * todo) (r_allocs s)) /\ (r_allocs s = [] -> l = []).
Proof.
  induction todo as [|todo IH]; intros i s.
  { exists 0%nat, (r_allocs s). cbn. rewrite app_nil_r. split; [done|]. split; [by destruct s|]. split; [|done]. split; [|done]. intros _. apply not_elem_of_nil. }
  cbn [make_nodes]. unfold bind at 1. rewrite tested_alloc_run. replace (2 * S todo)%nat with (S (S (2 * todo))) by lia.
  assert (forall L, default true (head L) = false \/ default true (head (tail L)) = false -> false ∈ take (S (S (2 * todo))) L) as Hin.
  { intros [|a [|b L]] [H|H]; cbn in H; subst; try done; cbn; set_solver. }
  destruct (default true (head (r_allocs s))) eqn:E1; cbn [negb].
  2:{ exists 0%nat, (tail (r_allocs s)). cbn [seq map]. rewrite app_nil_r. split; [lia|]. split; [done|]. split; [|by intros ->].
      split; [done|]. intros []. apply Hin. by left. }
  unfold bind at 1. rewrite tested_alloc_run. destruct (default true (head (r_allocs (with_allocs (tail (r_allocs s)) s)))) eqn:E2; cbn [negb].
  2:{ exists 0%nat, (tail (tail (r_allocs s))). cbn [seq map]. rewrite app_nil_r. split; [lia|]. split; [done|]. split; [|by intros ->].
      split; [done|]. intros []. apply Hin. by right. }
  unfold bind, modify. destruct (IH (S i) (Random (r_num s) (r_nodes s ++ [new_node i]) (r_faults s) (r_drawn s) (tail (tail (r_allocs s))))) as (m & l & Hm & E & Hall & Hl).
  cbn [with_allocs r_num r_nodes r_faults r_drawn r_allocs] in *. rewrite E. exists (S m), l. split; [lia|]. split; [|split].
  - cbn [seq map]. rewrite <- app_assoc. f_equal. apply bool_decide_ext. lia.
  - transitivity (m = todo); [lia|]. rewrite Hall.
    destruct (r_allocs s) as [|a [|b L]]; cbn in E1, E2; subst; cbn [tail take]; rewrite ?take_nil, ?not_elem_of_cons; naive_solver.
  - intros Ha. apply Hl. by rewrite Ha.
Qed.

(** The nodes made by [init] have different names. *)
Lemma new_node_names n : Z.of_nat n <= 2 ^ 31 -> NoDup (node_names (map new_node (seq 0 n))) /\
  down (map new_node (seq 0 n)) = [].
Proof.
  intros Hn. split; [|by induction (seq 0 n)]. unfold node_names. rewrite map_map.
  assert (forall i, i ∈ seq 0 n -> n_name (my_p (new_node i)) = str "node" ++ print_u (Z.of_nat i)) as Hname.
  { intros i Hi. apply elem_of_seq in Hi as [_ Hi]. cbn [new_node my_p n_name]. unfold print_d, print_signed.
    rewrite s32_small by lia. destruct (Z.ltb_spec (Z.of_nat i) 0); [lia|]. unfold snprintf. apply take_ge.
    rewrite length_app. change (length (str "node")) with 4%nat.
    assert (forall fuel b m acc, (length (print_digits fuel b m acc) <= fuel + length acc)%nat) as Hlen.
    { induction fuel as [|fuel IHf]; intros b m acc; cbn [print_digits]; [done|].
      destruct (m <? b); cbn [length]; [lia|]. pose proof (IHf b (m / b) (digit_char (m mod b) :: acc)). simpl in *. lia. }
    pose proof (Hlen (S (Z.to_nat (Z.log2 (Z.of_nat i)))) 10 (Z.of_nat i) []) as H1. unfold print_u, print_base. cbn [length] in H1.
    assert (Z.log2 (Z.of_nat i) < 32) by (destruct (decide (Z.of_nat i = 0)) as [->|]; [done|apply Z.log2_lt_pow2; lia]). lia. }
  apply NoDup_fmap_2_strong; [|apply NoDup_seq]. intros i j Hi Hj E. rewrite !Hname in E by done.
  apply app_inv_head in E. apply elem_of_seq in Hi, Hj.
  pose proof (strtoull_print_u (Z.of_nat i) []) as Hi'. pose proof (strtoull_print_u (Z.of_nat j) []) as Hj'.
  rewrite app_nil_r in Hi', Hj'. rewrite E in Hi'. rewrite Hi' in Hj'; [|unfold is_u64; lia|done].
  specialize (Hj' ltac:(unfold is_u64; lia) I). injection Hj'. lia.
Qed.

(** While allocations succeed the contract with the server holds in every state. *)
#[export] Instance random_safe rand : FaultManagerSafe (random_fm rand (fun _ => true) (fun _ => true)).
Proof.
  refine {| fm_inv := fun _ => True |}; intros s _; [|by repeat eexists].
  destruct (random_tic_spec rand s) as (s' & fs & E & _). by exists s', [].
Defined.

#[export] Instance random_silent rand realloc_ok calloc_ok : SilentFM (random_fm rand realloc_ok calloc_ok).
Proof.
  assert (forall rest front, emits silent (tic_loop rand realloc_ok calloc_ok front rest)) as Hl.
  { induction rest as [|n rest IH]; intros front; cbn [tic_loop]; [auto with lausim|].
    apply emits_if; [done|]. apply emits_bind; [auto with lausim|intros s]. repeat apply emits_if; auto with lausim. }
  constructor; cbn; unfold get_nodes, tic, free_faults, get_fail; auto 8 with lausim.
Qed.

Lemma setup_silent argv : emits silent (setup argv).
Proof.
  assert (emits silent tested_alloc) as Ha.
  { apply emits_bind; [auto with lausim|intros s]. destruct (r_allocs s); auto with lausim. }
  assert (forall todo i, emits silent (make_nodes todo i)) as Hm by (induction todo; intros i; cbn [make_nodes]; auto 10 with lausim).
  unfold setup. destruct argv; auto 12 with lausim.
Qed.

(** What [init] does with a number; the plugin that makes all the nodes goes on. *)
Lemma setup_spec n s : 0 <= n < 2 ^ 31 -> exists m l tr, (m <= Z.to_nat n)%nat /\
  setup [print_u n] s = Done (if bool_decide (m = Z.to_nat n) then None else Some (-1)) (Random n (map new_node (seq 0 m)) (r_faults s) (r_drawn s) l) tr /\
  (m = Z.to_nat n <-> false ∉ take (2 * Z.to_nat n) (r_allocs s)) /\ (r_allocs s = [] -> l = []).
Proof.
  intros Hn. unfold setup, strtol. pose proof (strto_print_u n [] ltac:(lia) I) as E. rewrite app_nil_r in E. rewrite E.
  rewrite Z.min_l, Z.max_r by lia. rewrite s32_small by lia. unfold bind, modify, log, emit, ret.
  destruct (Z.ltb_spec n 0); [lia|]. set (s1 := Random _ [] _ _ _).
  destruct (make_nodes_spec (Z.to_nat n) 0 s1) as (m & l & Hm & Em & Hall & Hl). rewrite Em. exists m, l. eexists. split; [done|].
  split; [reflexivity|]. by split.
Qed.

Lemma setup_print n : 0 <= n < 2 ^ 31 -> exists tr, setup [print_u n] random_zero =
  Done None (Random n (map new_node (seq 0 (Z.to_nat n))) [] 0 []) tr.
Proof.
  intros Hn. destruct (setup_spec n random_zero Hn) as (m & l & tr & _ & E & Hall & Hl). cbn in E, Hl. rewrite Hl in E by done.
  assert (m = Z.to_nat n) as -> by (apply Hall; cbn [r_allocs random_zero]; rewrite take_nil; apply not_elem_of_nil). rewrite bool_decide_true in E by done. by exists tr.
Qed.

(** C24: started with a number of nodes, the plugin's [init] gives up with -1 exactly if one of the allocations that it tests fails (a node or its
    name), and otherwise gives the server that many nodes with pairwise different names.  However the random numbers then fall, over any run of tics each node fails at most
    once: the faults reported, tic after tic, are complete faults of whole nodes, on pairwise distinct nodes of the system, which are
    down at the end.  If no [realloc] of the list of faults fails all nodes that are down have been reported; when one fails, the faults of that tic
    are lost and their nodes stay down.  A [calloc] of a fault, which the code does not test, is undefined behaviour when it
    fails; nothing else stops a run. *)
Theorem random_fails_once rand realloc_ok calloc_ok num n allocs : 0 < num < 2 ^ 31 ->
  let fm := random_fm rand realloc_ok calloc_ok in
  exists rc s tr, setup [print_u num] (Random (-1) [] [] 0 allocs) = Done rc s tr /\
    (rc = if bool_decide (false ∈ take (2 * Z.to_nat num) allocs) then Some (-1) else None) /\
    (rc = None -> exists ns, fm_get_nodes fm s = Done (0, ns) s [] /\ Z.of_nat (length ns) = num /\ NoDup (map n_name ns) /\
      match fm_tics fm n s with
      | Done fss s' _ => Forall whole (concat fss) /\ NoDup (map f_node (concat fss)) /\
          map f_node (concat fss) ⊆ map n_name ns /\ map f_node (concat fss) ⊆ down (r_nodes s') /\
          ((forall k, realloc_ok k = true) -> down (r_nodes s') ⊆ map f_node (concat fss))
      | Halt h _ => h = Undefined /\ exists k, calloc_ok k = false
      end).
Proof.
  intros Hn fm. destruct (setup_spec num (Random (-1) [] [] 0 allocs)) as (m & l & tr & _ & E & Hall & _); [lia|]. cbn [r_faults r_drawn r_allocs] in *.
  eexists _, _, _. split; [exact E|]. split.
  { destruct (decide (m = Z.to_nat num)) as [Hm|Hm]; [rewrite bool_decide_true by done; rewrite bool_decide_false by (by apply Hall)|].
    - done.
    - rewrite bool_decide_false by done. rewrite bool_decide_true; [done|]. apply dec_stable. by intros H%Hall. }
  intros Hrc. case_bool_decide as Hm; [subst m|done]. clear Hrc Hall E tr. destruct (new_node_names (Z.to_nat num)) as [Hnd Hd]; [lia|].
  set (s := Random num (map new_node (seq 0 (Z.to_nat num))) [] 0 l).
  assert (map n_name (map my_p (r_nodes s)) = node_names (r_nodes s)) as Hnames by (unfold node_names; by rewrite map_map).
  exists (map my_p (r_nodes s)). split.
  { cbn [fm random_fm fm_get_nodes]. unfold get_nodes, bind, get, ret. cbn [r_num s].
    destruct (Z.leb_spec num 0); [lia|done]. }
  split; [cbn [s r_nodes]; rewrite !length_map, length_seq; lia|]. rewrite Hnames. split; [exact Hnd|].
  pose proof (fails_once_run rand realloc_ok calloc_ok n s Hd Hnd) as H. fold fm in H. destruct (fm_tics fm n s) as [fss s' t|]; [|exact H].
  destruct H as (_ & H1 & H2 & H3 & H4 & H5). by split_and!.
Qed.

Definition example_rand (k : nat) : Z := 214748000 * Z.of_nat (k mod 3).

(** The second time a fault is to be listed there is no memory: two nodes are down, one of them has been reported. *)
Lemma random_fails_once_witness :
  exists s tr ns fss s', setup [str "4"] random_zero = Done None s tr /\
    get_nodes s = Done (0, ns) s [] /\ length ns = 4%nat /\
    fm_tics (random_fm example_rand (fun k => negb (k =? 3)%nat) (fun _ => true)) 3 s = Done fss s' [] /\
    NoDup (map f_node (concat fss)) /\ map f_node (concat fss) ⊆ down (r_nodes s').
Proof.
  destruct (random_fails_once example_rand (fun k => negb (k =? 3)%nat) (fun _ => true) 4 3 []) as (rc & s & tr & E1 & Hrc & H); [lia|].
  destruct (H Hrc) as (ns & E2 & Hl & _ & Hr). clear H. cbn in Hrc. subst rc.
  assert (s = Random 4 (map new_node (seq 0 4)) [] 0 []) as -> by (vm_compute in E1; injection E1 as <- _; reflexivity).
  exists (Random 4 (map new_node (seq 0 4)) [] 0 []), tr, ns.
  destruct (fm_tics _ 3 _) as [fss s' t|h t] eqn:E3; [|destruct Hr as [_ [k Hk]]; discriminate Hk].
  assert (t = []) as -> by (vm_compute in E3; injection E3 as _ _ <-; reflexivity).
  exists fss, s'. split; [exact E1|]. split; [exact E2|]. split; [lia|]. split; [reflexivity|]. split; apply Hr.
Defined.
