(* ===== verification/Lifecycle.v ===== *)
(** * The life cycle of the plugins (the init, post init and cleanup functions under plugins/)

    Each shipped plugin has an [init] that checks its arguments, acquires its file or connection and
    registers the plugin struct, and optional hooks that run after all plugins are loaded and before
    they are unloaded.  They reach the plugin manager through the interface struct only. *)

From S2P Require Import Prelude CString Types Loggers PluginManager Replay Random Mosquitto.
Local Open Scope Z_scope.

(** ** plugins/echo/echo.c *)

Module Echo.
Local Open Scope prog_scope.

Definition quoted (s : cstr) : cstr := [chr 34] ++ s ++ [chr 34].

Definition notify_fail {S} (node : cstr) (component : option cstr) (sev : Z) : prog event S Z :=
  emit (EStdout (match component with
    | Some c => str "Node " ++ quoted node ++ str " Component " ++ quoted c ++ str " failed with severity " ++ print_d sev ++ [NL]
    | None => str "Node " ++ quoted node ++ str " " ++ (if sev =? 0 then str "recovered" else str "failed") ++ [NL]
    end)) ;;
  ret 0.

Definition notify_extern {S} (msg : cstr) : prog event S Z :=
  emit (EStdout (str "Node Failed: " ++ c_str msg ++ [NL])) ;; ret 0.

Definition echo_com {S} : com S := Com 0 notify_fail notify_extern None None None.

#[export] Instance echo_safe {S} : ComSafe (@echo_com S).
Proof. by refine {| com_inv := fun _ => True |}; repeat eexists. Defined.

End Echo.

(** ** The globals of the plugins *)

(** transcribe.c: [fault_name], [tic_num], [file] and [nested]. *)
Record trans_globals := TransGlobals {
  tg_fault_name : cstr;
  tg_tic_num : Z;
  tg_file : file_ptr;
  tg_nested : option plugin_ptr
}.

Record world := World {
  w_transcribe : trans_globals;
  w_replay : replay;
  w_random : random;
  w_filelogger : Filelogger.state;
  w_mosquitto : mosquitto
}.

Definition world_zero : world :=
  World (TransGlobals [] 0 FileNull None) replay_zero random_zero Filelogger.initial mosquitto_zero.

Definition set_transcribe v w := World v (w_replay w) (w_random w) (w_filelogger w) (w_mosquitto w).
Definition set_replay v w := World (w_transcribe w) v (w_random w) (w_filelogger w) (w_mosquitto w).
Definition set_random v w := World (w_transcribe w) (w_replay w) v (w_filelogger w) (w_mosquitto w).
Definition set_filelogger v w := World (w_transcribe w) (w_replay w) (w_random w) v (w_mosquitto w).
Definition set_mosquitto v w := World (w_transcribe w) (w_replay w) (w_random w) (w_filelogger w) v.

#[local] Abbreviation H := (host world).

(** A part of the world as a part of the host. *)
Definition on_plugin {T A} (proj : world -> T) (upd : T -> world -> world) (m : prog event T A) : prog event H A :=
  zoom (fun h => proj (h_world h)) (fun t h => Host (h_pm h) (upd t (h_world h))) m.

Inductive shipped := STranscribe | SReplay | SRandom | SEcho | SFilelogger | SMosquitto.

(** The plugin structs of the header files. *)
Definition shipped_type (k : shipped) : Z :=
  match k with
  | STranscribe => Z.lor PL_FAULT_MANAGER PL_OTHER
  | SReplay | SRandom => PL_FAULT_MANAGER
  | SEcho | SMosquitto => Z.lor PL_COM_ACTOR PL_COM_EXTERN
  | SFilelogger => PL_LOGGER
  end.
Definition shipped_name (k : shipped) : cstr :=
  str match k with
      | STranscribe => "transcribe" | SReplay => "replay" | SRandom => "random" | SEcho => "echo"
      | SFilelogger => "filelogger" | SMosquitto => "mosquitto"
      end.

Section Lifecycle.
Context (inter : plugin_manager_interface H) (addr : shipped -> plugin_ptr).
(* the text of a file that can be read, and the files that can be written *)
Context (fopen_r : cstr -> option cstr) (fopen_w : cstr -> bool).
(* libmosquitto *)
Context (lib_init_rc : Z) (connect_rc : cstr -> Z -> Z -> Z) (subscribe_rc : Z) (strerror : Z -> cstr).
(* whether the plugin behind a pointer has a fault manager *)
Context (has_fm : plugin_ptr -> bool).
Local Open Scope prog_scope.

(** The loop over the arguments, for the log. *)
Definition log_args (tag : string) (argv : list cstr) : prog event H unit :=
  for_each (imap (fun n a => (n, a)) argv) (fun e =>
    log LL_Debug (snprintf 512 (str tag ++ str " Arg #" ++ print_d (Z.of_nat e.1) ++ str ": " ++ e.2))).

Definition version_ok : bool := pmi_version inter =? PL_INTF_VERSION.

Definition echo_init (argv : list cstr) : prog event H Z :=
  if negb version_ok then emit (EStdout (str "[ECHO] Plugin interface version missmatch" ++ [NL])) ;; ret 1
  else
    log_args "[ECHO]" argv ;;
    pmi_register_plugin inter (addr SEcho) ;;
    ret 0.

Definition random_init (argv : list cstr) : prog event H Z :=
  if negb version_ok then log LL_Error (str "[RANDOM] Plugin interface version missmatch") ;; ret 1
  else
    log_args "[RANDOM]" argv ;;
    r <- on_plugin w_random set_random (setup argv) ;;
    match r with
    | Some rc => ret rc
    | None => pmi_register_plugin inter (addr SRandom) ;; ret 0
    end.

Definition replay_init (argv : list cstr) : prog event H Z :=
  if negb version_ok then log LL_Error (str "[REPLAY] Plugin interface version missmatch") ;; ret 1
  else
    match argv with
    | [] => log LL_Error (str "[REPLAY] usage: libreplay.so filename") ;; ret (-1)
    | name :: _ =>
        match fopen_r name with
        | None => log LL_Error (str "[REPLAY] unable to open file") ;; ret (-1)
        | Some text =>
            on_plugin w_replay set_replay (modify (Replay.set_file text)) ;;
            pmi_register_plugin inter (addr SReplay) ;;
            on_plugin w_replay set_replay (modify (fun s => set_done false (set_tic_num 0 s))) ;;
            ret 0
        end
    end.

Definition transcribe_init (argv : list cstr) : prog event H Z :=
  if negb version_ok then log LL_Error (str "[TRANSCRIBE] Plugin interface version missmatch") ;; ret 1
  else
    match argv with
    | nested :: name :: _ =>
        if negb (fopen_w name) then
          on_plugin w_transcribe set_transcribe
            (modify (fun g => TransGlobals nested (tg_tic_num g) FileNull (tg_nested g))) ;;
          log LL_Error (str "[TRANSCRIBE] unable to open file") ;; ret (-1)
        else
          on_plugin w_transcribe set_transcribe
            (modify (fun g => TransGlobals nested (tg_tic_num g) (FileOpen []) (tg_nested g))) ;;
          pmi_register_plugin inter (addr STranscribe) ;;
          on_plugin w_transcribe set_transcribe
            (modify (fun g => TransGlobals (tg_fault_name g) 0 (tg_file g) (tg_nested g))) ;;
          ret 0
    | _ => log LL_Error (str "[TRANSCRIBE] usage: transcribe.so nested_manager filename") ;; ret (-1)
    end.

(** The test [argc < 0] never holds: without an argument [argv[0]] is read all the same. *)
Definition filelogger_init (argv : list cstr) : prog event H Z :=
  match argv with
  | [] => stop Undefined
  | name :: _ =>
      if negb (fopen_w name) then
        on_plugin w_filelogger set_filelogger (modify (fun s => Filelogger.State (Filelogger.lvl s) FileNull)) ;; ret 1
      else
        on_plugin w_filelogger set_filelogger (modify (fun s => Filelogger.State (Filelogger.lvl s) (FileOpen []))) ;;
        pmi_register_plugin inter (addr SFilelogger) ;;
        ret 0
  end.

Definition mosquitto_init (argv : list cstr) : prog event H Z :=
  Mosquitto.init lib_init_rc connect_rc subscribe_rc strerror (fun h => w_mosquitto (h_world h))
    (fun v h => Host (h_pm h) (set_mosquitto v (h_world h))) inter (addr SMosquitto) argv.

Definition init_of (k : shipped) : list cstr -> prog event H Z :=
  match k with
  | STranscribe => transcribe_init
  | SReplay => replay_init
  | SRandom => random_init
  | SEcho => echo_init
  | SFilelogger => filelogger_init
  | SMosquitto => mosquitto_init
  end.

(** *** Post init hooks *)

(** [post] of transcribe.c: the nested manager takes over the role. *)
Definition transcribe_post : prog event H Z :=
  g <- on_plugin w_transcribe set_transcribe get ;;
  fmpl <- pmi_by_name inter (tg_fault_name g) ;;
  match fmpl with
  | None => log LL_Error (str "[TRANSCRIBE] unable aquire nested fault manager") ;; ret 1
  | Some p =>
      pmi_add_role inter (Some p) PL_FAULT_MANAGER ;;
      pmi_set_role inter (Some (addr STranscribe)) PL_OTHER ;;
      if has_fm p then
        on_plugin w_transcribe set_transcribe
          (modify (fun g => TransGlobals (tg_fault_name g) (tg_tic_num g) (tg_file g) (Some p))) ;;
        ret 0
      else stop Undefined                      (* fmpl->fm() *)
  end.

Definition mosquitto_post : prog event H Z := on_plugin w_mosquitto set_mosquitto Mosquitto.post_init.

Definition post_of (k : shipped) : option (prog event H Z) :=
  match k with
  | STranscribe => Some transcribe_post
  | SMosquitto => Some mosquitto_post
  | SReplay | SEcho | SFilelogger => Some (ret 0)
  | SRandom => None
  end.

(** *** Cleanup; closing a file that is not open is undefined *)

Definition transcribe_cleanup : prog event H Z :=
  g <- on_plugin w_transcribe set_transcribe get ;;
  match tg_file g with
  | FileOpen text =>
      on_plugin w_transcribe set_transcribe
        (modify (fun g => TransGlobals (tg_fault_name g) (tg_tic_num g) (FileClosed text) (tg_nested g))) ;; ret 0
  | _ => stop Undefined
  end.

Definition filelogger_cleanup : prog event H Z :=
  s <- on_plugin w_filelogger set_filelogger get ;;
  match Filelogger.log_file s with
  | FileOpen text =>
      on_plugin w_filelogger set_filelogger (modify (fun s => Filelogger.State (Filelogger.lvl s) (FileClosed text))) ;; ret 0
  | _ => stop Undefined
  end.

(** The nodes go with their components; of a file that is closed there is nothing to read. *)
Definition replay_cleanup : prog event H Z :=
  on_plugin w_replay set_replay (Replay.free_faults ;; modify (set_nodes []) ;; modify (set_file [])) ;; ret 0.

Definition random_cleanup : prog event H Z := on_plugin w_random set_random Random.cleanup.

Definition mosquitto_cleanup : prog event H Z := on_plugin w_mosquitto set_mosquitto Mosquitto.cleanup.

Definition cleanup_of (k : shipped) : option (prog event H Z) :=
  match k with
  | STranscribe => Some transcribe_cleanup
  | SReplay => Some replay_cleanup
  | SRandom => Some random_cleanup
  | SFilelogger => Some filelogger_cleanup
  | SMosquitto => Some mosquitto_cleanup
  | SEcho => None
  end.

End Lifecycle.

(** ** Registration *)

Section Registration.
Context (mem : plugin_ptr -> plugin world H) (addr : shipped -> plugin_ptr).
Context (fopen_r : cstr -> option cstr) (fopen_w : cstr -> bool).
Context (lib_init_rc : Z) (connect_rc : cstr -> Z -> Z -> Z) (subscribe_rc : Z) (strerror : Z -> cstr).

(** The plugin at [p] is registered, or its name is taken. *)
Definition present (p : plugin_ptr) (m : role_map) : Prop :=
  p ∈ keys m \/ exists q, q ∈ keys m /\ pl_name (mem q) = pl_name (mem p).

(** The map is [m], or [m] with [p] as its one new entry. *)
Definition registers_only (p : plugin_ptr) (m : role_map) (h : H) : Prop :=
  let m' := plugins (h_pm h) in
  m' = m \/ (m' = map_emplace p PL_NONE m /\ find_by_name mem (pl_name (mem p)) m = None /\ map_find p m = None).

Lemma on_plugin_keeps {T A} proj upd (m : prog event T A) p m0 :
  preserves (registers_only p m0) (on_plugin proj upd m).
Proof. intros h Hh. unfold on_plugin, zoom. by destruct (m _). Qed.

Lemma register_triple p m0 : triple (registers_only p m0) (register_plugin mem p)
  (fun _ h => registers_only p m0 h /\ present p (plugins (h_pm h))).
Proof.
  intros h Hh. unfold register_plugin, log, bind, emit, get, put, ret.
  destruct (find_by_name mem (pl_name (mem p)) (plugins (h_pm h))) as [q|] eqn:E1.
  { split; [done|]. right. exists q. by apply find_by_name_some in E1. }
  destruct (map_find p (plugins (h_pm h))) as [r|] eqn:E2.
  { split; [done|]. left. destruct (decide (p ∈ keys (plugins (h_pm h)))) as [|Hp]; [done|].
    apply map_find_none in Hp. congruence. }
  cbn. split; [|left; apply keys_emplace; by left]. destruct Hh as [Hh|(Hh & _ & Hm)].
  - right. cbn. rewrite Hh in *. done.
  - exfalso. rewrite Hh in E2. apply map_find_none in E2. apply E2. apply keys_emplace. by left.
Qed.

Lemma log_args_keeps tag argv (I : H -> Prop) : preserves I (log_args tag argv).
Proof. unfold log_args. apply preserves_for_each. intros e. apply preserves_emit. Qed.

(** What [init] guarantees: at most its own plugin is added, and a result of 0 means that a plugin of its
    name is there. *)
Definition init_post (p : plugin_ptr) (m0 : role_map) (rc : Z) (h : H) : Prop :=
  registers_only p m0 h /\ (rc = 0 -> present p (plugins (h_pm h))).

Lemma triple_fail p m0 rc : rc <> 0 -> triple (E := event) (registers_only p m0) (ret rc) (init_post p m0).
Proof. intros Hrc. apply triple_ret. by intros s Hs; split. Qed.

Lemma triple_registered {T A} p m0 proj upd (m : prog event T A) :
  triple (registers_only p m0) (bind (register_plugin mem p) (fun _ => bind (on_plugin proj upd m) (fun _ => ret 0))) (init_post p m0).
Proof.
  eapply triple_bind; [apply register_triple|]. intros ?.
  apply (triple_bind _ (fun _ h => registers_only p m0 h /\ present p (plugins (h_pm h)))).
  - intros h [Hh Hp]. unfold on_plugin, zoom. by destruct (m _).
  - intros ?. apply triple_ret. by intros s [Hs Hp]; split.
Qed.

Lemma triple_registered_last p m0 :
  triple (registers_only p m0) (bind (register_plugin mem p) (fun _ => ret 0)) (init_post p m0).
Proof. eapply triple_bind; [apply register_triple|]. intros ?. apply triple_ret. by intros s [Hs Hp]; split. Qed.

Ltac init_step := first
  [ apply triple_registered | apply triple_registered_last | apply triple_stop
  | apply triple_fail; lia
  | apply triple_after; [first [apply preserves_emit | apply on_plugin_keeps | apply log_args_keeps]|intros ?]
  | apply triple_if ].

Lemma mosquitto_init_triple argv m0 : triple (registers_only (addr SMosquitto) m0)
  (mosquitto_init (interface mem) addr lib_init_rc connect_rc subscribe_rc strerror argv)
  (init_post (addr SMosquitto) m0).
Proof.
  unfold mosquitto_init, Mosquitto.init, log. destruct argv as [|id argv].
  - apply triple_after; [apply on_plugin_keeps|]. intros s. destruct (mg_log s); repeat init_step.
  - cbn [pmi_version pmi_register_plugin interface]. apply triple_if; [repeat init_step|].
    do 5 (apply triple_after; [first [apply preserves_emit | apply on_plugin_keeps]|intros ?]).
    match goal with |- triple _ (if negb (?sc =? 0) then _ else _) _ => destruct (Z.eqb_spec sc 0) end; cbn [negb].
    + apply triple_after; [apply preserves_emit|intros _]. eapply triple_bind; [apply register_triple|]. intros r.
      destruct (negb (r =? 0)).
      * intros h [Hh Hp]. unfold bind, emit, ret. by split.
      * intros h [Hh Hp]. by split.
    + apply triple_after; [apply preserves_emit|intros _]. by apply triple_fail.
Qed.

Lemma setup_fails argv s rc s' tr : setup argv s = Done (Some rc) s' tr -> rc <> 0.
Proof.
  unfold setup, bind, modify, log, emit, ret. destruct argv as [|a argv]; [by intros [= <- _ _]|].
  destruct (_ <? 0); [by intros [= <- _ _]|]. by destruct (make_nodes _ _ _) as [[] ? ?|]; [|intros [= <- _ _]|].
Qed.

Lemma random_init_triple argv m0 : triple (registers_only (addr SRandom) m0)
  (random_init (interface mem) addr argv) (init_post (addr SRandom) m0).
Proof.
  unfold random_init, log. apply triple_if; [repeat init_step|]. apply triple_after; [apply log_args_keeps|intros _].
  intros h Hh. unfold bind at 1, on_plugin, zoom. destruct (setup argv _) as [[rc|] s' tr|] eqn:E; [| |done].
  - cbn. split; [exact Hh|]. intros ->. by apply setup_fails in E.
  - pose proof (triple_registered_last (addr SRandom) m0 (Host (h_pm h) (set_random s' (h_world h)))) as Ht.
    cbn [pmi_register_plugin interface]. specialize (Ht Hh). cbv beta iota. by destruct (bind _ _ _).
Qed.

Lemma init_triple k argv m0 : triple (registers_only (addr k) m0)
  (init_of (interface mem) addr fopen_r fopen_w lib_init_rc connect_rc subscribe_rc strerror k argv)
  (init_post (addr k) m0).
Proof.
  destruct k; cbn [init_of].
  - unfold transcribe_init, log. apply triple_if; [repeat init_step|]. destruct argv as [|a [|b argv]]; repeat init_step.
  - unfold replay_init, log. apply triple_if; [repeat init_step|]. destruct argv as [|a argv]; [repeat init_step|].
    destruct (fopen_r a); repeat init_step.
  - apply random_init_triple.
  - unfold echo_init. apply triple_if; repeat init_step.
  - unfold filelogger_init. destruct argv as [|a argv]; repeat init_step.
  - apply mosquitto_init_triple.
Qed.

(** C25: whatever its arguments, [init] of a shipped plugin adds at most its own plugin to the manager,
    without a role and without touching another entry, so the manager's invariant is kept; and when
    it reports success a plugin of its name is registered (its own, unless the name was taken: the
    result of the registration is not looked at, except by the MQTT plugin). *)
Theorem inits_register (k : shipped) argv h rc h' tr : manager_ok mem (plugins (h_pm h)) ->
  init_of (interface mem) addr fopen_r fopen_w lib_init_rc connect_rc subscribe_rc strerror k argv h = Done rc h' tr ->
  (forall q r, (q, r) ∈ plugins (h_pm h') <->
     (q, r) ∈ plugins (h_pm h) \/ (q = addr k /\ r = PL_NONE /\ addr k ∉ keys (plugins (h_pm h)) /\ addr k ∈ keys (plugins (h_pm h')))) /\
  manager_ok mem (plugins (h_pm h')) /\
  (rc = 0 -> present (addr k) (plugins (h_pm h'))).
Proof.
  intros Hok E. set (m0 := plugins (h_pm h)) in *.
  pose proof (init_triple k argv m0) as Ht.
  specialize (Ht h (or_introl eq_refl)). rewrite E in Ht. destruct Ht as [[Hm|(Hm & Hname & Hp)] Hrc].
  - split; [|split; [by rewrite Hm|done]]. intros q r. rewrite Hm. split; [by left|]. intros [?|(-> & _ & Hn & Hy)]; done.
  - split; [|split; [rewrite Hm; by apply manager_ok_register|done]]. intros q r. rewrite Hm.
    rewrite elem_emplace by done. split.
    + intros [[-> ->]|?]; [right|by left]. split; [done|]. split; [done|]. split; [by apply map_find_none|].
      apply keys_emplace. by left.
    + intros [?|(-> & -> & _ & _)]; [by right|by left].
Qed.

End Registration.

(** ** The transcribe plugin steps aside for the manager it wraps *)

Section Handover.
Context (mem : plugin_ptr -> plugin world H) (addr : shipped -> plugin_ptr) (has_fm : plugin_ptr -> bool).

Definition wrapped_name (h : H) : cstr := tg_fault_name (w_transcribe (h_world h)).

Definition set_nested (p : plugin_ptr) (w : world) : world :=
  set_transcribe (TransGlobals (tg_fault_name (w_transcribe w)) (tg_tic_num (w_transcribe w)) (tg_file (w_transcribe w)) (Some p)) w.

(** The plugin of the name is found. *)
Lemma get_wrapped h p r : manager_ok mem (plugins (h_pm h)) -> map_find p (plugins (h_pm h)) = Some r -> pl_name (mem p) = wrapped_name h ->
  get_by_name mem (wrapped_name h) h = Done (Some p) h [].
Proof.
  intros Hok Hr Hname. unfold get_by_name, bind, get, ret. do 2 f_equal.
  assert (p ∈ keys (plugins (h_pm h))) as Hin by (eapply elem_keys; rewrite <- (map_find_elem p r); [exact Hr|apply Hok]).
  destruct (find_by_name mem (wrapped_name h) (plugins (h_pm h))) as [q|] eqn:Eq.
  - apply find_by_name_some in Eq as [Hq Hqn]. f_equal. apply (mo_names _ _ Hok); [done|done|congruence].
  - rewrite find_by_name_none in Eq. by destruct (Eq p).
Qed.

(** The hook when the plugin it wraps is there. *)
Lemma transcribe_post_run h p r0 r : manager_ok mem (plugins (h_pm h)) ->
  pl_type (mem (addr STranscribe)) = shipped_type STranscribe ->
  map_find (addr STranscribe) (plugins (h_pm h)) = Some r0 -> p <> addr STranscribe ->
  map_find p (plugins (h_pm h)) = Some r -> has_fm p = true -> HAS_PL_TYPE (mem p) PL_FAULT_MANAGER = true ->
  pl_name (mem p) = wrapped_name h ->
  exists h', transcribe_post (interface mem) addr has_fm h = Done 0 h' [] /\
    manager_ok mem (plugins (h_pm h')) /\ h_world h' = set_nested p (h_world h) /\
    map_find (addr STranscribe) (plugins (h_pm h')) = Some PL_OTHER /\
    map_find p (plugins (h_pm h')) = Some (Z.lor r PL_FAULT_MANAGER) /\
    forall q, q <> p -> q <> addr STranscribe -> map_find q (plugins (h_pm h')) = map_find q (plugins (h_pm h)).
Proof.
  intros Hok Ht Hself Hp Hr Hfm Hcap Hname.
  unfold transcribe_post, on_plugin. cbn [pmi_by_name pmi_add_role pmi_set_role interface].
  pose proof (get_wrapped h p r Hok Hr Hname) as E0.
  destruct (update_role_effect mem p PL_FAULT_MANAGER (fun r => Z.lor r PL_FAULT_MANAGER) h r) as (h1 & E1 & W1 & O1 & P1 & F1); [done| | |done|].
  { apply (land_pow2 _ 2); [done|]. unfold HAS_PL_TYPE in Hcap. by apply negb_true_iff, Z.eqb_neq in Hcap. }
  { intros r' Hr'. rewrite Z.land_lor_distr_r, Hr'. f_equal. apply (land_pow2 _ 2); [done|].
    unfold HAS_PL_TYPE in Hcap. by apply negb_true_iff, Z.eqb_neq in Hcap. }
  destruct (update_role_effect mem (addr STranscribe) PL_OTHER (fun _ => PL_OTHER) h1 r0) as (h2 & E2 & W2 & O2 & P2 & F2);
    [done|by rewrite Ht|by rewrite Ht|by rewrite F1|].
  eexists. split.
  { assert (Host (h_pm h) (set_transcribe (w_transcribe (h_world h)) (h_world h)) = h) as Hid by (by destruct h as [? []]).
    eapply (bind_done _ _ h _ h []); [unfold zoom, get; by rewrite Hid|]. cbv beta. eapply (bind_done _ _ _ _ _ []); [exact E0|].
    cbv beta iota. eapply (bind_done _ _ _ _ _ []); [exact E1|]. eapply (bind_done _ _ _ _ _ []); [exact E2|].
    rewrite Hfm. reflexivity. }
  cbn. split; [exact O2|]. split; [by rewrite W2, W1|]. split; [done|]. split; [by rewrite F2|]. intros q Hq1 Hq2. by rewrite F2, F1.
Qed.

(** Giving a role to a plugin that is registered: it gets it, or keeps what it has. *)
Lemma update_role_registered q role f h r : manager_ok mem (plugins (h_pm h)) -> map_find q (plugins (h_pm h)) = Some r ->
  (forall r', Z.land (pl_type (mem q)) r' = r' -> Z.land (pl_type (mem q)) role = role -> Z.land (pl_type (mem q)) (f r') = f r') ->
  exists rc h', update_role mem (Some q) role f h = Done rc h' [] /\ manager_ok mem (plugins (h_pm h')) /\
    forall q', is_Some (map_find q' (plugins (h_pm h))) -> is_Some (map_find q' (plugins (h_pm h'))).
Proof.
  intros Hok Hq Hf. destruct (Z.eqb_spec (Z.land (pl_type (mem q)) role) role) as [E|E].
  - destruct (update_role_effect mem q role f h r) as (h' & Eu & _ & O & P & F); [done|done|intros r' Hr'; by apply Hf|done|].
    exists 0, h'. split; [done|]. split; [done|]. intros q' Hq'. destruct (decide (q' = q)) as [->|Hne]; [rewrite P; by eexists|by rewrite F].
  - exists (-1), h. unfold update_role. apply Z.eqb_neq in E. by rewrite E.
Qed.

(** C26: the post init hook of the transcribe plugin.  If the plugin of the name it has been given is loaded and is a fault manager, other
    than itself, the hook takes transcribe out of the role of the fault manager (its
    role becomes "other") and gives the plugin it wraps that role on top of the roles it has, and no
    other plugin is touched.  When no plugin of the given name is loaded the hook fails with 1 and
    nothing changes, whatever else is loaded.  When there is one, but its struct has no fault manager, the hook calls a null pointer. *)
Theorem transcribe_post_spec h : manager_ok mem (plugins (h_pm h)) -> pl_type (mem (addr STranscribe)) = shipped_type STranscribe ->
  (forall p r0 r, map_find (addr STranscribe) (plugins (h_pm h)) = Some r0 -> p <> addr STranscribe ->
    map_find p (plugins (h_pm h)) = Some r -> pl_name (mem p) = wrapped_name h ->
    (has_fm p = true -> HAS_PL_TYPE (mem p) PL_FAULT_MANAGER = true ->
     exists h', transcribe_post (interface mem) addr has_fm h = Done 0 h' [] /\
       tg_nested (w_transcribe (h_world h')) = Some p /\
       map_find (addr STranscribe) (plugins (h_pm h')) = Some PL_OTHER /\
       map_find p (plugins (h_pm h')) = Some (Z.lor r PL_FAULT_MANAGER) /\
       forall q, q <> p -> q <> addr STranscribe -> map_find q (plugins (h_pm h')) = map_find q (plugins (h_pm h))) /\
    (has_fm p = false -> transcribe_post (interface mem) addr has_fm h = Halt Undefined [])) /\
  ((forall q, q ∈ keys (plugins (h_pm h)) -> pl_name (mem q) <> wrapped_name h) ->
   transcribe_post (interface mem) addr has_fm h =
     Done 1 h [ELog LL_Error (str "[TRANSCRIBE] unable aquire nested fault manager")]).
Proof.
  intros Hok Ht. split; [intros p r0 r Hself Hp Hr Hname; split|].
  - intros Hfm Hcap. destruct (transcribe_post_run h p r0 r) as (h' & E & _ & W & R); [done..|].
    exists h'. split; [done|]. split; [by rewrite W|done].
  - intros Hfm. unfold transcribe_post, on_plugin. cbn [pmi_by_name pmi_add_role pmi_set_role interface].
    destruct (update_role_registered p PL_FAULT_MANAGER (fun r => Z.lor r PL_FAULT_MANAGER) h r Hok Hr) as (rc1 & h1 & E1 & O1 & K1).
    { intros r' H1 H2. by rewrite Z.land_lor_distr_r, H1, H2. }
    destruct (K1 (addr STranscribe)) as [r1 Hr1]; [by eexists|].
    destruct (update_role_registered (addr STranscribe) PL_OTHER (fun _ => PL_OTHER) h1 r1 O1 Hr1) as (rc2 & h2 & E2 & _); [done|].
    assert (Host (h_pm h) (set_transcribe (w_transcribe (h_world h)) (h_world h)) = h) as Hid by (by destruct h as [? []]).
    unfold bind at 1. unfold zoom at 1, get at 1. rewrite Hid. cbv beta. unfold bind at 1. fold (wrapped_name h). rewrite (get_wrapped h p r) by done.
    unfold add_role, set_role. unfold bind at 1. rewrite E1. unfold bind at 1. rewrite E2, Hfm. done.
  - intros Hno. unfold transcribe_post, on_plugin, bind, zoom, get. cbn [pmi_by_name interface].
    unfold get_by_name, bind, get, ret, log, emit. cbn.
    assert (find_by_name mem (tg_fault_name (w_transcribe (h_world h))) (plugins (h_pm h)) = None) as ->
      by (by apply find_by_name_none). destruct h as [pm w]. cbn. by destruct w.
Qed.

End Handover.

(** ** Examples: the shipped plugins at fixed addresses *)

Definition shipped_addr (k : shipped) : plugin_ptr :=
  match k with
  | STranscribe => 16 | SReplay => 32 | SRandom => 48 | SEcho => 64 | SFilelogger => 80 | SMosquitto => 96
  end.

Definition shipped_at (p : plugin_ptr) : shipped :=
  if p =? 16 then STranscribe else if p =? 32 then SReplay else if p =? 48 then SRandom
  else if p =? 64 then SEcho else if p =? 80 then SFilelogger else SMosquitto.

Definition shipped_mem (p : plugin_ptr) : plugin world H :=
  Plugin 1 (shipped_type (shipped_at p)) (shipped_name (shipped_at p)) None None None None None.

Definition wrapping_host : H :=
  Host (Manager standard_logger [(16, PL_FAULT_MANAGER); (48, PL_NONE)] [])
    (set_transcribe (TransGlobals (str "random") 0 (FileOpen []) None) world_zero).

Lemma wrapping_ok : manager_ok shipped_mem (plugins (h_pm wrapping_host)).
Proof.
  split.
  - repeat constructor.
  - intros p q Hp Hq. apply list_elem_of_In in Hp as [<-|[<-|[]]], Hq as [<-|[<-|[]]]; done.
  - intros p r Hr. by apply list_elem_of_In in Hr as [[= <- <-]|[[= <- <-]|[]]].
Qed.

Lemma inits_register_witness :
  exists h' tr, init_of (interface shipped_mem) shipped_addr (fun _ => None) (fun _ => true) 0 (fun _ _ _ => 0) 0
      (fun _ => []) SMosquitto [str "master"; str "broker"; str "1884"] wrapping_host = Done 0 h' tr /\
    present shipped_mem 96 (plugins (h_pm h')) /\ map_find 96 (plugins (h_pm h')) = Some PL_NONE.
Proof.
  eexists _, _. split; [reflexivity|]. split; [|reflexivity].
  refine (proj2 (proj2 (inits_register shipped_mem shipped_addr (fun _ => None) (fun _ => true) 0 (fun _ _ _ => 0) 0
    (fun _ => []) SMosquitto [str "master"; str "broker"; str "1884"] wrapping_host 0 _ _ wrapping_ok eq_refl)) eq_refl).
Defined.

(** With nothing but the transcribe plugin. *)
Definition lonely_host : H :=
  Host (Manager standard_logger [(16, PL_FAULT_MANAGER)] []) (set_transcribe (TransGlobals (str "random") 0 (FileOpen []) None) world_zero).

Lemma lonely_ok : manager_ok shipped_mem (plugins (h_pm lonely_host)).
Proof.
  split.
  - by repeat constructor.
  - intros p q Hp Hq. apply list_elem_of_In in Hp as [<-|[]], Hq as [<-|[]]; done.
  - intros p r Hr. by apply list_elem_of_In in Hr as [[= <- <-]|[]].
Qed.

Lemma transcribe_post_spec_witness :
  (exists h', transcribe_post (interface shipped_mem) shipped_addr (fun _ => true) wrapping_host = Done 0 h' [] /\
    tg_nested (w_transcribe (h_world h')) = Some 48 /\
    map_find 16 (plugins (h_pm h')) = Some PL_OTHER /\ map_find 48 (plugins (h_pm h')) = Some PL_FAULT_MANAGER) /\
  transcribe_post (interface shipped_mem) shipped_addr (fun _ => false) wrapping_host = Halt Undefined [] /\
  transcribe_post (interface shipped_mem) shipped_addr (fun _ => true) lonely_host =
    Done 1 lonely_host [ELog LL_Error (str "[TRANSCRIBE] unable aquire nested fault manager")].
Proof.
  destruct (transcribe_post_spec shipped_mem shipped_addr (fun _ => true) wrapping_host wrapping_ok eq_refl) as [H1 _].
  destruct (transcribe_post_spec shipped_mem shipped_addr (fun _ => false) wrapping_host wrapping_ok eq_refl) as [H2 _].
  destruct (transcribe_post_spec shipped_mem shipped_addr (fun _ => true) lonely_host lonely_ok eq_refl) as [_ H3].
  destruct (H1 48 PL_FAULT_MANAGER PL_NONE eq_refl ltac:(done) eq_refl eq_refl) as [H1' _].
  destruct (H2 48 PL_FAULT_MANAGER PL_NONE eq_refl ltac:(done) eq_refl eq_refl) as [_ H2'].
  split; [|split; [exact (H2' eq_refl)|apply H3; intros q Hq; apply list_elem_of_In in Hq as [<-|[]]; done]].
  destruct (H1' eq_refl eq_refl) as (h' & E & Ha & Hb & Hc & _). by exists h'.
Defined.
