(* ===== verification/Main.v ===== *)
(** * The program (srv/main.cpp)

    [main] from the parsed options to the cleanup.  What other threads do is given by two parameters:
    [termreq i] is the value of the flag the signal handler sets at its [i]-th test, and [inbox i] are the
    messages the backchannel thread has handed to [on_message] between the test before and the [i]-th
    one. *)

From S2P Require Import Prelude CString Types Loggers Options PluginManager Config Server ServerTics.
Local Open Scope Z_scope.

(** ** The table of the loaded plugins *)

Definition strlen (s : cstr) : nat := length s.

(** [%-*s] *)
Definition pad (width : nat) (s : cstr) : cstr := s ++ repeat " "%char (width - strlen s).

Definition role_cell (type role t : Z) : cstr :=
  [" "%char; if negb (Z.land type t =? 0) then "A"%char else "-"%char;
   if negb (Z.land role t =? 0) then "U"%char else "-"%char].

Section Table.
Context {W H : Type} (mem : plugin_ptr -> plugin W H).

Definition plugin_row (width : nat) (e : Z * plugin_ptr) : cstr :=
  snprintf 511 (pad width (pl_name (mem e.2)) ++
    concat (map (role_cell (pl_type (mem e.2)) e.1)
      [PL_COM_ACTOR; PL_COM_EXTERN; PL_FAULT_MANAGER; PL_LOGGER; PL_TOPOLOGY; PL_OTHER])).

Definition table_header (width : nat) : cstr := snprintf 511 (pad width (str "Name") ++ str " CA CE MA LO TO OT").

(** [maxNameLen] after the loop over [i], which measures [loaded[0]] each time. *)
Fixpoint max_name_len (first : plugin_ptr) (rest : list (Z * plugin_ptr)) (maxNameLen : nat) : nat :=
  match rest with
  | [] => maxNameLen
  | _ :: rest' =>
      let nameLen := strlen (pl_name (mem first)) in
      max_name_len first rest' (if Nat.ltb maxNameLen nameLen then nameLen else maxNameLen)
  end.

End Table.

(** What [main] says before it cleans up. *)
Definition cleaning_up : event := ELog LL_Info (str "cleaning up").

Section Main.
Context {W : Type} (mem : plugin_ptr -> plugin W (host W)).
Context (dlmopen : cstr -> option Z) (dlerror : cstr) (dlsym : Z -> cstr -> option Z)
        (init_at : Z -> list cstr -> prog event (host W) Z) (open_file : cstr -> option cstr).
Context (parse_backchannel : cstr -> option backchannel) (serialize : laik_ext_msg -> cstr) (now : nat -> Z).
Context (call_other : Z -> cstr -> prog event (ssys W) unit).
Context (inbox : nat -> list cstr) (termreq : nat -> bool).
Local Open Scope prog_scope.

Definition on_csys {A} (m : prog event (csys W) A) : prog event (ssys W) A :=
  zoom ss_csys (fun c s => Ssys (ss_srv s) c) m.

(** A local object: [m] runs on its own state, which is handed on. *)
Definition local {S A} (init : S) (m : prog event S A) : prog event (ssys W) (A * S) := fun s =>
  match m init with
  | Done a o tr => Done (a, o) s tr
  | Halt h tr => Halt h tr
  end.

(** *** Initialisation *)

Definition use_logger (ll : log_level) : prog event (ssys W) unit :=
  s <- get ;;
  match conf_logger (ss_conf s) with
  | None => ret tt
  | Some p =>
      deref (pl_lf (mem p)) ;;
      modify (fun s => with_host (Host
        (Manager (plugin_logger p) (plugins (h_pm (ss_host s))) (libraries (h_pm (ss_host s)))) (ss_world s)) s) ;;
      emit (ESetLogLevel ll)
  end.

Definition assign_roles : prog event (ssys W) unit :=
  s <- get ;;
  let conf := ss_conf s in
  on_host (add_role mem (com_actor conf) PL_COM_ACTOR) ;;
  on_host (add_role mem (com_notify conf) PL_COM_EXTERN) ;;
  on_host (add_role mem (conf_logger conf) PL_LOGGER) ;;
  on_host (add_role mem (conf_fault_manager conf) PL_FAULT_MANAGER) ;;
  ret tt.

Definition print_table : prog event (ssys W) unit :=
  loaded <- on_host all_plugins ;;
  match loaded with
  | [] => stop Undefined
  | first :: rest =>
      let width := max_name_len mem first.2 rest (strlen (pl_name (mem first.2))) in
      log LL_Info (table_header width) ;;
      for_each loaded (fun e => log LL_Info (plugin_row mem width e))
  end.

(** *** The loops; [i] counts the tests of the termination flag *)

(** The result is the next [i]. *)
Fixpoint wait_ready (fuel i : nat) : prog event (ssys W) nat :=
  match fuel with
  | O => stop OutOfFuel
  | S fuel' =>
      for_each (inbox i) (on_message parse_backchannel call_other) ;;
      if termreq i then ret (S i)
      else
        ready <- all_nodes_ready ;;
        if ready then ret (S i)
        else emit (ESleepFor 1) ;; wait_ready fuel' (S i)
  end.

Fixpoint tic_loop (tic_fuel : nat) (max_tics : Z) (fuel i : nat) (tic_num : Z) : prog event (ssys W) unit :=
  match fuel with
  | O => stop OutOfFuel
  | S fuel' =>
      for_each (inbox i) (on_message parse_backchannel call_other) ;;
      if termreq i then ret tt
      else if max_tics =? 0 then
        do_tic serialize now tic_fuel ;;
        tic_loop tic_fuel max_tics fuel' (S i) tic_num
      else if tic_num <? max_tics then
        do_tic serialize now tic_fuel ;;
        tic_loop tic_fuel max_tics fuel' (S i) (u64 (tic_num + 1))
      else ret tt
  end.

Definition wait_for_nodes (fuel : nat) (sync : bool) : prog event (ssys W) nat :=
  if sync then
    i <- wait_ready fuel 0 ;;
    log LL_Info (str "all nodes ready") ;;
    send_synced_signal ;;
    ret i
  else ret 0%nat.

Definition main (wait_fuel tic_fuel run_fuel : nat) (argv0 : option cstr) (args : list (ascii * cstr)) : prog event (ssys W) Z :=
  r <- local new_options (parse args) ;;
  let opts := snd r in
  if negb (fst r =? 0) then ret (-1)
  else if bool_decide (cfile opts = []) then
    emit (EStdout (str "usage: " ++ default (str "lauSim") argv0 ++ str " -c <file>" ++ [NL])) ;; ret (-1)
  else
    emit (ESetLogLevel (loglevel opts)) ;;
    rc <- on_csys (load_config mem dlmopen dlerror dlsym init_at open_file (c_str (cfile opts))) ;;
    if negb (rc =? 0) then log LL_Fatal (str "error while loading config") ;; ret 1
    else
      use_logger (loglevel opts) ;;
      assign_roles ;;
      rc <- init mem ;;
      if negb (rc =? 0) then ret 1
      else
        log LL_Info (str "initialization complete") ;;
        print_table ;;
        i <- wait_for_nodes wait_fuel (sync opts) ;;
        tic_loop tic_fuel (max_tics opts) run_fuel i 0 ;;
        emit cleaning_up ;;
        on_host (cleanup mem) ;;
        ret 0.

End Main.

(** ** The roles of the configured plugins *)

Section Roles.
Context {W : Type} (mem : plugin_ptr -> plugin W (host W)).

Definition uses (pl : option plugin_ptr) (role : Z) (q : plugin_ptr) : Z := if decide (pl = Some q) then role else 0.

(** The roles the configuration gives to a plugin. *)
Definition configured_roles (c : config) (q : plugin_ptr) : Z :=
  Z.lor (Z.lor (Z.lor (uses (com_actor c) PL_COM_ACTOR q) (uses (com_notify c) PL_COM_EXTERN q))
    (uses (conf_logger c) PL_LOGGER q)) (uses (conf_fault_manager c) PL_FAULT_MANAGER q).

Definition host_plugins (s : ssys W) : role_map := plugins (h_pm (ss_host s)).

Lemma add_role_step pl role k (s : ssys W) : role = 2 ^ k -> 0 <= k -> manager_ok mem (host_plugins s) ->
  role_ok mem (host_plugins s) role pl ->
  exists z s', on_host (add_role mem pl role) s = Done z s' [] /\ ss_srv s' = ss_srv s /\ ss_conf s' = ss_conf s /\
    ss_world s' = ss_world s /\ manager_ok mem (host_plugins s') /\ keys (host_plugins s') = keys (host_plugins s) /\
    forall q, map_find q (host_plugins s') = (fun r => Z.lor r (uses pl role q)) <$> map_find q (host_plugins s).
Proof.
  intros -> Hk Hok Hro. destruct (add_role_effect mem pl (2 ^ k) (ss_host s) Hok) as (z & h' & E & Hw & Hok' & Hkeys & Hf).
  - intros p Hp. destruct (Hro p Hp) as [Hin Ht]. split; [done|]. apply land_pow2; [done|].
    unfold HAS_PL_TYPE in Ht. by apply negb_true_iff, Z.eqb_neq in Ht.
  - exists z, (with_host h' s). split; [by apply zoom_done|]. done.
Qed.

Lemma role_ok_keys m m' type p : keys m' = keys m -> role_ok mem m type p -> role_ok mem m' type p.
Proof. unfold role_ok. by intros ->. Qed.

Lemma assign_roles_run (s : ssys W) : manager_ok mem (host_plugins s) -> conf_ok mem (ss_csys s) ->
  exists s', assign_roles mem s = Done tt s' [] /\ ss_srv s' = ss_srv s /\ ss_conf s' = ss_conf s /\
    ss_world s' = ss_world s /\ manager_ok mem (host_plugins s') /\ keys (host_plugins s') = keys (host_plugins s) /\
    forall q, map_find q (host_plugins s') =
      (fun r => Z.lor r (configured_roles (ss_conf s) q)) <$> map_find q (host_plugins s).
Proof.
  intros Hok (Ha & Hn & Hf & Hl). change (plugins (h_pm (cs_host (ss_csys s)))) with (host_plugins s) in *.
  destruct (add_role_step (com_actor (ss_conf s)) PL_COM_ACTOR 0 s) as (z1 & s1 & E1 & V1 & C1 & W1 & O1 & K1 & F1); [done..|].
  destruct (add_role_step (com_notify (ss_conf s)) PL_COM_EXTERN 1 s1) as (z2 & s2 & E2 & V2 & C2 & W2 & O2 & K2 & F2);
    [done..|apply (role_ok_keys (host_plugins s)); [congruence|done]|].
  destruct (add_role_step (conf_logger (ss_conf s)) PL_LOGGER 3 s2) as (z3 & s3 & E3 & V3 & C3 & W3 & O3 & K3 & F3);
    [done..|apply (role_ok_keys (host_plugins s)); [congruence|done]|].
  destruct (add_role_step (conf_fault_manager (ss_conf s)) PL_FAULT_MANAGER 2 s3) as (z4 & s4 & E4 & V4 & C4 & W4 & O4 & K4 & F4);
    [done..|apply (role_ok_keys (host_plugins s)); [congruence|done]|].
  exists s4. split.
  { unfold assign_roles, bind, get, ret. cbv zeta beta iota. by rewrite E1, E2, E3, E4. }
  split; [congruence|]. split; [congruence|]. split; [congruence|]. split; [done|]. split; [congruence|]. intros q.
  rewrite F4, F3, F2, F1. unfold configured_roles. destruct (map_find q (host_plugins s)); cbn; [|done].
  by rewrite <- !Z.lor_assoc.
Qed.

(** C18: after the configuration is loaded, assigning the roles cannot fail: no call runs into an
    exception, every plugin ends up with the roles it had and exactly those the configuration gives it,
    and the manager's invariant still holds. *)
Theorem assign_roles_spec (s : ssys W) : manager_ok mem (host_plugins s) -> conf_ok mem (ss_csys s) ->
  exists s', assign_roles mem s = Done tt s' [] /\ ss_srv s' = ss_srv s /\ ss_conf s' = ss_conf s /\
    ss_world s' = ss_world s /\ manager_ok mem (host_plugins s') /\
    forall q, map_find q (host_plugins s') =
      (fun r => Z.lor r (configured_roles (ss_conf s) q)) <$> map_find q (host_plugins s).
Proof.
  intros Hm Hc. destruct (assign_roles_run s Hm Hc) as (s' & E & H1 & H2 & H3 & H4 & _ & H6). by exists s'.
Qed.

End Roles.

(** ** The synchronised start *)

Section Sync.
Context {W : Type} (parse_backchannel : cstr -> option backchannel).
Context (call_other : Z -> cstr -> prog event (ssys W) unit).
Context (inbox : nat -> list cstr) (termreq : nat -> bool) (names : nat -> list cstr) (k : nat).
Hypothesis reports : forall i, (i <= k)%nat -> Forall2 (ready_message parse_backchannel) (names i) (inbox i).
Hypothesis not_terminated : forall i, (i <= k)%nat -> termreq i = false.

(** What is still to come at test [i]. *)
Definition outstanding (i : nat) (s : ssys W) : Prop :=
  forall n, n ∈ nodes_of s -> n_state n = NODE_STATE_READY \/ exists j, (i <= j <= k)%nat /\ n_name n ∈ names j.

Lemma nodes_ready_spec ns : nodes_ready ns = true <-> forall n, n ∈ ns -> n_state n = NODE_STATE_READY.
Proof.
  unfold nodes_ready. rewrite forallb_forall. setoid_rewrite Z.eqb_eq. setoid_rewrite list_elem_of_In. done.
Qed.

Lemma wait_ready_run d : forall i fuel s, (k = i + d)%nat -> (d < fuel)%nat ->
  NoDup (map n_name (nodes_of s)) -> outstanding i s ->
  exists j s', runs (wait_ready parse_backchannel call_other inbox termreq fuel i) s j s' [] /\ same_but_nodes s s' /\
    map n_name (nodes_of s') = map n_name (nodes_of s) /\ (i < j <= S k)%nat /\ nodes_ready (nodes_of s') = true.
Proof.
  induction d as [|d IH]; intros i [|fuel] s Hk Hf Hd Ho; try lia; cbn [wait_ready];
    destruct (receive_all_ready parse_backchannel call_other _ _ s (reports i ltac:(lia)) Hd)
      as (s1 & R1 & Hb1 & Hnm & Hs1); unfold receive_all in R1;
    assert (forall j s' o, runs (if nodes_ready (nodes_of s1) then ret (S i) else
        bind (emit (ESleepFor 1)) (fun _ => wait_ready parse_backchannel call_other inbox termreq fuel (S i))) s1 j s' o ->
      runs (bind (for_each (inbox i) (on_message parse_backchannel call_other)) (fun _ => if termreq i then ret (S i)
        else bind all_nodes_ready (fun ready => if ready : bool then ret (S i) else
          bind (emit (ESleepFor 1)) (fun _ => wait_ready parse_backchannel call_other inbox termreq fuel (S i))))) s j s' o) as Hround
      by (intros j s' o R; eapply runs_then; [exact R1|]; cbv beta; rewrite not_terminated by lia; eapply runs_then; [by exists []|exact R]);
    destruct (nodes_ready (nodes_of s1)) eqn:Hr;
    try by (exists (S i), s1; split; [apply Hround, runs_ret|]; split_and!; try done; lia).
  - exfalso. apply not_true_iff_false in Hr. apply Hr, nodes_ready_spec. intros n Hn.
    destruct (Hs1 n Hn) as [|[Hnn Hin]]; [done|]. destruct (Ho n Hin) as [|(j & Hj & Hj')]; [done|].
    by replace j with i in Hj' by lia.
  - destruct (IH (S i) fuel s1) as (j & s2 & R2 & Hb2 & Hnm2 & Hj & Hr2); [lia|lia|by rewrite Hnm| |].
    + intros n Hn. destruct (Hs1 n Hn) as [|[Hnn Hin]]; [by left|].
      destruct (Ho n Hin) as [|(j & Hj & Hj')]; [by left|right]. exists j. split; [|done].
      destruct (decide (j = i)) as [->|]; [done|lia].
    + exists j, s2. split; [apply Hround; eapply runs_then; [by apply runs_emit|exact R2]|].
      split; [by eapply same_but_nodes_trans|]. split; [congruence|]. split; [lia|done].
Qed.

(** The synchronised start ends.  If within the first [k + 1] polls every node reports that it is
    ready (the messages in any order, none of a node that is unknown doing harm), the wait stops at one
    of these polls with every node ready. *)
Theorem wait_ready_ends fuel s : (k < fuel)%nat -> NoDup (map n_name (nodes_of s)) ->
  (forall n, n ∈ nodes_of s -> exists j, (j <= k)%nat /\ n_name n ∈ names j) ->
  exists j s' tr, wait_ready parse_backchannel call_other inbox termreq fuel 0 s = Done j s' tr /\
    (j <= S k)%nat /\ all_nodes_ready s' = Done true s' [].
Proof.
  intros Hf Hd Hn. destruct (wait_ready_run k 0 fuel s) as (j & s' & (tr & E & _) & _ & _ & Hj & Hr); [lia|lia|done| |].
  - intros n Hin. right. destruct (Hn n Hin) as (j & Hj & Hj'). exists j. split; [lia|done].
  - exists j, s', tr. split; [done|]. split; [lia|]. unfold all_nodes_ready, bind, get, ret. fold (nodes_of s').
    by rewrite Hr.
Qed.

End Sync.

(** ** Examples *)

Lemma assign_roles_spec_witness :
  exists s', assign_roles example_mem (Ssys new_server (Csys
      (Config (Some 16) (Some 16) (Some 32) None 0 true) (Host example_manager tt))) = Done tt s' [] /\
    map_find 16 (host_plugins s') = Some (Z.lor PL_COM_ACTOR PL_COM_EXTERN) /\
    map_find 32 (host_plugins s') = Some PL_FAULT_MANAGER.
Proof.
  edestruct (assign_roles_spec example_mem (Ssys new_server (Csys
    (Config (Some 16) (Some 16) (Some 32) None 0 true) (Host example_manager tt)))) as (s' & E & _ & _ & _ & _ & Hf).
  - exact example_manager_ok.
  - unfold conf_ok. cbn. split_and!; first [done | intros q [= <-]; split; [apply list_elem_of_In; cbn; tauto|done]].
  - exists s'. split; [exact E|]. rewrite !Hf. done.
Defined.

Lemma wait_ready_ends_witness :
  exists j s' tr, wait_ready example_parse example_other
      (fun i => match i with 1%nat => [str "node1"] | 3%nat => [str "node0"] | _ => [] end)
      (fun _ => false) 10 0 (example_sys tt) = Done j s' tr /\ (j <= 4)%nat /\ all_nodes_ready s' = Done true s' [].
Proof.
  apply (wait_ready_ends example_parse example_other _ _
    (fun i => match i with 1%nat => [str "node1"] | 3%nat => [str "node0"] | _ => [] end) 3).
  - intros [|[|[|[|i]]]] _; repeat constructor; by eexists.
  - done.
  - lia.
  - exact example_nodes_nodup.
  - intros n Hn. apply list_elem_of_In in Hn as [<-|[<-|[]]]; [exists 3%nat|exists 1%nat]; (split; [lia|by left]).
Defined.
