(* ===== verification/Exits.v ===== *)
(** * The exit codes of the server
    What each status [main] returns says about the run: which errors have been reported, and what has been done. *)

From S2P Require Import Prelude CString Types Options PluginManager Config Server Main.
Local Open Scope Z_scope.

(** The user has been told something. *)
Definition told_user (tr : list event) : Prop := exists text, EStdout text ∈ tr \/ EStderr text ∈ tr.
Definition logged_fatal (tr : list event) : Prop := exists msg, ELog LL_Fatal msg ∈ tr.

Lemma logged_fatal_app a b : logged_fatal b -> logged_fatal (a ++ b).
Proof. intros [msg H]. exists msg. apply elem_of_app. by right. Qed.

Lemma logged_fatal_first a b : logged_fatal a -> logged_fatal (a ++ b).
Proof. intros [msg H]. exists msg. apply elem_of_app. by left. Qed.

Section Exits.
Context {W : Type} (mem : plugin_ptr -> plugin W (host W)).
Context (dlmopen : cstr -> option Z) (dlerror : cstr) (dlsym : Z -> cstr -> option Z)
        (init_at : Z -> list cstr -> prog event (host W) Z) (open_file : cstr -> option cstr).
Context (parse_backchannel : cstr -> option backchannel) (serialize : laik_ext_msg -> cstr) (now : nat -> Z).
Context (call_other : Z -> cstr -> prog event (ssys W) unit) (inbox : nat -> list cstr) (termreq : nat -> bool).

#[local] Abbreviation any := (fun _ : ssys W => True).

(** The results of [init]: 0, or 1 and a message. *)
Definition init_result (rc : Z) (s : ssys W) (tr : list event) : Prop := rc = 0 \/ rc = 1 /\ logged_fatal tr.

Lemma init_result_app rc s t1 t2 : init_result rc s t2 -> init_result rc s (t1 ++ t2).
Proof. intros [->|[-> H]]; [by left|right]. split; [done|by apply logged_fatal_app]. Qed.

Lemma fails_logged msg (P : ssys W -> Prop) : yields P (bind (emit (ELog LL_Fatal msg)) (fun _ => ret 1)) init_result.
Proof. intros s _. right. split; [done|]. exists msg. by left. Qed.

Lemma run_post_init_logs ps : yields any (run_post_init mem ps) (fun ok _ tr => ok = true \/ logged_fatal tr).
Proof.
  induction ps as [|p ps IH]; cbn [run_post_init]; [apply yields_ret; by left|]. destruct (pl_post_init (mem p)) as [hook|]; [|exact IH].
  apply yields_any; [intros ok s t1 t2 [->|H]; [by left|right; by apply logged_fatal_app]|]. intros r. apply yields_if; intros _; [exact IH|].
  intros s _. right. by eexists; left.
Qed.

Lemma init_exits : yields any (Server.init mem) init_result.
Proof.
  pose proof init_result_app. unfold Server.init, log. do 3 (apply yields_any; [done|intros ?]).
  eapply yields_bind; [apply run_post_init_logs|]. intros ok t1. destruct ok; cbn [negb].
  2:{ apply yields_ret. intros s [?|Hf]; [done|]. right. split; [done|by apply logged_fatal_first]. }
  eapply (yields_weaken any _ init_result); [|done|intros; by apply init_result_app]. apply yields_any; [done|intros s].
  destruct (com_actor (ss_conf s)) as [pa|], (com_notify (ss_conf s)) as [pn|], (conf_fault_manager (ss_conf s)) as [pf|];
    try apply fails_logged.
  unfold connect_plugins, log. do 8 (apply yields_any; [done|intros ?]). apply yields_if; intros _; [apply fails_logged|].
  do 2 (apply yields_any; [done|intros ?]). apply yields_ret. by left.
Qed.

(** What the statuses 0 and 1 of [main] say. *)
Definition ended (rc : Z) (s : ssys W) (tr : list event) : Prop :=
  (rc = 1 /\ logged_fatal tr) \/ (rc = 0 /\ cleaning_up ∈ tr /\ libraries (h_pm (ss_host s)) = []).

Lemma ended_app rc s t1 t2 : ended rc s t2 -> ended rc s (t1 ++ t2).
Proof.
  intros [[-> H]|(-> & H & Hl)]; [left|right].
  - split; [done|by apply logged_fatal_app].
  - split_and!; [done| |done]. apply elem_of_app. by right.
Qed.

Lemma fails_ended msg (P : ssys W -> Prop) : yields P (bind (emit (ELog LL_Fatal msg)) (fun _ => ret 1)) ended.
Proof. intros s _. left. split; [done|]. exists msg. by left. Qed.

Lemma cleanup_ended : yields any (bind (emit cleaning_up) (fun _ => bind (on_host (cleanup mem)) (fun _ => ret 0))) ended.
Proof.
  intros s _. unfold emit, on_host, cleanup. prog_unfold.
  destruct (for_each (plugins (h_pm (ss_host s))) _ (ss_host s)) as [u h tr|h tr]; [|done].
  right. split; [done|]. split; [by left|done].
Qed.

(** A status of [main]; [s] is the state at its start. *)
Definition explained (s : ssys W) (rc : Z) (s' : ssys W) (tr : list event) : Prop :=
  (rc = -1 /\ s' = s /\ told_user tr) \/ ended rc s' tr.

Lemma parse_tells args (o : options) : match parse args o with Done rc _ tr => rc = 0 \/ told_user tr | Halt _ _ => True end.
Proof.
  revert o. induction args as [|[opt optarg] args IH]; intros o; [by left|]. cbn [parse]. unfold told_user in *.
  repeat (case_bool_decide; [unfold bind, modify;
    match goal with |- context [parse _ ?o'] => specialize (IH o'); by destruct (parse args o') end|]).
  right. eexists. right. by left.
Qed.

(** C28: an exit status of the server is explained.  If [main] ends, then either with -1, having told the user what is
    wrong with the command line and having changed nothing; or with 1, having logged a fatal error; or with 0, having
    announced the cleanup and with no library left. *)
Theorem main_exits_explained wait_fuel tic_fuel run_fuel argv0 args s rc s' tr :
  Main.main mem dlmopen dlerror dlsym init_at open_file parse_backchannel serialize now call_other inbox termreq
    wait_fuel tic_fuel run_fuel argv0 args s = Done rc s' tr -> explained s rc s' tr.
Proof.
  pose proof ended_app as Happ. unfold Main.main, log, local. intros Hm. pose proof (parse_tells args new_options) as Hp.
  unfold bind at 1 in Hm. destruct (parse args new_options) as [r o t1|]; [|done]. cbn [fst snd] in Hm.
  destruct (negb (r =? 0)) eqn:Er.
  { injection Hm as <- <- <-. left. split_and!; [done..|]. rewrite app_nil_r. destruct Hp as [->|Hp]; [done|exact Hp]. }
  destruct (bool_decide (cfile o = [])) eqn:Ec.
  { injection Hm as <- <- <-. left. split_and!; [done..|]. eexists. left. apply elem_of_app. right. by left. }
  right. match type of Hm with match ?m s with _ => _ end = _ => enough (yields any m ended) as Hy;
    [specialize (Hy s Logic.I); destruct (m s) as [rc2 s2 t2|]; [injection Hm as <- <- <-; by apply Happ|done]|] end.
  do 2 (apply yields_any; [done|intros ?]). apply yields_if; intros _; [apply fails_ended|].
  do 2 (apply yields_any; [done|intros ?]). eapply yields_bind; [apply init_exits|]. intros rc1 u1. apply yields_if; intros Hrc.
  { apply yields_ret. intros s1 [->|[-> Hf]]; [done|]. left. split; [done|by apply logged_fatal_first]. }
  eapply (yields_weaken any _ ended); [|done|intros; by apply Happ].
  do 4 (apply yields_any; [done|intros ?]). apply cleanup_ended.
Qed.

End Exits.

(** ** Example: a configuration file that cannot be opened, and a missing one *)

Definition example_main (args : list (ascii * cstr)) : prog event (ssys unit) Z :=
  Main.main example_mem (fun _ => None) [] (fun _ _ => None) (fun _ _ => ret 0) (fun _ => None) example_parse (fun _ => [])
    (fun _ => 0) example_other (fun _ => []) (fun _ => false) 1 1 1 (Some (str "lauSim")) args.

Definition example_start : ssys unit := Ssys new_server (Csys new_config (Host new_manager tt)).

Definition example_errors : list event := Eval vm_compute in
  match example_main [("c"%char, str "lab.cfg")] example_start with Done _ _ tr => tr | Halt _ _ => [] end.

Lemma example_fails : exists s', example_main [("c"%char, str "lab.cfg")] example_start = Done 1 s' example_errors.
Proof. eexists. vm_compute. reflexivity. Qed.

Lemma example_usage :
  example_main [] example_start = Done (-1) example_start [EStdout (str "usage: lauSim -c <file>" ++ [NL])].
Proof. vm_compute. reflexivity. Qed.

Lemma main_exits_explained_witness :
  (exists s', explained example_start 1 s' example_errors) /\
  explained example_start (-1) example_start [EStdout (str "usage: lauSim -c <file>" ++ [NL])].
Proof.
  split.
  - destruct example_fails as [s' E]. exists s'. exact (main_exits_explained _ _ _ _ _ _ _ _ _ _ _ _ _ _ _ _ _ _ _ _ _ E).
  - exact (main_exits_explained _ _ _ _ _ _ _ _ _ _ _ _ _ _ _ _ _ _ _ _ _ example_usage).
Defined.
