(* ===== verification/Start.v ===== *)
(** * The synchronised start
    When the wait of [main] for the nodes is over, for any messages on the backchannel: what counts is the last status
    each node has reported. *)

From S2P Require Import Prelude CString Types PluginManager Config Server Main.
Local Open Scope Z_scope.

(** What the statuses of the protocol mean for a node. *)
Definition meaning : list (Z * Z) :=
  [(STREADY, NODE_STATE_READY); (STERROR, NODE_STATE_ERROR); (STFINISHED, NODE_STATE_FINISHED)].
Definition meant (st : Z) : Z := default NODE_STATE_UNKNOWN (snd <$> List.find (fun p => p.1 =? st) meaning).
#[local] Arguments meant : simpl never.

Lemma status_of_meant st : (status_of st).2 = meant st.
Proof.
  unfold status_of, meant, meaning. cbn [List.find fst]. rewrite (Z.eqb_sym STREADY), (Z.eqb_sym STERROR), (Z.eqb_sym STFINISHED).
  destruct (st =? STREADY), (st =? STERROR), (st =? STFINISHED); done.
Qed.

Section Start.
Context {W : Type} (parse_backchannel : cstr -> option backchannel).
Context (call_other : Z -> cstr -> prog event (ssys W) unit).
Context (inbox : nat -> list cstr) (termreq : nat -> bool).

(** The node of a status message and the state it reports. *)
Definition report (msg : cstr) : option (cstr * Z) :=
  m ← parse_backchannel msg;
  if bool_decide (bc_type m = STATUS) then st ← bc_newstatus m; Some (c_str (bc_nodename m), meant st) else None.

(** The state the last of the messages that is a report of [name] gives. *)
Fixpoint last_report (name : cstr) (msgs : list cstr) : option Z :=
  match msgs with
  | [] => None
  | msg :: msgs' =>
      match last_report name msgs', report msg with
      | Some z, _ => Some z
      | None, Some (n, z) => if decide (n = name) then Some z else None
      | None, None => None
      end
  end.

(** A node after messages. *)
Definition standing (msgs : list cstr) (n : node) : node :=
  Node (n_name n) (n_id n) (n_type n) (default (n_state n) (last_report (n_name n) msgs)) (n_num_components n) (n_components n).

Lemma standing_nil n : standing [] n = n.
Proof. by destruct n. Qed.

Lemma last_report_app name a b : last_report name (a ++ b) = match last_report name b with Some z => Some z | None => last_report name a end.
Proof. induction a as [|m a IH]; cbn; [by destruct (last_report name b)|]. rewrite IH. by destruct (last_report name b). Qed.

Lemma standing_app a b n : standing b (standing a n) = standing (a ++ b) n.
Proof. unfold standing. cbn. rewrite last_report_app. by destruct (last_report (n_name n) b). Qed.

Lemma standing_names msgs ns : map n_name (map (standing msgs) ns) = map n_name ns.
Proof. rewrite map_map. by apply map_ext. Qed.

Definition with_state (z : Z) (n : node) : node := Node (n_name n) (n_id n) (n_type n) z (n_num_components n) (n_components n).

(** With distinct names the loop of [set_node_state] sets the state of the node of the name. *)
Lemma update_node_distinct name z ns : NoDup (map n_name ns) ->
  default ns (update_node name z ns) = map (fun n => if decide (name = n_name n) then with_state z n else n) ns.
Proof.
  induction ns as [|n ns IH]; cbn; [done|]. intros [Hn Hd]%NoDup_cons. unfold strcmp_eq. case_bool_decide as E; case_decide; try done; cbn.
  - f_equal. rewrite <- (map_id ns) at 1. apply map_ext_in. intros m Hm. case_decide as Em; [|done]. destruct Hn. rewrite <- E, Em.
    by apply list_elem_of_fmap_2, list_elem_of_In.
  - rewrite <- IH by done. by destruct (update_node name z ns).
Qed.

Hypothesis other_returns : forall n msg s, exists s' tr, call_other n msg s = Done tt s' tr /\ nodes_of s' = nodes_of s.

Lemma no_report msg ns : report msg = None -> map (standing [msg]) ns = ns.
Proof. intros E. rewrite <- (map_id ns) at 2. apply map_ext. intros n. unfold standing. cbn. rewrite E. by destruct n. Qed.

Lemma on_message_reports msg s : NoDup (map n_name (nodes_of s)) ->
  exists s' tr, on_message parse_backchannel call_other msg s = Done tt s' tr /\ nodes_of s' = map (standing [msg]) (nodes_of s).
Proof.
  intros Hd. unfold on_message. destruct (parse_backchannel msg) as [back|] eqn:Ep.
  2:{ rewrite no_report by (unfold report; by rewrite Ep). by do 2 eexists. }
  destruct (Z.eqb_spec (bc_type back) LOG) as [El|]; [|destruct (Z.eqb_spec (bc_type back) ERROR) as [Ee|];
    [|destruct (Z.eqb_spec (bc_type back) STATUS) as [Es|Hns]]].
  1-2: rewrite no_report by (unfold report; rewrite Ep; cbn; by rewrite bool_decide_false by (unfold LOG, ERROR, STATUS in *; lia)); destruct (bc_logerrmsg back); by do 2 eexists.
  - destruct (bc_newstatus back) as [st|] eqn:En.
    2:{ rewrite no_report by (unfold report; rewrite Ep; cbn; rewrite bool_decide_true, En by done; done). by do 2 eexists. }
    destruct (status_of st) as [text z] eqn:Est.
    assert (map (standing [msg]) (nodes_of s) = default (nodes_of s) (update_node (c_str (bc_nodename back)) z (nodes_of s))) as ->.
    { rewrite update_node_distinct by done. apply map_ext. intros x. unfold standing. cbn. unfold report. rewrite Ep. cbn.
      rewrite bool_decide_true, En by done. cbn. rewrite <- status_of_meant, Est. cbn. case_decide; [done|by destruct x]. }
    unfold set_node_state, log, bind, get, ret, emit, modify_srv, modify, nodes_of.
    destruct (update_node _ _ (sv_nodes (ss_srv s))); by do 2 eexists.
  - rewrite no_report by (unfold report; rewrite Ep; cbn; by rewrite bool_decide_false by congruence).
    unfold bind, get. destruct (sv_other_cb (ss_srv s)) as [| |other]; cbn; try by do 2 eexists.
    destruct (other_returns other msg s) as (s' & tr & -> & Hn). by do 2 eexists.
Qed.

Lemma receive_all_reports msgs s : NoDup (map n_name (nodes_of s)) ->
  exists s' tr, receive_all parse_backchannel call_other msgs s = Done tt s' tr /\ nodes_of s' = map (standing msgs) (nodes_of s).
Proof.
  revert s. induction msgs as [|msg msgs IH]; intros s Hd.
  - exists s, []. split; [done|]. rewrite <- (map_id (nodes_of s)) at 1. apply map_ext. intros n. by rewrite standing_nil.
  - destruct (on_message_reports msg s Hd) as (s1 & t1 & E1 & H1). destruct (IH s1) as (s2 & t2 & E2 & H2); [by rewrite H1, standing_names|].
    exists s2, (t1 ++ t2). unfold receive_all in *. cbn [for_each]. unfold bind. rewrite E1, E2. split; [done|].
    rewrite H2, H1, map_map. apply map_ext. intros n. apply (standing_app [msg] msgs).
Qed.

(** All that has arrived before the flag is tested for the [i]-th time, counting from 1. *)
Definition received (i : nat) : list cstr := concat (map inbox (seq 0 i)).

Lemma received_S i : received (S i) = received i ++ inbox i.
Proof. unfold received. by rewrite seq_S, map_app, concat_app; cbn; rewrite app_nil_r. Qed.

(** The wait is over at test [i], counting from 0: a signal has come, or the last status of every node says that it is ready. *)
Definition over (ns : list node) (i : nat) : Prop :=
  termreq i = true \/ forall n, n ∈ ns -> n_state (standing (received (S i)) n) = NODE_STATE_READY.

#[local] Abbreviation wait := (wait_ready parse_backchannel call_other inbox termreq).

(** One poll. *)
Lemma wait_round fuel i ns s : NoDup (map n_name ns) -> nodes_of s = map (standing (received i)) ns ->
  exists s' tr, nodes_of s' = map (standing (received (S i))) ns /\
    ((over ns i /\ wait (S fuel) i s = Done (S i) s' tr) \/
     (~ over ns i /\ wait (S fuel) i s = match wait fuel (S i) s' with Done j s2 t2 => Done j s2 (tr ++ t2) | Halt h t2 => Halt h (tr ++ t2) end)).
Proof.
  intros Hd Hs. destruct (receive_all_reports (inbox i) s) as (s1 & t1 & E & H1); [by rewrite Hs, standing_names|]. unfold receive_all in E.
  assert (nodes_of s1 = map (standing (received (S i))) ns) as H1'.
  { rewrite H1, Hs, map_map, received_S. apply map_ext. intros n. apply standing_app. }
  assert (nodes_ready (nodes_of s1) = true <-> forall n, n ∈ ns -> n_state (standing (received (S i)) n) = NODE_STATE_READY) as Hr.
  { rewrite nodes_ready_spec, H1'. split; [intros H n Hn; by apply H, list_elem_of_fmap_2|].
    intros H m Hm. apply list_elem_of_fmap in Hm as (n & -> & Hn). by apply H. }
  cbn [wait_ready]. unfold all_nodes_ready, bind, get, ret, emit. rewrite !E.
  destruct (termreq i) eqn:Et; [|change (sv_nodes (ss_srv s1)) with (nodes_of s1); destruct (nodes_ready (nodes_of s1)) eqn:En].
  - do 2 eexists. split; [exact H1'|]. left. split; [by left|done].
  - do 2 eexists. split; [exact H1'|]. left. split; [right; by apply Hr|done].
  - exists s1, (t1 ++ [ESleepFor 1]). split; [done|]. right. split; [intros [?|H]; [congruence|apply Hr in H; congruence]|].
    destruct (wait fuel (S i) s1); cbn; by rewrite <- app_assoc.
Qed.

Lemma wait_reports fuel : forall i ns s, NoDup (map n_name ns) -> nodes_of s = map (standing (received i)) ns ->
  (forall k, (i <= k < i + fuel)%nat -> over ns k -> (forall j, (i <= j < k)%nat -> ~ over ns j) ->
    exists s' tr, wait fuel i s = Done (S k) s' tr /\ nodes_of s' = map (standing (received (S k))) ns) /\
  ((forall k, (i <= k < i + fuel)%nat -> ~ over ns k) -> exists tr, wait fuel i s = Halt OutOfFuel tr).
Proof.
  induction fuel as [|fuel IH]; intros i ns s Hd Hs; [split; [lia|by eexists]|].
  destruct (wait_round fuel i ns s Hd Hs) as (s1 & t1 & H1 & [[Ho E]|[Ho E]]); rewrite E.
  - split; [|intros H; destruct (H i); [lia|done]]. intros k Hk Hk' Hj. destruct (decide (k = i)) as [->|Hne]; [by exists s1, t1|].
    destruct (Hj i); [lia|done].
  - destruct (IH (S i) ns s1 Hd H1) as [Hdone Hout]. split.
    + intros k Hk Hk' Hj. destruct (decide (k = i)) as [->|Hne]; [done|].
      destruct (Hdone k) as (s2 & t2 & -> & H2); [lia|done|intros j ?; apply Hj; lia|]. by exists s2, (t1 ++ t2).
    + intros Hk. destruct Hout as [t2 ->]; [intros k ?; apply Hk; lia|]. by exists (t1 ++ t2).
Qed.

(** C21: the synchronised start waits for the last reports.  Whatever arrives on the backchannel, in whatever order, the wait
    of [main] ends at the first poll at which a signal has come or every node's last status message says that it is
    ready, and the server's nodes then are in the states they have last reported; while there is no such poll it goes
    on.  So a node that reports an error after it was ready holds the start up until it is ready again. *)
Theorem start_follows_last_reports fuel s : NoDup (map n_name (nodes_of s)) ->
  (forall k, (k < fuel)%nat -> over (nodes_of s) k -> (forall j, (j < k)%nat -> ~ over (nodes_of s) j) ->
    exists s' tr, wait fuel 0 s = Done (S k) s' tr /\ nodes_of s' = map (standing (received (S k))) (nodes_of s)) /\
  ((forall k, (k < fuel)%nat -> ~ over (nodes_of s) k) -> exists tr, wait fuel 0 s = Halt OutOfFuel tr).
Proof.
  intros Hd. destruct (wait_reports fuel 0 (nodes_of s) s Hd) as [Hdone Hout].
  { rewrite <- (map_id (nodes_of s)) at 1. apply map_ext. intros n. by rewrite standing_nil. }
  split; [intros k Hk Ho Hj; apply Hdone; [lia|done|intros j ?; apply Hj; lia]|]. intros Hk. apply Hout. intros k ?. apply Hk. lia.
Qed.

End Start.

(** ** Example: a node is ready, reports an error, and is ready again while the other one is waited for *)

Definition example_reports (msg : cstr) : option backchannel :=
  match msg with
  | [] => None
  | c :: name => Some (Backchannel name STATUS None (Some (if decide (c = "+"%char) then STREADY else STERROR)))
  end.

Definition example_inbox (i : nat) : list cstr :=
  match i with
  | 0%nat => [str "+node0"]
  | 1%nat => [str "+node1"; str "-node0"; []]
  | 3%nat => [str "+node0"]
  | _ => []
  end.

Lemma start_follows_last_reports_witness : exists s' tr,
  wait_ready example_reports example_other example_inbox (fun _ => false) 10 0 (example_sys tt) = Done 4%nat s' tr /\
  map n_state (nodes_of s') = [NODE_STATE_READY; NODE_STATE_READY].
Proof.
  destruct (start_follows_last_reports example_reports example_other example_inbox (fun _ => false)
    (fun n msg s => ex_intro _ s (ex_intro _ [] (conj eq_refl eq_refl))) 10 (example_sys tt) example_nodes_nodup) as [H _].
  destruct (H 3%nat) as (s' & tr & E & Hs).
  - lia.
  - right. intros n Hn. apply list_elem_of_In in Hn as [<-|[<-|[]]]; vm_compute; reflexivity.
  - intros j Hj [Hf|Ho]; [discriminate Hf|]. destruct j as [|[|[|j]]]; [| | |lia].
    + pose proof (Ho (nth 1 example_nodes (example_node "node0")) ltac:(by apply list_elem_of_In; right; left)) as Hn. by vm_compute in Hn.
    + pose proof (Ho (nth 0 example_nodes (example_node "node0")) ltac:(by left)) as Hn. by vm_compute in Hn.
    + pose proof (Ho (nth 0 example_nodes (example_node "node0")) ltac:(by left)) as Hn. by vm_compute in Hn.
  - exists s', tr. split; [exact E|]. rewrite Hs. vm_compute. reflexivity.
Defined.
