(* ===== verification/EndToEnd.v ===== *)
(** * Whole runs: the tic loop of the program over a fault manager

    A server whose backends remember their calls is run by the tic loop of Main.v for a number of
    tics without pacing (the mode in which runs are recorded); its calls are those the faults of
    the fault manager make due.  With RecordReplay.v: a replayed run makes the calls of the run that was
    recorded. *)

From S2P Require Import Prelude CString Types Transcribe Replay RecordReplay PluginManager Config Server ServerTics Main.
Local Open Scope Z_scope.

(** No pacing: [tic = 0] or no tic length in the configuration. *)
Definition unpaced {W} (s : ssys W) : Prop := tic_length (ss_conf s) = 0.

Lemma skip_unpaced {W} (now : nat -> Z) fuel (s : ssys W) : unpaced s ->
  skip_to_end_of_tic now fuel s = Done tt (Ssys (Server.set_tic (u64 (sv_tic (ss_srv s) + 1)) (ss_srv s)) (ss_csys s)) [].
Proof.
  unfold unpaced, ss_conf. intros Hs. unfold skip_to_end_of_tic, modify_srv, bind, modify, get, ret. cbn.
  unfold ss_conf. cbn. by rewrite Hs.
Qed.

Section Run.
Context {F : Type} (fm : fault_manager F) (serialize : laik_ext_msg -> cstr) (now : nat -> Z) (termreq : nat -> bool).
#[local] Abbreviation sys := (ssys (F * list com_call)).
Context (parse_backchannel : cstr -> option backchannel) (call_other : Z -> cstr -> prog event sys unit) (inbox : nat -> list cstr).
Implicit Types s : sys.

(** Messages on the backchannel do not disturb a run. *)
Lemma receive_recording msgs s : recording fm s ->
  exists s' tr, receive_all parse_backchannel call_other msgs s = Done tt s' tr /\ recording fm s' /\
    ss_csys s' = ss_csys s /\ sv_tic (ss_srv s') = sv_tic (ss_srv s).
Proof.
  intros (Ha & Hn & Hm & Hcb). destruct (receive_nodes_only parse_backchannel call_other msgs s Hcb) as (s' & (tr & E & _) & Hb).
  exists s', tr. split; [exact E|]. unfold recording. rewrite Hb. by split_and!.
Qed.

Lemma do_tic_unpaced fuel s f1 t1 fs f2 t2 : recording fm s -> unpaced s ->
  fm_tic fm (ss_world s).1 = Done tt f1 t1 -> fm_get_fail fm f1 = Done fs f2 t2 ->
  exists s' tr, do_tic serialize now fuel s = Done 0 s' tr /\ recording fm s' /\ unpaced s' /\
    sv_tic (ss_srv s') = u64 (sv_tic (ss_srv s) + 1) /\
    ss_world s' = (f2, (ss_world s).2 ++ calls_of serialize fs).
Proof.
  intros Hs Hu E1 E2. unfold do_tic. unfold bind at 1, get at 1. unfold bind at 1.
  set (s0 := if sv_tic (ss_srv s) =? 0
    then Ssys (set_timestamp (now (sv_clock (ss_srv s))) (set_clock (S (sv_clock (ss_srv s))) (ss_srv s))) (ss_csys s) else s).
  assert ((if sv_tic (ss_srv s) =? 0 then bind (read_clock now) (fun t => modify_srv (set_timestamp t)) else ret tt) s =
    Done tt s0 []) as -> by (unfold s0; by destruct (sv_tic (ss_srv s) =? 0)).
  assert (recording fm s0 /\ unpaced s0 /\ ss_world s0 = ss_world s /\ sv_tic (ss_srv s0) = sv_tic (ss_srv s)) as (Hs0 & Hu0 & Hw0 & Ht0)
    by (unfold s0; by destruct (sv_tic (ss_srv s) =? 0)).
  pose proof Hs as (_ & _ & Hm & _). rewrite Hm. unfold bind at 1, deref, ret at 1.
  set (s1 := with_world (f1, (ss_world s).2) s0).
  assert (on_world (fm_tic (rec_fm fm)) s0 = Done tt s1 t1) as Et.
  { pose proof (zoom_done fst (fun f w => (f, w.2)) (fm_tic fm) (ss_world s) tt f1 t1 E1) as Ez.
    rewrite <- Hw0 in Ez. pose proof (zoom_done ss_world with_world _ s0 _ _ _ Ez) as Eo. rewrite Hw0 in Eo. exact Eo. }
  unfold bind at 1. rewrite Et.
  destruct (manage_fails_run fm serialize fs f2 t2 s1) as [t3 E3]; [exact Hs0|exact E2|].
  unfold bind at 1. rewrite E3. unfold bind. rewrite skip_unpaced by exact Hu0. unfold ret.
  eexists _, _. split; [reflexivity|]. split; [exact Hs0|]. split; [exact Hu0|]. cbn.
  split; [by rewrite Ht0|done].
Qed.

Lemma fm_tics_succ n f fss f' tr : fm_tics fm (S n) f = Done fss f' tr ->
  exists f1 t1 fs f2 t2 rest t3, fm_tic fm f = Done tt f1 t1 /\ fm_get_fail fm f1 = Done fs f2 t2 /\
    fm_tics fm n f2 = Done rest f' t3 /\ fss = fs :: rest.
Proof.
  intros ([] & f1 & t1 & u & E1 & (fs & f2 & t2 & v & E2 & (rest & f3 & t3 & w & E3 & [= <- <- <-] & _)%bind_done_inv & _)%bind_done_inv & _)%bind_done_inv.
  by exists f1, t1, fs, f2, t2, rest, t3.
Qed.

Lemma tic_loop_run tic_fuel max n : forall k fuel i s fss f' t,
  max < 2 ^ 32 -> 0 <= k -> k + Z.of_nat n = max -> 0 < max -> (n < fuel)%nat ->
  (forall j, (i <= j <= i + n)%nat -> termreq j = false) ->
  recording fm s -> unpaced s -> fm_tics fm n (ss_world s).1 = Done fss f' t ->
  0 <= sv_tic (ss_srv s) -> sv_tic (ss_srv s) + Z.of_nat n < 2 ^ 64 ->
  exists s' tr, tic_loop parse_backchannel serialize now call_other inbox termreq tic_fuel max fuel i k s = Done tt s' tr /\
    sv_tic (ss_srv s') = sv_tic (ss_srv s) + Z.of_nat n /\
    ss_world s' = (f', (ss_world s).2 ++ concat (map (calls_of serialize) fss)).
Proof.
  induction n as [|n IH]; intros k [|fuel] i s fss f' t Hmax Hk Hkn H0 Hf Hterm Hs Hu E Ht0 Ht; try lia;
    destruct (receive_recording (inbox i) s Hs) as (s0 & t0 & E0 & Hs0 & Hc0 & Hv0);
    assert (unpaced s0 /\ ss_world s0 = ss_world s) as [Hu0 Hw0] by (unfold unpaced, ss_conf, ss_world, ss_host in *; by rewrite Hc0);
    rewrite <- Hw0 in *; rewrite <- Hv0 in *; cbn [tic_loop]; rewrite Hterm by lia; destruct (Z.eqb_spec max 0); try lia.
  - destruct (Z.ltb_spec k max); [lia|]. injection E as <- <- <-. eexists s0, _. split; [eapply bind_done; [exact E0|reflexivity]|]. split; [lia|].
    cbn. rewrite app_nil_r. by destruct (ss_world s0).
  - destruct (Z.ltb_spec k max); [|lia].
    apply fm_tics_succ in E as (f1 & t1 & fs & f2 & t2 & rest & t3 & E1 & E2 & E3 & ->).
    destruct (do_tic_unpaced tic_fuel s0 f1 t1 fs f2 t2 Hs0 Hu0 E1 E2) as (s1 & t4 & Ed & Hs1 & Hu1 & Ht1 & Hw1).
    rewrite u64_id in Ht1 by (unfold is_u64; lia).
    destruct (IH (k + 1) fuel (S i) s1 rest f' t3) as (s2 & t5 & E5 & Ht2 & Hw2); try done; try lia.
    + intros j Hj. apply Hterm. lia.
    + by rewrite Hw1.
    + eexists s2, _. split.
      { eapply bind_done; [exact E0|]. eapply bind_done; [exact Ed|]. rewrite u64_id by (unfold is_u64; lia). exact E5. }
      split; [lia|]. rewrite Hw2, Hw1. cbn. by rewrite <- app_assoc.
Qed.


End Run.

(** ** Replaying a recording *)

(** Component names are not empty; an empty one is read back as no component. *)
Definition component_named (f : fault) : Prop := f_component f <> Some [].

Lemma replay_faults_calls serialize id fs : Forall fault_ok fs -> Forall component_named fs ->
  calls_of serialize (replay_faults id fs) = calls_of serialize fs.
Proof.
  intros _ Hc.
  assert (forall id, map (fun f => CallFail (f_node f) (f_component f) (f_severity f)) (replay_faults id fs) =
      map (fun f => CallFail (f_node f) (f_component f) (f_severity f)) fs /\
    map f_node (List.filter failed (replay_faults id fs)) = map f_node (List.filter failed fs) /\
    map f_node (List.filter recovered (replay_faults id fs)) = map f_node (List.filter recovered fs)) as H.
  { induction Hc as [|f fs Hf _ IH]; intros id'; [done|]. destruct (IH (u64 (id' + 1))) as (I1 & I2 & I3).
    cbn [replay_faults map List.filter].
    assert (replay_fault (u64 (id' + 1)) f = Fault (s32 (u64 (id' + 1))) None (f_component f) (f_node f) (f_severity f)) as ->.
    { unfold component_named in Hf. unfold replay_fault. by destruct (f_component f) as [[|]|]. }
    unfold failed, recovered, whole_node in *. cbn [f_component f_node f_severity]. split; [by rewrite I1|].
    destruct (f_component f); [done|]. destruct (f_severity f =? 0); cbn; split; congruence. }
  destruct (H id) as (H1 & H2 & H3). destruct fs as [|f fs]; [done|]. unfold calls_of, fail_message.
  rewrite H2, H3. cbn [replay_faults] in *. by rewrite <- H1.
Qed.

Lemma replay_tics_calls serialize id fss : Forall (Forall fault_ok) fss -> Forall (Forall component_named) fss ->
  map (calls_of serialize) (replay_tics id fss) = map (calls_of serialize) fss.
Proof.
  intros H. revert id. induction H as [|fs fss Hfs _ IH]; intros id Hc; [done|].
  apply Forall_cons in Hc as [Hc Hcs]. cbn. by rewrite replay_faults_calls, IH.
Qed.

(** C7: the point of recording a run.  Take any fault manager behind the transcribe plugin and let
    the server run it for [n] tics; then let another server run the replay plugin on the transcript for
    [n] tics.  Both runs end, and the second makes the same calls of its backends, in the same order,
    as the first, whatever arrives on the backchannel in the one and in the other. *)
Theorem replayed_run_same_calls {N} (nested : fault_manager N) serialize parse other1 other2 inbox1 inbox2 now1 now2 n0 ns fss n1 tr0 tic_fuel fuel
    (s1 : ssys (transcribe N * list com_call)) t1 :
  let n := length fss in
  fm_observe nested n n0 = Done (0, ns, fss) n1 tr0 ->
  Forall node_ok ns -> is_u64 (Z.of_nat (length ns)) ->
  Forall (Forall fault_ok) fss -> Forall (Forall component_named) fss ->
  0 < Z.of_nat n < 2 ^ 32 -> (n < fuel)%nat ->
  recording (transcribe_fm nested) s1 -> unpaced s1 -> sv_tic (ss_srv s1) = 0 -> (ss_world s1).2 = [] ->
  fm_get_nodes (transcribe_fm nested) (Transcribe 0 [] n0) = Done (0, ns) (ss_world s1).1 t1 ->
  exists s1' tr1, tic_loop parse serialize now1 other1 inbox1 (fun _ => false) tic_fuel (Z.of_nat n) fuel 0 0 s1 = Done tt s1' tr1 /\
    forall (s2 : ssys (replay * list com_call)) t2,
    recording replay_fm s2 -> unpaced s2 -> sv_tic (ss_srv s2) = 0 -> (ss_world s2).2 = [] ->
    fm_get_nodes replay_fm (replay_of (tr_file (ss_world s1').1)) = Done (0, imap replay_node ns) (ss_world s2).1 t2 ->
    exists s2' tr2, tic_loop parse serialize now2 other2 inbox2 (fun _ => false) tic_fuel (Z.of_nat n) fuel 0 0 s2 = Done tt s2' tr2 /\
      (ss_world s2').2 = (ss_world s1').2.
Proof.
  intros n E Hns Hlen Hok Hc Hn Hf Hs1 Hu1 Ht1 Hw1 Eg1.
  destruct (transcribe_run nested n n0 ns fss n1 tr0) as [k Hk]; [|done|].
  { eapply Forall_impl; [exact Hns|]. by intros ? (_ & _ & _ & ? & _). }
  destruct (replay_run ns fss 0 Hns Hlen Hok) as (p' & tp & Hr); [unfold small_tic; lia|].
  rewrite Nat.add_0_r, app_nil_r in Hr.
  assert (forall {St} (fm : fault_manager St) m x x0 r fss0 y u v, fm_observe fm m x = Done (r, fss0) y u ->
    fm_get_nodes fm x = Done r x0 v -> exists w, fm_tics fm m x0 = Done fss0 y w) as Hobs.
  { intros St fm m x x0 r fss0 y u v (a & b & c & d & Ea & (e & f & g & h & Ee & [= <- <- <- <-] & _)%bind_done_inv & _)%bind_done_inv Eb.
    rewrite Ea in Eb. injection Eb as -> ->. by exists g. }
  destruct (Hobs _ _ _ _ _ _ _ _ _ _ Hk Eg1) as [w1 Ef1].
  destruct (tic_loop_run (transcribe_fm nested) serialize now1 (fun _ => false) parse other1 inbox1 tic_fuel (Z.of_nat n) n 0 fuel 0 s1 fss
    (Transcribe k (transcript ns fss) n1) w1) as (s1' & tr1 & El1 & _ & Hw1'); [lia..|done|done|done|done|lia|lia|].
  exists s1', tr1. split; [done|]. intros s2 t2 Hs2 Hu2 Ht2 Hw2 Eg2. rewrite Hw1' in Eg2.
  destruct (Hobs _ _ _ _ _ _ _ _ _ _ Hr Eg2) as [w2 Ef2].
  destruct (tic_loop_run replay_fm serialize now2 (fun _ => false) parse other2 inbox2 tic_fuel (Z.of_nat n) n 0 fuel 0 s2 (replay_tics 0 fss)
    p' w2) as (s2' & tr2 & El2 & _ & Hw2'); [lia..|done|done|done|done|lia|lia|].
  exists s2', tr2. split; [done|]. rewrite Hw2', Hw1', Hw1, Hw2. cbn. by rewrite replay_tics_calls.
Qed.

(** ** Examples *)


(** The server that records, and the one that replays, after [get_nodes]. *)
Definition example_after {F} (fm : fault_manager F) (f : F) : ssys (F * list com_call) :=
  Ssys (Server 0 (Some (rec_fm fm)) (Some rec_com) (Some rec_com) example_nodes cb_null 0 0 0)
    (Csys new_config (Host example_manager (f, []))).

Definition state_after {S A} (d : S) (o : outcome event S A) : S := match o with Done _ s _ => s | Halt _ _ => d end.

Definition example_recording : transcribe script :=
  state_after (Transcribe 0 [] example_script) (Transcribe.get_nodes scripted (Transcribe 0 [] example_script)).

Definition example_run {F} (s : ssys (F * list com_call)) :=
  tic_loop example_parse example_serialize (fun _ => 0) example_other (fun _ => [str "node0"]) (fun _ => false) 1 3 4 0 0 s.

Definition example_opened := Replay.get_nodes (replay_of (transcript example_nodes (sc_later example_script))).

Lemma replayed_run_same_calls_witness :
  exists s1 tr1 s2 tr2, example_run (example_after (transcribe_fm scripted) example_recording) = Done tt s1 tr1 /\
    tr_file (ss_world s1).1 = transcript example_nodes (sc_later example_script) /\
    example_run (example_after replay_fm (state_after replay_zero example_opened)) = Done tt s2 tr2 /\
    (ss_world s2).2 = (ss_world s1).2 /\ length (ss_world s1).2 = 5%nat.
Proof.
  destruct (replayed_run_same_calls scripted example_serialize example_parse example_other example_other (fun _ => [str "node0"]) (fun _ => [str "node0"]) (fun _ => 0) (fun _ => 0) example_script example_nodes
    (sc_later example_script) (Script example_nodes [example_fault "node1" 1; example_fault "node0" 0] []) [] 1 4
    (example_after (transcribe_fm scripted) example_recording) []) as (s1 & tr1 & E1 & H).
  1-7: by first [reflexivity | lia | done | repeat constructor; by vm_compute].
  1-5: by first [reflexivity | done].
  change (Z.of_nat (length (sc_later example_script))) with 3 in *. fold (example_run (F := replay)) in H.
  assert (tr_file (ss_world s1).1 = transcript example_nodes (sc_later example_script) /\ length (ss_world s1).2 = 5%nat)
    as [Hfile Hlen].
  { replace s1 with (state_after s1 (example_run (example_after (transcribe_fm scripted) example_recording)))
      by (unfold example_run; by rewrite E1). split; by vm_compute. }
  destruct (H (example_after replay_fm (state_after replay_zero example_opened)) (trace_of example_opened))
    as (s2 & tr2 & E2 & Hw); [by repeat split|reflexivity|reflexivity|reflexivity|rewrite Hfile; vm_compute; reflexivity|].
  exists s1, tr1, s2, tr2. split; [exact E1|]. split; [exact Hfile|]. split; [exact E2|]. split; [exact Hw|exact Hlen].
Defined.
