(* ===== verification/Plugins.v ===== *)
(** * The plugin structs (the headers under plugins/)
    The shipped plugins as the structs the manager gets pointers to, with the functions behind them on
    the state of all plugins ([world]); the loader that finds their [init]; and the fault manager of the
    transcribe plugin, which calls the one its pointer [nested] leads to. *)

From S2P Require Import Prelude CString Types Loggers PluginManager Transcribe Replay Random Mosquitto Lifecycle.
Local Open Scope Z_scope.

#[local] Abbreviation H := (host world).

#[export] Instance shipped_eq_dec : EqDecision shipped.
Proof. solve_decision. Defined.

Definition shipped_version (k : shipped) : Z := match k with SMosquitto => 2 | _ => 1 end.

Definition all_shipped : list shipped := [STranscribe; SReplay; SRandom; SEcho; SFilelogger; SMosquitto].

(** ** Addresses *)

Section Addresses.
Context (addr : shipped -> plugin_ptr).

(** The struct at an address. *)
Definition plugin_at (p : plugin_ptr) : option shipped := List.find (fun k => addr k =? p) all_shipped.

(** The manager's interface reads only the names and types in the structs. *)
Definition names_at (p : plugin_ptr) : plugin world H :=
  match plugin_at p with
  | Some k => Plugin (shipped_version k) (shipped_type k) (shipped_name k) None None None None None
  | None => Plugin 0 PL_NONE [] None None None None None
  end.

Definition inter : plugin_manager_interface H := interface names_at.

(** Whether [fm] in the struct at an address is set. *)
Definition has_fm (p : plugin_ptr) : bool :=
  match plugin_at p with Some STranscribe | Some SReplay | Some SRandom => true | _ => false end.

Hypothesis addr_inj : Inj (=) (=) addr.

Lemma plugin_at_addr k : plugin_at (addr k) = Some k.
Proof.
  unfold plugin_at. destruct (List.find (fun k' => addr k' =? addr k) all_shipped) as [k'|] eqn:E.
  - apply List.find_some in E as [_ E%Z.eqb_eq]. f_equal. by apply addr_inj.
  - assert (List.In k all_shipped) as Hk by (destruct k; cbn; tauto).
    pose proof (List.find_none _ _ E k Hk) as Hn. cbn in Hn. by rewrite Z.eqb_refl in Hn.
Qed.

End Addresses.

Section Plugins.
Context (addr : shipped -> plugin_ptr).
Context (fopen_r : cstr -> option cstr) (fopen_w : cstr -> bool).
Context (rand : nat -> Z) (realloc_ok calloc_ok : nat -> bool).
Context (publish_rc : nat -> Z) (lib_init_rc : Z) (connect_rc : cstr -> Z -> Z -> Z) (subscribe_rc : Z) (strerror : Z -> cstr).

(** ** The fault managers *)

Definition replay_world : fault_manager world := zoom_fm w_replay set_replay replay_fm.
Definition random_world : fault_manager world := zoom_fm w_random set_random (random_fm rand realloc_ok calloc_ok).

(** The globals of transcribe.c with a nested manager that works on a part of the world. *)
Definition file_text (f : file_ptr) : cstr := match f with FileNull => [] | FileOpen t | FileClosed t => t end.
Definition trans_view {N} (proj : world -> N) (w : world) : transcribe N :=
  Transcribe (tg_tic_num (w_transcribe w)) (file_text (tg_file (w_transcribe w))) (proj w).
Definition trans_update {N} (upd : N -> world -> world) (t : transcribe N) (w : world) : world :=
  set_transcribe (TransGlobals (tg_fault_name (w_transcribe w)) (tr_tic_num t) (FileOpen (tr_file t)) (tg_nested (w_transcribe w)))
    (upd (nested_st t) w).

(** A function of transcribe.c: [op] is its code over the nested manager.  Without a file ([init] leaves it
    open, [cleanup] closes it) or a nested manager the pointers are not valid; the plugin nested in itself
    would call itself without end. *)
Definition trans_call {A} (op : forall N, fault_manager N -> prog event (transcribe N) A) : prog event world A := fun w =>
  match tg_file (w_transcribe w), tg_nested (w_transcribe w) with
  | FileOpen _, Some p =>
      match plugin_at addr p with
      | Some SReplay => zoom (trans_view w_replay) (trans_update set_replay) (op _ replay_fm) w
      | Some SRandom => zoom (trans_view w_random) (trans_update set_random) (op _ (random_fm rand realloc_ok calloc_ok)) w
      | _ => Halt Undefined []
      end
  | _, _ => Halt Undefined []
  end.

Definition trans_world : fault_manager world :=
  FaultManager 1 (trans_call (fun N fm => Transcribe.get_nodes fm)) (trans_call (fun N fm => Transcribe.tic fm))
    (trans_call (fun N fm => Transcribe.get_fail fm)) (fun f => trans_call (fun N fm => Transcribe.inject_fail fm f)).

(** ** The structs *)

Definition mosquitto_com : com world :=
  zoom_com w_mosquitto set_mosquitto (com_interface publish_rc strerror).
Definition file_log_world : logger world := zoom_logger w_filelogger set_filelogger Filelogger.file_log.

Definition trans_plugin : plugin world H :=
  Plugin 1 (Z.lor PL_FAULT_MANAGER PL_OTHER) (str "transcribe") (Some (transcribe_post (inter addr) addr (has_fm addr))) (Some transcribe_cleanup)
    None (Some trans_world) None.
Definition replay_plugin : plugin world H :=
  Plugin 1 PL_FAULT_MANAGER (str "replay") (Some (ret 0)) (Some replay_cleanup) None (Some replay_world) None.
Definition random_plugin : plugin world H :=
  Plugin 1 PL_FAULT_MANAGER (str "random") None (Some random_cleanup) None (Some random_world) None.
Definition echo_plugin : plugin world H :=
  Plugin 1 (Z.lor PL_COM_ACTOR PL_COM_EXTERN) (str "echo") (Some (ret 0)) None (Some Echo.echo_com) None None.
Definition filelogger_plugin : plugin world H :=
  Plugin 1 PL_LOGGER (str "filelogger") (Some (ret 0)) (Some filelogger_cleanup) None None (Some file_log_world).
Definition mosquitto_plugin : plugin world H :=
  Plugin 2 (Z.lor PL_COM_ACTOR PL_COM_EXTERN) (str "mosquitto") (Some mosquitto_post) (Some mosquitto_cleanup)
    (Some mosquitto_com) None None.

Definition shipped_plugin (k : shipped) : plugin world H :=
  match k with
  | STranscribe => trans_plugin | SReplay => replay_plugin | SRandom => random_plugin
  | SEcho => echo_plugin | SFilelogger => filelogger_plugin | SMosquitto => mosquitto_plugin
  end.

Definition mem (p : plugin_ptr) : plugin world H :=
  match plugin_at addr p with Some k => shipped_plugin k | None => names_at addr p end.

(** ** The loader: every plugin is in a library of its own, whose [init] it has *)

Context (lib_at : cstr -> option shipped).

Definition dlmopen (file : cstr) : option Z := match lib_at file with Some k => Some (addr k) | None => None end.
Definition dlsym (handle : Z) (symbol : cstr) : option Z := if strcmp_eq symbol (str "init") then Some handle else None.
Definition init_at (f : Z) (argv : list cstr) : prog event H Z :=
  match plugin_at addr f with
  | Some k => init_of (inter addr) addr fopen_r fopen_w lib_init_rc connect_rc subscribe_rc strerror k argv
  | None => stop Undefined
  end.

(** ** Basic facts *)

Hypothesis addr_inj : Inj (=) (=) addr.

Lemma mem_addr k : mem (addr k) = shipped_plugin k.
Proof. unfold mem. by rewrite plugin_at_addr. Qed.

Lemma mem_names p : pl_name (mem p) = pl_name (names_at addr p) /\ pl_type (mem p) = pl_type (names_at addr p).
Proof. unfold mem, names_at. by destruct (plugin_at addr p) as [[]|]. Qed.

Lemma mem_shipped k : pl_name (mem (addr k)) = shipped_name k /\ pl_type (mem (addr k)) = shipped_type k.
Proof. rewrite mem_addr. by destruct k. Qed.

(** The manager's invariant is about names and types only. *)
Lemma manager_ok_names m : manager_ok (names_at addr) m <-> manager_ok mem m.
Proof.
  split; intros [H1 H2 H3]; constructor; try done.
  - intros p q Hp Hq E. apply H2; [done..|]. destruct (mem_names p) as [<- _]. by destruct (mem_names q) as [<- _].
  - intros p r Hp. destruct (mem_names p) as [_ ->]. by apply H3.
  - intros p q Hp Hq E. apply H2; [done..|]. destruct (mem_names p) as [-> _]. by destruct (mem_names q) as [-> _].
  - intros p r Hp. destruct (mem_names p) as [_ <-]. by apply H3.
Qed.

(** ** The transcribe plugin around the random plugin *)

#[local] Abbreviation rnd := (random_fm rand realloc_ok calloc_ok).
#[local] Abbreviation view := (trans_view w_random).
#[local] Abbreviation update := (trans_update set_random).

Definition wraps_random (w : world) : Prop :=
  (exists text, tg_file (w_transcribe w) = FileOpen text) /\ tg_nested (w_transcribe w) = Some (addr SRandom).

Lemma trans_call_random {A} (op : forall N, fault_manager N -> prog event (transcribe N) A) w :
  wraps_random w -> trans_call op w = zoom view update (op _ rnd) w.
Proof. intros [[text Hf] Hn]. unfold trans_call. by rewrite Hf, Hn, plugin_at_addr. Qed.

Lemma view_update t w : wraps_random w -> view (update t w) = t /\ wraps_random (update t w).
Proof. intros [[text Hf] Hn]. destruct t, w. split; [done|]. split; [by eexists|done]. Qed.

Lemma update_update t t' w : update t (update t' w) = update t w.
Proof. by destruct t, t', w. Qed.

Lemma update_view w : wraps_random w -> update (view w) w = w.
Proof.
  intros [[text Hf] _]. destruct w as [[nm k f ne] r rs fl mq]. unfold trans_update, trans_view, file_text, set_random, set_transcribe. cbn in *.
  by rewrite Hf.
Qed.

Lemma trans_tics n w : wraps_random w -> fm_tics trans_world n w = zoom view update (fm_tics (transcribe_fm rnd) n) w.
Proof.
  apply zoom_tics; [apply view_update|apply update_update|apply update_view| |];
    (intros s Hs; cbn; rewrite trans_call_random by done; done).
Qed.

#[export] Instance trans_world_silent : SilentFM trans_world.
Proof.
  assert (forall A (op : forall N, fault_manager N -> prog event (transcribe N) A),
    (forall N (fm : fault_manager N), SilentFM fm -> emits silent (op N fm)) -> emits silent (trans_call op)) as H.
  { intros A op Hop w. unfold trans_call. destruct (tg_file (w_transcribe w)); try constructor.
    destruct (tg_nested (w_transcribe w)) as [p|]; [|constructor].
    destruct (plugin_at addr p) as [[]|]; try constructor; apply emits_zoom, Hop; apply _. }
  constructor; apply H; intros N fm Hfm.
  - apply (silent_get_nodes (fm := transcribe_fm fm)).
  - apply (silent_tic (fm := transcribe_fm fm)).
  - apply (silent_get_fail (fm := transcribe_fm fm)).
Qed.

End Plugins.

#[export] Instance replay_world_silent : SilentFM replay_world.
Proof. apply zoom_silent. apply _. Qed.
