(* ===== verification/Runs.v ===== *)
(** * What is seen of a run
    The tic loop of the program with a backend of which each call is seen in a known way, such as the echo
    plugin, which prints it, or the MQTT plugin, which publishes it; over any fault manager of which nothing
    is seen.  The calls may change the backend's own part of the world, which the fault manager does not look
    at.  Here the tics may be paced, by a clock that gains less than a tic between two readings. *)

From S2P Require Import Prelude CString Types PluginManager Config Server ServerTics Main EndToEnd.
Local Open Scope Z_scope.

Definition do_call {W} (c : com W) (x : com_call) : prog event W Z :=
  match x with CallFail n k v => com_notify_fail c n k v | CallExtern m => com_notify_extern c m end.

(** In the states satisfying [J] the backend makes of each call what [says] says, and changes no more than its
    own part of the state. *)
Class Voices {W} (aside : relation W) (J : W -> Prop) (c : com W) (says : com_call -> list event) := {
  voices x w : J w -> exists rc w', runs (do_call c x) w rc w' (says x) /\ aside w w' /\ J w'
}.

(** The fault manager does not look at that part. *)
Class Apart {W} (aside : relation W) (J : W -> Prop) (fm : fault_manager W) := {
  apart_tic w w' w1 t : aside w w' -> J w' -> fm_tic fm w = Done tt w1 t ->
    exists w1', fm_tic fm w' = Done tt w1' t /\ aside w1 w1' /\ J w1';
  apart_get_fail w w' fs w1 t : aside w w' -> J w' -> fm_get_fail fm w = Done fs w1 t ->
    exists w1', fm_get_fail fm w' = Done fs w1' t /\ aside w1 w1' /\ J w1'
}.

(** A backend without a state of its own. *)
#[export] Instance apart_eq {W} (fm : fault_manager W) : Apart eq (fun _ => True) fm.
Proof. constructor; [intros w w' w1 t <- _ E|intros w w' fs w1 t <- _ E]; by eexists. Qed.

Section Printing.
Context {W : Type} (aside : relation W) `{!PreOrder aside} (J : W -> Prop).
Context (fm : fault_manager W) `{!SilentFM fm} `{!Apart aside J fm} (c : com W) (says : com_call -> list event) `{!Voices aside J c says}.
Context (serialize : laik_ext_msg -> cstr) (now : nat -> Z) (termreq : nat -> bool).
Implicit Types s : ssys W.

(** A server with the backend in both roles, and the only one to get its messages. *)
Definition printing s : Prop :=
  sv_com_actor (ss_srv s) = Some c /\ sv_com_notify (ss_srv s) = Some c /\ sv_manager (ss_srv s) = Some fm /\ sv_other_cb (ss_srv s) = cb_null.

Definition printed (calls : list com_call) : list event := concat (map says calls).

Lemma printed_app a b : printed (a ++ b) = printed a ++ printed b.
Proof. unfold printed. by rewrite map_app, concat_app. Qed.

Lemma with_same_world s : with_world (ss_world s) s = s.
Proof. by destruct s as [v [cf [p w]]]. Qed.

Lemma on_world_done {A} (m : prog event W A) s a w tr :
  m (ss_world s) = Done a w tr -> on_world m s = Done a (with_world w s) tr.
Proof. intros E. unfold on_world, zoom. by rewrite E. Qed.

Lemma on_world_runs {A} (m : prog event W A) s a w o : runs m (ss_world s) a w o -> runs (on_world m) s a (with_world w s) o.
Proof. intros (tr & E & Ho). exists tr. split; [by apply on_world_done|done]. Qed.

(** ** Dispatch *)

(** Like [s], up to the backend's part of the world. *)
Definition beside (w : W) s s' : Prop := exists w', s' = with_world w' s /\ aside w w' /\ J w'.

Lemma dispatch_prints f m s : printing s -> J (ss_world s) ->
  exists s', runs (dispatch f m) s
    (LaikExtMsg (failing_nodes m ++ map f_node (List.filter failed [f]))
                (spare_nodes m ++ map f_node (List.filter recovered [f])))
    s' (says (CallFail (f_node f) (f_component f) (f_severity f))) /\ beside (ss_world s) s s'.
Proof.
  intros (Ha & _) Hj. destruct (voices (CallFail (f_node f) (f_component f) (f_severity f)) (ss_world s) Hj) as (rc & w' & R & Hw & Hj').
  exists (with_world w' s). split; [|by exists w']. unfold dispatch. eapply runs_then; [by eexists []|]. cbv beta. rewrite Ha.
  eapply runs_then; [apply runs_ret|]. cbv beta. rewrite <- (app_nil_r (says _)).
  eapply runs_bind; [apply on_world_runs; exact R|].
  cbv beta. unfold failed, recovered, whole_node. destruct m as [fn sn]. cbn [List.filter failing_nodes spare_nodes].
  destruct (f_component f); cbn [map]; [rewrite !app_nil_r; apply runs_ret|].
  eapply runs_then; [apply runs_log|]. destruct (f_severity f =? 0); cbn; rewrite app_nil_r; apply runs_ret.
Qed.

Lemma beside_trans w s s1 s2 : beside w s s1 -> beside (ss_world s1) s1 s2 -> beside w s s2.
Proof. intros (w1 & -> & H1 & _) (w2 & -> & H2 & J2). exists w2. split; [done|]. split; [by transitivity w1|done]. Qed.

Lemma beside_refl s : J (ss_world s) -> beside (ss_world s) s s.
Proof. intros Hj. exists (ss_world s). by rewrite with_same_world. Qed.

Lemma beside_printing w s s' : beside w s s' -> printing s -> printing s' /\ J (ss_world s') /\ aside w (ss_world s').
Proof. intros (w' & -> & Ha & Hj) Hs. by split_and!. Qed.

Lemma dispatch_all_prints fs : forall m s, printing s -> J (ss_world s) ->
  exists s', runs (dispatch_all fs m) s
    (LaikExtMsg (failing_nodes m ++ map f_node (List.filter failed fs))
                (spare_nodes m ++ map f_node (List.filter recovered fs)))
    s' (printed (map (fun f => CallFail (f_node f) (f_component f) (f_severity f)) fs)) /\ beside (ss_world s) s s'.
Proof.
  induction fs as [|f fs IH]; intros m s Hs Hj; cbn [dispatch_all map].
  - exists s. split; [|by apply beside_refl]. cbn. rewrite !app_nil_r. destruct m. apply runs_ret.
  - destruct (dispatch_prints f m s Hs Hj) as (s1 & R1 & B1). destruct (beside_printing _ _ _ B1 Hs) as (Hs1 & Hj1 & _).
    destruct (IH (LaikExtMsg (failing_nodes m ++ map f_node (List.filter failed [f]))
      (spare_nodes m ++ map f_node (List.filter recovered [f]))) s1 Hs1 Hj1) as (s2 & (tr & E & Ho) & B2).
    exists s2. split; [|by eapply beside_trans]. eapply runs_bind; [exact R1|].
    exists tr. split; [|done]. rewrite E. cbn [failing_nodes spare_nodes List.filter]. rewrite <- !app_assoc, <- !map_app.
    by destruct (failed f), (recovered f).
Qed.

Lemma manage_fails_prints fs w1 t1 s : printing s -> J w1 -> fm_get_fail fm (ss_world s) = Done fs w1 t1 ->
  exists s', runs (manage_fails serialize) s tt s' (printed (calls_of serialize fs)) /\ beside w1 s s'.
Proof.
  intros Hs Hj E. pose proof Hs as (_ & _ & Hm & _). set (s1 := with_world w1 s).
  assert (forall s' o, runs (if Z.of_nat (length fs) =? 0 then ret tt else
      bind get (fun s => bind (log LL_Info (snprintf 512 (str "Tic #" ++ print_u (sv_tic (ss_srv s))))) (fun _ =>
      bind (dispatch_all fs (LaikExtMsg [] [])) (fun m => bind (deref (sv_com_notify (ss_srv s))) (fun notify =>
      bind (on_world (com_notify_extern notify (serialize m))) (fun _ => ret tt)))))) s1 tt s' o ->
    runs (manage_fails serialize) s tt s' o) as Hstart.
  { intros s' o (tr & R & Ho). unfold manage_fails. eapply runs_then; [by eexists []|]. cbv beta. rewrite Hm.
    eapply runs_then; [apply runs_ret|]. cbv beta. eapply runs_then; [|exists tr; split; [exact R|done]].
    eapply runs_done; [by apply on_world_done|]. eapply emits_done; [apply silent_get_fail|done]. }
  destruct fs as [|f fs]; [exists s1; split; [apply Hstart; by exists []|by exists w1]|].
  destruct (dispatch_all_prints (f :: fs) (LaikExtMsg [] []) s1 Hs Hj) as (s2 & R2 & B2).
  destruct (beside_printing _ _ _ B2 Hs) as ((_ & Hn2 & _) & Hj2 & _).
  destruct (voices (CallExtern (serialize (fail_message (f :: fs)))) (ss_world s2) Hj2) as (rc & w3 & R3 & Ha3 & Hj3).
  exists (with_world w3 s2). split; [apply Hstart|].
  - destruct (Z.eqb_spec (Z.of_nat (length (f :: fs))) 0) as [H0|_]; [simpl in H0; lia|].
    eapply runs_then; [by eexists []|]. cbv beta. eapply runs_then; [apply runs_log|]. cbv beta.
    change (calls_of serialize (f :: fs)) with
      (map (fun f => CallFail (f_node f) (f_component f) (f_severity f)) (f :: fs) ++ [CallExtern (serialize (fail_message (f :: fs)))]).
    rewrite printed_app. eapply runs_bind; [exact R2|]. cbv beta. destruct Hs as (_ & Hn & _).
    change (sv_com_notify (ss_srv s1)) with (sv_com_notify (ss_srv s)). rewrite Hn.
    eapply runs_then; [apply runs_ret|]. cbv beta. cbn [failing_nodes spare_nodes app].
    unfold printed; cbn [map concat]. eapply runs_bind; [apply on_world_runs; exact R3|apply runs_ret].
  - destruct B2 as (w2 & -> & Ha2 & _). exists w3. split; [done|]. split; [by transitivity w2|done].
Qed.

(** ** Pacing *)

(** No tic takes longer than it may: by the reading at its end tic [i] is not over yet.  The clock is read once at the start of
    the first tic and then once at the end of each. *)
Definition punctual (d : Z) (n : nat) : Prop :=
  room_for (Z.of_nat n) (now 0) d /\ forall i, (i <= n)%nat -> now i <= now 0%nat + Z.of_nat i * d.

(** No pacing, or a run of up to [n] punctual tics, [k] of which are over; [begun]: the next one has been started. *)
Definition on_schedule (n : nat) (k : Z) (begun : bool) s : Prop :=
  tic_length (ss_conf s) = 0 \/
  (punctual (dur s) n /\ if (k =? 0) && negb begun then readings s = 0%nat else Z.of_nat (readings s) = k + 1 /\ ts s = now 0%nat + k * dur s).
Definition steady (n : nat) s : Prop := on_schedule n (sv_tic (ss_srv s)) false s.

Lemma silent_skip fuel : emits silent (skip_to_end_of_tic (W := W) now fuel).
Proof.
  assert (emits silent (add_duration (W := W))) as Ha by (unfold add_duration, modify_srv; auto 12 with lausim).
  assert (forall k, emits silent (skip_loop (W := W) now fuel k)) as Hl.
  { induction fuel as [|fuel IH]; intros k; cbn [skip_loop]; [auto with lausim|].
    unfold read_clock, modify_srv. auto 12 with lausim. }
  unfold skip_to_end_of_tic, modify_srv. apply emits_bind; [auto with lausim|intros _].
  apply emits_bind; [auto with lausim|intros s]. apply emits_if; [auto with lausim|].
  apply emits_bind; [done|intros _]. apply emits_bind; [done|intros k].
  apply emits_bind; [apply emits_if; [auto with lausim|by apply emits_emit]|intros _].
  apply emits_bind; [auto with lausim|intros s']. apply emits_bind; [by apply emits_emit|auto with lausim].
Qed.

(** The end of a tic that is in time. *)
Lemma skip_in_time n fuel s : (0 < fuel)%nat -> on_schedule n (sv_tic (ss_srv s)) true s ->
  0 <= sv_tic (ss_srv s) < Z.of_nat n -> sv_tic (ss_srv s) + 1 < 2 ^ 32 ->
  exists s', runs (skip_to_end_of_tic now fuel) s tt s' [] /\ ss_csys s' = ss_csys s /\
    (printing s -> printing s') /\ steady n s' /\ sv_tic (ss_srv s') = sv_tic (ss_srv s) + 1.
Proof.
  intros Hf Hp H0 Ht. destruct (Z.eqb_spec (tic_length (ss_conf s)) 0) as [Hz|Hz].
  - eexists. split; [eapply runs_emits; [by apply skip_unpaced|apply silent_skip]|]. cbn. split; [done|]. split; [done|].
    split; [by left|]. apply u64_id. unfold is_u64. lia.
  - destruct Hp as [?|[[Hroom Hq] Hin]]; [done|]. rewrite andb_false_r in Hin. destruct Hin as [Hr Hts]. unfold room_for in Hroom.
    pose proof (Hq (readings s) ltac:(lia)) as Hnow.
    destruct (skip_to_end_spec now 0 fuel s Hz) as [tr E]; [split; [lia|]|unfold room_for; nia|lia..|].
    { rewrite Nat.add_0_r. lia. }
    eexists. split; [eapply runs_emits; [exact E|apply silent_skip]|]. split; [done|]. split; [done|]. split; [|cbn; lia].
    right. unfold ts, dur, readings in *. cbn [ss_srv Server.set_tic set_timestamp set_clock sv_timestamp sv_duration sv_tic sv_clock].
    split; [by split|]. destruct (Z.eqb_spec (sv_tic (ss_srv s) + 1 + Z.of_nat 0) 0); [lia|]. cbn [andb]. lia.
Qed.

Lemma do_tic_prints n fuel s w w1 t1 fs w2 t2 : (0 < fuel)%nat -> printing s -> steady n s ->
  0 <= sv_tic (ss_srv s) < Z.of_nat n -> sv_tic (ss_srv s) + 1 < 2 ^ 32 -> aside w (ss_world s) -> J (ss_world s) ->
  fm_tic fm w = Done tt w1 t1 -> fm_get_fail fm w1 = Done fs w2 t2 ->
  exists s' w2', runs (do_tic serialize now fuel) s 0 s' (printed (calls_of serialize fs)) /\ printing s' /\ steady n s' /\
    sv_tic (ss_srv s') = sv_tic (ss_srv s) + 1 /\ ss_csys s' = ss_csys (with_world w2' s) /\ aside w2 w2' /\ J w2'.
Proof.
  intros Hf Hs Hp H0 Ht Ha Hj F1 F2. destruct (apart_tic _ _ _ _ Ha Hj F1) as (w1' & E1 & Ha1 & Hj1).
  destruct (apart_get_fail _ _ _ _ _ Ha1 Hj1 F2) as (w2' & E2 & Ha2 & Hj2).
  set (s0 := if sv_tic (ss_srv s) =? 0
    then Ssys (set_timestamp (now (readings s)) (set_clock (S (readings s)) (ss_srv s))) (ss_csys s) else s).
  assert (printing s0 /\ ss_csys s0 = ss_csys s /\ sv_tic (ss_srv s0) = sv_tic (ss_srv s) /\
    on_schedule n (sv_tic (ss_srv s0)) true s0) as (Hs0 & Hc0 & Ht0 & Hp0).
  { unfold s0. destruct (Z.eqb_spec (sv_tic (ss_srv s)) 0) as [Hz|Hz]; (split; [exact Hs|]; split; [done|]; split; [done|]);
      (destruct Hp as [?|[Hq Hr]]; [by left|right; split; [exact Hq|]]); rewrite andb_false_r.
    - rewrite Hz in Hr. cbn [Z.eqb andb negb] in Hr. unfold ts, dur, readings in *. cbn. rewrite Hr, Hz. lia.
    - destruct (Z.eqb_spec (sv_tic (ss_srv s)) 0); [done|exact Hr]. }
  assert (ss_world s0 = ss_world s) as Hw0 by (unfold ss_world, ss_host; by rewrite Hc0).
  destruct (manage_fails_prints fs w2' t2 (with_world w1' s0)) as (s2 & R2 & w3 & -> & Ha3 & Hj3); [exact Hs0|done|exact E2|].
  destruct (skip_in_time n fuel (with_world w3 (with_world w1' s0))) as (s3 & R3 & Hc3 & Hs3 & Hp3 & Ht3); [done|exact Hp0|cbn; lia|cbn; lia|].
  exists s3, w3. split; [|split; [exact (Hs3 Hs0)|split; [done|split; [rewrite Ht3; cbn; lia|]]]].
  - unfold do_tic. eapply runs_then; [by eexists []|]. cbv beta. eapply runs_then.
    { exists []. split; [|done]. instantiate (1 := s0). unfold s0. by destruct (sv_tic (ss_srv s) =? 0). }
    cbv beta. destruct Hs as (_ & _ & Hm & _). rewrite Hm. eapply runs_then; [apply runs_ret|]. cbv beta. eapply runs_then.
    { eapply runs_done; [apply on_world_done; by rewrite Hw0|]. eapply emits_done; [apply silent_tic|done]. }
    cbv beta. rewrite <- (app_nil_r (printed _)). eapply runs_bind; [exact R2|]. eapply runs_then; [exact R3|apply runs_ret].
  - split; [|split; [by transitivity w2'|done]]. rewrite Hc3. unfold with_world, with_host, ss_host. cbn. by rewrite Hc0.
Qed.

(** ** The tic loop *)

Context (parse_backchannel : cstr -> option backchannel) (call_other : Z -> cstr -> prog event (ssys W) unit) (inbox : nat -> list cstr).

(** Messages on the backchannel are not seen. *)
Lemma receive_prints msgs n s : printing s -> steady n s ->
  exists s', runs (receive_all parse_backchannel call_other msgs) s tt s' [] /\ printing s' /\ steady n s' /\
    ss_csys s' = ss_csys s /\ sv_tic (ss_srv s') = sv_tic (ss_srv s).
Proof.
  intros (Ha & Hn & Hm & Hcb) Hp. destruct (receive_nodes_only parse_backchannel call_other msgs s Hcb) as (s' & R & Hb).
  exists s'. split; [exact R|]. unfold printing. rewrite Hb. by split_and!.
Qed.

Lemma tic_loop_prints tic_fuel max n : forall k fuel i s w fss w' t,
  (0 < tic_fuel)%nat -> max < 2 ^ 32 -> 0 <= k -> k + Z.of_nat n = max -> 0 < max -> (n < fuel)%nat ->
  (forall j, (i <= j <= i + n)%nat -> termreq j = false) ->
  printing s -> steady (Z.to_nat max) s -> aside w (ss_world s) -> J (ss_world s) -> fm_tics fm n w = Done fss w' t -> sv_tic (ss_srv s) = k ->
  exists s' w'', runs (tic_loop parse_backchannel serialize now call_other inbox termreq tic_fuel max fuel i k) s tt s' (printed (concat (map (calls_of serialize) fss))) /\
    ss_csys s' = ss_csys (with_world w'' s) /\ aside w' w'' /\ J w''.
Proof.
  induction n as [|n IH]; intros k [|fuel] i s w fss w' t Htf Hmax Hk Hkn H0 Hf Hterm Hs Hp Ha Hj E Htic; try lia;
    destruct (receive_prints (inbox i) _ s Hs Hp) as (s0 & R0 & Hs0 & Hp0 & Hc0 & Hv0);
    assert (ss_world s0 = ss_world s) as Hw0 by (unfold ss_world, ss_host; by rewrite Hc0); rewrite <- Hw0 in Ha, Hj; rewrite <- Hv0 in Htic;
    cbn [tic_loop]; rewrite Hterm by lia; destruct (Z.eqb_spec max 0); try lia.
  - destruct (Z.ltb_spec k max); [lia|]. injection E as <- <- <-. exists s0, (ss_world s0). split; [eapply runs_then; [exact R0|apply runs_ret]|].
    split; [|done]. by rewrite Hw0, with_same_world.
  - destruct (Z.ltb_spec k max); [|lia].
    apply fm_tics_succ in E as (w1 & t1 & fs & w2 & t2 & rest & t3 & E1 & E2 & E3 & ->).
    destruct (do_tic_prints (Z.to_nat max) tic_fuel s0 w w1 t1 fs w2 t2) as (s1 & w3 & R1 & Hs1 & Hp1 & Ht1 & Hc1 & Ha1 & Hj1); try done; try lia.
    assert (ss_world s1 = w3) as Hw1 by (unfold ss_world, ss_host; by rewrite Hc1).
    destruct (IH (k + 1) fuel (S i) s1 w2 rest w' t3) as (s2 & w4 & R2 & Hc2 & Ha2 & Hj2); rewrite ?Hw1; try done; try lia.
    + intros j Hj'. apply Hterm. lia.
    + exists s2, w4. split_and!; try done.
      * cbn [map concat]. rewrite printed_app. eapply runs_then; [exact R0|]. eapply runs_bind; [exact R1|]. rewrite u64_id by (unfold is_u64; lia). exact R2.
      * rewrite Hc2. unfold with_world, with_host, ss_host. rewrite Hc1. unfold with_world, with_host, ss_host. by rewrite Hc0.
Qed.

End Printing.
