(* ===== verification/MainRuns.v ===== *)
(** * Whole runs of main
    From the loaded configuration to the cleanup, over any plugins with a backend of which each call is seen
    (Runs.v): what each part of [main] does, and what is seen of the program. *)

From S2P Require Import Prelude CString Types Options PluginManager Config Server ServerTics Main EndToEnd Runs.
Local Open Scope Z_scope.

Section MainRuns.
Context {W : Type} (mem : plugin_ptr -> plugin W (host W)).
Implicit Types (s : ssys W) (ps : list plugin_ptr).

Lemma on_host_runs {A} (m : prog event (host W) A) s a h o :
  runs m (ss_host s) a h o -> runs (on_host m) s a (with_host h s) o.
Proof. apply (runs_zoom ss_host with_host). Qed.

Lemma with_same_host s : with_host (ss_host s) s = s.
Proof. by destruct s as [v [cf [p w]]]. Qed.

(** ** The post init hooks *)

Definition idle_hook (p : plugin_ptr) : Prop := match pl_post_init (mem p) with None => True | Some f => f = ret 0 end.

Lemma post_init_idle ps s : Forall idle_hook ps -> run_post_init mem ps s = Done true s [].
Proof.
  induction 1 as [|p ps Hp _ IH]; [done|]. cbn. unfold idle_hook in Hp. destruct (pl_post_init (mem p)) as [f|]; [|done].
  subst f. unfold bind, on_host, zoom, ret. rewrite with_same_host. cbn. by rewrite IH.
Qed.

(** One plugin has a hook that does something. *)
Lemma post_init_one q f h' ps s : NoDup ps -> q ∈ ps -> pl_post_init (mem q) = Some f -> f (ss_host s) = Done 0 h' [] ->
  Forall (fun p => p <> q -> idle_hook p) ps -> run_post_init mem ps s = Done true (with_host h' s) [].
Proof.
  intros Hnd Hq Hf E Hi. induction ps as [|p ps IH]; [by apply not_elem_of_nil in Hq|].
  apply NoDup_cons in Hnd as [Hp Hnd]. apply Forall_cons in Hi as [Hip Hi]. destruct (decide (p = q)) as [->|Hne].
  - cbn. rewrite Hf. unfold bind at 1, on_host, zoom. rewrite E. cbn. rewrite post_init_idle; [done|].
    eapply Forall_impl; [apply Forall_and; split; [exact Hi|apply Forall_forall; exact (fun x H => H)]|]. cbn.
    intros x [Hx Hin]. apply Hx. by intros ->.
  - apply elem_of_cons in Hq as [->|Hq]; [done|]. cbn. specialize (Hip Hne). unfold idle_hook in Hip.
    destruct (pl_post_init (mem p)) as [g|]; [subst g|by apply IH].
    unfold bind, on_host, zoom, ret. rewrite with_same_host. cbn. by rewrite IH.
Qed.

(** ** The server's init *)

Context (aside : relation W) `{!PreOrder aside} (J : W -> Prop).
Context (fm : fault_manager W) `{!SilentFM fm} `{!Apart aside J fm} (c : com W) (says : com_call -> list event) `{!Voices aside J c says}.

(** An asynchronous backend is given the server's callback. *)
Definition takes_callback (w w' : W) : Prop :=
  if Z.land (com_capabilities c) COM_ASYNC =? COM_ASYNC
  then exists f cb, com_set_callback c = Some f /\ f cb_server w = Done cb w' [] else w' = w.

Lemma init_runs s s3 a n f ns w3 w4 t : sv_other_cb (ss_srv s3) = cb_null ->
  run_post_init mem (keys (plugins (h_pm (ss_host s)))) (Ssys (Server.set_tic 0 (ss_srv s)) (ss_csys s)) = Done true s3 [] ->
  com_actor (ss_conf s3) = Some a -> com_notify (ss_conf s3) = Some n -> conf_fault_manager (ss_conf s3) = Some f ->
  pl_c (mem a) = Some c -> pl_c (mem n) = Some c -> takes_callback (ss_world s3) w3 ->
  pl_fm (mem f) = Some fm -> fm_get_nodes fm w3 = Done (0, ns) w4 t ->
  exists s4, runs (init mem) s 0 s4 [] /\ printing fm c s4 /\ ss_csys s4 = ss_csys (with_world w4 s3) /\
    sv_tic (ss_srv s4) = sv_tic (ss_srv s3) /\ dur s4 = s64 (tic_length (ss_conf s3)) /\ readings s4 = readings s3 /\ nodes_of s4 = ns.
Proof.
  intros Ho Ep Ha Hn Hf Hca Hcn Hcb Hfm En. eexists. split.
  { unfold init. eapply runs_then; [by eexists []|]. cbv beta. eapply runs_then; [apply runs_log|]. cbv beta.
    eapply runs_then; [by eexists []|]. cbv beta. eapply runs_then; [exists []; split; [exact Ep|done]|]. cbv beta.
    cbn [negb]. eapply runs_then; [by eexists []|]. cbv beta. rewrite Ha, Hn, Hf. unfold connect_plugins. rewrite Hca, Hcn, Hfm.
    eapply runs_then; [apply runs_ret|]. cbv beta. eapply runs_then; [apply runs_ret|]. cbv beta.
    eapply runs_then; [by eexists []|]. cbv beta. eapply runs_then.
    { instantiate (1 := with_world w3 (Ssys (set_coms (Some c) (Some c) (ss_srv s3)) (ss_csys s3))). instantiate (1 := tt).
      unfold takes_callback in Hcb. destruct (Z.land (com_capabilities c) COM_ASYNC =? COM_ASYNC).
      - destruct Hcb as (g & cb & -> & Eg). eapply runs_then; [apply runs_log|]. cbv beta. eapply runs_then; [apply runs_ret|]. cbv beta.
        eapply runs_then; [apply on_world_runs; exists []; split; [exact Eg|done]|apply runs_ret].
      - subst w3. exists []. by destruct s3 as [v [cf [p w]]]. }
    cbv beta. eapply runs_then; [apply runs_ret|]. cbv beta.
    eapply runs_then; [by eexists []|]. cbv beta. eapply runs_then.
    { eapply runs_done; [apply on_world_done; exact En|]. eapply emits_done; [apply silent_get_nodes|exact En]. }
    cbv beta. eapply runs_then; [by eexists []|]. cbn [fst snd Z.eqb negb].
    eapply runs_then; [by eexists []|]. cbv beta. eapply runs_then; [by eexists []|]. apply runs_ret. }
  done.
Qed.

(** ** The synchronised start *)

Section Start.
Context (parse_backchannel : cstr -> option backchannel) (call_other : Z -> cstr -> prog event (ssys W) unit).
Context (inbox : nat -> list cstr) (termreq : nat -> bool).

(** Every node reports that it is ready within the first [k + 1] polls, and nothing else arrives. *)
Definition all_report (k : nat) (ns : list node) : Prop :=
  NoDup (map n_name ns) /\ exists names, (forall i, (i <= k)%nat -> Forall2 (ready_message parse_backchannel) (names i) (inbox i)) /\
    forall n, n ∈ ns -> exists j, (j <= k)%nat /\ n_name n ∈ names j.

Definition start_calls (sync : bool) (ns : list node) : list com_call :=
  if sync then map (fun n => CallFail (n_name n) None 0) ns else [].

Definition start_polls (sync : bool) (k : nat) : nat := if sync then S k else O.

Lemma synced_signals c0 ns : forall s, sv_com_actor c0 = Some c -> J (ss_world s) ->
  exists s', runs (for_each ns (fun n => bind (deref (sv_com_actor c0)) (fun actor =>
      bind (on_world (com_notify_fail actor (n_name n) None 0)) (fun _ => ret tt)))) s tt s' (printed says (start_calls true ns)) /\
    beside aside J (ss_world s) s s'.
Proof.
  induction ns as [|n ns IH]; intros s Hc Hj.
  - exists s. split; [apply runs_ret|by apply beside_refl].
  - destruct (voices (CallFail (n_name n) None 0) (ss_world s) Hj) as (rc & w1 & R1 & Ha1 & Hj1).
    destruct (IH (with_world w1 s) Hc Hj1) as (s2 & R2 & B2). exists s2. split.
    + cbn [for_each]. change (printed says (start_calls true (n :: ns))) with (says (CallFail (n_name n) None 0) ++ printed says (start_calls true ns)).
      rewrite Hc. rewrite Hc in R2. eapply runs_bind; [|exact R2]. eapply runs_then; [apply runs_ret|]. cbv beta.
      rewrite <- (app_nil_r (says _)). eapply runs_bind; [apply on_world_runs; exact R1|apply runs_ret].
    + eapply (beside_trans _ _ _ _ (with_world w1 s)); [by exists w1|exact B2].
Qed.

Lemma wait_runs sync k wait_fuel s : printing fm c s -> J (ss_world s) ->
  (sync = true -> (k < wait_fuel)%nat /\ all_report k (nodes_of s)) -> (forall i, (i < start_polls sync k)%nat -> termreq i = false) ->
  exists i s', runs (wait_for_nodes parse_backchannel call_other inbox termreq wait_fuel sync) s i s' (printed says (start_calls sync (nodes_of s))) /\
    (i <= start_polls sync k)%nat /\ printing fm c s' /\ sv_tic (ss_srv s') = sv_tic (ss_srv s) /\ dur s' = dur s /\ readings s' = readings s /\
    exists w', ss_csys s' = ss_csys (with_world w' s) /\ aside (ss_world s) w' /\ J w'.
Proof.
  intros Hs Hj Hr Ht. unfold wait_for_nodes. destruct sync; cbn [start_polls] in *.
  - destruct (Hr eq_refl) as (Hf & Hnd & names & Hrep & Hall).
    destruct (wait_ready_run parse_backchannel call_other inbox termreq names k Hrep) with (d := k) (i := O) (fuel := wait_fuel) (s := s)
      as (i & s1 & R1 & Hb1 & Hnm & Hi & _); [intros j Hj'; apply Ht; lia|lia|lia|done| |].
    { intros n Hn. right. destruct (Hall n Hn) as (j & Hj1 & Hj2). exists j. split; [lia|done]. }
    assert (start_calls true (nodes_of s1) = start_calls true (nodes_of s)) as Hcalls.
    { unfold start_calls. rewrite <- (map_map n_name (fun x => CallFail x None 0)), <- (map_map n_name (fun x => CallFail x None 0) (nodes_of s)). by rewrite Hnm. }
    rewrite Hb1 in R1. destruct Hs as (Ha & Hn & Hm & Hcb).
    destruct (synced_signals (set_nodes (nodes_of s1) (ss_srv s)) (nodes_of s1) (Ssys (set_nodes (nodes_of s1) (ss_srv s)) (ss_csys s)))
      as (s2 & R2 & w2 & -> & Ha2 & Hj2); [exact Ha|exact Hj|].
    exists i, (with_world w2 (Ssys (set_nodes (nodes_of s1) (ss_srv s)) (ss_csys s))). split; [|split; [lia|split; [by split_and!|split; [done|split; [done|split; [done|by exists w2]]]]]].
    eapply runs_then; [exact R1|]. cbv beta. eapply runs_then; [apply runs_log|]. cbv beta. rewrite <- Hcalls, <- (app_nil_r (printed _ _)).
    eapply runs_bind; [|apply runs_ret]. unfold send_synced_signal. eapply runs_then; [by exists []|]. exact R2.
  - exists O, s. split; [apply runs_ret|]. split_and!; try done; try apply Hs. exists (ss_world s). by rewrite with_same_world.
Qed.

End Start.

(** ** The rest of main *)

Lemma print_table_runs s : plugins (h_pm (ss_host s)) <> [] -> runs (print_table mem) s tt s [].
Proof.
  intros Hp. unfold print_table. eapply runs_then; [by apply on_host_runs; exists []|]. cbv beta. rewrite with_same_host.
  destruct (plugins (h_pm (ss_host s))) as [|e m]; [done|]. cbn [map]. eapply runs_then; [apply runs_log|]. cbv beta.
  generalize (max_name_len mem e.1 (map (fun e => (e.2, e.1)) m) (strlen (pl_name (mem e.1)))).
  intros width. cbn [fst snd]. generalize ((e.2, e.1) :: map (fun e => (e.2, e.1)) m).
  intros l. induction l as [|x l IH]; [apply runs_ret|]. cbn [for_each]. eapply runs_then; [apply runs_log|exact IH].
Qed.

(** The command line: a configuration file, a number of tics, and perhaps the synchronised start. *)
Definition server_args (cfg : cstr) (n : nat) (sync : bool) : list (ascii * cstr) :=
  [("c"%char, cfg); ("n"%char, print_u (Z.of_nat n))] ++ (if sync then [("s"%char, [])] else []).

Lemma parse_server_args cfg n sync : 0 < Z.of_nat n < 2 ^ 32 ->
  parse (server_args cfg n sync) new_options = Done 0 (Options cfg LL_Warning sync (Z.of_nat n)) [].
Proof.
  intros Hn. unfold server_args. cbn [app].
  rewrite (parse_request (RConfig cfg) _ _ I), (parse_request (RTics (Z.of_nat n))) by (cbn; unfold is_u64; lia).
  cbn [apply_request]. rewrite u32_id by (unfold is_u32; lia). destruct sync; [by rewrite (parse_request RSync [] _ I)|done].
Qed.

Context (dlmopen : cstr -> option Z) (dlerror : cstr) (dlsym : Z -> cstr -> option Z)
        (init_at : Z -> list cstr -> prog event (host W) Z) (open_file : cstr -> option cstr).
Context (parse_backchannel : cstr -> option backchannel) (serialize : laik_ext_msg -> cstr) (now : nat -> Z).
Context (call_other : Z -> cstr -> prog event (ssys W) unit) (inbox : nat -> list cstr) (termreq : nat -> bool).

(** What [main] has left after the tics. *)
Definition last_steps : prog event (ssys W) Z := bind (on_host (cleanup mem)) (fun _ => ret 0).

(** A run of main from its parts: loading the configuration, assigning the roles, the hooks, the nodes, the
    start and the tics, up to the cleanup. *)
Lemma main_prints wait_fuel tic_fuel run_fuel argv0 cfg n sync polls cs cs1 s2 h3 a k f ns w3 w4 t4 fss w5 t5 :
  cfg <> [] -> NUL ∉ cfg -> 0 < Z.of_nat n < 2 ^ 32 -> (0 < tic_fuel)%nat -> (n < run_fuel)%nat ->
  (forall j, (j <= start_polls sync polls + n)%nat -> termreq j = false) ->
  runs (load_config mem dlmopen dlerror dlsym init_at open_file cfg) cs 0 cs1 [] ->
  conf_logger (cs_conf cs1) = None ->
  assign_roles mem (Ssys new_server cs1) = Done tt s2 [] -> ss_srv s2 = new_server -> ss_conf s2 = cs_conf cs1 ->
  run_post_init mem (keys (plugins (h_pm (ss_host s2)))) s2 = Done true (with_host h3 s2) [] ->
  com_actor (cs_conf cs1) = Some a -> com_notify (cs_conf cs1) = Some k -> conf_fault_manager (cs_conf cs1) = Some f ->
  pl_c (mem a) = Some c -> pl_c (mem k) = Some c -> takes_callback (h_world h3) w3 ->
  pl_fm (mem f) = Some fm -> fm_get_nodes fm w3 = Done (0, ns) w4 t4 -> J w4 ->
  (sync = true -> (polls < wait_fuel)%nat /\ all_report parse_backchannel inbox polls ns) ->
  tic_length (cs_conf cs1) = 0 \/ punctual now (s64 (tic_length (cs_conf cs1))) n ->
  plugins (h_pm h3) <> [] -> fm_tics fm n w4 = Done fss w5 t5 ->
  exists s' w', comes_to (main mem dlmopen dlerror dlsym init_at open_file parse_backchannel serialize now call_other inbox termreq
      wait_fuel tic_fuel run_fuel argv0 (server_args cfg n sync)) (Ssys new_server cs) last_steps s'
      (printed says (start_calls sync ns ++ concat (map (calls_of serialize) fss))) /\
    ss_host s' = Host (h_pm h3) w' /\ aside w5 w' /\ J w'.
Proof.
  intros Hcfg Hnul Hn Htf Hf Hterm Hload Hlog Hroles Hv2 Hc2 Hpost Ha Hk Hfc Hca Hck Hcb Hfm En J4 Hrep Hpace Hpl Et.
  destruct (init_runs s2 (with_host h3 s2) a k f ns w3 w4 t4) as (s4 & R4 & Hp4 & Hc4 & Ht4 & Hd4 & Hr4 & Hns4); try done.
  { cbn. by rewrite Hv2. }
  { assert (Ssys (Server.set_tic 0 (ss_srv s2)) (ss_csys s2) = s2) as -> by (by destruct s2 as [v2 c2']; cbn in Hv2; subst v2). done. }
  1-3: by unfold ss_conf in *; cbn in *; rewrite Hc2.
  assert (tic_length (ss_conf s4) = tic_length (cs_conf cs1)) as Hl4 by (unfold ss_conf; rewrite Hc4; unfold ss_conf in Hc2; cbn; by rewrite Hc2).
  assert (ss_conf (with_host h3 s2) = cs_conf cs1) as Hc3 by exact Hc2.
  assert (ss_world s4 = w4) as Hw4 by (unfold ss_world, ss_host; by rewrite Hc4).
  assert (sv_tic (ss_srv s4) = 0) as H0 by (rewrite Ht4; cbn; by rewrite Hv2).
  destruct (wait_runs parse_backchannel call_other inbox termreq sync polls wait_fuel s4)
    as (i & s5 & R5 & Hi & Hp5 & Ht5 & Hd5 & Hr5 & w5' & Hc5 & Ha5 & Hj5); [done|by rewrite Hw4|by rewrite Hns4|intros j Hj; apply Hterm; lia|].
  assert (ss_world s5 = w5') as Hw5 by (unfold ss_world, ss_host; by rewrite Hc5).
  destruct (tic_loop_prints aside J fm c says serialize now termreq parse_backchannel call_other inbox tic_fuel (Z.of_nat n) n 0 run_fuel i s5 w4 fss w5 t5)
    as (s6 & w6 & R6 & Hc6 & Ha6 & Hj6); rewrite ?Hw5; try done; try lia; try congruence.
  { intros j Hj. apply Hterm. lia. }
  { assert (ss_conf s5 = ss_conf s4) as Hcf5 by (unfold ss_conf; by rewrite Hc5).
    destruct Hpace as [Hz|Hq]; [left; by rewrite Hcf5, Hl4|right]. rewrite Nat2Z.id, Ht5, H0. split; [by rewrite Hd5, Hd4, Hc3|].
    cbn [Z.eqb andb negb]. rewrite Hr5, Hr4. unfold readings. cbn. by rewrite Hv2. }
  assert (ss_host s6 = Host (h_pm h3) w6) as Hh6.
  { unfold ss_host. rewrite Hc6. unfold with_world, with_host, ss_host. rewrite Hc5. unfold with_world, with_host, ss_host. by rewrite Hc4. }
  exists s6, w6. split; [|done]. unfold main. eapply comes_then.
  { exists []. split; [unfold local; by rewrite parse_server_args|done]. }
  cbn [fst snd cfile loglevel Options.sync max_tics Z.eqb negb]. rewrite bool_decide_false by done.
  eapply comes_then; [by apply runs_emit|]. cbv beta. eapply comes_then.
  { rewrite c_str_id by done. apply (runs_zoom ss_csys (fun c s => Ssys (ss_srv s) c)). exact Hload. }
  cbn [Z.eqb negb ss_srv]. eapply comes_then.
  { exists []. split; [|done]. unfold use_logger, bind, get. unfold ss_conf. cbn [ss_csys]. by rewrite Hlog. }
  cbv beta. eapply comes_then; [by exists []|]. cbv beta. eapply comes_then; [exact R4|]. cbn [Z.eqb negb].
  eapply comes_then; [apply runs_log|]. cbv beta. eapply comes_then.
  { apply print_table_runs. unfold ss_host. by rewrite Hc4. }
  cbv beta. rewrite printed_app, <- Hns4. eapply comes_bind; [exact R5|]. cbv beta. rewrite <- (app_nil_r (printed _ _)).
  eapply comes_bind; [exact R6|]. eapply comes_then; [apply runs_log|apply comes_here].
Qed.

End MainRuns.
