(* ===== verification/Process.v ===== *)
(** * The process
    [main] with the plugins of Plugins.v on an installation of the program (where the libraries are, what the
    libraries outside the program return), in an environment that differs from run to run: how configuration files
    of the form of examples/ are loaded, and what the end of the process needs. *)

From S2P Require Import Prelude CString Types Loggers Options PluginManager Config Server ServerTics Main Transcribe Replay.
From S2P Require Import RecordReplay Random Mosquitto Lifecycle Plugins Runs MainRuns.
Local Open Scope Z_scope.

#[local] Abbreviation H := (host world).

(** ** Registering *)

Section Registering.
Context (addr : shipped -> plugin_ptr) (addr_inj : Inj (=) (=) addr).
#[local] Abbreviation names := (names_at addr).

(** A plugin that can be registered: neither it nor its name is there. *)
Definition absent (k : shipped) (m : role_map) : Prop :=
  forall q, q ∈ keys m -> exists k', q = addr k' /\ k' <> k.

Definition register (k : shipped) (pm : plugin_manager) : plugin_manager :=
  Manager (logger_used pm) (map_emplace (addr k) PL_NONE (plugins pm)) (libraries pm).

Lemma shipped_name_inj k k' : shipped_name k = shipped_name k' -> k = k'.
Proof. by destruct k, k'. Qed.

Lemma names_name k : pl_name (names (addr k)) = shipped_name k.
Proof. unfold names_at. by rewrite plugin_at_addr. Qed.

Lemma absent_find k m : absent k m ->
  find_by_name names (pl_name (names (addr k))) m = None /\ map_find (addr k) m = None.
Proof.
  intros Ha. rewrite find_by_name_none, map_find_none. split.
  - intros q Hq. destruct (Ha q Hq) as (k' & -> & Hk). rewrite !names_name. intros E%shipped_name_inj. congruence.
  - intros Hq. destruct (Ha _ Hq) as (k' & E & Hk). by apply addr_inj in E.
Qed.

Lemma register_runs k h : absent k (plugins (h_pm h)) ->
  runs (register_plugin names (addr k)) h 0 (Host (register k (h_pm h)) (h_world h)) [].
Proof.
  intros [E1 E2]%absent_find. unfold register_plugin. eapply runs_then; [apply runs_log|]. cbv beta.
  eapply runs_then; [by exists []|]. cbv beta zeta. rewrite E1, E2. by exists [].
Qed.

Lemma log_args_runs tag argv h : runs (log_args tag argv) h tt h [].
Proof.
  unfold log_args. generalize (imap (fun n a => (n, a)) argv). intros l.
  induction l as [|x l IH]; [apply runs_ret|]. cbn [for_each]. eapply runs_then; [apply runs_log|exact IH].
Qed.

End Registering.

(** ** Loading libraries *)

Section Loading.
Context (addr : shipped -> plugin_ptr) (addr_inj : Inj (=) (=) addr).
Context (fopen_r : cstr -> option cstr) (fopen_w : cstr -> bool).
Context (rand : nat -> Z) (publish_rc : nat -> Z) (lib_init_rc : Z) (connect_rc : cstr -> Z -> Z -> Z) (subscribe_rc : Z) (strerror : Z -> cstr).
Context (lib_at : cstr -> option shipped) (open_file : cstr -> option cstr).

#[local] Abbreviation always := (fun _ : nat => true).
#[local] Abbreviation mem := (mem addr rand always always publish_rc strerror).
#[local] Abbreviation init k := (init_of (inter addr) addr fopen_r fopen_w lib_init_rc connect_rc subscribe_rc strerror k).
#[local] Abbreviation init_at := (init_at addr fopen_r fopen_w lib_init_rc connect_rc subscribe_rc strerror).
#[local] Abbreviation dlmopen := (dlmopen addr lib_at).

Lemma echo_runs argv h : absent addr SEcho (plugins (h_pm h)) ->
  runs (init SEcho argv) h 0 (Host (register addr SEcho (h_pm h)) (h_world h)) [].
Proof.
  intros Ha. cbn [init_of]. unfold echo_init. cbn [negb version_ok inter interface pmi_version Z.eqb PL_INTF_VERSION].
  eapply runs_then; [apply log_args_runs|]. cbv beta. eapply runs_then; [by apply (register_runs addr addr_inj)|apply runs_ret].
Qed.

Lemma random_runs num pm w : 0 <= num < 2 ^ 31 -> w_random w = random_zero -> absent addr SRandom (plugins pm) ->
  runs (init SRandom [print_u num]) (Host pm w) 0
    (Host (register addr SRandom pm) (set_random (Random num (map new_node (seq 0 (Z.to_nat num))) [] 0 []) w)) [].
Proof.
  intros Hn Hw Ha. cbn [init_of]. unfold random_init. cbn [negb version_ok inter interface pmi_version Z.eqb PL_INTF_VERSION].
  eapply runs_then; [apply log_args_runs|]. cbv beta. eapply runs_then.
  { apply (runs_zoom (fun h => w_random (h_world h)) (fun t h => Host (h_pm h) (set_random t (h_world h)))).
    cbn [h_world]. rewrite Hw. destruct (setup_print num Hn) as [tr E]. eapply runs_emits; [exact E|].
    apply setup_silent. }
  cbv beta iota. eapply runs_then; [apply (register_runs addr addr_inj); exact Ha|apply runs_ret].
Qed.

Lemma transcribe_runs nested file pm w : fopen_w file = true -> absent addr STranscribe (plugins pm) ->
  runs (init STranscribe [nested; file]) (Host pm w) 0
    (Host (register addr STranscribe pm) (set_transcribe (TransGlobals nested 0 (FileOpen []) (tg_nested (w_transcribe w))) w)) [].
Proof.
  intros Hf Ha. cbn [init_of]. unfold transcribe_init. cbn [negb version_ok inter interface pmi_version Z.eqb PL_INTF_VERSION].
  rewrite Hf. cbn [negb]. eapply runs_then; [by exists []|]. cbv beta.
  eapply runs_then; [by apply (register_runs addr addr_inj)|]. eapply runs_then; [by exists []|apply runs_ret].
Qed.

Lemma replay_runs file text pm w : fopen_r file = Some text -> w_replay w = replay_zero -> absent addr SReplay (plugins pm) ->
  runs (init SReplay [file]) (Host pm w) 0 (Host (register addr SReplay pm) (set_replay (replay_of text) w)) [].
Proof.
  intros Hf Hw Ha. cbn [init_of]. unfold replay_init. cbn [negb version_ok inter interface pmi_version Z.eqb PL_INTF_VERSION].
  rewrite Hf. eapply runs_then; [by exists []|]. cbv beta.
  eapply runs_then; [by apply (register_runs addr addr_inj)|]. cbv beta. eapply runs_then; [by exists []|]. cbn. unfold replay_of. rewrite Hw. apply runs_ret.
Qed.

(** A connected instance that no other part uses yet. *)
Definition mosquitto_started (id : cstr) : mosquitto := Mosquitto true (Some (ComMosquitto id true cb_null 0)) true false.

Lemma mosquitto_runs id argv pm w : lib_init_rc = 0 -> (forall a p k, connect_rc a p k = 0) -> w_mosquitto w = mosquitto_zero ->
  absent addr SMosquitto (plugins pm) ->
  runs (init SMosquitto (id :: argv)) (Host pm w) 0 (Host (register addr SMosquitto pm) (set_mosquitto (mosquitto_started id) w)) [].
Proof.
  intros Hl Hc Hw Ha. cbn [init_of]. unfold mosquitto_init, Mosquitto.init. cbn [negb version_ok inter interface pmi_version Z.eqb PL_INTF_VERSION].
  set (upd := fun v (h : H) => Host (h_pm h) (set_mosquitto v (h_world h))).
  assert (forall {A} (m : prog event mosquitto A) v a v' o, runs m v a v' o ->
    runs (zoom (fun h => w_mosquitto (h_world h)) upd m) (Host pm (set_mosquitto v w)) a (Host pm (set_mosquitto v' w)) o) as Hz.
  { intros A m v a v' o R. apply (runs_zoom (fun h => w_mosquitto (h_world h)) upd m (Host pm (set_mosquitto v w))). exact R. }
  assert (w = set_mosquitto mosquitto_zero w) as -> by (rewrite <- Hw; by destruct w).
  eapply runs_then; [apply (Hz _ _ _ tt (Mosquitto false None true false)); by exists []|]. cbv beta.
  eapply runs_then.
  { apply (Hz _ _ _ 0 (Mosquitto true None true false)). exists []. split; [unfold init_mosquitto; by rewrite Hl|done]. }
  cbv beta.
  eapply runs_then; [apply runs_log|]. cbv beta.
  eapply runs_then; [apply (Hz _ _ _ tt (Mosquitto true (Some (ComMosquitto id false cb_null 0)) true false)); by exists []|]. cbv beta.
  eapply runs_then.
  { apply (Hz _ _ _ 0 (mosquitto_started id)). unfold init_with_args. assert (forall a p k, runs (init_instance connect_rc subscribe_rc strerror a p k)
      (Mosquitto true (Some (ComMosquitto id false cb_null 0)) true false) 0 (mosquitto_started id) []) as Hi.
    { intros a p k. unfold init_instance. eapply runs_then; [by exists []|]. cbv beta. eapply runs_then; [by exists []|]. cbn [mq_is_init init_state orb negb].
      eapply runs_then; [apply runs_log|]. cbv beta zeta. rewrite Hc. cbn [Z.eqb negb]. eapply runs_then; [apply runs_log|]. cbv beta.
      eapply runs_then; [destruct (subscribe_rc =? 0); [apply runs_ret|apply runs_log]|]. by exists []. }
    destruct argv as [|a [|p [|k rest]]]; apply Hi. }
  cbn [Z.eqb negb]. eapply runs_then; [apply runs_log|]. cbv beta. eapply runs_then; [by apply (register_runs addr addr_inj)|]. apply runs_ret.
Qed.

(** A library is loaded when its [init] succeeds. *)
Lemma load_library_runs path k argv h h1 : lib_at path = Some k -> runs (init k argv) h 0 h1 [] ->
  exists libs, runs (load_library dlmopen [] dlsym init_at path argv) h 0
    (Host (Manager (logger_used (h_pm h1)) (plugins (h_pm h1)) libs) (h_world h1)) [].
Proof.
  intros Hl Hi. eexists. unfold load_library, library_open, Plugins.dlmopen. rewrite Hl.
  cbn [new_library l_is_init Z.eqb negb]. unfold get_sym_addr. cbn [l_is_init l_handle].
  unfold dlsym.
  change (strcmp_eq (str "init") (str "init")) with true. cbv iota. eapply runs_then.
  { unfold Plugins.init_at. rewrite plugin_at_addr by done. exact Hi. }
  cbn [Z.eqb negb]. eapply runs_then; [by exists []|apply runs_ret].
Qed.

End Loading.

(** ** Configuration files *)

Definition lines_file (ls : list cstr) : cstr := concat (map (fun l => l ++ [NL]) ls).

Section Files.
Context {W : Type} (mem : plugin_ptr -> plugin W (host W)).
Context (dlmopen : cstr -> option Z) (dlerror : cstr) (dlsym : Z -> cstr -> option Z)
        (init_at : Z -> list cstr -> prog event (host W) Z) (open_file : cstr -> option cstr).

Lemma config_lines_cons st st' l ls s s1 s2 :
  runs (config_line mem dlmopen dlerror dlsym init_at st l) s (inr st') s1 [] ->
  runs (config_lines mem dlmopen dlerror dlsym init_at st' ls) s1 0 s2 [] ->
  runs (config_lines mem dlmopen dlerror dlsym init_at st (l :: ls)) s 0 s2 [].
Proof. intros H1 H2. cbn [config_lines]. eapply runs_then; [exact H1|exact H2]. Qed.

Lemma load_config_lines ls cfg s s' : open_file cfg = Some (lines_file ls) -> Forall (fun l => NL ∉ l) ls ->
  is_loaded (cs_conf s) = false -> runs (config_lines mem dlmopen dlerror dlsym init_at 0 ls) s 0 s' [] ->
  runs (load_config mem dlmopen dlerror dlsym init_at open_file cfg) s 0 s' [].
Proof.
  intros Ho Hnl Hl Hr. unfold load_config. eapply runs_then; [by exists []|]. cbv beta. rewrite Hl, Ho.
  unfold cpp_lines, lines_file. rewrite cpp_lines_concat by done. by destruct ls.
Qed.

Lemma lib_line_nl path args : word_ok path -> Forall arg_ok args -> NL ∉ lib_line path args.
Proof.
  intros Hp Ha. unfold lib_line. intros [H|H]%elem_of_app; [by apply (word_ok_not_space _ _ Hp) in H|].
  induction Ha as [|a args [Hw _] _ IH]; [by apply not_elem_of_nil in H|].
  cbn [map concat] in H. apply elem_of_app in H as [[H|H]%elem_of_cons|H]; [done| |by apply IH].
  by apply (word_ok_not_space _ _ Hw) in H.
Qed.

(** The two headings. *)
Lemma section_lines s : runs (config_line mem dlmopen dlerror dlsym init_at 0 (str "[libs]")) s (inr 2) s [] /\
  runs (config_line mem dlmopen dlerror dlsym init_at 2 (str "[config]")) s (inr 1) s [].
Proof. split; (unfold config_line; eapply runs_then; [apply runs_log|apply runs_ret]). Qed.

End Files.

(** ** The manager after loading *)

Section Registered.
Context (addr : shipped -> plugin_ptr) (addr_inj : Inj (=) (=) addr).
#[local] Abbreviation names := (names_at addr).

(** The map with the plugins [ks], none of them in a role. *)
Definition registry (ks : list shipped) : role_map := foldr (fun k m => map_emplace (addr k) PL_NONE m) [] ks.

Lemma registry_spec ks : NoDup ks ->
  manager_ok names (registry ks) /\ forall q r, (q, r) ∈ registry ks <-> r = PL_NONE /\ exists k, k ∈ ks /\ q = addr k.
Proof.
  induction 1 as [|k ks Hk Hnd [IHm IHe]].
  - split; [apply manager_ok_new|]. intros q r.
    split; [intros Hin; cbn in Hin; by apply not_elem_of_nil in Hin|]. intros [_ (k & Hin & _)]. by apply not_elem_of_nil in Hin.
  - assert (absent addr k (registry ks)) as Ha.
    { intros q Hq. apply keys_elem in Hq as [r Hr]. apply IHe in Hr as [_ (k' & Hk' & ->)]. exists k'. split; [done|]. by intros ->. }
    apply (absent_find addr addr_inj) in Ha as [E1 E2]. cbn [registry foldr]. fold (registry ks). split; [by apply manager_ok_register|].
    intros q r. rewrite elem_emplace, IHe by done. split.
    + intros [[-> ->]|[-> (k' & Hk' & ->)]]; (split; [done|]); eexists; (split; [|done]); by constructor.
    + intros [-> (k' & [->|Hk']%elem_of_cons & ->)]; [by left|right]. split; [done|by exists k'].
Qed.

Lemma registry_keys ks q : NoDup ks -> q ∈ keys (registry ks) <-> exists k, k ∈ ks /\ q = addr k.
Proof.
  intros Hnd. destruct (registry_spec ks Hnd) as [_ He]. split.
  - intros [r Hr]%keys_elem. by apply He in Hr as [_ ?].
  - intros Hk. apply (elem_keys _ PL_NONE). by apply He.
Qed.

Lemma registry_absent ks k : NoDup ks -> k ∉ ks -> absent addr k (registry ks).
Proof. intros Hnd Hk q (k' & Hk' & ->)%registry_keys; [|done]. exists k'. split; [done|]. by intros ->. Qed.

Lemma registry_find ks k : NoDup ks -> k ∈ ks -> map_find (addr k) (registry ks) = Some PL_NONE.
Proof.
  intros Hnd Hk. destruct (registry_spec ks Hnd) as [Hm He]. apply map_find_elem; [apply Hm|]. apply He. split; [done|by exists k].
Qed.

End Registered.

(** ** Cleaning up *)

Section Cleanup.
Context (addr : shipped -> plugin_ptr) (addr_inj : Inj (=) (=) addr).
Context (rand : nat -> Z) (publish_rc : nat -> Z) (strerror : Z -> cstr).
#[local] Abbreviation always := (fun _ : nat => true).
#[local] Abbreviation mem := (mem addr rand always always publish_rc strerror).

(** What a plugin needs to be cleaned up: what its [init] acquired; the MQTT plugin never survives it. *)
Definition cleanable (w : world) (k : shipped) : Prop :=
  match k with
  | STranscribe => exists text, tg_file (w_transcribe w) = FileOpen text
  | SFilelogger => exists text, Filelogger.log_file (w_filelogger w) = FileOpen text
  | SMosquitto => False
  | _ => True
  end.

Definition closed (f : file_ptr) : file_ptr := match f with FileOpen t => FileClosed t | f => f end.

(** What cleaning up plugin [k] leaves of the transcript. *)
Definition transcript_after (k : shipped) (w : world) : file_ptr :=
  match k with STranscribe => closed (tg_file (w_transcribe w)) | _ => tg_file (w_transcribe w) end.

Lemma cleanup_hook k h : cleanable (h_world h) k ->
  exists h', runs (match pl_cleanup (mem (addr k)) with None => ret tt | Some f => bind f (fun _ => ret tt) end) h tt h' [] /\
    h_pm h' = h_pm h /\ tg_file (w_transcribe (h_world h')) = transcript_after k (h_world h) /\
    forall k', k' <> k -> cleanable (h_world h) k' -> cleanable (h_world h') k'.
Proof.
  intros Hc. rewrite mem_addr by done. destruct k; cbn [shipped_plugin pl_cleanup trans_plugin replay_plugin random_plugin echo_plugin
    filelogger_plugin mosquitto_plugin cleanable transcript_after] in *.
  - destruct Hc as [text Hf]. eexists. split.
    { exists []. split; [|done]. unfold transcribe_cleanup, on_plugin, bind, zoom, get, modify, ret. cbn. rewrite Hf. reflexivity. }
    rewrite Hf. split; [done|]. split; [done|]. intros [] Hne; [done|..]; exact id.
  - eexists. split; [by eexists []|]. split; [done|]. split; [done|]. intros [] Hne; exact id.
  - eexists. split; [by eexists []|]. split; [done|]. split; [done|]. intros [] Hne; exact id.
  - exists h. split; [apply runs_ret|]. split; [done|]. split; [done|]. intros [] Hne; exact id.
  - destruct Hc as [text Hf]. eexists. split.
    { exists []. split; [|done]. unfold filelogger_cleanup, on_plugin, bind, zoom, get, modify, ret. cbn. rewrite Hf. reflexivity. }
    split; [done|]. split; [done|]. intros [] Hne; try done; exact id.
  - done.
Qed.

Lemma cleanup_hooks (es : role_map) : forall h, NoDup (keys es) ->
  (forall q, q ∈ keys es -> exists k, q = addr k /\ cleanable (h_world h) k) ->
  exists h', runs (for_each es (fun e =>
      match pl_cleanup (mem e.1) with None => ret tt | Some f => bind f (fun _ => ret tt) end)) h tt h' [] /\
    h_pm h' = h_pm h /\
    (addr STranscribe ∈ keys es -> tg_file (w_transcribe (h_world h')) = closed (tg_file (w_transcribe (h_world h)))) /\
    (addr STranscribe ∉ keys es -> tg_file (w_transcribe (h_world h')) = tg_file (w_transcribe (h_world h))).
Proof.
  induction es as [|[q r] es IH]; intros h Hnd Hk; cbn [keys map fst] in *.
  { exists h. split; [apply runs_ret|]. split; [done|]. split; [intros Hd; by apply not_elem_of_nil in Hd|done]. }
  apply NoDup_cons in Hnd as [Hq Hnd]. destruct (Hk q) as (k & -> & Hck); [by constructor|].
  destruct (cleanup_hook k h Hck) as (h1 & R1 & P1 & F1 & C1). destruct (IH h1 Hnd) as (h2 & R2 & P2 & F2 & G2).
  { intros q' Hq'. destruct (Hk q') as (k' & -> & Hck'); [by constructor|]. exists k'. split; [done|]. apply C1; [by intros ->|done]. }
  exists h2. split; [cbn [for_each fst]; eapply runs_then; [exact R1|exact R2]|]. split; [congruence|].
  unfold transcript_after in F1. rewrite elem_of_cons. destruct (decide (k = STranscribe)) as [->|Hne].
  - split; [|by intros []; left]. intros _. by rewrite G2, F1.
  - assert (addr STranscribe <> addr k) as Hne' by (intros E%addr_inj; congruence). split.
    + intros [E|Hin]; [done|]. rewrite F2 by done. by destruct k; rewrite ?F1.
    + intros Hout. rewrite G2 by tauto. by destruct k; rewrite ?F1.
Qed.

Lemma cleanup_runs h : NoDup (keys (plugins (h_pm h))) ->
  (forall q, q ∈ keys (plugins (h_pm h)) -> exists k, q = addr k /\ cleanable (h_world h) k) ->
  exists h', runs (PluginManager.cleanup mem) h tt h' [] /\
    (addr STranscribe ∈ keys (plugins (h_pm h)) -> tg_file (w_transcribe (h_world h')) = closed (tg_file (w_transcribe (h_world h)))).
Proof.
  intros Hnd Hk. destruct (cleanup_hooks (plugins (h_pm h)) h Hnd Hk) as (h1 & R & _ & F & _). eexists. split.
  - unfold PluginManager.cleanup. eapply runs_then; [by exists []|]. cbv beta. eapply runs_then; [exact R|]. cbv beta. by exists [].
  - exact F.
Qed.

(** Whatever the plugins hold, cleaning up shows nothing, and it ends or is undefined; with the MQTT plugin it does not end. *)
Lemma cleanup_hook_ends k h :
  match (match pl_cleanup (mem (addr k)) with None => ret tt | Some f => bind f (fun _ => ret tt) end) h with
  | Done _ _ t => k <> SMosquitto /\ List.filter visible t = []
  | Halt hl t => hl = Undefined /\ List.filter visible t = []
  end.
Proof.
  rewrite mem_addr by done. destruct k; [| | |done|..].
  - cbn. unfold transcribe_cleanup, on_plugin, bind, zoom, get, modify, ret. cbn. by destruct (tg_file _).
  - done.
  - done.
  - cbn. unfold filelogger_cleanup, on_plugin, bind, zoom, get, modify, ret. cbn. by destruct (Filelogger.log_file _).
  - cbn. unfold mosquitto_cleanup, on_plugin, Mosquitto.cleanup, disconnect_instance, delete_instance, the_instance, bind, zoom, get, modify, ret, stop.
    destruct (mq_instance _) as [c|] eqn:E; [|done]. by destruct (mq_is_init c); cbn; rewrite ?E.
Qed.

Lemma cleanup_ends h : (forall q, q ∈ keys (plugins (h_pm h)) -> exists k, q = addr k) ->
  match PluginManager.cleanup mem h with
  | Done _ _ t => addr SMosquitto ∉ keys (plugins (h_pm h)) /\ List.filter visible t = []
  | Halt hl t => hl = Undefined /\ List.filter visible t = []
  end.
Proof.
  intros Hk. unfold PluginManager.cleanup. unfold bind at 1, get. cbn iota beta.
  enough (match for_each (plugins (h_pm h)) (fun e => match pl_cleanup (mem e.1) with None => ret tt | Some f => bind f (fun _ => ret tt) end) h with
    | Done _ _ t => addr SMosquitto ∉ keys (plugins (h_pm h)) /\ List.filter visible t = []
    | Halt hl t => hl = Undefined /\ List.filter visible t = [] end) as He.
  { unfold bind at 1. destruct (for_each _ _ h) as [u h1 t|]; [|done]. cbn. by rewrite app_nil_r. }
  revert Hk. generalize (plugins (h_pm h)). intros m. revert h. induction m as [|[q r] m IH]; intros h Hk; [by split; [apply not_elem_of_nil|]|].
  destruct (Hk q) as [k ->]; [by left|]. cbn [for_each fst]. unfold bind at 1. pose proof (cleanup_hook_ends k h) as Hh.
  destruct (_ h) as [u h1 t1|]; [|done]. destruct Hh as [Hne Ht1].
  specialize (IH h1 ltac:(intros q Hq; apply Hk; by right)). destruct (for_each m _ h1) as [u2 h2 t2|hl t2].
  - destruct IH as [Hout Ht2]. rewrite List.filter_app, Ht1, Ht2. split; [|done]. cbn [keys map fst]. intros [E%(inj addr)|Hin]%elem_of_cons; [done|by apply Hout].
  - destruct IH as [-> Ht2]. by rewrite List.filter_app, Ht1, Ht2.
Qed.

End Cleanup.

(** ** The installation and the process *)

(** What is the same for all runs: where the plugins are, the generated code, and what libmosquitto returns. *)
Record installation := Installation {
  in_addr : shipped -> plugin_ptr;            (** the plugin structs *)
  in_path : shipped -> cstr;                  (** their libraries *)
  in_lib_at : cstr -> option shipped;         (** what the loader finds at a path *)
  in_parse_backchannel : cstr -> option backchannel;
  in_serialize : laik_ext_msg -> cstr;
  in_publish_rc : nat -> Z;
  in_lib_init_rc : Z;
  in_connect_rc : cstr -> Z -> Z -> Z;
  in_subscribe_rc : Z;
  in_strerror : Z -> cstr;
  in_call_other : Z -> cstr -> prog event (ssys world) unit
}.

(** The plugins are at different addresses, and their paths can be written in a configuration file. *)
Class Installed (I : installation) : Prop := {
  installed_inj :: Inj (=) (=) (in_addr I);
  installed_path k : path_ok (in_path I k);
  installed_at k : in_lib_at I (in_path I k) = Some k
}.

(** What differs from one run of the program to another: the files, the random numbers, the clock, the signals, the
    messages of the nodes and the bounds on the loops. *)
Record environment := Environment {
  env_read : cstr -> option cstr;          (** the text of a file that can be read *)
  env_write : cstr -> bool;                (** whether a file can be created *)
  env_rand : nat -> Z;
  env_now : nat -> Z;
  env_termreq : nat -> bool;
  env_inbox : nat -> list cstr;
  env_wait_fuel : nat;
  env_tic_fuel : nat;
  env_run_fuel : nat
}.

Section Process.
Context (I : installation) `{!Installed I}.
Implicit Types e : environment.

#[local] Abbreviation addr := (in_addr I).
#[local] Abbreviation always := (fun _ : nat => true).
Definition mem_of e := mem addr (env_rand e) always always (in_publish_rc I) (in_strerror I).
Definition init_in e := init_of (inter addr) addr (env_read e) (env_write e) (in_lib_init_rc I) (in_connect_rc I) (in_subscribe_rc I) (in_strerror I).
Definition init_at_of e :=
  init_at addr (env_read e) (env_write e) (in_lib_init_rc I) (in_connect_rc I) (in_subscribe_rc I) (in_strerror I).
Definition loader := dlmopen addr (in_lib_at I).
#[local] Abbreviation load_of e := (load_config (mem_of e) loader [] dlsym (init_at_of e) (env_read e)).

(** The process: [main] with the shipped plugins, from the static initialisation on. *)
Definition process_start : ssys world := Ssys new_server (Csys new_config (Host new_manager world_zero)).

Definition process e (argv0 : option cstr) (args : list (ascii * cstr)) : prog event (ssys world) Z :=
  Main.main (mem_of e) loader [] dlsym (init_at_of e) (env_read e) (in_parse_backchannel I) (in_serialize I) (env_now e)
    (in_call_other I) (env_inbox e) (env_termreq e) (env_wait_fuel e) (env_tic_fuel e) (env_run_fuel e) argv0 args.

Lemma mem_of_addr e k : mem_of e (addr k) =
  shipped_plugin addr (env_rand e) always always (in_publish_rc I) (in_strerror I) k.
Proof. exact (mem_addr addr _ _ _ _ _ installed_inj k). Qed.

(** *** Configuration files of the form of examples/ *)

Definition shipped_config (ls : list (shipped * list cstr)) (kc kf : shipped) (tic : Z) : cstr := lines_file (
  str "[libs]" :: map (fun l => lib_line (in_path I l.1) l.2) ls ++
  str "[config]" :: [str "com = " ++ shipped_name kc; str "fault = " ++ shipped_name kf; str "tic = " ++ print_u tic]).

(** [init] of [k] with [args] succeeds and turns the world [w] into [w']. *)
Definition inits e (k : shipped) (args : list cstr) (w w' : world) : Prop :=
  forall pm, absent addr k (plugins pm) -> runs (init_in e k args) (Host pm w) 0 (Host (register addr k pm) w') [].

Fixpoint loads e (ls : list (shipped * list cstr)) (w w' : world) : Prop :=
  match ls with
  | [] => w' = w
  | (k, args) :: ls' => Forall arg_ok args /\ exists w1, inits e k args w w1 /\ loads e ls' w1 w'
  end.

(** The plugins registered after the libraries [ls], the last one first. *)
Definition loaded (ls : list (shipped * list cstr)) (ks : list shipped) : list shipped := rev (map fst ls) ++ ks.

Lemma load_libs e ls : forall c pm w w' ks, NoDup (loaded ls ks) -> plugins pm = registry addr ks -> loads e ls w w' ->
  exists pm', plugins pm' = registry addr (loaded ls ks) /\ forall rest s',
    runs (config_lines (mem_of e) loader [] dlsym (init_at_of e) 2 rest) (Csys c (Host pm' w')) 0 s' [] ->
    runs (config_lines (mem_of e) loader [] dlsym (init_at_of e) 2 (map (fun l => lib_line (in_path I l.1) l.2) ls ++ rest))
      (Csys c (Host pm w)) 0 s' [].
Proof.
  induction ls as [|[k args] ls IH]; intros c pm w w' ks Hnd Hpm Hl; cbn [map app loads fst snd] in *.
  - subst w'. by exists pm.
  - destruct Hl as (Ha & w1 & Hi & Hl). unfold loaded in *. cbn [map rev fst] in *. rewrite <- app_assoc in *. cbn [app] in *.
    assert (NoDup (k :: ks)) as Hk by (by apply NoDup_app in Hnd as (_ & _ & ?)). apply NoDup_cons in Hk as [Hk Hks].
    assert (runs (init_in e k args) (Host pm w) 0 (Host (register addr k pm) w1) []) as R.
    { apply Hi. rewrite Hpm. by apply (registry_absent addr _). }
    destruct (load_library_runs addr _ (env_read e) (env_write e) _ _ _ _ (in_lib_at I) (in_path I k) k args _ _ (installed_at k) R) as [libs RL].
    edestruct (IH c) as (pm' & Hpm' & Hrest); [exact Hnd| |exact Hl|].
    2:{ exists pm'. split; [exact Hpm'|]. intros rest s' Rr. eapply config_lines_cons;
        [apply config_line_lib; [apply installed_path|exact Ha|exact RL]|]. by apply Hrest. }
    cbn. by rewrite Hpm.
Qed.

Definition roles_config (kc kf : shipped) (tic : Z) : config :=
  Config (Some (addr kc)) (Some (addr kc)) (Some (addr kf)) None tic true.

(** A backend and a fault manager among the plugins. *)
Definition fits (kc kf : shipped) : Prop := kc ∈ [SEcho; SMosquitto] /\ kf ∈ [STranscribe; SReplay; SRandom].

Lemma shipped_types e kc kf : fits kc kf ->
  Forall (fun t => HAS_PL_TYPE (mem_of e (addr kc)) t = true) [PL_COM_ACTOR; PL_COM_EXTERN] /\
  HAS_PL_TYPE (mem_of e (addr kf)) PL_FAULT_MANAGER = true.
Proof.
  intros [Hc Hf]. rewrite !mem_of_addr. split.
  - destruct kc; try (exfalso; revert Hc; elem_dec); by repeat constructor.
  - destruct kf; try (exfalso; revert Hf; elem_dec); done.
Qed.

(** The lines of the [config] section. *)
Lemma settings_runs e kc kf tic pm w ks : NoDup ks -> kc ∈ ks -> kf ∈ ks -> fits kc kf -> is_u64 tic ->
  plugins pm = registry addr ks ->
  runs (config_lines (mem_of e) loader [] dlsym (init_at_of e) 1
      [str "com = " ++ shipped_name kc; str "fault = " ++ shipped_name kf; str "tic = " ++ print_u tic])
    (Csys new_config (Host pm w)) 0 (Csys (roles_config kc kf tic) (Host pm w)) [].
Proof.
  intros Hnd Hkc Hkf Hfit Htic Hpm. destruct (shipped_types e kc kf Hfit) as [Hc Hf].
  assert (forall k, pl_name (mem_of e (addr k)) = shipped_name k) as Hname by (intros k; rewrite mem_of_addr; by destruct k).
  pose proof (config_lines_settings (mem_of e) loader [] dlsym (init_at_of e)
    [SCom (addr kc); SFault (addr kf); STic tic] (Csys new_config (Host pm w))) as R.
  cbn [map] in R. unfold print_setting, setting_value, setting_key in R. rewrite !Hname in R.
  apply R; cbn [cs_host h_pm]; rewrite Hpm.
  - eapply (proj1 (manager_ok_names _ _ _ _ _ _ _)). apply registry_spec; [apply _|done].
  - assert (forall k types, k ∈ ks -> Forall (fun t => HAS_PL_TYPE (mem_of e (addr k)) t = true) types ->
      plugin_ok (mem_of e) (registry addr ks) types (addr k)) as Hp.
    { intros k types Hin Ht. split; [apply registry_keys; [apply _|done|by exists k]|]. rewrite Hname.
      split; [by destruct k|]. split; [|exact Ht]. destruct k; elem_dec. }
    repeat apply Forall_cons_2; [by apply Hp|by apply Hp; [|apply Forall_singleton]|exact Htic|by apply Forall_nil].
Qed.

(** Loading the whole file. *)
Lemma load_shipped e cfg ls kc kf tic w : loads e ls world_zero w -> NoDup (loaded ls []) ->
  kc ∈ loaded ls [] -> kf ∈ loaded ls [] -> fits kc kf -> is_u64 tic -> env_read e cfg = Some (shipped_config ls kc kf tic) ->
  exists pm, plugins pm = registry addr (loaded ls []) /\
    runs (load_of e cfg) (Csys new_config (Host new_manager world_zero)) 0 (Csys (roles_config kc kf tic) (Host pm w)) [].
Proof.
  intros Hl Hnd Hkc Hkf Hfit Htic Hcfg.
  destruct (load_libs e ls new_config new_manager world_zero w [] Hnd eq_refl Hl) as (pm & Hpm & Hlibs).
  exists pm. split; [done|]. pose proof (section_lines (mem_of e) loader [] dlsym (init_at_of e)) as Hsec.
  assert (Forall arg_ok (concat (map snd ls))) as Hargs.
  { clear -Hl. revert Hl. generalize world_zero. induction ls as [|[k args] ls IH]; intros w0; cbn; [by constructor|].
    intros (Ha & w1 & _ & Hl). apply Forall_app. split; [done|by eapply IH]. }
  eapply load_config_lines; [exact Hcfg| |done|].
  - apply Forall_cons_2; [elem_dec|]. apply Forall_app. split.
    + clear -Hargs Installed0. induction ls as [|[k args] ls IH]; cbn in *; [by constructor|]. apply Forall_app in Hargs as [Ha Hargs].
      constructor; [|by apply IH]. apply lib_line_nl; [|done]. by destruct (installed_path k) as (? & _).
    + repeat apply Forall_cons_2; [elem_dec|destruct kc; elem_dec|destruct kf; elem_dec| |by apply Forall_nil].
      intros [Hin|Hin]%elem_of_app; [revert Hin; elem_dec|]. destruct Htic as [Hge _]. by apply print_u_chars in Hin.
  - eapply config_lines_cons; [apply (Hsec (Csys new_config (Host new_manager world_zero)))|]. apply Hlibs.
    eapply config_lines_cons; [apply Hsec|]. by eapply settings_runs.
Qed.

Lemma roles_assigned e kc kf tic pm w ks : NoDup ks -> kc ∈ ks -> kf ∈ ks -> fits kc kf -> plugins pm = registry addr ks ->
  exists s2, assign_roles (mem_of e) (Ssys new_server (Csys (roles_config kc kf tic) (Host pm w))) = Done tt s2 [] /\
    ss_srv s2 = new_server /\ ss_conf s2 = roles_config kc kf tic /\ ss_world s2 = w /\ manager_ok (mem_of e) (host_plugins s2) /\
    (forall q, q ∈ keys (host_plugins s2) <-> exists k, k ∈ ks /\ q = addr k) /\
    forall k, k ∈ ks -> exists r, map_find (addr k) (host_plugins s2) = Some r.
Proof.
  intros Hnd Hkc Hkf Hfit Hpm. destruct (shipped_types e kc kf Hfit) as [Hc Hf].
  apply Forall_cons in Hc as [Hc1 [Hc2 _]%Forall_cons].
  assert (forall k, k ∈ ks -> addr k ∈ keys (registry addr ks)) as Hkeys.
  { intros k Hin. apply registry_keys; [apply _|done|by exists k]. }
  edestruct (assign_roles_run (mem_of e) (Ssys new_server (Csys (roles_config kc kf tic) (Host pm w)))) as (s2 & E & Hv & Hcf & Hw & Hm & Hks & Hfind).
  - unfold host_plugins, ss_host. cbn. rewrite Hpm. eapply (proj1 (manager_ok_names _ _ _ _ _ _ _)). apply registry_spec; [apply _|done].
  - unfold conf_ok. cbn. rewrite Hpm. split_and!; [..|done]; intros q [= <-]; (split; [by apply Hkeys|done]).
  - exists s2. split; [exact E|]. split_and!; try done.
    + intros q. rewrite Hks. unfold host_plugins, ss_host. cbn. rewrite Hpm. apply registry_keys; [apply _|done].
    + intros k Hin. rewrite Hfind. unfold host_plugins, ss_host. cbn. rewrite Hpm, registry_find by (done || apply _). eauto.
Qed.

(** *** What the plugins acquire *)

Lemma inits_echo e args w : inits e SEcho args w w.
Proof. intros pm Ha. apply echo_runs; [apply _|done]. Qed.

Lemma inits_random e num w : 0 <= num < 2 ^ 31 -> w_random w = random_zero ->
  inits e SRandom [print_u num] w (set_random (Random num (map new_node (seq 0 (Z.to_nat num))) [] 0 []) w).
Proof. intros Hn Hw pm Ha. apply random_runs; [apply _|done..]. Qed.

Lemma inits_transcribe e nested file w : env_write e file = true ->
  inits e STranscribe [nested; file] w (set_transcribe (TransGlobals nested 0 (FileOpen []) (tg_nested (w_transcribe w))) w).
Proof. intros Hf pm Ha. apply transcribe_runs; [apply _|done..]. Qed.

Lemma inits_replay e file text w : env_read e file = Some text -> w_replay w = replay_zero ->
  inits e SReplay [file] w (set_replay (replay_of text) w).
Proof. intros Hf Hw pm Ha. apply replay_runs; [apply _|done..]. Qed.

Lemma inits_mosquitto e id args w : in_lib_init_rc I = 0 -> (forall a p k, in_connect_rc I a p k = 0) -> w_mosquitto w = mosquitto_zero ->
  inits e SMosquitto (id :: args) w (set_mosquitto (mosquitto_started id) w).
Proof. intros Hl Hc Hw pm Ha. apply mosquitto_runs; [apply _|done..]. Qed.

Lemma arg_ok_number num : 0 <= num -> arg_ok (print_u num).
Proof. intros Hn. split; [by apply print_u_word|]. intros Hin%print_u_chars; done. Qed.

(** *** From the configuration to the end *)

(** A run with [-n n] that no signal interrupts, with the nodes ready by poll [polls] when they are waited for; the bounds
    on the loops are then never reached. *)
Definition uninterrupted e (n : nat) (sync : bool) (polls : nat) : Prop :=
  0 < Z.of_nat n < 2 ^ 32 /\ (0 < env_tic_fuel e)%nat /\ (n < env_run_fuel e)%nat /\ (sync = true -> (polls < env_wait_fuel e)%nat) /\
  forall j, (j <= start_polls sync polls + n)%nat -> env_termreq e j = false.

(** No pacing, or none of the [n] tics takes longer than it may. *)
Definition in_time e (tic : Z) (n : nat) : Prop := tic = 0 \/ punctual (env_now e) (s64 tic) n.

Lemma process_prints e argv0 cfg n sync polls kc kf (aside : relation world) `{!PreOrder aside} (J : world -> Prop)
    fm `{!SilentFM fm} `{!Apart aside J fm} c says `{!Voices aside J c says} tic pm w s2 h3 ns w3 w4 t4 fss w5 t5 :
  cfg <> [] -> NUL ∉ cfg -> uninterrupted e n sync polls -> pl_c (mem_of e (addr kc)) = Some c -> pl_fm (mem_of e (addr kf)) = Some fm ->
  runs (load_of e cfg) (Csys new_config (Host new_manager world_zero)) 0 (Csys (roles_config kc kf tic) (Host pm w)) [] ->
  assign_roles (mem_of e) (Ssys new_server (Csys (roles_config kc kf tic) (Host pm w))) = Done tt s2 [] ->
  ss_srv s2 = new_server -> ss_conf s2 = roles_config kc kf tic ->
  run_post_init (mem_of e) (keys (host_plugins s2)) s2 = Done true (with_host h3 s2) [] ->
  takes_callback c (h_world h3) w3 -> fm_get_nodes fm w3 = Done (0, ns) w4 t4 -> J w4 ->
  (sync = true -> all_report (in_parse_backchannel I) (env_inbox e) polls ns) -> in_time e tic n ->
  addr kc ∈ keys (plugins (h_pm h3)) -> fm_tics fm n w4 = Done fss w5 t5 ->
  exists s' w', comes_to (process e argv0 (server_args cfg n sync)) process_start (last_steps (mem_of e)) s'
      (printed says (start_calls sync ns ++ concat (map (calls_of (in_serialize I)) fss))) /\
    ss_host s' = Host (h_pm h3) w' /\ aside w5 w' /\ J w'.
Proof.
  intros Hne Hnul (Hn & Htf & Hrf & Hwf & Hterm) Hc Hfm Hload Ea Hv Hcf Ep Hcb En HJ Hrep Hpace Hin Et.
  apply (main_prints (mem_of e) aside J fm c says loader [] dlsym (init_at_of e) (env_read e) (in_parse_backchannel I) (in_serialize I)
    (env_now e) (in_call_other I) (env_inbox e) (env_termreq e) (env_wait_fuel e) (env_tic_fuel e) (env_run_fuel e) argv0 cfg n sync polls
    (Csys new_config (Host new_manager world_zero)) (Csys (roles_config kc kf tic) (Host pm w)) s2 h3 (addr kc) (addr kc) (addr kf)
    ns w3 w4 t4 fss w5 t5); try done.
  - intros E. split; [by apply Hwf|by apply Hrep].
  - intros E. rewrite E in Hin. by apply not_elem_of_nil in Hin.
Qed.

(** The end of a process whose plugins can all be cleaned up. *)
Lemma process_ends e s pm w : ss_host s = Host pm w -> manager_ok (mem_of e) (plugins pm) ->
  (forall q, q ∈ keys (plugins pm) -> exists k, q = addr k /\ cleanable w k) ->
  exists s', runs (last_steps (mem_of e)) s 0 s' [] /\
    (addr STranscribe ∈ keys (plugins pm) -> tg_file (w_transcribe (ss_world s')) = closed (tg_file (w_transcribe w))).
Proof.
  intros Hs Hm Hk. destruct (cleanup_runs addr _ (env_rand e) (in_publish_rc I) (in_strerror I) (Host pm w)) as (h & R & Ht); [apply sorted_nodup, Hm|exact Hk|].
  exists (with_host h s). split; [|exact Ht]. eapply runs_then; [apply on_host_runs; rewrite Hs; exact R|apply runs_ret].
Qed.

End Process.

(** ** An example installation, with the messages of Server.v's examples *)

Definition example_path (k : shipped) : cstr := str "plugins/lib" ++ shipped_name k ++ str ".so".

Definition example_installation : installation :=
  Installation shipped_addr example_path (fun f => List.find (fun k => strcmp_eq (example_path k) f) all_shipped) example_parse example_serialize
    (fun _ => 0) 0 (fun _ _ _ => 0) 0 (fun _ => []) (fun _ _ => ret tt).

#[export] Instance example_installed : Installed example_installation.
Proof. constructor; [by intros [] []| |by intros []]. intros k. destruct k; (split; [split; [done|]|]); elem_dec. Qed.

Definition example_env (files : list (cstr * cstr)) (rand : nat -> Z) (inbox : nat -> list cstr) : environment :=
  Environment (fun f => snd <$> List.find (fun e => strcmp_eq e.1 f) files) (fun _ => true) rand (fun _ => 0) (fun _ => false) inbox 10 10 10.

Definition example_process (e : environment) : list (ascii * cstr) -> prog event (ssys world) Z := process example_installation e None.

Lemma example_uninterrupted files rand inbox n sync : (0 < n < 10)%nat -> uninterrupted (example_env files rand inbox) n sync 0.
Proof. intros Hn. split_and!; cbn; lia || done. Qed.

Lemma example_punctual files rand inbox n : (n < 10)%nat -> punctual (env_now (example_env files rand inbox)) (s64 5) n.
Proof. intros Hn. change (s64 5) with 5. unfold punctual, room_for. cbn -[Z.of_nat]. split; [lia|intros i _; lia]. Qed.
