(* ===== verification/Typing.v ===== *)
(** * The contract between the server and its plugins

    A plugin announces by its type which of the pointers in its struct are set, and the server relies on that whenever it
    calls a plugin.  This file states the contract between the server and its plugins as a class, and proves that under it
    [main] has no undefined behaviour, whatever its arguments and its configuration file: it never goes through a
    null pointer, from reading the configuration to the cleanup.  Shipped.v has the shipped plugins as an instance. *)

From S2P Require Import Prelude CString Types Loggers Options PluginManager Config Server ServerTics Main Transcribe Replay.
From S2P Require Import RecordReplay Random Mosquitto Lifecycle Plugins Runs MainRuns Process.
Local Open Scope Z_scope.

(** What the type of a plugin promises about the pointers in its struct. *)
Record well_typed {W H} (pl : plugin W H) : Prop := {
  wt_actor : HAS_PL_TYPE pl PL_COM_ACTOR = true -> is_Some (pl_c pl);
  wt_extern : HAS_PL_TYPE pl PL_COM_EXTERN = true -> is_Some (pl_c pl);
  wt_manager : HAS_PL_TYPE pl PL_FAULT_MANAGER = true -> is_Some (pl_fm pl);
  wt_logger : HAS_PL_TYPE pl PL_LOGGER = true -> is_Some (pl_lf pl);
  wt_async c : pl_c pl = Some c -> Z.land (com_capabilities c) COM_ASYNC = COM_ASYNC -> is_Some (com_set_callback c)
}.

(** The ways not to finish other than undefined behaviour: an exception, or the bound of a loop. *)
Definition allowed (h : halt) : Prop := match h with Uncaught _ | OutOfFuel => True | _ => False end.

Section Contract.
Context {W : Type}.

Definition host_keys (h : host W) : list plugin_ptr := keys (plugins (h_pm h)).

(** The hooks of all registered plugins have been run. *)
Definition ready (Inv : list plugin_ptr -> host W -> Prop) (h : host W) : Prop := exists ps, Inv ps h /\ host_keys h ⊆ ps.

(** [m], a function of plugin [p], is defined on the state of the plugins while [p] is registered, and keeps [Inv]. *)
Definition call_ok {A} (Inv : host W -> Prop) (p : plugin_ptr) (m : prog event W A) : Prop := forall h, Inv h -> p ∈ host_keys h ->
  match m (h_world h) with Done _ w _ => Inv (Host (h_pm h) w) | Halt hl _ => allowed hl end.

(** The contract: in the hosts satisfying [Inv ps] the init functions of the libraries and the post init hooks are defined,
    [ps] being the plugins whose hooks have succeeded, and after all hooks the functions of the registered plugins are.
    [args_ok] are the arguments a library may be given; cleaning up may go wrong if [broken_end]. *)
Class PluginContract (mem : plugin_ptr -> plugin W (host W)) (dlmopen : cstr -> option Z) (dlsym : Z -> cstr -> option Z)
    (init_at : Z -> list cstr -> prog event (host W) Z) (args_ok : cstr -> list cstr -> Prop)
    (broken_end : Prop) (Inv : list plugin_ptr -> host W -> Prop) : Prop := {
  pc_struct ps h p : Inv ps h -> p ∈ host_keys h -> well_typed (mem p);
  pc_same ps h h' : host_keys h' = host_keys h -> h_world h' = h_world h -> Inv ps h -> Inv ps h';
  pc_grows f argv h z h' t : init_at f argv h = Done z h' t -> host_keys h ⊆ host_keys h';
  pc_init file a f argv h : dlmopen file = Some a -> dlsym a (str "init") = Some f -> args_ok file argv -> Inv [] h ->
    match init_at f argv h with Done rc h' _ => rc = 0 -> Inv [] h' | Halt hl _ => allowed hl end;
  pc_post ps p hook h : pl_post_init (mem p) = Some hook -> Inv ps h -> p ∈ host_keys h ->
    match hook h with Done rc h' _ => host_keys h' = host_keys h /\ (rc = 0 -> Inv (p :: ps) h') | Halt hl _ => allowed hl end;
  pc_no_post ps p h : pl_post_init (mem p) = None -> Inv ps h -> Inv (p :: ps) h;
  pc_cleanup h : ready Inv h -> match PluginManager.cleanup mem h with Done _ _ _ => True | Halt hl _ => allowed hl \/ hl = Undefined /\ broken_end end;
  pc_manager p fm : pl_fm (mem p) = Some fm ->
    call_ok (ready Inv) p (fm_get_nodes fm) /\ call_ok (ready Inv) p (fm_tic fm) /\ call_ok (ready Inv) p (fm_get_fail fm);
  pc_com p c : pl_c (mem p) = Some c ->
    (forall n k v, call_ok (ready Inv) p (com_notify_fail c n k v)) /\ (forall m, call_ok (ready Inv) p (com_notify_extern c m)) /\
    forall f, com_set_callback c = Some f -> call_ok (ready Inv) p (f cb_server)
}.

End Contract.

(** What the lines of a configuration file ask for if they name libraries: the names and the arguments. *)
Definition line_request (line : cstr) : option (cstr * list cstr) :=
  match next_word line with
  | (Some token, rest) => Some (c_str token, map c_str (words (S (length rest)) rest))
  | (None, _) => None
  end.
Definition library_requests (text : cstr) : list (cstr * list cstr) := omap line_request (cpp_lines text).

(** The tic length a line sets, if it is a setting of that kind. *)
Definition tic_value (stream : cstr) : option Z :=
  match next_word stream with
  | (Some _, stream') =>
      match next_word stream' with
      | (Some value, _) => match stoul value with StoulValue v => Some v | _ => None end
      | _ => None
      end
  | _ => None
  end.
Definition tic_setting (line : cstr) : option Z :=
  match next_word line with
  | (Some token, rest) => if get_token_identifyer token =? tic_id then tic_value rest else None
  | _ => None
  end.
Definition tic_settings (text : cstr) : list Z := omap tic_setting (cpp_lines text).

(** Loading a configuration makes the tic no longer than its settings. *)
Section TicLength.
Context {W : Type} (mem : plugin_ptr -> plugin W (host W)) (dlmopen : cstr -> option Z) (dlerror : cstr) (dlsym : Z -> cstr -> option Z).
Context (init_at : Z -> list cstr -> prog event (host W) Z) (open_file : cstr -> option cstr) (longest : Z).

Definition short_tic (s : csys W) : Prop := 0 <= tic_length (cs_conf s) <= longest.

Lemma assign_role_short current setter type what kind p : (forall v c, tic_length (setter v c) = tic_length c) ->
  preserves short_tic (assign_role mem current setter type what kind p).
Proof.
  intros Hs. unfold assign_role, modify_conf, log. apply preserves_bind; [auto with lausim|intros s0].
  apply preserves_bind; [destruct (current _); auto with lausim|intros _]. apply preserves_if; [|auto with lausim].
  apply preserves_bind; [|auto with lausim]. apply preserves_modify. intros s H. unfold short_tic. cbn. by rewrite Hs.
Qed.

Lemma set_config_short id stream : (id = tic_id -> forall v, tic_value stream = Some v -> v <= longest) -> preserves short_tic (set_config mem id stream).
Proof.
  intros Htic. unfold set_config, log. unfold tic_value in Htic. destruct (next_word stream) as [[eq|] stream']; [|auto with lausim].
  apply preserves_if; [auto with lausim|]. destruct (next_word stream') as [[value|] r]; [|auto with lausim].
  destruct (Z.eqb_spec id tic_id) as [E|_].
  - unfold assign, assign_tic, log. apply preserves_bind; [auto with lausim|intros s0]. apply preserves_bind; [auto with lausim|intros _].
    destruct (stoul value) as [v| |] eqn:Ev; [|auto with lausim..]. apply preserves_bind; [|auto with lausim].
    apply preserves_modify. intros s _. unfold short_tic. cbn. split; [by apply stoul_range in Ev as [? _]|by apply Htic].
  - apply preserves_bind; [intros [c h] H; exact H|intros [p|]]; [|auto with lausim].
    unfold assign, assign_com_actor, assign_com_notify, assign_logger, assign_manager.
    repeat apply preserves_if; try (by apply assign_role_short); auto with lausim.
    apply preserves_bind; [by apply assign_role_short|intros r']. apply preserves_if; [by apply assign_role_short|auto with lausim].
Qed.

Lemma config_line_short state line : (forall v, tic_setting line = Some v -> v <= longest) ->
  preserves short_tic (config_line mem dlmopen dlerror dlsym init_at state line).
Proof.
  intros Htic. unfold config_line, log. apply preserves_bind; [auto with lausim|intros _]. unfold tic_setting in Htic.
  destruct (next_word line) as [[token|] rest]; [|auto with lausim]. do 2 (apply preserves_if; [auto with lausim|]). apply preserves_if.
  - apply preserves_bind; [|intros r; apply preserves_if; auto with lausim]. intros [c h] H. unfold load_lib, Config.on_host, zoom. by destruct (load_library _ _ _ _ _ _ _).
  - apply preserves_bind; [|intros r; apply preserves_if; auto with lausim]. apply set_config_short. intros E. by rewrite E in Htic.
Qed.

Lemma load_config_short filename : (forall text, open_file filename = Some text -> Forall (fun v => v <= longest) (tic_settings text)) ->
  preserves short_tic (load_config mem dlmopen dlerror dlsym init_at open_file filename).
Proof.
  intros Htic. unfold load_config, log. apply preserves_bind; [auto with lausim|intros s0]. apply preserves_if; [auto with lausim|].
  destruct (open_file filename) as [text|]; [|auto with lausim]. specialize (Htic text eq_refl). unfold tic_settings in Htic.
  revert Htic. generalize 0. induction (cpp_lines text) as [|line lines IH]; intros state Htic; cbn [config_lines].
  - apply preserves_bind; [|auto with lausim]. by apply preserves_modify.
  - cbn [omap list_omap] in Htic. apply preserves_bind.
    + apply config_line_short. intros v E. rewrite E in Htic. by apply Forall_cons in Htic as [? _].
    + intros [rc|state']; [auto with lausim|]. apply IH. destruct (tic_setting line); [by apply Forall_cons in Htic as [_ ?]|done].
Qed.

End TicLength.

(** A role changes neither which plugins are registered nor the state behind them. *)
Lemma update_role_same {W} (mem : plugin_ptr -> plugin W (host W)) pl role f (ks : list plugin_ptr) (w : W) :
  keeps allowed (fun h => host_keys h = ks /\ h_world h = w) (update_role mem pl role f).
Proof.
  intros h [Hk Hw]. unfold update_role, bind, get, put, ret, stop. destruct pl as [p|]; [|done]. destruct (negb _); [done|].
  pose proof (map_at_spec p f (plugins (h_pm h))) as Hat. destruct (map_at p f (plugins (h_pm h))) as [m|]; [|done]. destruct Hat as (_ & E & _).
  split; [|done]. change (keys m = ks). by rewrite E.
Qed.

Section Typing.
Context {W : Type} (mem : plugin_ptr -> plugin W (host W)) (dlmopen : cstr -> option Z) (dlsym : Z -> cstr -> option Z).
Context (init_at : Z -> list cstr -> prog event (host W) Z) (args_ok : cstr -> list cstr -> Prop).
Context (broken_end : Prop) (Inv : list plugin_ptr -> host W -> Prop) `{!PluginContract mem dlmopen dlsym init_at args_ok broken_end Inv}.
Context (dlerror : cstr) (open_file : cstr -> option cstr).
Context (parse_backchannel : cstr -> option backchannel) (serialize : laik_ext_msg -> cstr) (now : nat -> Z).
Context (call_other : Z -> cstr -> prog event (ssys W) unit) (inbox : nat -> list cstr) (termreq : nat -> bool).
Context (longest : Z) (now_ok : forall i, 0 <= now i < 2 ^ 62) (longest_ok : longest <= 2 ^ 62).

#[local] Hint Extern 1 (allowed _) => exact I : lausim.

(** *** Loading the configuration *)

#[local] Abbreviation inv_conf := (fun s : csys W => Inv [] (cs_host s)).

Lemma assign_role_ok current setter type what kind p : keeps allowed inv_conf (assign_role mem current setter type what kind p).
Proof. unfold assign_role, modify_conf, log. guarding. destruct (current (cs_conf s)); guarding. Qed.

Lemma assign_tic_ok value : keeps allowed inv_conf (assign_tic value).
Proof. unfold assign_tic, modify_conf, log. guarding. destruct (stoul value); guarding. Qed.

Lemma set_config_ok id stream : keeps allowed inv_conf (set_config mem id stream).
Proof.
  unfold set_config, log. destruct (next_word stream) as [[eq|] stream']; [|guarding].
  guarding. destruct (next_word stream') as [[value|] r]; [|guarding]. apply guarded_if; intros _; [by apply assign_tic_ok|].
  apply guarded_after; [by intros [c h]|]. intros [p|]; [|guarding].
  unfold assign, assign_com_actor, assign_com_notify, assign_logger, assign_manager. guarding; apply assign_role_ok.
Qed.

Lemma load_lib_ok name stream : args_ok (c_str name) (map c_str (words (S (length stream)) stream)) ->
  guarded allowed inv_conf (load_lib dlmopen dlerror dlsym init_at name stream) (fun rc s => rc = 0 -> Inv [] (cs_host s)).
Proof.
  intros Ha [c h] Hs. unfold load_lib, Config.on_host, zoom, load_library, library_open. cbn [cs_host cs_conf new_library l_is_init l_name l_argv] in *.
  destruct (dlmopen (c_str name)) as [hd|] eqn:Ed; [|done]. cbn [Z.eqb negb get_sym_addr l_is_init l_handle].
  destruct (dlsym hd (str "init")) as [f|] eqn:Es; [|done]. pose proof (pc_init _ _ _ _ h Ed Es Ha Hs) as Hi.
  unfold bind. destruct (init_at f _ h) as [r h1 t1|hl t1]; [|done].
  destruct (Z.eqb_spec r 0) as [->|Hne]; cbn [negb]; [|done]. intros _. by apply (pc_same [] h1); [..|apply Hi].
Qed.

Lemma config_line_ok state line : (forall name argv, line_request line = Some (name, argv) -> args_ok name argv) ->
  guarded allowed inv_conf (config_line mem dlmopen dlerror dlsym init_at state line)
    (fun r s => match r with inl rc => rc = 0 -> Inv [] (cs_host s) | inr _ => Inv [] (cs_host s) end).
Proof.
  intros Hargs. unfold config_line, log. apply guarded_after; [guarding|intros _]. unfold line_request in Hargs.
  destruct (next_word line) as [[token|] rest]; [|by apply guarded_ret].
  repeat (apply guarded_if; intros _; [by apply guarded_ret|]). apply guarded_if; intros _.
  - eapply guarded_bind; [by apply load_lib_ok, Hargs|]. intros r. apply guarded_if; intros Hr; apply guarded_ret; [|done].
    intros s Hs. by apply Hs, Z.eqb_eq.
  - apply guarded_after; [apply set_config_ok|]. intros r. apply guarded_if; intros _; by apply guarded_ret.
Qed.

(** After an error nothing is promised, and [main] ends. *)
Lemma load_config_ok filename :
  (forall text name argv, open_file filename = Some text -> (name, argv) ∈ library_requests text -> args_ok name argv) ->
  guarded allowed inv_conf (load_config mem dlmopen dlerror dlsym init_at open_file filename) (fun rc s => rc = 0 -> Inv [] (cs_host s)).
Proof.
  intros Hargs. unfold load_config, log. apply guarded_read. intros s0 _. apply guarded_if; intros _; [by apply guarded_ret|].
  destruct (open_file filename) as [text|]; [|apply guarded_after; [guarding|intros _; by apply guarded_ret]].
  assert (forall lines state, (forall name argv, (name, argv) ∈ omap line_request lines -> args_ok name argv) ->
    guarded allowed inv_conf (config_lines mem dlmopen dlerror dlsym init_at state lines) (fun rc s => rc = 0 -> Inv [] (cs_host s))) as H;
    [|by apply H; intros; eapply Hargs].
  induction lines as [|line lines IH]; intros state Hall; cbn [config_lines].
  - apply guarded_after; [by unfold modify_conf; guarding|intros _; by apply guarded_ret].
  - eapply guarded_bind; [apply config_line_ok|].
    + intros name argv E. apply Hall. cbn [omap list_omap]. rewrite E. by left.
    + intros [rc|state']; [apply guarded_ret; exact (fun s Hs => Hs)|]. apply IH. intros name argv Hin. apply Hall.
      cbn [omap list_omap]. destruct (line_request line); [by right|done].
Qed.

(** *** Initialisation *)

(** The tic and the duration are no longer than [longest], the timestamp is at most [until]. *)
Definition timed (until : Z) (s : ssys W) : Prop := short_tic longest (ss_csys s) /\ 0 <= dur s <= longest /\ 0 <= ts s <= until.

(** A configuration of capable plugins, after the hooks of [ps]; the callback of the server is never set. *)
Definition typed_at (ps : list plugin_ptr) (s : ssys W) : Prop :=
  Inv ps (ss_host s) /\ conf_ok mem (ss_csys s) /\ sv_other_cb (ss_srv s) = cb_null /\ timed (2 ^ 62) s.

Definition typed : ssys W -> Prop := typed_at [].

(** During and after [init], with the plugins [ks]: the pointers of the server are the ones in their structs. *)
Definition started (until : Z) (ks : list plugin_ptr) (s : ssys W) : Prop :=
  ready Inv (ss_host s) /\ host_keys (ss_host s) = ks /\ sv_other_cb (ss_srv s) = cb_null /\ timed until s.
Definition wired_com (ks : list plugin_ptr) (c : option (com W)) : Prop := exists p com, p ∈ ks /\ c = Some com /\ pl_c (mem p) = Some com.
Definition wired_manager (ks : list plugin_ptr) (m : option (fault_manager W)) : Prop := exists p fm, p ∈ ks /\ m = Some fm /\ pl_fm (mem p) = Some fm.
Definition wired_coms (until : Z) (ks : list plugin_ptr) (s : ssys W) : Prop :=
  started until ks s /\ wired_com ks (sv_com_actor (ss_srv s)) /\ wired_com ks (sv_com_notify (ss_srv s)).
Definition wired (until : Z) (ks : list plugin_ptr) (s : ssys W) : Prop := wired_coms until ks s /\ wired_manager ks (sv_manager (ss_srv s)).

Lemma typed_host ps ps' s h : typed_at ps s -> Inv ps' h -> host_keys h = host_keys (ss_host s) -> typed_at ps' (with_host h s).
Proof.
  intros (_ & Hc & Hcb & Ht) Hi Hk. split; [done|]. split; [|done]. destruct s as [v [c h0]]. unfold ss_host, host_keys in *. cbn in *.
  apply (conf_ok_more mem dlmopen dlerror dlsym open_file c h0 h); [by rewrite Hk|exact Hc].
Qed.

Lemma update_role_typed pl role f : keeps allowed typed (Server.on_host (update_role mem pl role f)).
Proof.
  intros s Hs. unfold Server.on_host, zoom.
  pose proof (update_role_same mem pl role f (host_keys (ss_host s)) (h_world (ss_host s)) (ss_host s) (conj eq_refl eq_refl)) as H.
  destruct (update_role mem pl role f (ss_host s)) as [rc h t|]; [|done]. destruct H as [Hk Hw].
  apply (typed_host []); [done| |done]. by apply (pc_same [] (ss_host s)); [..|apply Hs].
Qed.

Lemma use_logger_typed ll : keeps allowed typed (use_logger mem ll).
Proof.
  unfold use_logger. guarding. destruct (conf_logger (ss_conf s)) as [p|] eqn:Ep; [|guarding].
  assert (is_Some (pl_lf (mem p))) as [l ->].
  { destruct H as (Hi & (_ & _ & _ & Hl) & _). destruct (Hl p Ep) as [Hp Ht]. by apply (wt_logger _ (pc_struct _ _ _ Hi Hp)). }
  cbn [deref]. guarding. apply guarded_modify. intros s1 Hs1. apply (typed_host []); [done| |done]. apply (pc_same [] (ss_host s1)); [done..|apply Hs1].
Qed.

Lemma assign_roles_typed : keeps allowed typed (assign_roles mem).
Proof. unfold assign_roles. guarding; apply update_role_typed. Qed.

Lemma run_post_init_typed qs ks : qs ⊆ ks -> forall ps,
  guarded allowed (fun s => typed_at ps s /\ host_keys (ss_host s) = ks) (run_post_init mem qs)
    (fun ok s => ok = true -> exists ps', qs ++ ps ⊆ ps' /\ typed_at ps' s /\ host_keys (ss_host s) = ks).
Proof.
  intros Hqs. induction qs as [|p qs IH]; intros ps; cbn [run_post_init].
  { apply guarded_ret. intros s Hs _. exists ps. by split. }
  assert (qs ⊆ ks) as Hqs' by set_solver. specialize (IH Hqs' (p :: ps)).
  assert (forall ok s, (ok = true -> exists ps', qs ++ p :: ps ⊆ ps' /\ typed_at ps' s /\ host_keys (ss_host s) = ks) ->
    ok = true -> exists ps', (p :: qs) ++ ps ⊆ ps' /\ typed_at ps' s /\ host_keys (ss_host s) = ks) as Hmore.
  { intros ok s H Hok. destruct (H Hok) as (ps' & Hsub & Ht). exists ps'. split; [|done]. intros x Hx. apply Hsub. set_solver. }
  destruct (pl_post_init (mem p)) as [hook|] eqn:E.
  - eapply guarded_bind; [|intros r; apply guarded_if; intros Hr; [eapply guarded_weaken; [exact IH|exact (fun s Hs => Hs (proj1 (Z.eqb_eq _ _) Hr))|exact Hmore]|]].
    + intros s [Hs Hk]. unfold Server.on_host, zoom. assert (p ∈ host_keys (ss_host s)) as Hp by (rewrite Hk; set_solver).
      pose proof (pc_post ps _ _ (ss_host s) E (proj1 Hs) Hp) as Hh. destruct (hook (ss_host s)) as [z h' t|]; [|done].
      destruct Hh as [Hk' Hi]. intros Hz. split; [by apply (typed_host ps); [|apply Hi|]|]. by rewrite <- Hk.
    + unfold log. apply guarded_after; [guarding|intros _]. by apply guarded_ret.
  - eapply guarded_weaken; [exact IH| |exact Hmore]. intros s [(Hi & Hc) Hk]. split; [split; [by apply pc_no_post|done]|done].
Qed.

(** The calls of the server change the state of the plugins only. *)
Lemma on_world_started {A} until ks p (m : prog event W A) : call_ok (ready Inv) p m -> p ∈ ks -> keeps allowed (started until ks) (on_world m).
Proof.
  intros Hm Hp s (Hi & Hk & Hcb & Htm). unfold on_world, zoom, ss_world. specialize (Hm (ss_host s) Hi ltac:(by rewrite Hk)).
  by destruct (m (h_world (ss_host s))).
Qed.

(** What the call keeps of the host, and that the server is not changed, is enough for [wired]. *)
Lemma on_world_wired {A} (P : ssys W -> Prop) until ks p (m : prog event W A) : call_ok (ready Inv) p m -> p ∈ ks ->
  (forall s, P s -> started until ks s) -> (forall s w, P s -> started until ks (with_world w s) -> P (with_world w s)) -> keeps allowed P (on_world m).
Proof.
  intros Hm Hp Hs HP s Hs0. pose proof (on_world_started until ks p m Hm Hp s (Hs s Hs0)) as H. unfold on_world, zoom in *.
  destruct (m (ss_world s)); [by apply HP|done].
Qed.

Lemma wired_call {A} until ks p (m : prog event W A) : call_ok (ready Inv) p m -> p ∈ ks -> keeps allowed (wired until ks) (on_world m).
Proof. intros Hm Hp. by apply (on_world_wired _ until ks p); [done|done|intros s Hs; apply Hs|intros s w (( _ & ?) & ?) ?]. Qed.

Lemma connect_wired until a n f ks : a ∈ ks -> n ∈ ks -> f ∈ ks -> HAS_PL_TYPE (mem a) PL_COM_ACTOR = true ->
  HAS_PL_TYPE (mem n) PL_COM_EXTERN = true -> HAS_PL_TYPE (mem f) PL_FAULT_MANAGER = true ->
  guarded allowed (started until ks) (connect_plugins mem a n f) (fun rc s => rc = 0 -> wired until ks s).
Proof.
  intros Hka Hkn Hkf Ha Hn Hf s0 Hs0. pose proof Hs0 as (Hi & Hk & _).
  assert (forall p, p ∈ ks -> well_typed (mem p)) as Hwt by (intros p Hp; destruct Hi as (ps & Hi & _); apply (pc_struct _ _ _ Hi); by rewrite Hk).
  revert s0 Hs0 Hi Hk. enough (guarded allowed (started until ks) (connect_plugins mem a n f) (fun rc s => rc = 0 -> wired until ks s)) as H by (intros; by apply H).
  unfold connect_plugins, modify_srv, log.
  destruct (wt_actor _ (Hwt a Hka) Ha) as [ca Eca], (wt_extern _ (Hwt n Hkn) Hn) as [cn Ecn], (wt_manager _ (Hwt f Hkf) Hf) as [fm Efm].
  rewrite Eca, Ecn, Efm. cbn [deref]. do 2 apply guarded_value. apply (guarded_bind _ _ (fun _ => wired_coms until ks)).
  { apply guarded_modify. intros s Hs. split; [done|]. split; [by exists a, ca|by exists n, cn]. }
  intros _. apply guarded_after.
  { apply guarded_if; intros Hasync; [|guarding]. apply Z.eqb_eq in Hasync.
    destruct (wt_async _ (Hwt a Hka) ca Eca Hasync) as [g Eg]. rewrite Eg. cbn [deref]. guarding.
    by apply (on_world_wired _ until ks a); [apply (pc_com a ca)|..|intros s [? _]|intros s w [_ ?] ?]. }
  intros _. apply guarded_value. apply (guarded_bind _ _ (fun _ => wired until ks)).
  { apply guarded_modify. intros s Hs. split; [done|by exists f, fm]. }
  intros _. apply guarded_after; [by apply (wired_call until ks f); [apply (pc_manager f fm)|]|].
  intros r. apply guarded_after; [guarding|intros _]. apply guarded_if; intros _; [apply guarded_after; [guarding|intros _; by apply guarded_ret]|].
  apply guarded_read. intros s (((_ & _ & _ & Hsh & _) & _) & _). unfold short_tic in Hsh. apply guarded_after; [|intros _; by apply guarded_ret].
  apply guarded_modify. intros s' (((? & ? & ? & ? & _ & ?) & ?) & ?). split; [split; [|done]|done]. split_and!; try done.
  unfold timed, dur, ss_conf. cbn. rewrite s64_small by lia. by split.
Qed.

Lemma init_wired : guarded allowed typed (Server.init mem) (fun rc s => rc = 0 -> exists ks, wired (2 ^ 62) ks s).
Proof.
  unfold Server.init, modify_srv, log. do 2 (apply guarded_after; [by guarding|intros _]). apply guarded_read_eq. intros s0 Hs0.
  set (ks := host_keys (ss_host s0)). apply (guarded_weaken _ (fun s => typed s /\ host_keys (ss_host s) = ks) _ (fun rc s => rc = 0 -> exists ks, wired (2 ^ 62) ks s));
    [|by intros s <-|done].
  eapply guarded_bind; [by apply (run_post_init_typed ks ks)|intros ok]. destruct ok; cbn [negb]; [|apply guarded_ret; by intros].
  apply guarded_read_eq. intros s Hs. destruct (Hs eq_refl) as (ps & Hps & (Hi & (Ha & Hn & Hf & _) & Hcb & Htm) & Hk).
  assert (keeps allowed (eq s) (emit (ELog LL_Fatal (str "configuration incomplete")))) as Hlog by guarding.
  destruct (com_actor (ss_conf s)) as [a|] eqn:Ea, (com_notify (ss_conf s)) as [n|] eqn:En, (conf_fault_manager (ss_conf s)) as [f|] eqn:Ef;
    try (apply guarded_after; [done|intros _; apply guarded_ret; by intros]).
  destruct (Ha a Ea) as [Hka Hat], (Hn n En) as [Hkn Hnt], (Hf f Ef) as [Hkf Hft].
  assert (started (2 ^ 62) ks s) as Hst by (split; [exists ps; split; [done|rewrite Hk; set_solver]|done]).
  unfold ss_host, host_keys in Hk. rewrite Hk in Hka, Hkn, Hkf.
  eapply guarded_weaken; [by apply (connect_wired (2 ^ 62) a n f ks)|by intros s' <-|]. intros rc s' Hw Hrc. exists ks. by apply Hw.
Qed.

(** *** The table and the wait for the nodes *)

Section Wired.
Context (until : Z) (ks : list plugin_ptr).

Lemma print_table_wired : keeps allowed (wired until ks) (print_table mem).
Proof.
  unfold print_table, log. eapply (guarded_bind _ _ (fun loaded s => wired until ks s /\ loaded <> [])).
  - intros s Hs. pose proof Hs as [_ (p & fm & Hp & _)]. pose proof Hs as [[(_ & Hk & _) _] _]. rewrite <- Hk in Hp.
    cbn. unfold ss_host, host_keys in *. split; [done|]. destruct (plugins _); [|done]. by apply elem_of_nil in Hp.
  - intros [|first rest]; [by intros s [_ ?]|]. apply (guarded_weaken _ (wired until ks) _ (fun _ => wired until ks)); [guarding|by intros s [? _]|done].
Qed.

Lemma set_node_state_wired name state : keeps allowed (wired until ks) (set_node_state (W := W) name state).
Proof. unfold set_node_state, modify_srv. guarding. destruct (update_node _ _ _) as [ns|]; guarding. Qed.

Lemma on_message_wired msg : keeps allowed (wired until ks) (Server.on_message parse_backchannel call_other msg).
Proof.
  unfold Server.on_message, log. destruct (parse_backchannel msg) as [back|]; [|guarding]. guarding.
  - destruct (bc_logerrmsg back); guarding.
  - destruct (bc_logerrmsg back); guarding.
  - destruct (bc_newstatus back) as [st|]; [|guarding]. destruct (status_of st) as [status state].
    apply guarded_after; [apply set_node_state_wired|intros _; guarding].
  - assert (sv_other_cb (ss_srv s) = cb_null) as -> by apply H2. cbn [call_back]. guarding.
Qed.

Lemma wait_ready_wired fuel : forall i, keeps allowed (wired until ks) (wait_ready parse_backchannel call_other inbox termreq fuel i).
Proof.
  induction fuel as [|fuel IH]; intros i; cbn [wait_ready]; [guarding|]. apply guarded_after; [guarding; apply on_message_wired|intros _].
  apply guarded_if; intros _; [guarding|]. unfold all_nodes_ready. apply guarded_after; [by guarding|intros ready].
  apply guarded_if; intros _; [guarding|]. apply guarded_after; [guarding|intros _; apply IH].
Qed.

(** *** Tics *)

Lemma deref_com {B} (c : option (com W)) (k : com W -> prog event (ssys W) B) P Q : wired_com ks c ->
  (forall p com, p ∈ ks -> pl_c (mem p) = Some com -> guarded allowed P (k com) Q) -> guarded allowed P (bind (deref c) k) Q.
Proof. intros (p & com & Hks & -> & Hp) Hk. apply guarded_value. by apply (Hk p). Qed.

Lemma deref_manager {B} (m : option (fault_manager W)) (k : fault_manager W -> prog event (ssys W) B) P Q : wired_manager ks m ->
  (forall p fm, p ∈ ks -> pl_fm (mem p) = Some fm -> guarded allowed P (k fm) Q) -> guarded allowed P (bind (deref m) k) Q.
Proof. intros (p & fm & Hks & -> & Hp) Hk. apply guarded_value. by apply (Hk p). Qed.

Ltac wiring_step := lazymatch goal with
  | |- guarded _ _ (bind (deref (sv_manager _)) _) _ =>
      apply deref_manager; [match goal with H : wired _ _ _ |- _ => by apply H end|intros ?p ?fm ?Hks ?Hp]
  | |- guarded _ _ (bind (deref _) _) _ =>
      apply deref_com; [match goal with H : wired _ _ _ |- _ => by apply H end|intros ?p ?c ?Hks ?Hp]
  | |- guarded _ _ (on_world _) _ =>
      eapply wired_call; [first [by eapply pc_com | by eapply pc_manager]|eassumption]
  | _ => guarding_step
  end.
Ltac wiring := repeat wiring_step.

Lemma send_synced_signal_wired : keeps allowed (wired until ks) (send_synced_signal (W := W)).
Proof. unfold send_synced_signal. wiring. Qed.

Lemma dispatch_all_wired fs : forall m, keeps allowed (wired until ks) (dispatch_all (W := W) fs m).
Proof.
  induction fs as [|f fs IH]; intros m; cbn [dispatch_all]; [guarding|]. apply guarded_after; [|intros; apply IH].
  unfold dispatch, log. wiring. destruct (f_component f); guarding.
Qed.

Lemma manage_fails_wired : keeps allowed (wired until ks) (manage_fails serialize (W := W)).
Proof. unfold manage_fails, log. wiring. apply dispatch_all_wired. Qed.

End Wired.

Section Tics.
Context (ks : list plugin_ptr).
Implicit Types until : Z.

Lemma read_clock_wired until : guarded allowed (wired until ks) (read_clock now (W := W)) (fun t s => wired until ks s /\ 0 <= t < 2 ^ 62).
Proof. unfold read_clock, modify_srv. guarding. Qed.

Lemma wired_later until until' s : until <= until' -> wired until ks s -> wired until' ks s.
Proof. intros Hle (((? & ? & ? & Hsh & Hd & Ht) & ?) & ?). split; [split; [|done]|done]. split_and!; try done. split_and!; try done; lia. Qed.

Lemma wired_times until s : wired until ks s -> 0 <= dur s <= longest /\ 0 <= ts s <= until.
Proof. by intros (((_ & _ & _ & _ & ?) & _) & _). Qed.

(** The end of the tic moves on, and does not run out of range. *)
Lemma add_duration_wired until until' (P : ssys W -> Prop) : (forall s, P s -> wired until ks s /\ ts s + longest <= until') -> until' < 2 ^ 63 ->
  guarded allowed P add_duration (fun _ => wired until' ks).
Proof.
  intros HP Hu s Hs. destruct (HP s Hs) as [Hw Hl]. pose proof (wired_times until s Hw) as [Hd Ht].
  destruct Hw as (((? & ? & ? & Hsh & _) & ?) & ?). unfold add_duration, modify_srv, modify, bind, get.
  unfold ts, dur in *. rewrite fits_s64_true by lia. split; [split; [|done]|done]. split_and!; try done. unfold timed, ts, dur. cbn. split_and!; try done; lia.
Qed.

Lemma skip_loop_wired until fuel : 2 ^ 62 + longest <= until -> until < 2 ^ 63 -> forall skip, keeps allowed (wired until ks) (skip_loop now (W := W) fuel skip).
Proof.
  intros Hl Hu. induction fuel as [|fuel IH]; intros skip; cbn [skip_loop]; [guarding|]. eapply guarded_bind; [apply read_clock_wired|intros t].
  apply guarded_pure. intros Ht. apply guarded_read_eq. intros s Hs. apply guarded_if; intros Hlt; [|by apply guarded_ret; intros ? <-].
  apply (guarded_then _ _ (wired until ks)); [|intros _; apply IH]. apply (add_duration_wired until); [|done]. intros s' <-. split; [done|].
  apply Z.ltb_lt in Hlt. unfold ts. lia.
Qed.

Lemma skip_to_end_wired until until' fuel : until + longest <= until' -> 2 ^ 62 + longest <= until' -> 0 <= longest -> until' < 2 ^ 63 ->
  guarded allowed (wired until ks) (skip_to_end_of_tic now (W := W) fuel) (fun _ => wired until' ks).
Proof.
  intros Hu1 Hu2 H0 Hu. unfold skip_to_end_of_tic, modify_srv, log. apply guarded_after; [by guarding|intros _].
  apply guarded_read. intros s0 _. apply guarded_if; intros _; [apply guarded_ret; intros s; apply wired_later; lia|].
  apply (guarded_then _ _ (wired until' ks)).
  { apply (add_duration_wired until); [|done]. intros s Hs. split; [done|]. apply wired_times in Hs. lia. }
  intros _. apply guarded_after; [by apply skip_loop_wired|intros k]. guarding.
Qed.

Lemma do_tic_wired until until' fuel : 2 ^ 62 <= until -> until + longest <= until' -> 0 <= longest -> until' < 2 ^ 63 ->
  guarded allowed (wired until ks) (do_tic serialize now (W := W) fuel) (fun _ => wired until' ks).
Proof.
  intros Hu1 Hu2 H0 Hu. unfold do_tic, modify_srv. apply guarded_read. intros s0 ((_ & _) & (p & fm & Hks & -> & Hp)).
  apply (guarded_then _ _ (wired until ks)).
  { apply guarded_if; intros _; [|guarding]. eapply guarded_bind; [apply read_clock_wired|intros t]. apply guarded_pure. intros Ht.
    apply guarded_modify. intros s (((? & ? & ? & Hsh & Hd & _) & ?) & ?). split; [split; [|done]|done]. split_and!; try done.
    unfold timed, ts. cbn. split; [exact Hsh|]. split; [exact Hd|lia]. }
  intros _. apply guarded_value. apply guarded_after; [by eapply wired_call; [eapply pc_manager|]|intros _].
  apply guarded_after; [apply manage_fails_wired|intros _]. eapply guarded_then; [by apply (skip_to_end_wired until until'); [|lia|..]|intros _]. guarding.
Qed.

Lemma tic_loop_wired tic_fuel max fuel : forall until i tic_num, 2 ^ 62 <= until -> 0 <= longest -> until + Z.of_nat fuel * longest < 2 ^ 63 ->
  guarded allowed (wired until ks) (Main.tic_loop parse_backchannel serialize now call_other inbox termreq (W := W) tic_fuel max fuel i tic_num)
    (fun _ => wired (until + Z.of_nat fuel * longest) ks).
Proof.
  induction fuel as [|fuel IH]; intros lim i tic_num Hu H0 Hl; cbn [Main.tic_loop]; [guarding|].
  apply guarded_after; [apply keeps_for_each; intros msg _; apply on_message_wired|intros _].
  assert (guarded (E := event) allowed (wired lim ks) (ret tt) (fun _ => wired (lim + Z.of_nat (S fuel) * longest) ks)) as Hret
    by (apply guarded_ret; intros s; apply wired_later; nia).
  assert (forall tic', guarded allowed (wired lim ks) (do_tic serialize now tic_fuel ;; Main.tic_loop parse_backchannel serialize now call_other inbox termreq tic_fuel max fuel (S i) tic')%prog
    (fun _ => wired (lim + Z.of_nat (S fuel) * longest) ks)) as Hgo.
  { intros tic'. apply (guarded_then _ _ (wired (lim + longest) ks)); [apply do_tic_wired; nia|intros _].
    replace (lim + Z.of_nat (S fuel) * longest) with (lim + longest + Z.of_nat fuel * longest) by nia. apply IH; nia. }
  repeat (apply guarded_if; intros _; [done|]). done.
Qed.

(** Undefined behaviour there may be in the cleanup, which [main] announces. *)
Definition end_broken (h : halt) (t : list event) : Prop := (h = Undefined /\ broken_end) /\ cleaning_up ∈ t.

Lemma end_broken_late : late end_broken.
Proof. intros h t t' [Hh Ht]. split; [done|]. apply elem_of_app. by right. Qed.

Lemma last_steps_wired until : ends allowed (wired until ks) (last_steps mem) (fun h _ => h = Undefined /\ broken_end).
Proof.
  intros s Hs. unfold last_steps, Server.on_host, zoom, bind, ret. pose proof (pc_cleanup (ss_host s) ltac:(apply Hs)) as Hc.
  by destruct (PluginManager.cleanup mem (ss_host s)).
Qed.

(** What [main] does after [init]. *)
Lemma run_wired opts wait_fuel tic_fuel run_fuel : 0 <= longest -> (Z.of_nat run_fuel + 1) * longest < 2 ^ 62 -> ends allowed (wired (2 ^ 62) ks) (
    emit (ELog LL_Info (str "initialization complete")) ;;
    print_table mem ;;
    i <- wait_for_nodes parse_backchannel call_other inbox termreq wait_fuel (sync opts) ;;
    Main.tic_loop parse_backchannel serialize now call_other inbox termreq tic_fuel (max_tics opts) run_fuel i 0 ;;
    emit cleaning_up ;;
    last_steps mem)%prog end_broken.
Proof.
  intros H0 Hl. pose proof end_broken_late. apply ends_after; [done|guarding|intros _]. apply ends_after; [done|apply print_table_wired|intros _]. apply ends_after; [done|..].
  { unfold wait_for_nodes, log. apply guarded_if; intros _; [|guarding]. apply guarded_after; [apply wait_ready_wired|intros i].
    guarding. apply send_synced_signal_wired. }
  intros i. eapply (ends_bind _ _ (fun _ => wired (2 ^ 62 + Z.of_nat run_fuel * longest) ks)); [done|apply tic_loop_wired; [done|done|lia]|intros _]. apply ends_emit; [by intros h t t'|apply last_steps_wired].
Qed.

End Tics.

(** *** The program *)

Lemma parse_ok args : keeps allowed (fun _ => True) (parse args).
Proof. induction args as [|[opt optarg] args IH]; cbn [parse]; [guarding|]. guarding; apply IH. Qed.

(** The configuration file that the options name. *)
Definition config_file (args : list (ascii * cstr)) : cstr :=
  match parse args new_options with Done _ o _ => c_str (cfile o) | Halt _ _ => [] end.

Lemma load_typed filename :
  (forall text name argv, open_file filename = Some text -> (name, argv) ∈ library_requests text -> args_ok name argv) ->
  (forall text, open_file filename = Some text -> Forall (fun v => v <= longest) (tic_settings text)) ->
  guarded allowed typed (on_csys (load_config mem dlmopen dlerror dlsym init_at open_file filename)) (fun rc s => rc = 0 -> typed s).
Proof.
  intros Hargs Htics s (Hi & Hc & Hcb & Hsh & Ht). unfold on_csys, zoom. pose proof (load_config_ok filename Hargs (ss_csys s) Hi) as He.
  pose proof (load_config_conf_ok mem dlmopen dlerror dlsym init_at open_file pc_grows filename (ss_csys s) Hc) as Ho.
  pose proof (load_config_short mem dlmopen dlerror dlsym init_at open_file longest filename Htics (ss_csys s) Hsh) as Hl.
  destruct (load_config _ _ _ _ _ _ _ _); [|done]. intros Hrc. split; [by apply He|done].
Qed.

Lemma main_ends wait_fuel tic_fuel run_fuel argv0 args :
  (forall text name argv, open_file (config_file args) = Some text -> (name, argv) ∈ library_requests text -> args_ok name argv) ->
  (forall text, open_file (config_file args) = Some text -> Forall (fun v => v <= longest) (tic_settings text)) ->
  0 <= longest -> (Z.of_nat run_fuel + 1) * longest < 2 ^ 62 ->
  ends allowed typed (Main.main mem dlmopen dlerror dlsym init_at open_file parse_backchannel serialize now call_other inbox termreq
    wait_fuel tic_fuel run_fuel argv0 args) end_broken.
Proof.
  intros Hargs Htics H0 Hl. unfold Main.main, log. unfold config_file in Hargs, Htics. pose proof (parse_ok args new_options I) as Hp.
  pose proof end_broken_late as Hlate.
  apply (ends_bind _ _ (fun r s => typed s /\ parse args new_options = Done r.1 r.2 (trace_of (parse args new_options)))); [done|..].
  { intros s Hs. unfold local. by destruct (parse args new_options). }
  intros r. cbv zeta. intros s [Hs Hr]. rewrite Hr in Hargs, Htics. clear Hr. revert s Hs.
  apply ends_if; intros _; [by apply (guarded_ends _ _ _ (fun _ _ => True)), guarded_ret|].
  apply ends_if; intros _; [apply (guarded_ends _ _ _ (fun _ => typed)); guarding|].
  apply ends_after; [done|guarding|intros _]. eapply ends_bind; [done|by apply load_typed|]. intros rc.
  destruct (Z.eqb_spec rc 0) as [->|]; cbn [negb]; [|apply (ends_weaken _ (fun _ => True)); [apply (guarded_ends _ _ _ (fun _ _ => True)); guarding|done]].
  apply (ends_weaken _ typed); [|auto]. apply ends_after; [done|apply use_logger_typed|intros _].
  apply ends_after; [done|apply assign_roles_typed|intros _]. eapply ends_bind; [done|apply init_wired|]. intros rc'.
  destruct (Z.eqb_spec rc' 0) as [->|]; cbn [negb]; [|by apply (guarded_ends _ _ _ (fun _ _ => True)), guarded_ret].
  intros s Hs. destruct (Hs eq_refl) as [ks Hks]. by apply (run_wired ks).
Qed.

End Typing.
