(* ===== verification/Shipped.v ===== *)
(** * The shipped plugins keep the contract of Typing.v

    The fault managers random, replay and transcribe (around another one) first, then all six plugins as an instance of
    [PluginContract]: what their init functions set up, what their post init hooks do, and that their functions keep
    it.  The theorem about the whole program follows, with a run as an example. *)

From S2P Require Import Prelude CString Types Loggers Options PluginManager Config Server ServerTics Main Transcribe Replay.
From S2P Require Import RecordReplay Random Mosquitto Lifecycle Plugins Runs MainRuns Process Typing.
Local Open Scope Z_scope.

(** ** Fault managers *)

#[local] Hint Extern 1 (allowed _) => exact Logic.I : lausim.

(** From the states in [J] a fault manager is defined, its nodes have the components they say, and it stays in [J]. *)
Record managed {S : Type} (fm : fault_manager S) (J : S -> Prop) : Prop := {
  managed_nodes : guarded allowed J (fm_get_nodes fm) (fun r s => J s /\ Forall components_ok (snd r));
  managed_tic : keeps allowed J (fm_tic fm);
  managed_get_fail : keeps allowed J (fm_get_fail fm)
}.

(** *** Random *)

Definition random_nodes_ok (s : random) : Prop := Forall components_ok (map my_p (r_nodes s)).

Lemma random_managed rand : managed (random_fm rand (fun _ => true) (fun _ => true)) random_nodes_ok.
Proof.
  constructor; intros s Hs; cbn [fm_get_nodes fm_tic fm_get_fail random_fm].
  - unfold Random.get_nodes, bind, get, ret. by destruct (r_num s <=? 0).
  - destruct (random_tic_spec rand s) as (s' & fs & E & _ & _ & Hp & _). rewrite E. unfold random_nodes_ok. by rewrite Hp.
  - done.
Qed.

(** *** Replay *)

(** A file every line of which names something, and has a number if it says tic. *)
Inductive legible : cstr -> Prop :=
| legible_end text : getline text = None -> legible text
| legible_line text l r : getline text = Some (l, r) -> is_Some (strtok (c_str l) node_delim).1 ->
    (strstr (c_str l) (str "tic") = true -> is_Some (get_tic_num (c_str l))) -> legible r -> legible text.

Lemma tic_hash_tic s : strstr s (str "tic#") = true -> strstr s (str "tic") = true.
Proof.
  unfold strstr. intros (a & b & E)%contains_spec. apply contains_spec. exists a, ("#"%char :: b). by rewrite E.
Qed.

(** The rest of the file is legible, and [P] holds of the nodes that have been read. *)
Definition reads (P : list node -> Prop) (s : replay) : Prop := legible (file s) /\ P (nodes s).

Section Reads.
Context (P : list node -> Prop).

(** Reading a line, and then what is done with it. *)
Lemma after_line {B} (Q : B -> replay -> Prop) (k : option cstr -> prog event replay B) : guarded allowed (reads P) (k None) Q ->
  (forall l, is_Some (strtok (c_str l) node_delim).1 -> (strstr (c_str l) (str "tic") = true -> is_Some (get_tic_num (c_str l))) ->
    guarded allowed (reads P) (k (Some l)) Q) -> guarded allowed (reads P) (bind read_line k) Q.
Proof.
  intros Hnone Hsome s [Hs HP]. unfold read_line, bind, get. inversion Hs as [? Hg|? l r Hg Ht Hn Hr]; rewrite Hg; cbn.
  - pose proof (Hnone s (conj Hs HP)) as Hd. by destruct (k None s).
  - pose proof (Hsome l Ht Hn (Replay.set_file r s) (conj Hr HP)) as Hd. by destruct (k (Some l) (Replay.set_file r s)).
Qed.

Lemma assign_reads buf : is_Some (get_tic_num buf) -> keeps allowed (reads P) (assign_nxt_tic buf).
Proof. intros [v Hv]. unfold assign_nxt_tic. rewrite Hv. guarding. Qed.

Lemma alloc_reads : keeps allowed (reads P) alloc.
Proof. intros s Hs. unfold alloc, bind, get, put, ret. by destruct (allocs s). Qed.

Lemma read_components_length fuel : forall j num rest acc comps r, 0 <= j <= num -> Z.of_nat (length acc) = j ->
  read_components fuel j num rest acc = Some (comps, r) -> Z.of_nat (length comps) = num.
Proof.
  induction fuel as [|fuel IH]; intros j num rest acc comps r Hj Ha; cbn [read_components]; destruct (Z.ltb_spec j num); try done;
    try (intros [= <- _]; lia). destruct (strtok rest node_delim) as [[cur|] rest']; [|done]. apply IH; [lia|]. rewrite length_app. cbn. lia.
Qed.

Lemma read_node_reads i buf : is_Some (strtok buf node_delim).1 ->
  guarded allowed (reads P) (read_node i buf) (fun r s => reads P s /\ forall n, r = Some n -> components_ok n).
Proof.
  assert (forall msg, guarded allowed (reads P) (bind (error msg) (fun _ => ret None)) (fun r s => reads P s /\ forall n, r = Some n -> components_ok n)) as Hfail.
  { intros msg. unfold error, log. apply guarded_after; [guarding|intros _]. apply guarded_ret. by intros. }
  intros [name Hname]. unfold read_node. destruct (strtok buf node_delim) as [? rest]. cbn in Hname. subst.
  apply guarded_after; [apply alloc_reads|intros ok]. apply guarded_if; intros _; [|apply Hfail].
  destruct (strtok rest node_delim) as [[cur|] rest']; [|apply Hfail].
  destruct (read_components _ _ _ _ _) as [[comps rest'']|] eqn:E; [|apply Hfail].
  apply guarded_after; [destruct (strtok rest'' node_delim) as [[]]; unfold warn, log; guarding|intros _]. apply guarded_ret. intros s Hs. split; [done|].
  intros n [= <-]. unfold components_ok. cbn. symmetry. refine (read_components_length _ 0 _ _ [] _ _ _ eq_refl E). unfold u32.
  pose proof (Z.mod_pos_bound (strtoull cur 0).1 (2 ^ 32) ltac:(lia)). lia.
Qed.

Lemma read_first_tic_reads : keeps allowed (reads P) read_first_tic.
Proof.
  unfold keeps, read_first_tic, log_line, warn, log. apply after_line; [guarding|]. intros l _ Hn. guarding. by apply assign_reads, Hn.
Qed.

Lemma tic_round_reads : keeps allowed (reads P) tic_round.
Proof.
  unfold keeps, tic_round. apply after_line; [guarding|]. intros l _ Hn. unfold tic_round_line, log_line, warn, log. guarding.
  - apply assign_reads, Hn. by apply tic_hash_tic.
  - destruct (strchr _ COMMA) as [[name cs]|]; [|guarding]. destruct (strchr cs COMMA) as [[comp sev]|]; [|guarding].
    destruct (strtoull sev 0) as [v tmp]. unfold add_fault. guarding.
Qed.

Lemma tic_loop_reads fuel : keeps allowed (reads P) (Replay.tic_loop fuel).
Proof.
  induction fuel as [|fuel IH]; cbn [Replay.tic_loop]; guarding; [apply tic_round_reads|apply IH].
Qed.

End Reads.

Lemma read_nodes_reads fuel : forall i num, keeps allowed (reads (Forall components_ok)) (read_nodes fuel i num).
Proof.
  induction fuel as [|fuel IH]; intros i num; cbn [read_nodes]; [guarding|]. unfold keeps, error, log_line, log. apply guarded_if; intros _; [|guarding].
  apply after_line; [guarding|]. intros l Ht _. apply guarded_after; [guarding|intros _]. eapply guarded_bind; [by apply read_node_reads|].
  intros [n|]; [|apply guarded_ret; by intros s [? _]]. apply (guarded_bind _ _ (fun _ => reads (Forall components_ok))); [|intros _; apply IH].
  apply guarded_modify. intros s [[Hl Hf] Hn]. split; [done|]. apply Forall_app. split; [done|]. apply Forall_singleton. by apply Hn.
Qed.

Definition legible_rest : replay -> Prop := reads (fun _ => True).

Lemma replay_managed : managed replay_fm legible_rest.
Proof.
  constructor; cbn.
  - assert (forall msg, guarded allowed legible_rest (bind (error msg) (fun _ => ret (1, []))) (fun r s => legible_rest s /\ Forall components_ok (snd r))) as Hfail.
    { intros msg. unfold error, log. apply guarded_after; [guarding|intros _]. by apply guarded_ret. }
    unfold Replay.get_nodes, log_line, log. apply after_line; [apply Hfail|]. intros l _ _. apply guarded_after; [guarding|intros _].
    destruct (strtoull (c_str l) 0) as [num cur]. apply guarded_after; [guarding|intros _]. apply guarded_if; intros _; [apply Hfail|].
    do 2 (apply guarded_after; [apply alloc_reads|intros ?]). apply guarded_if; intros _; [apply Hfail|]. apply guarded_read. intros s _.
    apply (guarded_bind _ _ (fun _ => reads (Forall components_ok))); [apply guarded_modify; by intros s' [? _]|intros _].
    apply guarded_after; [apply read_nodes_reads|intros ok]. apply guarded_if; intros _; [|apply guarded_ret; by intros s' [? _]].
    apply guarded_after; [apply read_first_tic_reads|intros _]. apply guarded_read_eq. intros s' [Hl Hf]. apply guarded_ret. by intros ? <-.
  - unfold Replay.tic, Replay.free_faults. guarding. apply tic_loop_reads.
  - unfold Replay.get_fail. guarding.
Qed.

(** *** Transcribe, around another manager *)

Lemma fprint_keeps {N} (P : transcribe N -> Prop) text : (forall s k f, P s -> P (Transcribe k f (nested_st s))) -> keeps allowed P (fprint text).
Proof. intros HP. apply guarded_modify. auto. Qed.

Lemma call_nested_keeps {N A} (J : N -> Prop) (m : prog event N A) (Q : A -> Prop) : guarded allowed J m (fun r s => J s /\ Q r) ->
  guarded allowed (fun s => J (nested_st s)) (call_nested m) (fun r s => J (nested_st s) /\ Q r).
Proof. intros Hm s Hs. unfold call_nested, zoom. specialize (Hm _ Hs). by destruct (m (nested_st s)). Qed.

Lemma transcribe_managed {N} (nested : fault_manager N) J : managed nested J -> managed (transcribe_fm nested) (fun s => J (nested_st s)).
Proof.
  intros [Hn Ht Hf]. constructor; cbn.
  - unfold Transcribe.get_nodes. eapply guarded_bind; [exact (call_nested_keeps J _ (fun r => Forall components_ok r.2) Hn)|]. intros r. apply guarded_if; intros _; [|by apply guarded_ret].
    intros s [Hs Hok]. unfold bind, fprint, modify. rewrite write_nodes_spec by done. done.
  - unfold Transcribe.tic. guarding; [by apply fprint_keeps|]. intros s' Hs'. unfold call_nested, zoom. specialize (Ht _ Hs'). by destruct (fm_tic nested _).
  - unfold Transcribe.get_fail. eapply guarded_bind; [apply (call_nested_keeps J _ (fun _ => True))|].
    + eapply guarded_weaken; [exact Hf|done|by intros].
    + intros fs s [Hs _]. unfold bind. rewrite write_faults_spec. done.
Qed.

(** ** The shipped plugins *)

Section Shipped.
Context (I : installation) `{!Installed I} (e : environment) (mqtt_named : Prop).
#[local] Abbreviation addr := (in_addr I).
#[local] Abbreviation mem := (mem_of I e).
#[local] Abbreviation H := (host world).

(** The fault managers transcribe can be put around. *)
Definition wrappable (k : shipped) : Prop := k = SReplay \/ k = SRandom.

(** The arguments with which the library of a plugin is safe.  The file logger and the MQTT plugin read their first argument
    without looking whether there is one.  [mqtt_named] is what follows from the MQTT plugin being asked for. *)
Definition safe_request (k : shipped) (argv : list cstr) : Prop :=
  match k with
  | SEcho | SRandom => True
  | SFilelogger => argv <> []
  | SMosquitto => mqtt_named /\ argv <> []
  | SReplay => forall name rest text, argv = name :: rest -> env_read e name = Some text -> legible text
  | STranscribe => forall nested name rest, argv = nested :: name :: rest -> exists k, wrappable k /\ nested = shipped_name k
  end.
Definition safe_args (name : cstr) (argv : list cstr) : Prop := forall k, in_lib_at I name = Some k -> safe_request k argv.

(** What a registered plugin has in its part of the world. *)
Definition sound (w : world) (k : shipped) : Prop :=
  match k with
  | STranscribe => (exists text, tg_file (w_transcribe w) = FileOpen text) /\
      exists k', wrappable k' /\ tg_fault_name (w_transcribe w) = shipped_name k'
  | SReplay => legible_rest (w_replay w)
  | SRandom => random_nodes_ok (w_random w)
  | SMosquitto => mqtt_named /\ is_Some (mq_instance (w_mosquitto w))
  | _ => cleanable w k
  end.

Lemma sound_cleanable w k : k <> SMosquitto -> sound w k -> cleanable w k.
Proof. destruct k; cbn; try done. by intros _ [? _]. Qed.

(** After its hook transcribe points to a registered fault manager. *)
Definition nesting (ps : list plugin_ptr) (h : H) : Prop := addr STranscribe ∈ host_keys h -> addr STranscribe ∈ ps ->
  exists k, wrappable k /\ tg_nested (w_transcribe (h_world h)) = Some (addr k) /\ addr k ∈ host_keys h.

(** Only shipped plugins are registered; [ps] are those whose hooks have been run. *)
Definition safe_host (ps : list plugin_ptr) (h : H) : Prop := sorted_keys (plugins (h_pm h)) /\
  (forall q, q ∈ host_keys h -> exists k, q = addr k /\ sound (h_world h) k) /\ nesting ps h.

Lemma shipped_typed p : well_typed (mem p).
Proof.
  unfold mem_of, Plugins.mem. destruct (plugin_at _ p) as [k|] eqn:E.
  - assert (forall W (o : option W) b, (b = true -> is_Some o) \/ b = false -> b = true -> is_Some o) as Hb.
    { intros W o b [H| ->]; [done|discriminate]. }
    destruct k; (constructor; [..|intros c [= <-] Hc; first [discriminate Hc | by eexists]]); apply Hb;
      first [by left; intros _; eexists | by right].
  - unfold names_at. rewrite E. by constructor.
Qed.

(** *** Initialisation *)

(** The other plugins have what they had in [w0]. *)
Definition others_kept (k : shipped) (w0 : world) (h : H) : Prop := forall k', k' <> k -> sound w0 k' -> sound (h_world h) k'.

(** And so has [k]. *)
Definition set_up (k : shipped) (w0 : world) (h : H) : Prop := others_kept k w0 h /\ sound (h_world h) k.

Definition acquired (k : shipped) (w0 : world) (rc : Z) (h : H) : Prop := others_kept k w0 h /\ (rc = 0 -> sound (h_world h) k).

Lemma register_keeps p (P : H -> Prop) : (forall h m, P h -> P (set_plugins m h)) -> keeps allowed P (register_plugin (names_at addr) p).
Proof.
  intros HP h Hh. unfold register_plugin, log, bind, emit, get, put, ret.
  destruct (find_by_name (names_at addr) (pl_name (names_at addr p)) (plugins (h_pm h))), (map_find p (plugins (h_pm h))); try done. by apply HP.
Qed.

Lemma log_args_keep tag argv (P : H -> Prop) : keeps allowed P (log_args tag argv).
Proof. unfold log_args, log. guarding. Qed.

(** The part of the world of each plugin. *)
Record part_of := Part { part : Type; proj : world -> part; upd : part -> world -> world }.
Definition own_part (k : shipped) : part_of :=
  match k with
  | STranscribe => Part trans_globals w_transcribe set_transcribe
  | SReplay => Part replay w_replay set_replay
  | SRandom => Part random w_random set_random
  | SFilelogger => Part Filelogger.state w_filelogger set_filelogger
  | SMosquitto => Part mosquitto w_mosquitto set_mosquitto
  | SEcho => Part unit (fun _ => tt) (fun _ w => w)
  end.

Lemma other_parts k t w k' : k' <> k -> sound w k' -> sound (upd (own_part k) t w) k'.
Proof. by destruct k, k'. Qed.

(** A plugin changes its own part of the world only; what it establishes there it then has. *)
Lemma own_part_kept {A} k w0 (m : prog event (part (own_part k)) A) : (forall t, match m t with Done _ _ _ => True | Halt hl _ => allowed hl end) ->
  keeps allowed (others_kept k w0) (on_plugin (proj (own_part k)) (upd (own_part k)) m).
Proof.
  intros Hm h Hh. unfold on_plugin, zoom. specialize (Hm (proj (own_part k) (h_world h))). destruct (m _); [|done].
  intros k' Hne Hc. cbn. apply other_parts; [done|]. by apply Hh.
Qed.

Lemma own_part_sets k w0 (f : part (own_part k) -> part (own_part k)) : (forall w, sound (upd (own_part k) (f (proj (own_part k) w)) w) k) ->
  guarded allowed (others_kept k w0) (on_plugin (proj (own_part k)) (upd (own_part k)) (modify f)) (fun _ => set_up k w0).
Proof.
  intros Hf h Hh. cbn. split; [|apply Hf]. intros k' Hne Hc. apply other_parts; [done|]. by apply Hh.
Qed.

Lemma own_part_keeps {A} k w0 (m : prog event (part (own_part k)) A) :
  (forall w, sound w k -> match m (proj (own_part k) w) with Done _ t _ => sound (upd (own_part k) t w) k | Halt hl _ => allowed hl end) ->
  keeps allowed (set_up k w0) (on_plugin (proj (own_part k)) (upd (own_part k)) m).
Proof.
  intros Hm h [Hh Hk]. unfold on_plugin, zoom. specialize (Hm (h_world h) Hk). destruct (m _); [|done].
  split; [|done]. intros k' Hne Hc. apply other_parts; [done|]. by apply Hh.
Qed.

Lemma fails k w0 rc : rc <> 0 -> guarded (E := event) allowed (others_kept k w0) (ret rc) (acquired k w0).
Proof. intros Hrc. apply guarded_ret. intros h Hh. by split. Qed.

Lemma succeeds k w0 rc : guarded (E := event) allowed (set_up k w0) (ret rc) (acquired k w0).
Proof. apply guarded_ret. intros h [Hh Hk]. by split. Qed.

Lemma set_up_register k w0 p : keeps allowed (set_up k w0) (register_plugin (names_at addr) p).
Proof. by apply register_keeps. Qed.

Lemma fails_with k w0 (ev : event) rc : rc <> 0 -> guarded allowed (others_kept k w0) (bind (emit ev) (fun _ => ret rc)) (acquired k w0).
Proof. intros Hrc. apply guarded_after; [guarding|intros _; by apply fails]. Qed.

Lemma transcribe_acquires argv w0 : safe_request STranscribe argv ->
  guarded allowed (others_kept STranscribe w0) (init_in I e STranscribe argv) (acquired STranscribe w0).
Proof.
  intros Ha. unfold init_in. cbn [init_of]. unfold transcribe_init. apply guarded_if; intros _; [by apply fails_with|].
  destruct argv as [|nested [|name rest]]; [by apply fails_with..|]. destruct (Ha nested name rest eq_refl) as (k & Hk & Hn). apply guarded_if; intros _.
  - apply guarded_after; [by apply (own_part_kept STranscribe)|intros _; by apply fails_with].
  - eapply guarded_then; [apply (own_part_sets STranscribe)|intros _; apply guarded_after; [apply set_up_register|intros _]].
    + intros w. cbn. split; [by eexists|]. by exists k.
    + apply guarded_after; [|intros _; apply succeeds]. apply (own_part_keeps STranscribe). intros w Hw. exact Hw.
Qed.

Lemma replay_acquires argv w0 : safe_request SReplay argv -> guarded allowed (others_kept SReplay w0) (init_in I e SReplay argv) (acquired SReplay w0).
Proof.
  intros Ha. unfold init_in. cbn [init_of]. unfold replay_init. apply guarded_if; intros _; [by apply fails_with|].
  destruct argv as [|name rest]; [by apply fails_with|]. destruct (env_read e name) as [text|] eqn:Er; [|by apply fails_with].
  eapply guarded_then; [apply (own_part_sets SReplay)|intros _; apply guarded_after; [apply set_up_register|intros _]].
  - intros w. split; [|done]. by apply (Ha name rest).
  - apply guarded_after; [|intros _; apply succeeds]. apply (own_part_keeps SReplay). intros w Hw. exact Hw.
Qed.

Lemma echo_acquires argv w0 : guarded allowed (others_kept SEcho w0) (init_in I e SEcho argv) (acquired SEcho w0).
Proof.
  unfold init_in. cbn [init_of]. unfold echo_init. apply guarded_if; intros _; [by apply fails_with|].
  apply guarded_after; [apply log_args_keep|intros _]. apply guarded_after; [by apply register_keeps|intros _]. apply guarded_ret. intros h Hh. by split.
Qed.

Lemma random_acquires argv w0 : guarded allowed (others_kept SRandom w0) (init_in I e SRandom argv) (acquired SRandom w0).
Proof.
  unfold init_in. cbn [init_of]. unfold random_init. apply guarded_if; intros _; [by apply fails_with|].
  apply guarded_after; [apply log_args_keep|intros _].
  eapply (guarded_bind _ _ (fun r h => others_kept SRandom w0 h /\ match r with Some rc => rc <> 0 | None => sound (h_world h) SRandom end)).
  - intros h Hh. assert (forall t, others_kept SRandom w0 (Host (h_pm h) (set_random t (h_world h)))) as Ho
      by (intros t k' Hne Hc; apply (other_parts SRandom); [done|by apply Hh]).
    unfold on_plugin, zoom, setup, bind, modify, log, emit, ret. destruct argv as [|a argv]; [by split|]. destruct (_ <? 0); [by split|].
    match goal with |- context [make_nodes ?n 0 ?s] => destruct (make_nodes_spec n 0 s) as (m & l & _ & Em & _); rewrite Em end.
    cbn [app r_nodes]. split; [apply Ho|]. case_bool_decide; [|done].
    cbn. unfold random_nodes_ok. cbn. apply Forall_map, Forall_map, Forall_true. done.
  - intros [rc|]; [apply guarded_ret; intros h [Hh Hrc]; by split|]. apply guarded_after; [apply set_up_register|intros _; apply succeeds].
Qed.

Lemma filelogger_acquires argv w0 : argv <> [] ->
  guarded allowed (others_kept SFilelogger w0) (init_in I e SFilelogger argv) (acquired SFilelogger w0).
Proof.
  intros Hargv. unfold init_in. cbn [init_of]. unfold filelogger_init. destruct argv as [|name argv]; [done|]. apply guarded_if; intros _.
  - apply guarded_after; [by apply (own_part_kept SFilelogger)|intros _]. by apply fails.
  - eapply guarded_then; [apply (own_part_sets SFilelogger); by eexists|intros _]. apply guarded_after; [apply set_up_register|intros _; apply succeeds].
Qed.

Lemma init_instance_defined a p k s : mqtt_named /\ is_Some (mq_instance s) ->
  match init_instance (in_connect_rc I) (in_subscribe_rc I) (in_strerror I) a p k s with
  | Done _ s' _ => mqtt_named /\ is_Some (mq_instance s') | Halt hl _ => allowed hl end.
Proof.
  intros [Hmq [c Hc]]. unfold init_instance, the_instance, put_instance, log, bind, get, ret, emit, modify. rewrite Hc.
  destruct (mq_is_init c || negb (init_state s)); [by split; [|eexists]|]. destruct (negb _); [by split; [|eexists]|].
  destruct (in_subscribe_rc I =? 0); by split; [|eexists].
Qed.

Lemma mosquitto_acquires argv w0 : safe_request SMosquitto argv ->
  guarded allowed (others_kept SMosquitto w0) (init_in I e SMosquitto argv) (acquired SMosquitto w0).
Proof.
  intros [Hmq Hargv]. unfold init_in. cbn [init_of]. unfold mosquitto_init, Mosquitto.init. destruct argv as [|id argv]; [done|].
  apply guarded_if; intros _; [by apply fails_with|]. apply guarded_after; [by apply (own_part_kept SMosquitto)|intros _].
  apply guarded_after; [apply (own_part_kept SMosquitto)|intros _].
  { intros t. unfold init_mosquitto, bind, get, modify, ret. by destruct (init_state t). }
  unfold log. apply guarded_after; [guarding|intros _]. eapply guarded_then; [apply (own_part_sets SMosquitto); by split; [|eexists]|intros _]. apply guarded_after.
  { apply (own_part_keeps SMosquitto). intros w Hw. unfold init_with_args. destruct argv as [|a [|p [|k argv]]]; by apply init_instance_defined. }
  intros sc. apply (guarded_weaken _ (set_up SMosquitto w0) _ (fun _ => set_up SMosquitto w0)); [|done|intros rc h [Hh Hc]; by split].
  guarding; [apply set_up_register|by apply (own_part_keeps SMosquitto)].
Qed.

Lemma init_acquires k argv w0 : safe_request k argv -> guarded allowed (others_kept k w0) (init_in I e k argv) (acquired k w0).
Proof.
  destruct k; [apply transcribe_acquires|apply replay_acquires|intros _; apply random_acquires|intros _; apply echo_acquires|
    apply filelogger_acquires|apply mosquitto_acquires].
Qed.

Lemma init_grows k argv h rc h' t : init_in I e k argv h = Done rc h' t -> registers_only (names_at addr) (addr k) (plugins (h_pm h)) h'.
Proof.
  intros E. pose proof (init_triple (names_at addr) addr (env_read e) (env_write e) (in_lib_init_rc I) (in_connect_rc I) (in_subscribe_rc I)
    (in_strerror I) k argv (plugins (h_pm h)) h (or_introl eq_refl)) as Ht.
  unfold init_in, inter in E. rewrite E in Ht. by apply Ht.
Qed.

Lemma registers_only_keys p m h : registers_only (names_at addr) p m h -> keys m ⊆ host_keys h /\ (sorted_keys m -> sorted_keys (plugins (h_pm h))) /\
  forall q, q ∈ host_keys h -> q = p \/ q ∈ keys m.
Proof.
  unfold registers_only, host_keys. intros [-> | (-> & _ & _)]; [split_and!; auto|]. split; [|split].
  - intros q Hq. apply keys_emplace. by right.
  - apply sorted_emplace.
  - intros q Hq%keys_emplace. done.
Qed.

Lemma init_safe file a f argv h : loader I file = Some a -> dlsym a (str "init") = Some f -> safe_args file argv -> safe_host [] h ->
  match init_at_of I e f argv h with Done rc h' _ => rc = 0 -> safe_host [] h' | Halt hl _ => allowed hl end.
Proof.
  unfold loader, dlmopen. destruct (in_lib_at I file) as [k|] eqn:Ek; [|done]. intros [= <-] [= <-] Ha (Hs & Hh & _). specialize (Ha k Ek).
  assert (init_at_of I e (addr k) argv = init_in I e k argv) as -> by (unfold init_at_of, init_at; by rewrite (plugin_at_addr addr installed_inj)).
  pose proof (init_acquires k argv (h_world h) Ha h (fun k' _ Hc => Hc)) as Hacq.
  destruct (init_in I e k argv h) as [rc h' t|] eqn:E; [|done]. destruct Hacq as [Ho Hk]. intros Hrc.
  destruct (registers_only_keys _ _ _ (init_grows k argv h rc h' t E)) as (_ & Hs' & Hq). split; [by apply Hs'|]. split; [|by intros _ ?%elem_of_nil].
  intros q [-> | Hin]%Hq; [exists k; split; [done|by apply Hk]|]. destruct (Hh q Hin) as (k' & -> & Hc). exists k'. split; [done|].
  destruct (decide (k' = k)) as [->|Hne]; [by apply Hk|by apply Ho].
Qed.

(** *** The functions of the plugins *)

(** What a call of a plugin leaves alone. *)
Definition world_kept (w w' : world) : Prop :=
  (forall k, sound w k -> sound w' k) /\ tg_nested (w_transcribe w') = tg_nested (w_transcribe w).

Lemma safe_host_world ps h w : safe_host ps h -> world_kept (h_world h) w -> safe_host ps (Host (h_pm h) w).
Proof.
  intros (Hs & Hh & Hn) [Hw Ht]. split; [done|]. split.
  - intros q Hq. destruct (Hh q Hq) as (k & -> & Hc). exists k. auto.
  - intros Hk Hp. cbn. rewrite Ht. by apply Hn.
Qed.

Lemma part_world k t w : k <> STranscribe -> sound (upd (own_part k) t w) k -> world_kept w (upd (own_part k) t w).
Proof.
  intros Hk Hs. split; [|by destruct k]. intros k' Hk'. destruct (decide (k' = k)) as [->|Hne]; [done|by apply other_parts].
Qed.

(** A registered plugin, with its struct. *)
Lemma safe_struct ps h p : safe_host ps h -> p ∈ host_keys h -> exists k, p = addr k /\ sound (h_world h) k /\
  mem p = shipped_plugin addr (env_rand e) (fun _ => true) (fun _ => true) (in_publish_rc I) (in_strerror I) k.
Proof. intros (_ & Hh & _) Hp. destruct (Hh p Hp) as (k & -> & Hc). exists k. split; [done|]. split; [done|]. apply (mem_of_addr I). Qed.

(** The hook of any other plugin than transcribe. *)
Lemma safe_host_more ps k h : k <> STranscribe -> safe_host ps h -> safe_host (addr k :: ps) h.
Proof.
  intros Hk (Hs & Hh & Hn). split; [done|]. split; [done|]. intros Hin [E|Hp]%elem_of_cons; [|by apply Hn].
  apply (inj addr) in E. congruence.
Qed.

(** The plugin transcribe finds is a registered fault manager. *)
Lemma wrapped_registered ps h k p : safe_host ps h -> wrappable k -> find_by_name (names_at addr) (shipped_name k) (plugins (h_pm h)) = Some p ->
  p = addr k /\ addr k ∈ host_keys h.
Proof.
  intros (_ & Hh & _) Hk [Hp Hname]%find_by_name_some. destruct (Hh p Hp) as (k' & -> & _). rewrite names_name in Hname by apply _.
  apply shipped_name_inj in Hname as ->. done.
Qed.

Lemma transcribe_hook ps h : safe_host ps h -> addr STranscribe ∈ host_keys h ->
  match transcribe_post (inter addr) addr (has_fm addr) h with
  | Done rc h' _ => host_keys h' = host_keys h /\ (rc = 0 -> safe_host (addr STranscribe :: ps) h') | Halt hl _ => allowed hl end.
Proof.
  intros Hh Hin. destruct (proj1 (proj2 Hh) _ Hin) as (k0 & E0%(inj addr) & Hsound). subst k0. destruct Hsound as [[text Hf] (k & Hk & Hname)].
  set (P := fun h' : H => host_keys h' = host_keys h /\ h_world h' = h_world h).
  enough (guarded allowed (eq h) (transcribe_post (inter addr) addr (has_fm addr))
    (fun rc h' => host_keys h' = host_keys h /\ (rc = 0 -> safe_host (addr STranscribe :: ps) h'))) as Hg by exact (Hg h eq_refl).
  unfold transcribe_post, log. apply (guarded_bind _ _ (fun g h' => h' = h /\ g = w_transcribe (h_world h))).
  { intros ? <-. unfold on_plugin, zoom, get. cbn. split; [by destruct h as [? []]|done]. }
  intros g. apply guarded_pure. intros ->. apply (guarded_bind _ _ (fun r h' => P h' /\ r = find_by_name (names_at addr) (shipped_name k) (plugins (h_pm h)))).
  { intros ? ->. cbn. by rewrite Hname. }
  intros [p|]; apply guarded_pure; intros Hp; [|apply guarded_after; [guarding|intros _; apply guarded_ret; intros h' [Hk' _]; by split]].
  destruct (wrapped_registered ps h k p Hh Hk (eq_sym Hp)) as [-> Hreg].
  assert (has_fm addr (addr k) = true) as -> by (unfold has_fm; rewrite plugin_at_addr by apply _; by destruct Hk as [->| ->]).
  do 2 (apply guarded_after; [apply update_role_same|intros _]). apply (guarded_then _ _ (fun h' => host_keys h' = host_keys h /\ safe_host (addr STranscribe :: ps) h')).
  - intros h' [Hk' Hw']. cbn. split; [done|]. destruct Hh as (Hs & Hh & Hn). split; [unfold sorted_keys, host_keys in *; cbn; by rewrite Hk'|]. split.
    + intros q Hq. change (q ∈ host_keys h') in Hq. rewrite Hk' in Hq. destruct (Hh q Hq) as (k' & -> & Hs'). exists k'. split; [done|]. cbn. rewrite Hw'. by destruct k'.
    + intros _ _. exists k. split; [done|]. split; [done|]. change (addr k ∈ host_keys h'). by rewrite Hk'.
  - intros _. apply guarded_ret. intros h' [? ?]. by split.
Qed.

Lemma post_safe ps p hook h : pl_post_init (mem p) = Some hook -> safe_host ps h -> p ∈ host_keys h ->
  match hook h with Done rc h' _ => host_keys h' = host_keys h /\ (rc = 0 -> safe_host (p :: ps) h') | Halt hl _ => allowed hl end.
Proof.
  intros Hp Hh Hin. destruct (safe_struct ps h p Hh Hin) as (k & -> & Hc & E). rewrite E in Hp.
  destruct k; cbn in Hp; try (injection Hp as <-; split; [done|intros _; by apply safe_host_more]); [|done|].
  - injection Hp as <-. by apply transcribe_hook.
  - injection Hp as <-. destruct Hc as [Hmq [c Hc]].
    unfold mosquitto_post, on_plugin, Mosquitto.post_init, the_instance, zoom, bind, get, modify, ret. rewrite Hc. cbn.
    split; [done|intros _]. apply (safe_host_more _ SMosquitto); [done|]. apply safe_host_world; [done|]. apply (part_world SMosquitto); [done|]. by split; [|eexists].
Qed.

Lemma no_post_safe ps p h : pl_post_init (mem p) = None -> safe_host ps h -> safe_host (p :: ps) h.
Proof.
  intros Hp (Hs & Hh & Hn). split; [done|]. split; [done|]. intros Hin [E|Hps]%elem_of_cons; [|by apply Hn].
  exfalso. revert Hp. rewrite <- E, (mem_of_addr I). done.
Qed.

Lemma cleanup_safe h : ready safe_host h ->
  match PluginManager.cleanup mem h with Done _ _ _ => True | Halt hl _ => allowed hl \/ hl = Undefined /\ mqtt_named end.
Proof.
  intros (ps & (Hs & Hh & _) & _). destruct (decide (addr SMosquitto ∈ host_keys h)) as [Hin|Hout].
  - destruct (Hh _ Hin) as (k & <-%(inj addr) & Hmq & _). pose proof (cleanup_ends addr installed_inj (env_rand e) (in_publish_rc I) (in_strerror I) h) as Hc.
    fold (mem_of I e) in Hc. destruct (PluginManager.cleanup mem h); [done|]. right. split; [|done]. apply Hc. intros q Hq. destruct (Hh q Hq) as (k & -> & _). by exists k.
  - destruct (cleanup_runs addr installed_inj (env_rand e) (in_publish_rc I) (in_strerror I) h) as (h' & (tr & E & _) & _).
    + by apply sorted_nodup.
    + intros q Hq. destruct (Hh q Hq) as (k & -> & Hc). exists k. split; [done|]. apply sound_cleanable; [|done]. by intros ->.
    + unfold mem_of. by rewrite E.
Qed.

(** [m] is defined in [h], and leaves what the plugins have. *)
Definition defined_at {A} (h : H) (m : prog event world A) : Prop :=
  match m (h_world h) with Done _ w _ => world_kept (h_world h) w | Halt hl _ => allowed hl end.

Lemma call_safe {A} p (m : prog event world A) : (forall ps h, safe_host ps h -> host_keys h ⊆ ps -> p ∈ host_keys h -> defined_at h m) ->
  call_ok (ready safe_host) p m.
Proof.
  intros Hm h (ps & Hh & Hps) Hp. specialize (Hm ps h Hh Hps Hp). unfold defined_at in Hm. destruct (m (h_world h)); [|done].
  exists ps. split; [by apply safe_host_world|done].
Qed.

Definition manager_at (h : H) (fm : fault_manager world) : Prop :=
  defined_at h (fm_get_nodes fm) /\ defined_at h (fm_tic fm) /\ defined_at h (fm_get_fail fm).

(** A manager on a part of the world. *)
Lemma zoomed_at {S} (proj : world -> S) upd (fm : fault_manager S) J h : managed fm J -> J (proj (h_world h)) ->
  (forall t, J t -> world_kept (h_world h) (upd t (h_world h))) -> manager_at h (zoom_fm proj upd fm).
Proof.
  intros [Hn Ht Hf] Hj Hu. split_and!; unfold defined_at; cbn [zoom_fm fm_get_nodes fm_tic fm_get_fail]; unfold zoom.
  - specialize (Hn _ Hj). destruct (fm_get_nodes fm _); [by apply Hu, Hn|done].
  - specialize (Ht _ Hj). destruct (fm_tic fm _); [by apply Hu|done].
  - specialize (Hf _ Hj). destruct (fm_get_fail fm _); [by apply Hu|done].
Qed.

#[local] Abbreviation rnd := (random_fm (env_rand e) (fun _ => true) (fun _ => true)).

Lemma transcribe_at ps h : safe_host ps h -> host_keys h ⊆ ps -> addr STranscribe ∈ host_keys h ->
  manager_at h (trans_world addr (env_rand e) (fun _ => true) (fun _ => true)).
Proof.
  intros (_ & Hh & Hn) Hps Hin. destruct (Hn Hin (Hps _ Hin)) as (k & Hk & Ht & Hkin).
  destruct (Hh _ Hin) as (k0 & E0%(inj addr) & Hs). subst k0. destruct Hs as [[text Hf] Hname].
  destruct (Hh _ Hkin) as (k1 & E1%(inj addr) & Hs). subst k1.
  assert (exists (N : Set) (proj : world -> N) upd (fm : fault_manager N) J, managed fm J /\ J (proj (h_world h)) /\
    (forall t, J (nested_st t) -> world_kept (h_world h) (trans_update upd t (h_world h))) /\
    forall A (op : forall N : Set, fault_manager N -> prog event (transcribe N) A),
      trans_call addr (env_rand e) (fun _ => true) (fun _ => true) op (h_world h) = zoom (trans_view proj) (trans_update upd) (op N fm) (h_world h)) as
    (N & proj & upd & fm & J & Hm & Hj & Hu & E).
  { destruct Hk as [->| ->]; [exists _, w_replay, set_replay, replay_fm, legible_rest|exists _, w_random, set_random, rnd, random_nodes_ok].
    all: split; [apply replay_managed || apply random_managed|]; split; [done|]; split;
      [|by intros A op; unfold trans_call; rewrite Hf, Ht, plugin_at_addr by apply _].
    all: intros t Hj; split; [|done]; intros [] Hk'; try done; split; [by eexists|]; exact Hname. }
  destruct (zoomed_at (trans_view proj) (trans_update upd) (transcribe_fm fm) (fun s => J (nested_st s)) h (transcribe_managed fm J Hm) Hj Hu) as (H1 & H2 & H3).
  split_and!; unfold defined_at, trans_world; cbn [fm_get_nodes fm_tic fm_get_fail]; rewrite E; assumption.
Qed.

Lemma manager_safe p fm : pl_fm (mem p) = Some fm ->
  call_ok (ready safe_host) p (fm_get_nodes fm) /\ call_ok (ready safe_host) p (fm_tic fm) /\ call_ok (ready safe_host) p (fm_get_fail fm).
Proof.
  intros Hp. assert (forall ps h, safe_host ps h -> host_keys h ⊆ ps -> p ∈ host_keys h -> manager_at h fm) as Hm.
  2:{ split_and!; apply call_safe; intros ps h Hh Hps Hin; by apply (Hm ps h). }
  intros ps h Hh Hps Hin. destruct (safe_struct ps h p Hh Hin) as (k & -> & Hc & E). rewrite E in Hp. destruct k; cbn in Hp; try done; injection Hp as <-.
  - by apply (transcribe_at ps).
  - apply (zoomed_at _ _ _ legible_rest); [apply replay_managed|exact Hc|]. intros t Ht. by apply (part_world SReplay).
  - apply (zoomed_at _ _ _ random_nodes_ok); [apply random_managed|exact Hc|]. intros t Ht. by apply (part_world SRandom).
Qed.

Lemma mosquitto_at {A} h (m : prog event mosquitto A) : sound (h_world h) SMosquitto ->
  (forall s, is_Some (mq_instance s) -> exists a s' t, m s = Done a s' t /\ is_Some (mq_instance s')) ->
  defined_at h (zoom w_mosquitto set_mosquitto m).
Proof.
  intros [Hmq Hc] Hm. unfold defined_at, zoom. destruct (Hm (w_mosquitto (h_world h)) Hc) as (a & s & t & -> & Hs). by apply (part_world SMosquitto).
Qed.

Lemma com_safe p c : pl_c (mem p) = Some c ->
  (forall n k v, call_ok (ready safe_host) p (com_notify_fail c n k v)) /\ (forall m, call_ok (ready safe_host) p (com_notify_extern c m)) /\
  forall f, com_set_callback c = Some f -> call_ok (ready safe_host) p (f cb_server).
Proof.
  intros Hp. assert (forall A (m : com world -> prog event world A),
    (forall w, exists a t, m Echo.echo_com w = Done a w t) ->
    (forall h, sound (h_world h) SMosquitto -> defined_at h (m (mosquitto_com (in_publish_rc I) (in_strerror I)))) ->
    call_ok (ready safe_host) p (m c)) as Hcall.
  { intros A m He Hm. apply call_safe. intros ps h Hh _ Hin. destruct (safe_struct ps h p Hh Hin) as (k & -> & Hc & E). rewrite E in Hp.
    destruct k; cbn in Hp; try done; injection Hp as <-; [|by apply Hm]. unfold defined_at. by destruct (He (h_world h)) as (a & t & ->). }
  split_and!.
  - intros n k v. apply (Hcall _ (fun c => com_notify_fail c n k v)); [by repeat eexists|]. intros h Hh.
    apply mosquitto_at; [done|]. intros s Hs. exact (com_notify_fail_safe (ComSafe := mosquitto_safe (in_publish_rc I) (in_strerror I)) n k v s Hs).
  - intros m. apply (Hcall _ (fun c => com_notify_extern c m)); [by repeat eexists|]. intros h Hh.
    apply mosquitto_at; [done|]. intros s Hs. exact (com_notify_extern_safe (ComSafe := mosquitto_safe (in_publish_rc I) (in_strerror I)) m s Hs).
  - intros f Hf. assert (f cb_server = match com_set_callback c with Some f => f cb_server | None => ret cb_null end) as -> by (by rewrite Hf).
    apply (Hcall _ (fun c => match com_set_callback c with Some f => f cb_server | None => ret cb_null end)); [by repeat eexists|].
    intros h Hh. apply mosquitto_at; [done|]. intros s [x Hx].
    unfold Mosquitto.set_callback, the_instance, put_instance, bind, get, ret, modify. rewrite Hx. by repeat eexists.
Qed.

#[export] Instance shipped_contract : PluginContract mem (loader I) dlsym (init_at_of I e) safe_args mqtt_named safe_host.
Proof.
  constructor.
  - intros ps h p _ _. apply shipped_typed.
  - intros ps h h' Hk Hw (Hs & Hh & Hn). unfold safe_host, nesting, sorted_keys, host_keys in *. rewrite Hk, Hw. by split.
  - intros f argv h z h' t E. unfold init_at_of, init_at in E. destruct (plugin_at addr f) as [k|]; [|done].
    by eapply registers_only_keys, init_grows.
  - apply init_safe.
  - apply post_safe.
  - apply no_post_safe.
  - apply cleanup_safe.
  - apply manager_safe.
  - apply com_safe.
Qed.

End Shipped.

(** ** The program with the shipped plugins *)

(** The configuration file of the run names the library of the MQTT plugin. *)
Definition names_mqtt (I : installation) e (args : list (ascii * cstr)) : Prop :=
  exists text name argv, env_read e (config_file args) = Some text /\ (name, argv) ∈ library_requests text /\ in_lib_at I name = Some SMosquitto.

(** C3: no undefined behaviour, but for one.  The server is started with any arguments; the configuration file they name may
    say anything, as long as the libraries it names get the arguments they cannot do without: the file logger and the MQTT
    plugin a first one, replay a file whose lines name something and have a number if they say tic (when it can be read
    at all), transcribe one of the fault managers replay and random.  Then, whatever the environment does (files that
    cannot be read or written, messages of any kind before a test of the flag, failures of the MQTT library, signals), as long as the clock and the
    time that the tics take together stay below 2^62 nanoseconds (146 years), the run finishes, or is stopped
    by a C++ exception or by the bound of a loop; it never reaches undefined behaviour, in particular no null pointer in
    the struct of a plugin, before it has announced that it cleans up, and then only if the configuration names the
    MQTT plugin, whose destructor is broken. *)
Theorem no_undefined_behaviour (I : installation) `{!Installed I} e argv0 args h t :
  (forall text name argv, env_read e (config_file args) = Some text -> (name, argv) ∈ library_requests text ->
    safe_args I e True name argv) ->
  (forall i, 0 <= env_now e i < 2 ^ 62) ->
  (forall text, env_read e (config_file args) = Some text -> Forall (fun v => (Z.of_nat (env_run_fuel e) + 1) * v < 2 ^ 62) (tic_settings text)) ->
  process I e argv0 args process_start = Halt h t ->
  (exists exn, h = Uncaught exn) \/ h = OutOfFuel \/ (h = Undefined /\ names_mqtt I e args /\ cleaning_up ∈ t).
Proof.
  intros Hargs Hnow Htics E. set (longest := (2 ^ 62 - 1) / (Z.of_nat (env_run_fuel e) + 1)).
  assert (0 <= longest) as H0 by (apply Z.div_pos; lia).
  assert ((Z.of_nat (env_run_fuel e) + 1) * longest <= 2 ^ 62 - 1) as Hl by (apply Z.mul_div_le; lia).
  assert (ends allowed (typed (mem_of I e) (safe_host I (names_mqtt I e args)) longest) (process I e argv0 args) (end_broken (names_mqtt I e args))) as Hends.
  { apply (main_ends (mem_of I e) (loader I) dlsym (init_at_of I e) (safe_args I e (names_mqtt I e args)) (names_mqtt I e args)
      (safe_host I (names_mqtt I e args))); [done|nia| | |done|lia].
    2:{ intros text Ht. eapply Forall_impl; [exact (Htics text Ht)|]. intros v Hv. cbv beta in Hv. apply Z.div_le_lower_bound; lia. }
    intros text name argv Ht Hin k Hk. specialize (Hargs text name argv Ht Hin k Hk). destruct k; [exact Hargs..|].
    split; [by exists text, name, argv|apply Hargs]. }
  specialize (Hends process_start). rewrite E in Hends. destruct Hends as [Ha|[[-> Hm] Hc]].
  - split; [|split; [apply conf_ok_new|split; [done|split; [split; [done|exact H0]|split; [split; [done|exact H0]|done]]]]]. split; [constructor|]. split; [intros q Hq|intros Hq]; by apply elem_of_nil in Hq.
  - destruct h; [done|left; by eexists|done|done|by right; left].
  - by right; right.
Qed.

(** ** Example: transcribe around replay, without a limit on the tics *)

Definition endless_config : cstr := lines_file [
  str "[libs]"; str "plugins/libreplay.so faults.txt"; str "plugins/libtranscribe.so replay out.txt"; str "plugins/libecho.so loud";
  str "plugins/libfilelogger.so out.log"; str "[config]"; str "com = echo"; str "log = filelogger"; str "fault = transcribe"; str "tic = 10"].

Definition endless_faults : cstr := lines_file [str "1"; str "node0,1,net"; str "[tic#0]"; str "node0,net,100"; str "[tic#2]"; str "node0,,100"].

Definition endless_env : environment :=
  Environment (fun f => if strcmp_eq f (str "conf.txt") then Some endless_config else if strcmp_eq f (str "faults.txt") then Some endless_faults else None)
    (fun _ => true) (fun _ => 0) (fun _ => 0) (fun _ => false) (fun _ => []) 10 10 5.

Definition stopped (o : outcome event (ssys world) Z) : option halt := match o with Done _ _ _ => None | Halt h _ => Some h end.

Definition endless_args : list (ascii * cstr) := [("c"%char, str "conf.txt")].

(** It runs until the bound, five rounds of the loop. *)
Lemma endless_stops : stopped (process example_installation endless_env None endless_args process_start) = Some OutOfFuel.
Proof. by vm_compute. Qed.

Lemma endless_faults_legible : legible endless_faults.
Proof.
  repeat (eapply legible_line; [by vm_compute|by vm_compute; eexists|first [by intros E; vm_compute in E|intros _; by vm_compute; eexists]|]). by apply legible_end.
Qed.

Lemma endless_requests : library_requests endless_config =
  [(str "[libs]", []); (str "plugins/libreplay.so", [str "faults.txt"]); (str "plugins/libtranscribe.so", [str "replay"; str "out.txt"]);
   (str "plugins/libecho.so", [str "loud"]); (str "plugins/libfilelogger.so", [str "out.log"]); (str "[config]", []);
   (str "com", [str "="; str "echo"]); (str "log", [str "="; str "filelogger"]); (str "fault", [str "="; str "transcribe"]);
   (str "tic", [str "="; str "10"])].
Proof. by vm_compute. Qed.

Lemma endless_safe text name argv : env_read endless_env (config_file endless_args) = Some text ->
  (name, argv) ∈ library_requests text -> safe_args example_installation endless_env True name argv.
Proof.
  intros [= <-]. rewrite endless_requests.
  assert (Forall (fun r => safe_args example_installation endless_env True r.1 r.2) (library_requests endless_config)) as Hall.
  { rewrite endless_requests. repeat apply Forall_cons_2; [intros k Hk; vm_compute in Hk; first [discriminate Hk | injection Hk as <-]..|by apply Forall_nil].
    - intros name' rest text' [= <- <-] [= <-]. exact endless_faults_legible.
    - intros nested name' rest [= <- <- <-]. exists SReplay. by split; [left|].
    - done.
    - done. }
  rewrite endless_requests, Forall_forall in Hall. exact (Hall (name, argv)).
Qed.

Lemma endless_tics text : env_read endless_env (config_file endless_args) = Some text -> Forall (fun v => (Z.of_nat (env_run_fuel endless_env) + 1) * v < 2 ^ 62) (tic_settings text).
Proof.
  intros [= <-]. assert (tic_settings endless_config = [10]) as -> by by vm_compute. by apply Forall_singleton.
Qed.

Lemma endless_now i : 0 <= env_now endless_env i < 2 ^ 62.
Proof. by split. Qed.

Lemma no_undefined_behaviour_witness : exists h t, process example_installation endless_env None endless_args process_start = Halt h t /\
  ((exists exn, h = Uncaught exn) \/ h = OutOfFuel \/ (h = Undefined /\ names_mqtt example_installation endless_env endless_args /\ cleaning_up ∈ t)).
Proof.
  destruct (process example_installation endless_env None endless_args process_start) as [a s t|h t] eqn:E.
  - pose proof endless_stops as Hw. rewrite E in Hw. discriminate Hw.
  - exists h, t. split; [reflexivity|].
    refine (no_undefined_behaviour example_installation endless_env None endless_args h t _ _ _ E).
    + exact endless_safe.
    + exact endless_now.
    + exact endless_tics.
Defined.
