(* ===== verification/Transcripts.v ===== *)
(** * Transcripts are legible
    The files the transcribe plugin writes are files of which [no_undefined_behaviour] lets the replay plugin read, as long
    as no name in them looks like the line of a tic. *)

From S2P Require Import Prelude CString Types Transcribe Replay RecordReplay Lifecycle Process Shipped.
Local Open Scope Z_scope.

(** A line that is not taken for the line of a tic. *)
Definition quiet (l : cstr) : Prop := strstr l (str "tic") = false.

(** ** Lines *)

(** A line with a character that does not separate tokens has a token. *)
Lemma strtok_some delim c s : c ∈ s -> c ∉ delim -> is_Some (strtok s delim).1.
Proof.
  intros Hc Hd. induction s as [|x s IH]; [by apply elem_of_nil in Hc|]. destruct (decide (x ∈ delim)) as [Hx|Hx].
  - rewrite strtok_skip by done. apply elem_of_cons in Hc as [->|Hc]; [done|by apply IH].
  - unfold strtok. simpl. unfold is_delim at 1. rewrite (bool_decide_false _ Hx). simpl.
    unfold is_delim at 1. rewrite (bool_decide_false _ Hx).
    destruct (span _ s) as [a b]. by eexists.
Qed.

Lemma legible_quiet l r : getline (l ++ r) = Some (l, r) -> c_str l = l -> is_Some (strtok l node_delim).1 -> quiet l -> legible r -> legible (l ++ r).
Proof. intros Hg Hc Ht Hq Hr. eapply legible_line; [exact Hg|by rewrite Hc|by rewrite Hc, Hq|done]. Qed.

Lemma number_not_delim c : number_char c -> c ∉ node_delim.
Proof. intros H. excluded (number_char_not c H). Qed.

(** ** The lines of a transcript *)

Lemma header_legible ns r : legible (concat (map node_line ns) ++ r) -> legible (header ns ++ r).
Proof.
  intros Hr. destruct (header_getline ns r) as [Hg Hc]. destruct (print_u_head (Z.of_nat (length ns)) []) as (d & l & E & Hd); [lia|].
  rewrite app_nil_r in E. assert (digit_char d ∈ print_u (Z.of_nat (length ns))) as Hin by (rewrite E; by constructor).
  eapply legible_line; [exact Hg|rewrite Hc..|exact Hr].
  - eapply (strtok_some _ (digit_char d)); [rewrite elem_of_app; by left|]. apply number_not_delim. left. eapply print_u_chars; [|exact Hin]. lia.
  - intros Ht. enough (quiet (print_u (Z.of_nat (length ns)) ++ [NL])) as Hq by by rewrite Hq in Ht.
    apply (contains_false "t"%char); [elem_dec|]. rewrite elem_of_app, list_elem_of_singleton. intros [Hn|Hn]; [|done].
    apply (print_base_chars 10) in Hn; [by vm_compute in Hn|lia..].
Qed.

Lemma node_line_legible n r : node_ok n -> quiet (node_line n) -> legible r -> legible (node_line n ++ r).
Proof.
  intros Hn Hq Hr. destruct (node_line_getline n r Hn) as [Hg Hc]. apply legible_quiet; try done.
  destruct Hn as (Hne & Hok & _). rewrite node_line_text. destruct (n_name n) as [|c name] eqn:E; [done|].
  apply (strtok_some _ c); [by constructor|]. assert (c ∈ n_name n) as Hin by (rewrite E; by constructor). rewrite <- E in Hok.
  excluded (name_ok_not _ c Hok Hin).
Qed.

Lemma fault_line_legible f r : fault_ok f -> quiet (fault_line f) -> legible r -> legible (fault_line f ++ r).
Proof.
  intros Hf Hq Hr. apply legible_quiet; [by apply fault_line_getline|by apply fault_line_c_str| |done..].
  assert (exists c, c ∈ print_d (f_severity f)) as [c Hc].
  { unfold print_d. pose proof (print_signed_ne (s32 (f_severity f))) as Hne. destruct (print_signed _); [done|]. eexists. by constructor. }
  apply (strtok_some _ c); [|by apply number_not_delim, (print_signed_chars _ _ Hc)].
  unfold fault_line. rewrite elem_of_app, elem_of_cons, elem_of_app, elem_of_cons, elem_of_app. auto 8.
Qed.

Lemma tic_line_legible k r : small_tic k -> legible r -> legible (tic_line k ++ r).
Proof.
  intros Hk Hr. eapply legible_line; [by apply tic_line_getline|rewrite tic_line_c_str by done..|exact Hr].
  - apply (strtok_some _ "["%char); [|elem_dec]. by constructor.
  - intros _. by rewrite get_tic_num_line.
Qed.

(** ** Whole files *)

Definition quiet_fault (f : fault) : Prop := fault_ok f /\ quiet (fault_line f).

Lemma faults_legible fs r : Forall quiet_fault fs -> legible r -> legible (concat (map fault_line fs) ++ r).
Proof.
  intros Hfs Hr. induction Hfs as [|f fs [Hf Hq] _ IH]; [done|]. cbn [map concat]. rewrite <- app_assoc. by apply fault_line_legible.
Qed.

Lemma blocks_legible fss : forall k, small_tic k -> small_tic (k + Z.of_nat (length fss)) -> Forall (Forall quiet_fault) fss -> legible (tic_blocks k fss).
Proof.
  induction fss as [|fs fss IH]; intros k Hk Hl Hfs; [by apply legible_end|]. apply Forall_cons in Hfs as [Hf Hfs]. cbn [tic_blocks length] in *.
  unfold small_tic in *. apply tic_line_legible; [done|]. apply faults_legible; [done|].
  rewrite u64_id by (unfold is_u64; lia). apply IH; [lia..|done].
Qed.

Lemma transcript_legible ns fss : Forall (fun n => node_ok n /\ quiet (node_line n)) ns -> Forall (Forall quiet_fault) fss ->
  small_tic (Z.of_nat (length fss)) -> legible (transcript ns fss).
Proof.
  intros Hns Hfs Hl. unfold transcript. apply header_legible.
  induction Hns as [|n ns [Hn Hq] _ IH]; [by apply blocks_legible|]. cbn [map concat]. rewrite <- app_assoc. by apply node_line_legible.
Qed.

(** What transcribe has written of a run, around any fault manager, may be given to replay. *)
Lemma recording_legible {N} (nested : fault_manager N) n0 ns fss n1 tr0 rec tr : fm_observe nested (length fss) n0 = Done (0, ns, fss) n1 tr0 ->
  fm_observe (transcribe_fm nested) (length fss) (Transcribe 0 [] n0) = Done (0, ns, fss) rec tr ->
  Forall (fun n => node_ok n /\ quiet (node_line n)) ns -> Forall (Forall quiet_fault) fss -> small_tic (Z.of_nat (length fss)) ->
  legible (tr_file rec).
Proof.
  intros E Er Hns Hfs Hl. destruct (transcribe_run nested (length fss) n0 ns fss n1 tr0) as [k Hk]; [|done|].
  - eapply Forall_impl; [exact Hns|]. by intros n ((_ & _ & _ & ? & _) & _).
  - rewrite Hk in Er. injection Er as <- _. by apply transcript_legible.
Qed.

(** So the request for the library of replay is one that [no_undefined_behaviour] allows when the file holds a transcript. *)
Lemma transcript_safe e mqtt_named ns fss argv : Forall (fun n => node_ok n /\ quiet (node_line n)) ns -> Forall (Forall quiet_fault) fss ->
  small_tic (Z.of_nat (length fss)) -> (forall name rest, argv = name :: rest -> env_read e name = Some (transcript ns fss)) ->
  safe_request e mqtt_named SReplay argv.
Proof. intros Hns Hfs Hl He name rest text -> Ht. rewrite (He name rest eq_refl) in Ht. injection Ht as <-. by apply transcript_legible. Qed.
