(* ===== verification/Levels.v ===== *)
(** * Who logs where
    [main] chooses the logger and sets its level; nobody else sets it.  Here: the contract the plugins keep for this, and
    what of the trace of [main] goes to the standard logger and what to the configured one. *)

From S2P Require Import Prelude CString Types Loggers Options PluginManager Config Server Main.
Local Open Scope Z_scope.

(** Everything but a call of [set_ll]. *)
Definition no_level (e : event) : Prop := match e with ESetLogLevel _ => False | _ => True end.

(** ** Routines that keep [P] and set no level *)

Section Logs.
Context {S : Type}.

Definition logs {A} (P : S -> Prop) (m : prog event S A) : Prop := yields P m (fun _ s tr => P s /\ Forall no_level tr).

Lemma logs_bind {A B} P (m : prog event S A) (k : A -> prog event S B) : logs P m -> (forall a, logs P (k a)) -> logs P (bind m k).
Proof.
  intros Hm Hk. eapply yields_bind; [exact Hm|]. intros a t1 s [Hs Ht]. specialize (Hk a s Hs). destruct (k a s); [|done].
  destruct Hk as [? ?]. split; [done|by apply Forall_app_2].
Qed.

(** What is read is the state, of which [P] holds. *)
Lemma logs_read {B} P (k : S -> prog event S B) : (forall s, P s -> logs P (k s)) -> logs P (bind get k).
Proof. intros Hk s Hs. unfold bind, get. specialize (Hk s Hs s Hs). by destruct (k s s). Qed.

Lemma logs_ret {A} P (a : A) : logs P (ret a).
Proof. by split. Qed.
Lemma logs_emit P e : no_level e -> logs P (emit e).
Proof. intros He s Hs. split; [done|by constructor]. Qed.
Lemma logs_stop {A} P h : logs P (stop (A := A) h).
Proof. done. Qed.
Lemma logs_put P s : P s -> logs P (put s).
Proof. by split. Qed.
Lemma logs_modify P f : (forall s, P s -> P (f s)) -> logs P (modify f).
Proof. intros Hf s Hs. split; [by apply Hf|done]. Qed.
Lemma logs_if {A} P (b : bool) (m1 m2 : prog event S A) : logs P m1 -> logs P m2 -> logs P (if b then m1 else m2).
Proof. by destruct b. Qed.
Lemma logs_for_each {A} P (l : list A) (body : A -> prog event S unit) : (forall x, logs P (body x)) -> logs P (for_each l body).
Proof. intros H. induction l as [|x l IH]; cbn [for_each]; [apply logs_ret|by apply logs_bind]. Qed.

Lemma logs_done {A} P (m : prog event S A) s a s' tr : logs P m -> P s -> m s = Done a s' tr -> P s' /\ Forall no_level tr.
Proof. intros Hm Hs E. specialize (Hm s Hs). by rewrite E in Hm. Qed.

End Logs.

Lemma logs_zoom {S T A} (P : S -> Prop) (P' : T -> Prop) proj upd (m : prog event T A) :
  (forall s, P s -> P' (proj s)) -> (forall s t, P s -> P' t -> P (upd t s)) -> logs P' m -> logs P (zoom proj upd m).
Proof.
  intros Hp Hu Hm s Hs. unfold zoom. specialize (Hm (proj s) (Hp s Hs)). destruct (m (proj s)); [|done].
  destruct Hm as [? ?]. split; [by apply Hu|done].
Qed.

(** A part of the state of which nothing matters. *)
Lemma logs_aside {S T A} (P : S -> Prop) proj upd (m : prog event T A) :
  (forall s t, P s -> P (upd t s)) -> logs (fun _ => True) m -> logs P (zoom proj upd m).
Proof. intros Hu. apply logs_zoom; [done|by intros s t Hs _; apply Hu]. Qed.

Create HintDb levels.

Ltac head_of t := lazymatch t with ?f _ => head_of f | _ => t end.

(** Goes through a routine, unfolding what is not known to the hints. *)
Ltac logging_step := lazymatch goal with
  | |- logs _ (bind get _) => apply logs_read; intros ? ?
  | |- logs _ (bind _ _) => apply logs_bind; [|intros ?]
  | |- logs _ (emit _) => apply logs_emit; exact I
  | |- logs _ (ret _) => apply logs_ret
  | |- logs _ (stop _) => apply logs_stop
  | |- logs _ (modify _) => apply logs_modify; try (intros ? ?; assumption)
  | |- logs _ (put _) => apply logs_put; try assumption
  | |- logs _ (match ?x with _ => _ end) => first [apply logs_if | destruct x]
  | |- logs _ (for_each _ _) => apply logs_for_each; intros ?
  | |- logs _ get => intros ? ?; by split
  | |- logs _ (let '(_, _) := ?x in _) => destruct x
  | |- logs _ ?m => first [solve [auto 2 with levels] | let h := head_of m in progress (unfold h)]
  end.
Ltac logging := repeat logging_step; auto 2 with levels.

(** ** The contract of the plugins *)

Section Keepers.
Context {W : Type} (mem : plugin_ptr -> plugin W (host W)) (init_at : Z -> list cstr -> prog event (host W) Z) (Q : W -> Prop).

(** The world is as it should be and the plugins [ks] are registered. *)
Definition host_inv (ks : list plugin_ptr) (h : host W) : Prop := Q (h_world h) /\ ks ⊆ keys (plugins (h_pm h)).

Definition com_logs (c : com W) : Prop :=
  (forall n k v, logs Q (com_notify_fail c n k v)) /\ (forall m, logs Q (com_notify_extern c m)) /\
  forall f, com_set_callback c = Some f -> forall cb, logs Q (f cb).
Definition manager_logs (fm : fault_manager W) : Prop := logs Q (fm_get_nodes fm) /\ logs Q (fm_tic fm) /\ logs Q (fm_get_fail fm).

(** The plugins set no level, keep [Q], and are silent when they are cleaned up. *)
Class KeepsLevel := {
  kl_init f argv ks : logs (host_inv ks) (init_at f argv);
  kl_post p hook ks : pl_post_init (mem p) = Some hook -> logs (host_inv ks) hook;
  kl_com p c : pl_c (mem p) = Some c -> com_logs c;
  kl_manager p fm : pl_fm (mem p) = Some fm -> manager_logs fm;
  kl_cleanup p f h a h' t : pl_cleanup (mem p) = Some f -> f h = Done a h' t -> t = []
}.

Lemma register_logs ks p : logs (host_inv ks) (register_plugin mem p).
Proof.
  unfold register_plugin, log. logging. match goal with H : host_inv _ _ |- _ => destruct H as [Hq Hk] end. split; [done|]. intros q Hq'. cbn. apply keys_emplace. right. by apply Hk.
Qed.

Lemma update_role_logs ks pl role f : logs (host_inv ks) (update_role mem pl role f).
Proof.
  unfold update_role. destruct pl as [p|]; [|logging]. apply logs_if; [logging|]. apply logs_read. intros h [Hq Hk].
  pose proof (map_at_spec p f (plugins (h_pm h))) as Hat. destruct (map_at p f (plugins (h_pm h))) as [m|]; [|logging]. destruct Hat as (_ & E & _).
  apply logs_bind; [|intros _; logging]. apply logs_put. split; [done|]. change (ks ⊆ keys m). by rewrite E.
Qed.

#[local] Hint Resolve register_logs update_role_logs : levels.

Context `{!KeepsLevel}.

(** ** The routines of the server *)

Context (dlmopen : cstr -> option Z) (dlerror : cstr) (dlsym : Z -> cstr -> option Z) (open_file : cstr -> option cstr).

#[local] Abbreviation conf_inv := (fun s : csys W => host_inv [] (cs_host s)).

Lemma on_conf_host_logs {A} (m : prog event (host W) A) : logs (host_inv []) m -> logs conf_inv (Config.on_host m).
Proof. by apply logs_zoom. Qed.

Lemma load_library_logs file argv : logs (host_inv []) (load_library dlmopen dlerror dlsym init_at file argv).
Proof.
  unfold load_library. destruct (library_open _ _ _) as [rc nlib]. apply logs_if; [logging|]. destruct (get_sym_addr _ _ _) as [f|]; [|logging].
  apply logs_bind; [apply kl_init|intros r]. apply logs_if; [logging|]. apply logs_bind; [|intros _; logging]. apply logs_modify. by intros h [? ?].
Qed.

Lemma assign_role_logs current setter type what kind p : logs conf_inv (assign_role mem current setter type what kind p).
Proof. logging. Qed.
#[local] Hint Resolve assign_role_logs : levels.

Lemma set_config_logs id stream : logs conf_inv (set_config mem id stream).
Proof.
  unfold set_config. destruct (next_word stream) as [[eq|] stream']; [|logging]. apply logs_if; [logging|].
  destruct (next_word stream') as [[value|] r]; [|logging]. apply logs_if; [|apply logs_bind; [apply on_conf_host_logs; logging|]];
    [|intros [p|]]; logging.
Qed.
#[local] Hint Resolve set_config_logs : levels.

Lemma config_lines_logs lines : forall state, logs conf_inv (config_lines mem dlmopen dlerror dlsym init_at state lines).
Proof.
  induction lines as [|line lines IH]; intros state; cbn [config_lines]; [logging|]. apply logs_bind; [|intros [rc|state']; [logging|apply IH]].
  unfold config_line. apply logs_bind; [logging|intros _]. destruct (next_word line) as [[token|] rest]; [|logging].
  do 2 (apply logs_if; [logging|]). apply logs_if; (apply logs_bind; [|intros r; logging]); [|logging].
  apply on_conf_host_logs, load_library_logs.
Qed.

Lemma load_config_logs filename : logs conf_inv (load_config mem dlmopen dlerror dlsym init_at open_file filename).
Proof.
  unfold load_config. apply logs_read. intros s _. apply logs_if; [logging|]. destruct (open_file filename); [apply config_lines_logs|logging].
Qed.

Context (parse_backchannel : cstr -> option backchannel) (serialize : laik_ext_msg -> cstr) (now : nat -> Z).
Context (call_other : Z -> cstr -> prog event (ssys W) unit) (inbox : nat -> list cstr) (termreq : nat -> bool).

Section Server.
Context (c0 : config) (ks : list plugin_ptr).

(** The configuration [c0] is loaded and the pointers of the server lead to the plugins. *)
Definition sys_inv (s : ssys W) : Prop :=
  ss_conf s = c0 /\ host_inv ks (ss_host s) /\ sv_other_cb (ss_srv s) = cb_null /\
  (forall c, sv_com_actor (ss_srv s) = Some c -> com_logs c) /\ (forall c, sv_com_notify (ss_srv s) = Some c -> com_logs c) /\
  forall fm, sv_manager (ss_srv s) = Some fm -> manager_logs fm.

Lemma on_host_logs {A} (m : prog event (host W) A) : logs (host_inv ks) m -> logs sys_inv (Server.on_host m).
Proof. apply logs_zoom; [by intros s (_ & ? & _)|by intros s h (? & ? & ?) ?]. Qed.

Lemma on_world_logs {A} (m : prog event W A) : logs Q m -> logs sys_inv (on_world m).
Proof. apply logs_zoom; [by intros s (_ & [? _] & _)|by intros s w (? & [? ?] & ?) ?]. Qed.

Lemma modify_srv_logs f : (forall v, sv_other_cb (f v) = sv_other_cb v /\ sv_com_actor (f v) = sv_com_actor v /\
  sv_com_notify (f v) = sv_com_notify v /\ sv_manager (f v) = sv_manager v) -> logs sys_inv (modify_srv f).
Proof.
  intros Hf. apply logs_modify. intros s (? & ? & ? & ? & ? & ?). destruct (Hf (ss_srv s)) as (E1 & E2 & E3 & E4).
  unfold sys_inv. cbn. rewrite E1, E2, E3, E4. by split_and!.
Qed.

#[local] Hint Extern 1 (logs _ (modify_srv _)) => by apply modify_srv_logs : levels.

Lemma deref_logs {A} (p : option A) : logs sys_inv (deref p).
Proof. by destruct p. Qed.

(** After [deref] the pointer leads to what is asked for. *)
Lemma deref_then {A B} (p : option A) (k : A -> prog event (ssys W) B) : (forall a, p = Some a -> logs sys_inv (k a)) -> logs sys_inv (bind (deref p) k).
Proof. intros Hk s Hs. destruct p as [a|]; [|done]. specialize (Hk a eq_refl s Hs). unfold bind, deref, ret. by destruct (k a s). Qed.

Lemma init_logs : logs sys_inv (Server.init mem).
Proof.
  unfold Server.init. do 2 (apply logs_bind; [logging|intros _]). apply logs_read. intros s0 _. apply logs_bind.
  { generalize (keys (plugins (h_pm (ss_host s0)))). intros ps. induction ps as [|p ps IH]; cbn [run_post_init]; [logging|].
    destruct (pl_post_init (mem p)) as [hook|] eqn:E; [|exact IH]. apply logs_bind; [apply on_host_logs; by apply (kl_post p)|intros r].
    apply logs_if; [exact IH|logging]. }
  intros ok. apply logs_if; [logging|]. apply logs_read. intros s _.
  destruct (com_actor (ss_conf s)) as [a|], (com_notify (ss_conf s)) as [n|], (conf_fault_manager (ss_conf s)) as [f|]; try by logging.
  unfold connect_plugins. apply deref_then. intros ca Ha. apply deref_then. intros cn Hn. apply logs_bind.
  { apply logs_modify. intros s' (? & ? & ? & _ & _ & ?). split_and!; try done; intros c [= <-]; by eapply kl_com. }
  intros _. apply logs_bind.
  { apply logs_if; [|logging]. apply logs_bind; [logging|intros _]. apply deref_then. intros g Hg.
    apply logs_bind; [|intros _; logging]. apply on_world_logs. destruct (kl_com a ca Ha) as (_ & _ & Hcb). by apply Hcb. }
  intros _. apply deref_then. intros fm Hfm. destruct (kl_manager f fm Hfm) as (Hnodes & Hmgr).
  apply logs_bind; [apply logs_modify; intros s' (? & ? & ? & ? & ? & _); split_and!; try done; by intros ? [= <-]|intros _].
  apply logs_bind; [by apply on_world_logs|intros r]. logging.
Qed.

Lemma on_message_logs msg : logs sys_inv (Server.on_message parse_backchannel call_other msg).
Proof.
  unfold Server.on_message. destruct (parse_backchannel msg) as [m|]; [|logging]. do 2 (apply logs_if; [logging|]).
  apply logs_if; [logging|]. apply logs_read. intros s (_ & _ & -> & _). logging.
Qed.
#[local] Hint Resolve on_message_logs : levels.

Lemma wait_ready_logs fuel : forall i, logs sys_inv (wait_ready parse_backchannel call_other inbox termreq fuel i).
Proof. induction fuel as [|fuel IH]; intros i; cbn [wait_ready]; logging. Qed.
#[local] Hint Resolve wait_ready_logs : levels.

Lemma wait_for_nodes_logs fuel b : logs sys_inv (wait_for_nodes parse_backchannel call_other inbox termreq fuel b).
Proof.
  unfold wait_for_nodes. apply logs_if; [|logging]. do 2 (apply logs_bind; [logging|intros ?]). apply logs_bind; [|intros _; logging].
  unfold send_synced_signal. apply logs_read. intros s Hs. apply logs_for_each. intros n. apply deref_then. intros c Hc.
  destruct Hs as (_ & _ & _ & Ha & _). apply logs_bind; [|intros _; logging]. by apply on_world_logs, (Ha c).
Qed.

Lemma manage_fails_logs : logs sys_inv (manage_fails serialize (W := W)).
Proof.
  unfold manage_fails. apply logs_read. intros s (_ & _ & _ & _ & _ & Hm). apply deref_then. intros fm Hfm.
  apply logs_bind; [by apply on_world_logs, Hm|intros fs]. apply logs_if; [logging|]. apply logs_read. intros s1 Hs1. apply logs_bind; [logging|intros _].
  apply logs_bind.
  - generalize (LaikExtMsg [] []). induction fs as [|f fs IH]; intros m; cbn [dispatch_all]; [logging|]. apply logs_bind; [|intros m'; apply IH].
    unfold dispatch. apply logs_read. intros s2 (_ & _ & _ & Ha & _). apply deref_then. intros c Hc.
    apply logs_bind; [by apply on_world_logs, (Ha c)|intros _; logging].
  - intros m. apply deref_then. intros c Hc. destruct Hs1 as (_ & _ & _ & _ & Hn & _). apply logs_bind; [by apply on_world_logs, (Hn c)|intros _; logging].
Qed.

Lemma do_tic_logs fuel : logs sys_inv (do_tic serialize now (W := W) fuel).
Proof.
  unfold do_tic. apply logs_read. intros s Hs. apply logs_bind; [logging|intros _]. apply deref_then. intros fm Hfm.
  apply logs_bind; [apply on_world_logs; by apply Hs|intros _]. apply logs_bind; [apply manage_fails_logs|intros _].
  apply logs_bind; [|intros _; logging]. unfold skip_to_end_of_tic. apply logs_bind; [logging|intros _]. apply logs_read. intros s1 _.
  apply logs_if; [logging|]. apply logs_bind; [logging|intros _]. apply logs_bind; [|intros k; logging].
  generalize 0. induction fuel as [|fuel IH]; intros skip; cbn [skip_loop]; [logging|]. apply logs_bind; [logging|intros t]. apply logs_read. intros s2 _.
  apply logs_if; [|logging]. apply logs_bind; [logging|intros _; apply IH].
Qed.
#[local] Hint Resolve do_tic_logs : levels.

Lemma tic_loop_logs tic_fuel max fuel : forall i k, logs sys_inv (Main.tic_loop parse_backchannel serialize now call_other inbox termreq tic_fuel max fuel i k).
Proof. induction fuel as [|fuel IH]; intros i k; cbn [Main.tic_loop]; logging. Qed.

Lemma assign_roles_logs : logs sys_inv (assign_roles mem).
Proof. unfold assign_roles. apply logs_read. intros s _. repeat (apply logs_bind; [apply on_host_logs, update_role_logs|intros _]). logging. Qed.

Lemma print_table_logs : logs sys_inv (print_table mem).
Proof. unfold print_table. apply logs_bind; [apply on_host_logs; logging|intros [|first rest]; logging]. Qed.

End Server.

(** ** The whole program *)

Lemma cleanup_quiet h u h' t : PluginManager.cleanup mem h = Done u h' t -> t = [].
Proof.
  unfold PluginManager.cleanup. intros (? & ? & ? & ? & [= <- <- <-] & (u1 & h1 & t1 & t2 & E & [= <- <- <-] & ->)%bind_done_inv & ->)%bind_done_inv.
  cbn [app]. rewrite app_nil_r. revert E. generalize (plugins (h_pm h)). intros m. revert h t1. induction m as [|[p r] m IH]; intros h t1 E; [by injection E|].
  cbn [for_each fst] in E. apply bind_done_inv in E as ([] & h2 & t2 & t3 & E2 & E3 & ->). rewrite (IH _ _ E3), app_nil_r.
  destruct (pl_cleanup (mem p)) as [f|] eqn:Ef; [|by injection E2 as <- <-].
  apply bind_done_inv in E2 as (a & h3 & t4 & t5 & E4 & [= <- <-] & ->). by rewrite (kl_cleanup _ _ _ _ _ _ Ef E4).
Qed.

(** A regular parse says nothing. *)
Lemma parse_quiet args : forall o o' t, parse args o = Done 0 o' t -> t = [].
Proof.
  induction args as [|[opt optarg] args IH]; intros o o' t; [by intros [= _ <-]|]. cbn [parse].
  repeat (case_bool_decide; [intros (? & ? & ? & ? & [= _ _ <-] & ->%IH & ->)%bind_done_inv; done|]).
  by intros (? & ? & ? & ? & _ & [=] & _)%bind_done_inv.
Qed.

(** The plugin whose logger is used. *)
Definition logger_plugins (c : config) : list plugin_ptr := match conf_logger c with None => [] | Some p => [p] end.

(** The call that hands the level to the configured logger. *)
Definition selection (ll : log_level) (c : config) : list event := match conf_logger c with None => [] | Some _ => [ESetLogLevel ll] end.

Lemma use_logger_selects ll s a s' t : use_logger mem ll s = Done a s' t -> t = selection ll (ss_conf s) /\ ss_conf s' = ss_conf s /\
  ss_srv s' = ss_srv s /\ h_world (ss_host s') = h_world (ss_host s) /\ plugins (h_pm (ss_host s')) = plugins (h_pm (ss_host s)) /\
  forall p, conf_logger (ss_conf s) = Some p -> is_Some (pl_lf (mem p)).
Proof.
  unfold use_logger, selection. intros (? & ? & ? & ? & [= <- <- <-] & E & ->)%bind_done_inv. destruct (conf_logger (ss_conf s)) as [p|]; [|injection E as <- <- <-; by split_and!].
  apply bind_done_inv in E as (lf & ? & ? & ? & E & E' & ->). destruct (pl_lf (mem p)) as [l|] eqn:El; [|done].
  injection E as <- <- <-. injection E' as <- <- <-. split_and!; try done. intros q [= <-]. by rewrite El.
Qed.

(** What a regular end looks like, with the configuration [c0] and the plugins [ks]. *)
Definition regular (c0 : config) (ks : list plugin_ptr) (rc : Z) (s : ssys W) (tr : list event) : Prop :=
  rc = 0 -> exists t h, tr = t ++ [cleaning_up] /\ Forall no_level t /\ ss_conf s = c0 /\
    PluginManager.cleanup mem h = Done tt (ss_host s) [] /\ host_inv ks h.

Lemma regular_after {A} c0 ks (m : prog event (ssys W) A) k : logs (sys_inv c0 ks) m -> (forall a, yields (sys_inv c0 ks) (k a) (regular c0 ks)) ->
  yields (sys_inv c0 ks) (bind m k) (regular c0 ks).
Proof.
  intros Hm Hk. eapply yields_bind; [exact Hm|]. intros a t1 s [Hs Ht1]. specialize (Hk a s Hs). destruct (k a s) as [rc s' t2|]; [|done].
  intros Hrc. destruct (Hk Hrc) as (t & h & -> & Ht & Hrest). exists (t1 ++ t), h. split; [by rewrite app_assoc|]. split; [by apply Forall_app_2|done].
Qed.

Lemma last_regular c0 ks : yields (sys_inv c0 ks) (bind (emit cleaning_up) (fun _ => bind (Server.on_host (cleanup mem)) (fun _ => ret 0))) (regular c0 ks).
Proof.
  intros s (Hc & Hh & _). unfold Server.on_host. prog_unfold. destruct (PluginManager.cleanup mem (ss_host s)) as [[] h' t|] eqn:E; [|done].
  pose proof (cleanup_quiet _ _ _ _ E) as ->. intros _. exists [], (ss_host s). by split_and!.
Qed.

(** A regular run: the first level is for the standard logger, the second one for the configured one, and then no level
    is set any more; the cleanup, which is announced, logs nothing. *)
Lemma main_regular pm w wait_fuel tic_fuel run_fuel argv0 args s' tr :
  Q w -> (forall a argv h z h' t, init_at a argv h = Done z h' t -> keys (plugins (h_pm h)) ⊆ keys (plugins (h_pm h'))) ->
  Main.main mem dlmopen dlerror dlsym init_at open_file parse_backchannel serialize now call_other inbox termreq
    wait_fuel tic_fuel run_fuel argv0 args (Ssys new_server (Csys new_config (Host pm w))) = Done 0 s' tr ->
  exists opts t1 t2 h, parse args new_options = Done 0 opts [] /\ Forall no_level t1 /\ Forall no_level t2 /\
    tr = ESetLogLevel (loglevel opts) :: t1 ++ selection (loglevel opts) (ss_conf s') ++ t2 ++ [cleaning_up] /\
    (forall p, conf_logger (ss_conf s') = Some p -> is_Some (pl_lf (mem p))) /\
    PluginManager.cleanup mem h = Done tt (ss_host s') [] /\ host_inv (logger_plugins (ss_conf s')) h.
Proof.
  intros Hw Hreg E. unfold Main.main, log in E. apply bind_done_inv in E as (r & s1 & t0 & tr1 & E0 & E & ->). unfold local in E0.
  destruct (parse args new_options) as [rc o tp|] eqn:Ep; [|done]. injection E0 as <- <- <-. cbn [fst snd] in E.
  destruct (Z.eqb_spec rc 0) as [->|]; cbn [negb] in E; [|done]. apply parse_quiet in Ep as Htp. subst tp.
  destruct (bool_decide (cfile o = [])); [by apply bind_done_inv in E as (? & ? & ? & ? & _ & [=] & _)|].
  apply bind_done_inv in E as (? & ? & ? & tr2 & [= _ <- <-] & E & ->).
  apply bind_done_inv in E as (rc & s1 & t1 & tr3 & E1 & E & ->). unfold on_csys, zoom in E1. cbn [ss_csys ss_srv] in E1.
  destruct (load_config _ _ _ _ _ _ _ _) as [rc' cs1 t1'|] eqn:El; [|done]. injection E1 as <- <- <-.
  destruct (Z.eqb_spec rc' 0) as [->|]; cbn [negb] in E; [|by apply bind_done_inv in E as (? & ? & ? & ? & _ & [=] & _)].
  destruct (logs_done _ _ _ _ _ _ (load_config_logs _) (conj Hw (list_subseteq_nil _) : host_inv [] (cs_host (Csys new_config (Host pm w)))) El)
    as [[Hw1 _] Hl1].
  assert (conf_ok mem cs1) as (_ & _ & _ & Hok) by (eapply preserves_done; [by apply load_config_conf_ok|apply conf_ok_new|exact El]).
  apply bind_done_inv in E as ([] & s2 & t2 & tr4 & E2 & E & ->). apply use_logger_selects in E2 as (-> & Hc2 & Hv2 & Hh2 & Hp2 & Hlf).
  change (ss_conf (Ssys new_server cs1)) with (cs_conf cs1) in *.
  assert (sys_inv (cs_conf cs1) (logger_plugins (cs_conf cs1)) s2) as Hs2.
  { split; [done|]. rewrite Hv2. split; [|by split_and!]. split; [by rewrite Hh2|]. rewrite Hp2. unfold logger_plugins, ss_host. cbn.
    destruct (conf_logger (cs_conf cs1)) as [p|] eqn:Ec; [|apply list_subseteq_nil]. destruct (Hok p eq_refl) as [Hp _]. set_solver. }
  match type of E with ?m s2 = _ => assert (yields (sys_inv (cs_conf cs1) (logger_plugins (cs_conf cs1))) m
    (regular (cs_conf cs1) (logger_plugins (cs_conf cs1)))) as Hy end.
  { apply regular_after; [apply assign_roles_logs|intros _]. apply regular_after; [apply init_logs|intros rc]. apply yields_if; intros _; [by apply yields_ret|].
    apply regular_after; [logging|intros _]. apply regular_after; [apply print_table_logs|intros _]. apply regular_after; [apply wait_for_nodes_logs|intros i].
    apply regular_after; [apply tic_loop_logs|intros _]. apply last_regular. }
  specialize (Hy s2 Hs2). rewrite E in Hy. destruct (Hy eq_refl) as (t & h & -> & Ht & Hc & Hcl & Hh).
  exists o, t1', t, h. rewrite Hc. by split_and!.
Qed.

End Keepers.
