(* ===== verification/Logging.v ===== *)
(** * The log of the server
    The shipped plugins leave the choice of the level to [main]; so a regular run of the process writes to the standard
    error stream and to the file of the file logger exactly the lines that the level asks for. *)

From S2P Require Import Prelude CString Types Loggers Options PluginManager Transcribe Replay Random Mosquitto Config Server Lifecycle Main Plugins Process Typing Shipped Levels.
Local Open Scope Z_scope.

#[local] Abbreviation H := (host world).

(** The file logger has been given no level, and its file is empty if there is one: the calls of the logger are in the trace. *)
Definition fresh_log (w : world) : Prop :=
  w_filelogger w = Filelogger.State LL_None FileNull \/ w_filelogger w = Filelogger.State LL_None (FileOpen []).

#[local] Abbreviation anything := (fun _ => True).

(** ** The plugins *)

Lemma replay_nodes_logs : logs anything Replay.get_nodes.
Proof.
  unfold Replay.get_nodes. apply logs_bind; [logging|intros [buf0|]; [|logging]]. apply logs_bind; [logging|intros _].
  destruct (strtoull (c_str buf0) 0) as [num cur]. apply logs_bind; [logging|intros _]. apply logs_if; [logging|]. do 2 (apply logs_bind; [logging|intros ?]).
  apply logs_if; [logging|]. apply logs_read. intros s _. apply logs_bind; [logging|intros _]. apply logs_bind; [|intros ok; logging].
  generalize (S (length (file s))), 0. intros fuel. induction fuel as [|fuel IH]; intros i; cbn [read_nodes]; [logging|]. apply logs_if; [|logging].
  apply logs_bind; [logging|intros [buf|]; [|logging]]. apply logs_bind; [logging|intros _]. apply logs_bind; [logging|intros [n|]; [|logging]].
  apply logs_bind; [logging|intros _; apply IH].
Qed.

Lemma replay_tic_logs : logs anything Replay.tic.
Proof.
  unfold Replay.tic. apply logs_bind; [logging|intros _]. apply logs_read. intros s _. apply logs_if; [logging|]. apply logs_bind; [logging|intros _].
  apply logs_if; [logging|]. generalize (S (length (file s))). intros fuel. induction fuel as [|fuel IH]; cbn [Replay.tic_loop]; logging.
Qed.

Lemma random_setup_logs argv : logs anything (setup argv).
Proof.
  assert (logs anything tested_alloc) as Ha by (unfold tested_alloc; logging).
  assert (forall todo i, logs anything (make_nodes todo i)) as Hm.
  { induction todo as [|todo IH]; intros i; cbn [make_nodes]; logging; first [exact Ha | apply IH]. }
  unfold setup. logging.
Qed.

Lemma random_tic_logs rand realloc_ok calloc_ok : logs anything (Random.tic rand realloc_ok calloc_ok).
Proof.
  unfold Random.tic. apply logs_bind; [logging|intros _]. apply logs_read. intros s _. apply logs_bind; [|intros _; logging].
  generalize (@nil mynode). induction (r_nodes s) as [|n rest IH]; intros front; cbn [Random.tic_loop]; logging.
Qed.

#[local] Hint Resolve replay_nodes_logs replay_tic_logs random_tic_logs : levels.

Section Transcribe.
Context {N : Type} (nested : fault_manager N) (nested_logs : manager_logs anything nested).

Lemma call_nested_logs {A} (m : prog event N A) : logs anything m -> logs anything (call_nested m).
Proof. by apply logs_zoom. Qed.

Lemma transcribe_logs : manager_logs anything (transcribe_fm nested).
Proof.
  destruct nested_logs as (Hn & Ht & Hf). split; [|split]; cbn.
  - unfold Transcribe.get_nodes. apply logs_bind; [by apply call_nested_logs|intros r]. logging.
  - unfold Transcribe.tic. apply logs_read. intros s _. do 2 (apply logs_bind; [logging|intros _]). by apply call_nested_logs.
  - unfold Transcribe.get_fail. apply logs_bind; [by apply call_nested_logs|intros fs]. logging.
Qed.

End Transcribe.

Section Shipped.
Context (addr : shipped -> plugin_ptr) `{!Inj (=) (=) addr} (fopen_r : cstr -> option cstr) (fopen_w : cstr -> bool).
Context (rand : nat -> Z) (publish_rc : nat -> Z) (lib_init_rc : Z) (connect_rc : cstr -> Z -> Z -> Z) (subscribe_rc : Z) (strerror : Z -> cstr).
#[local] Abbreviation always := (fun _ : nat => true).
#[local] Abbreviation mem := (Plugins.mem addr rand always always publish_rc strerror).
#[local] Abbreviation init_at := (Plugins.init_at addr fopen_r fopen_w lib_init_rc connect_rc subscribe_rc strerror).
#[local] Abbreviation kept := (host_inv fresh_log).

(** A part of the world that is not the file logger's. *)
Lemma on_plugin_logs {T A} ks (proj : world -> T) upd (m : prog event T A) : (forall t w, w_filelogger (upd t w) = w_filelogger w) ->
  logs anything m -> logs (kept ks) (on_plugin proj upd m).
Proof. intros Hu. apply logs_aside. intros h t [Hf Hk]. split; [|done]. unfold fresh_log. cbn. by rewrite Hu. Qed.

Lemma on_world_part_logs {T A} (proj : world -> T) upd (m : prog event T A) : (forall t w, w_filelogger (upd t w) = w_filelogger w) ->
  logs anything m -> logs fresh_log (zoom proj upd m).
Proof. intros Hu. apply logs_aside. intros w t Hf. unfold fresh_log. by rewrite Hu. Qed.

Lemma register_shipped_logs ks p : logs (kept ks) (register_plugin (names_at addr) p).
Proof. apply register_logs. Qed.

Lemma on_filelogger_logs ks f : f = FileNull \/ f = FileOpen [] ->
  logs (kept ks) (on_plugin w_filelogger set_filelogger (modify (fun s => Filelogger.State (Filelogger.lvl s) f))).
Proof.
  intros Hf h [Hq Hk]. split; [|done]. split; [|done]. unfold fresh_log in *. cbn. destruct Hq as [-> | ->], Hf as [-> | ->]; auto.
Qed.

#[local] Hint Resolve register_shipped_logs : levels.
#[local] Hint Extern 1 (logs _ (on_plugin _ _ _)) => apply on_plugin_logs; [done|by logging] : levels.
#[local] Hint Extern 1 (logs _ (on_plugin w_filelogger _ _)) => apply on_filelogger_logs; auto : levels.

Lemma init_shipped_logs k argv ks : logs (kept ks)
  (init_of (inter addr) addr fopen_r fopen_w lib_init_rc connect_rc subscribe_rc strerror k argv).
Proof.
  destruct k; cbn [init_of].
  - unfold transcribe_init. logging.
  - unfold replay_init. logging.
  - unfold random_init. logging. apply on_plugin_logs; [done|apply random_setup_logs].
  - unfold echo_init. logging.
  - unfold filelogger_init. logging.
  - assert (forall A (m : prog event mosquitto A), logs anything m -> logs (kept ks)
      (zoom (fun h : H => w_mosquitto (h_world h)) (fun v h => Host (h_pm h) (set_mosquitto v (h_world h))) m)) as Hz.
    { intros A m Hm. by apply (on_plugin_logs ks w_mosquitto set_mosquitto). }
    unfold mosquitto_init, Mosquitto.init. destruct argv as [|id argv]; [apply logs_bind; [apply Hz; logging|intros s; logging]|].
    apply logs_if; [logging|]. do 2 (apply logs_bind; [apply Hz; logging|intros _]). apply logs_bind; [logging|intros _].
    apply logs_bind; [apply Hz; logging|intros _]. apply logs_bind; [apply Hz; logging|intros sc]. apply logs_if; [logging|].
    apply logs_bind; [logging|intros _]. apply logs_bind; [apply register_logs|intros r]. apply logs_if; [|logging].
    apply logs_bind; [apply Hz; logging|intros _; logging].
Qed.

Lemma trans_call_logs {A} (op : forall N, fault_manager N -> prog event (transcribe N) A) :
  (forall N (fm : fault_manager N), manager_logs anything fm -> logs anything (op N fm)) ->
  logs fresh_log (trans_call addr rand always always op).
Proof.
  intros Hop w Hw. unfold trans_call. destruct (tg_file (w_transcribe w)), (tg_nested (w_transcribe w)) as [p|]; try done.
  destruct (plugin_at addr p) as [[]|]; try done.
  - eapply on_world_part_logs; [|apply Hop|exact Hw]; [done|]. split_and!; cbn; logging.
  - eapply on_world_part_logs; [|apply Hop|exact Hw]; [done|]. split_and!; cbn; logging.
Qed.

#[export] Instance shipped_keeps_level : KeepsLevel mem init_at fresh_log.
Proof.
  constructor.
  - intros f argv ks. unfold Plugins.init_at. destruct (plugin_at addr f) as [k|]; [apply init_shipped_logs|logging].
  - intros p hook ks. unfold Plugins.mem. destruct (plugin_at addr p) as [[]|]; [..|unfold names_at; by destruct (plugin_at addr p)];
      cbn; intros [= <-]; try solve [logging].
    unfold transcribe_post. apply logs_bind; [logging|intros g].
    apply logs_bind; [change (logs (kept ks) (get_by_name (names_at addr) (tg_fault_name g))); logging|intros [q|]; [|logging]].
    do 2 (apply logs_bind; [apply update_role_logs|intros _]). logging.
  - intros p c. unfold Plugins.mem. destruct (plugin_at addr p) as [[]|]; [..|unfold names_at; by destruct (plugin_at addr p)]; cbn; intros [= <-].
    + split_and!; cbn; [intros n k v; logging|intros m; logging|done].
    + split_and!; cbn; [intros n k v|intros m|intros f [= <-] cb]; (apply on_world_part_logs; [done|]); logging.
  - intros p fm. unfold Plugins.mem. destruct (plugin_at addr p) as [[]|]; [..|unfold names_at; by destruct (plugin_at addr p)]; cbn; intros [= <-].
    + split_and!; cbn; apply trans_call_logs; intros N fm Hfm; by apply transcribe_logs.
    + split_and!; cbn; (apply on_world_part_logs; [done|]); logging.
    + split_and!; cbn; (apply on_world_part_logs; [done|]); logging.
  - intros p f h a h' t Hp. revert Hp. unfold Plugins.mem. destruct (plugin_at addr p) as [[]|]; [..|unfold names_at; by destruct (plugin_at addr p)]; cbn; intros [= <-] E.
    + revert E. unfold transcribe_cleanup, on_plugin, bind, zoom, get, modify, ret. cbn. destruct (tg_file _); by intros [= _ _ <-].
    + by injection E.
    + by injection E.
    + revert E. unfold filelogger_cleanup, on_plugin, bind, zoom, get, modify, ret. cbn. destruct (Filelogger.log_file _); by intros [= _ _ <-].
    + revert E. unfold mosquitto_cleanup, on_plugin, Mosquitto.cleanup, disconnect_instance, delete_instance, the_instance, bind, zoom, get, modify, ret, stop.
      destruct (mq_instance _) as [c|] eqn:Ec; [|done]. by destruct (mq_is_init c); cbn; rewrite ?Ec.
Qed.

End Shipped.

(** ** Closing the file *)

Definition closed_log (w : world) : Prop := w_filelogger w = Filelogger.State LL_None (FileClosed []).

Section Closing.
Context (addr : shipped -> plugin_ptr) `{!Inj (=) (=) addr} (rand : nat -> Z) (publish_rc : nat -> Z) (strerror : Z -> cstr).
#[local] Abbreviation always := (fun _ : nat => true).
#[local] Abbreviation mem := (Plugins.mem addr rand always always publish_rc strerror).

Lemma cleanup_hook_log p f h a h' t : pl_cleanup (mem p) = Some f -> f h = Done a h' t ->
  if decide (p = addr SFilelogger) then (fresh_log (h_world h) -> closed_log (h_world h')) /\ ~ closed_log (h_world h)
  else w_filelogger (h_world h') = w_filelogger (h_world h).
Proof.
  intros Hp E. case_decide as Hf.
  - subst p. rewrite mem_addr in Hp by done. injection Hp as <-. revert E. unfold filelogger_cleanup, on_plugin, bind, zoom, get, modify, ret, fresh_log, closed_log. cbn.
    intros E. split; [intros [Hw|Hw]|intros Hw]; rewrite Hw in E; try done. by injection E as _ <- _.
  - revert Hp. unfold Plugins.mem. destruct (plugin_at addr p) as [k|] eqn:Ek; [|unfold names_at; by rewrite Ek].
    unfold plugin_at in Ek. apply List.find_some in Ek as [_ <-%Z.eqb_eq]. destruct k; cbn; intros [= <-]; try done.
    + revert E. unfold transcribe_cleanup, on_plugin, bind, zoom, get, modify, ret. cbn. destruct (tg_file _); by intros [= _ <- _].
    + by injection E as _ <- _.
    + by injection E as _ <- _.
    + revert E. unfold mosquitto_cleanup, on_plugin, Mosquitto.cleanup, disconnect_instance, delete_instance, the_instance, bind, zoom, get, modify, ret, stop.
      destruct (mq_instance _) as [c|] eqn:Ec; [|done]. by destruct (mq_is_init c); cbn; rewrite ?Ec.
Qed.

Lemma cleanup_closes h u h' t : PluginManager.cleanup mem h = Done u h' t -> fresh_log (h_world h) -> addr SFilelogger ∈ keys (plugins (h_pm h)) ->
  closed_log (h_world h').
Proof.
  unfold PluginManager.cleanup. intros (? & ? & ? & ? & [= <- <- <-] & (u1 & h1 & t1 & t2 & E & [= _ <- _] & ->)%bind_done_inv & ->)%bind_done_inv Hf Hin.
  cbn [set_libraries h_world]. revert E Hf Hin. generalize (plugins (h_pm h)). intros m E.
  enough ((fresh_log (h_world h) -> addr SFilelogger ∈ keys m -> closed_log (h_world h1)) /\ (closed_log (h_world h) -> closed_log (h_world h1))) as Hc by apply Hc.
  revert h t1 E. induction m as [|[p r] m IH]; intros h0 t1 E.
  { injection E as _ <- _. split; [intros _ Hin; by apply elem_of_nil in Hin|done]. }
  cbn [for_each fst keys map] in *. apply bind_done_inv in E as ([] & h2 & t3 & t4 & E2 & E3 & ->). destruct (IH _ _ E3) as [IH1 IH2].
  assert (if decide (p = addr SFilelogger) then (fresh_log (h_world h0) -> closed_log (h_world h2)) /\ ~ closed_log (h_world h0)
    else w_filelogger (h_world h2) = w_filelogger (h_world h0)) as Hp.
  { destruct (pl_cleanup (mem p)) as [f|] eqn:Ef.
    - apply bind_done_inv in E2 as (a & h3 & t5 & t6 & E4 & [= <- _] & _). by eapply cleanup_hook_log.
    - injection E2 as <- _. case_decide as Hf; [|done]. subst p. by rewrite mem_addr in Ef. }
  case_decide as Hf.
  - destruct Hp as [Hp1 Hp2]. split; [intros Hfr _; by apply IH2, Hp1|done].
  - unfold fresh_log, closed_log in *. rewrite Hp in *. split; [|done]. intros Hfr [E|Hin]%elem_of_cons; [congruence|by apply IH1].
Qed.

End Closing.

(** ** The loggers on a trace *)

(** The calls of the logger in a trace, made of [lg]. *)
Definition calls_to {St} (lg : logger St) (tr : list event) : prog event St unit :=
  for_each tr (fun e => match e with ELog l m => lg_log_fun lg l m | ESetLogLevel l => lg_set_ll lg l | _ => ret tt end).

Definition messages (tr : list event) : list (log_level * cstr) := omap (fun e => match e with ELog l m => Some (l, m) | _ => None end) tr.

Lemma calls_log_all {St} (lg : logger St) tr : Forall no_level tr -> forall s, calls_to lg tr s = log_all lg (messages tr) s.
Proof.
  induction 1 as [|e tr He _ IH]; intros s; [done|]. unfold calls_to, log_all in *. cbn [for_each].
  assert (messages (e :: tr) = match e with ELog l m => (l, m) :: messages tr | _ => messages tr end) as -> by by destruct e.
  destruct e as [l msg| | | | | |]; try done; try (unfold bind, ret; rewrite IH; by destruct (for_each (messages tr) _ s)).
  cbn [for_each fst snd]. unfold bind. destruct (lg_log_fun lg l msg s); [by rewrite IH|done].
Qed.

(** A logger that is given its level first. *)
Lemma calls_stdout ll tr s0 : Forall no_level tr ->
  exists out, calls_to Stdout.standard_log (ESetLogLevel ll :: tr) s0 = Done tt (Stdout.State ll) out /\ stderr_text out = logged ll (messages tr).
Proof.
  intros Ht. destruct (stdout_run ll (messages tr)) as (out & E & Ho). exists out. split; [|done].
  change (bind (lg_set_ll Stdout.standard_log ll) (fun _ => calls_to Stdout.standard_log tr) s0 = Done tt (Stdout.State ll) out).
  unfold bind. cbn [Stdout.standard_log lg_set_ll]. unfold Stdout.set_min_log_level, put. by rewrite calls_log_all, E.
Qed.

Lemma calls_file ll tr lvl : Forall no_level tr ->
  calls_to Filelogger.file_log (ESetLogLevel ll :: tr) (Filelogger.State lvl (FileOpen [])) =
    Done tt (Filelogger.State ll (FileOpen (logged ll (messages tr)))) [].
Proof.
  intros Ht. change (bind (lg_set_ll Filelogger.file_log ll) (fun _ => calls_to Filelogger.file_log tr) (Filelogger.State lvl (FileOpen [])) =
    Done tt (Filelogger.State ll (FileOpen (logged ll (messages tr)))) []).
  unfold bind. cbn [Filelogger.file_log lg_set_ll]. unfold Filelogger.set_log_level, modify. cbn [Filelogger.log_file].
  by rewrite calls_log_all, file_run.
Qed.

(** *** The log of a regular run *)

(** C8: the log is complete, and only as long as asked for.  A server that runs to its regular end has had the options
    [opts], and its trace falls into two parts.  In the first one the calls are for the standard logger, which writes one
    line on the standard error stream for each message of at least the level of the options, in order.  The second one is
    empty if no logger is configured.  Otherwise the plugin is the file logger; its [init] has opened an empty file (in the
    state, to which the calls in the trace have not been applied, it is closed and still empty), and the calls of the
    second part add the same kind of lines to it, from the level that is set first to the announcement of the cleanup,
    which closes the file.  So the file logger is never called on a file that is not open.  (srv/README.md says that the logger built
    into the server logs to the standard output; srv/stdoutLog.cpp writes to [std::cerr], and so does the model.) *)
Theorem server_log (I : installation) `{!Installed I} e argv0 args s' tr : process I e argv0 args process_start = Done 0 s' tr ->
  exists opts t1 t2, parse args new_options = Done 0 opts [] /\ tr = t1 ++ t2 /\
    (exists out, calls_to Stdout.standard_log t1 Stdout.initial = Done tt (Stdout.State (loglevel opts)) out /\
      stderr_text out = logged (loglevel opts) (messages t1)) /\
    match conf_logger (ss_conf s') with
    | None => t2 = []
    | Some p => p = in_addr I SFilelogger /\ closed_log (ss_world s') /\ last t2 = Some cleaning_up /\
        calls_to Filelogger.file_log t2 (Filelogger.State LL_None (FileOpen [])) =
          Done tt (Filelogger.State (loglevel opts) (FileOpen (logged (loglevel opts) (messages t2)))) []
    end.
Proof.
  intros E. unfold process in E. eapply (main_regular (mem_of I e) (init_at_of I e) fresh_log) in E; [|by left|].
  2:{ intros a argv h z h' t E'. unfold init_at_of, init_at in E'. destruct (plugin_at (in_addr I) a) as [k|]; [|done].
    by eapply registers_only_keys, init_grows. }
  destruct E as (opts & t1 & t2 & h & Ep & H1 & H2 & -> & Hlf & Hc & Hf & Hk). set (ll := loglevel opts) in *.
  assert (Forall no_level (t2 ++ [cleaning_up])) as H3 by (apply Forall_app_2; [done|by constructor]).
  exists opts. unfold selection, logger_plugins in *. destruct (conf_logger (ss_conf s')) as [p|].
  - exists (ESetLogLevel ll :: t1), (ESetLogLevel ll :: t2 ++ [cleaning_up]). split; [done|]. split; [done|]. split.
    { exact (calls_stdout ll t1 _ H1). }
    assert (p = in_addr I SFilelogger) as ->.
    { destruct (Hlf p eq_refl) as [lf El]. unfold mem_of, Plugins.mem in El. destruct (plugin_at (in_addr I) p) as [k|] eqn:Ek; [|unfold names_at in El; by rewrite Ek in El].
      unfold plugin_at in Ek. apply List.find_some in Ek as [_ <-%Z.eqb_eq]. by destruct k. }
    split; [done|]. split; [by eapply cleanup_closes; [apply _|exact Hc|exact Hf|set_solver]|]. split.
    { by rewrite app_comm_cons, last_snoc. }
    exact (calls_file ll (t2 ++ [cleaning_up]) _ H3).
  - exists (ESetLogLevel ll :: t1 ++ t2 ++ [cleaning_up]), []. rewrite app_nil_r. split; [done|]. split; [done|]. split; [|done].
    exact (calls_stdout ll (t1 ++ t2 ++ [cleaning_up]) _ (Forall_app_2 _ _ _ H1 H3)).
Qed.

(** ** Example: three tics of the run of Shipped.v, logged from the level of information on *)

Definition logging_args : list (ascii * cstr) := [("c"%char, str "conf.txt"); ("l"%char, str "2"); ("n"%char, str "3")].

Definition summary (o : outcome event (ssys world) Z) : option (Z * option plugin_ptr * nat) :=
  match o with Done rc s tr => Some (rc, conf_logger (ss_conf s), length (messages tr)) | Halt _ _ => None end.

Lemma summary_done o rc p n : summary o = Some (rc, p, n) -> exists s' tr, o = Done rc s' tr /\ conf_logger (ss_conf s') = p /\ length (messages tr) = n.
Proof. destruct o as [rc' s' tr|]; [|done]. intros [= <- <- <-]. by exists s', tr. Qed.

Lemma logging_run_summary : summary (process example_installation endless_env None logging_args process_start) =
  Some (0, Some (in_addr example_installation SFilelogger), 33%nat).
Proof. vm_compute. reflexivity. Qed.

Lemma logging_level : match parse logging_args new_options with Done _ o _ => loglevel o = LL_Info | Halt _ _ => False end.
Proof. vm_compute. reflexivity. Qed.

Lemma server_log_witness : exists t1 t2, length (messages (t1 ++ t2)) = 33%nat /\ last t2 = Some cleaning_up /\
  calls_to Filelogger.file_log t2 (Filelogger.State LL_None (FileOpen [])) =
    Done tt (Filelogger.State LL_Info (FileOpen (logged LL_Info (messages t2)))) [].
Proof.
  destruct (summary_done _ _ _ _ logging_run_summary) as (s' & tr & E & Hc & Hl).
  destruct (server_log example_installation endless_env None logging_args s' tr E) as (opts & t1 & t2 & Ep & -> & _ & Hfile).
  rewrite Hc in Hfile. destruct Hfile as (_ & _ & Hlast & Hcalls). pose proof logging_level as Hll. rewrite Ep in Hll. rewrite Hll in Hcalls.
  exists t1, t2. split; [exact Hl|]. split; [exact Hlast|exact Hcalls].
Defined.
