(* ===== verification/Program.v ===== *)
(** * Recording and replaying with the whole program
    A run that records the random fault manager and the run that replays the recording, with the echo plugin:
    from the command line and the text of the configuration files to the last write on the standard output. *)

From S2P Require Import Prelude CString Types Options PluginManager Config Server ServerTics Main Transcribe Replay.
From S2P Require Import RecordReplay Random Mosquitto Lifecycle EndToEnd Plugins Runs MainRuns Process.
Local Open Scope Z_scope.

(** ** What the random plugin reports can be recorded *)

Lemma new_node_char i c : c ∈ n_name (my_p (new_node i)) -> c ∉ [COMMA; NL; NUL; "#"%char].
Proof.
  cbn [new_node my_p n_name]. unfold snprintf. intros (j & Hc%list_elem_of_lookup_2 & _)%elem_of_take.
  apply elem_of_app in Hc as [Hc|Hc].
  - cbn in Hc. repeat (apply elem_of_cons in Hc as [-> | Hc]; [elem_dec|]). by apply not_elem_of_nil in Hc.
  - excluded (number_char_not c (print_signed_chars _ _ Hc)).
Qed.

Lemma new_node_name_ok i : n_name (my_p (new_node i)) <> [] /\ name_ok (n_name (my_p (new_node i))) = true /\
  field_ok (n_name (my_p (new_node i))) = true.
Proof.
  split; [done|]. split; apply forallb_forall; intros c Hc%list_elem_of_In; apply negb_true_iff, bool_decide_eq_false;
    excluded (new_node_char i c Hc).
Qed.

(** A run of the random plugin, started with [num] nodes. *)
Lemma random_observe rand num n : 0 < num < 2 ^ 31 ->
  let fm := random_fm rand (fun _ => true) (fun _ => true) in
  exists ns fss r, fm_observe fm n (Random num (map new_node (seq 0 (Z.to_nat num))) [] 0 []) = Done (0, ns, fss) r [] /\
    length fss = n /\ Forall node_ok ns /\ is_u64 (Z.of_nat (length ns)) /\
    Forall (Forall fault_ok) fss /\ Forall (Forall component_named) fss.
Proof.
  intros Hn fm. set (nodes := map new_node (seq 0 (Z.to_nat num))). set (r0 := Random num nodes [] 0 []).
  destruct (new_node_names (Z.to_nat num)) as [Hnd Hdown]; [lia|].
  pose proof (fails_once_run rand (fun _ => true) (fun _ => true) n r0 Hdown Hnd) as Hrun. fold fm in Hrun.
  destruct (fm_tics fm n r0) as [fss r t|] eqn:E; [|by destruct Hrun as [_ [_ ?]]]. destruct Hrun as (-> & _ & _ & _ & Hsub & Hf).
  exists (map my_p nodes), fss, r. split.
  { unfold fm_observe. eapply (bind_done _ _ r0 (0, map my_p nodes) r0 []); [|eapply (bind_done _ _ _ fss r []); [exact E|done]].
    cbn. unfold Random.get_nodes, bind, get. cbn. destruct (Z.leb_spec num 0); [lia|done]. }
  split; [by eapply fm_tics_length|]. split.
  { apply Forall_fmap, Forall_fmap, Forall_forall. intros i _. destruct (new_node_name_ok i) as (H1 & H2 & _).
    split; [exact H1|]. split; [exact H2|]. split; [by constructor|]. by split. }
  split; [unfold is_u64, nodes; rewrite !length_map, length_seq; lia|].
  assert (Forall (fun f => fault_ok f /\ component_named f) (concat fss)) as Hok.
  { apply Forall_forall. intros f Hfin. rewrite Forall_forall in Hf. destruct (Hf f Hfin) as [Hs Hc].
    unfold fault_ok, component_named. rewrite Hc, Hs. split; [|done]. split; [|by split].
    assert (f_node f ∈ node_names nodes) as Hin by (apply Hsub; by apply list_elem_of_fmap_2).
    unfold node_names, nodes in Hin. rewrite map_map in Hin. apply list_elem_of_fmap in Hin as (i & -> & _). apply new_node_name_ok. }
  rewrite Forall_concat in Hok. split; (eapply Forall_impl; [exact Hok|]); intros fs Hfs; (eapply Forall_impl; [exact Hfs|]); by intros f [].
Qed.

(** ** The echo plugin *)

(** What the echo plugin prints for a call. *)
Definition echo_text (c : com_call) : cstr :=
  match c with
  | CallFail n (Some c) v => str "Node " ++ Echo.quoted n ++ str " Component " ++ Echo.quoted c ++
      str " failed with severity " ++ print_d v ++ [NL]
  | CallFail n None v => str "Node " ++ Echo.quoted n ++ str " " ++ (if v =? 0 then str "recovered" else str "failed") ++ [NL]
  | CallExtern m => str "Node Failed: " ++ c_str m ++ [NL]
  end.

Definition echo_says (c : com_call) : list event := [EStdout (echo_text c)].

#[export] Instance echo_voices {S} : Voices eq (fun _ => True) (@Echo.echo_com S) echo_says.
Proof.
  constructor. intros x w _. exists 0, w. split; [|done]. exists [EStdout (echo_text x)]. split; [|done]. by destruct x as [n [c|] v|m].
Qed.

(** ** The two runs *)

Section Program.
Context (I : installation) `{!Installed I}.
Implicit Types e : environment.
#[local] Abbreviation addr := (in_addr I).
#[local] Abbreviation always := (fun _ : nat => true).

(** The configuration files, in the form of examples/config_record.txt and config_replay.txt. *)
Definition record_config (num : Z) (file : cstr) : cstr :=
  shipped_config I [(SEcho, []); (SRandom, [print_u num]); (STranscribe, [str "random"; file])] SEcho STranscribe 0.
Definition replay_config (file : cstr) (tic : Z) : cstr := shipped_config I [(SEcho, []); (SReplay, [file])] SEcho SReplay tic.

(** What is seen of a run in which the fault manager reports the faults [fss]. *)
Definition echoed (fss : list (list fault)) : list event := printed echo_says (concat (map (calls_of (in_serialize I)) fss)).

(** What the plugins hold once a recording run has loaded its configuration. *)
Definition record_world (num : Z) : world :=
  set_transcribe (TransGlobals (str "random") 0 (FileOpen []) None)
    (set_random (Random num (map new_node (seq 0 (Z.to_nat num))) [] 0 []) world_zero).

Definition record_plugins : list shipped := [STranscribe; SRandom; SEcho].

(** The transcribe plugin hands its role over: what the hooks leave. *)
Lemma record_post_init e s2 w : manager_ok (mem_of I e) (host_plugins s2) ->
  (forall q, q ∈ keys (host_plugins s2) <-> exists k, k ∈ record_plugins /\ q = addr k) ->
  (forall k, k ∈ record_plugins -> exists r, map_find (addr k) (host_plugins s2) = Some r) -> ss_world s2 = w ->
  tg_fault_name (w_transcribe w) = str "random" ->
  exists h3, run_post_init (mem_of I e) (keys (host_plugins s2)) s2 = Done true (with_host h3 s2) [] /\
    h_world h3 = set_nested (addr SRandom) w /\ manager_ok (mem_of I e) (plugins (h_pm h3)) /\
    forall q, q ∈ keys (plugins (h_pm h3)) <-> exists k, k ∈ record_plugins /\ q = addr k.
Proof.
  intros Hm Hk Hf Hw Hname. destruct (Hf STranscribe ltac:(elem_dec)) as [r0 Hr0]. destruct (Hf SRandom ltac:(elem_dec)) as [r1 Hr1].
  pose proof (plugin_at_addr addr installed_inj) as Hat.
  destruct (transcribe_post_run (names_at addr) addr (has_fm addr) (ss_host s2) (addr SRandom) r0 r1)
    as (h3 & Ep & Hm3 & Hw3 & Hft & Hfr & Hfo); [|unfold names_at; by rewrite Hat|done| |exact Hr1| | | |].
  { eapply (proj2 (manager_ok_names _ _ _ _ _ _ _)). exact Hm. }
  { by intros ?%(inj _). }
  { unfold has_fm. by rewrite Hat. }
  { unfold names_at. by rewrite Hat. }
  { unfold names_at. rewrite Hat. unfold wrapped_name. fold (ss_world s2). by rewrite Hw, Hname. }
  fold (ss_world s2) in Hw3. rewrite Hw in Hw3.
  exists h3. split.
  { apply (post_init_one _ (addr STranscribe) (transcribe_post (inter addr) addr (has_fm addr))); try done.
    - apply sorted_nodup, Hm.
    - by eapply map_find_keys.
    - by rewrite (mem_of_addr I).
    - apply Forall_forall. intros q (k & Hkin & ->)%Hk Hne. unfold idle_hook. rewrite (mem_of_addr I).
      destruct k; try done; exfalso; revert Hkin; elem_dec. }
  split; [done|]. split; [by eapply (proj1 (manager_ok_names _ _ _ _ _ _ _))|]. intros q. split.
  - intros [r Hr]%keys_elem. apply map_find_elem in Hr; [|apply Hm3].
    destruct (decide (q = addr SRandom)) as [->|H1]; [exists SRandom; split; [elem_dec|done]|].
    destruct (decide (q = addr STranscribe)) as [->|H2]; [exists STranscribe; split; [elem_dec|done]|].
    apply Hk. eapply map_find_keys. rewrite <- Hfo by done. exact Hr.
  - intros (k & Hkin & ->). destruct (Hf k Hkin) as [rk Hrk].
    destruct (decide (k = SRandom)) as [->|H1]; [by eapply map_find_keys|].
    destruct (decide (k = STranscribe)) as [->|H2]; [by eapply map_find_keys|].
    eapply map_find_keys. rewrite Hfo; [exact Hrk|by intros ?%(inj _)..].
Qed.

(** The nodes and the tics of the recording plugin around the random plugin. *)
Lemma record_observe e w n ns fss r : wraps_random addr w ->
  trans_view w_random w = Transcribe 0 [] (w_random w) -> Forall components_ok ns ->
  fm_observe (random_fm (env_rand e) always always) n (w_random w) = Done (0, ns, fss) r [] ->
  exists w1 w2 t1 t2, let fm := trans_world addr (env_rand e) always always in
    fm_get_nodes fm w = Done (0, ns) w1 t1 /\ fm_tics fm n w1 = Done fss w2 t2 /\
    tg_file (w_transcribe w2) = FileOpen (transcript ns fss).
Proof.
  intros Hw Hv Hns E. destruct (transcribe_run _ n _ ns fss r [] Hns E) as [k Et]. unfold fm_observe in Et.
  apply bind_done_inv in Et as ([rc ns'] & a1 & u1 & v1 & E1 & Et & _).
  apply bind_done_inv in Et as (fss' & a2 & u2 & v2 & E2 & Et & _). injection Et as -> -> -> -> <-.
  destruct (view_update addr a1 w Hw) as [Hv1 Hw1].
  exists (trans_update set_random a1 w), (trans_update set_random (Transcribe k (transcript ns fss) r) (trans_update set_random a1 w)), u1, u2.
  split; [|split; [|done]].
  - cbn [trans_world fm_get_nodes]. rewrite trans_call_random by (done || apply _). unfold zoom. rewrite Hv. cbn in E1. by rewrite E1.
  - rewrite trans_tics by (done || apply _). unfold zoom. rewrite Hv1. by rewrite E2.
Qed.

Lemma record_runs e argv0 num file cfg n : 0 < num < 2 ^ 31 -> arg_ok file -> env_write e file = true ->
  env_read e cfg = Some (record_config num file) -> cfg <> [] -> NUL ∉ cfg -> uninterrupted e n false 0 ->
  exists ns fss s', length fss = n /\ Forall node_ok ns /\ is_u64 (Z.of_nat (length ns)) /\
    Forall (Forall fault_ok) fss /\ Forall (Forall component_named) fss /\
    runs (process I e argv0 (server_args cfg n false)) process_start 0 s' (echoed fss) /\
    tg_file (w_transcribe (ss_world s')) = FileClosed (transcript ns fss).
Proof.
  intros Hnum Hfile Hw Hcfg Hne Hnul Hrun.
  assert (NoDup record_plugins) as Hnd by (refine (bool_decide_unpack _ _); vm_compute; exact Logic.I).
  assert (fits SEcho STranscribe) as Hfit by (split; elem_dec).
  destruct (load_shipped I e cfg [(SEcho, []); (SRandom, [print_u num]); (STranscribe, [str "random"; file])] SEcho STranscribe 0 (record_world num))
    as (pm & Hpm & Hload); [|exact Hnd|elem_dec|elem_dec|done|done|done|].
  { split; [done|]. eexists. split; [apply inits_echo; apply _|]. split; [apply Forall_singleton, arg_ok_number; lia|].
    eexists. split; [apply inits_random; [apply _|lia|done]|]. split.
    - repeat apply Forall_cons_2; [split; [done|elem_dec]|done|by apply Forall_nil].
    - eexists. split; [apply inits_transcribe; [apply _|done]|done]. }
  destruct (roles_assigned I e SEcho STranscribe 0 pm (record_world num) record_plugins)
    as (s2 & Ea & Hv2 & Hc2 & Hw2 & Hm2 & Hk2 & Hf2); [done|elem_dec|elem_dec|done|done|].
  destruct (record_post_init e s2 (record_world num)) as (h3 & Ep & Hw3 & Hm3 & Hk3); [done..|].
  destruct (random_observe (env_rand e) num n Hnum) as (ns & fss & r & Eo & Hlen & Hns & Hu & Hfs & Hcs).
  destruct (record_observe e (h_world h3) n ns fss r) as (w4 & w5 & t4 & t5 & E4 & E5 & F5); rewrite ?Hw3; try done.
  { split; [by eexists|done]. }
  { eapply Forall_impl; [exact Hns|]. by intros x (_ & _ & _ & ? & _). }
  destruct (process_prints I e argv0 cfg n false 0 SEcho STranscribe eq (fun _ => True) (trans_world addr (env_rand e) always always)
    Echo.echo_com echo_says 0 pm (record_world num) s2 h3 ns (h_world h3) w4 t4 fss w5 t5) as (s6 & w' & R & Hh6 & <- & _); try done.
  all: try by rewrite (mem_of_addr I).
  - by left.
  - apply Hk3. exists SEcho. split; [elem_dec|done].
  - destruct (process_ends I e s6 _ _ Hh6 Hm3) as (s' & Re & Ht).
    + intros q (k & Hk & ->)%Hk3. exists k. split; [done|]. destruct k; try done; [by eexists|exfalso; revert Hk; elem_dec..].
    + exists ns, fss, s'. split_and!; try done; [rewrite <- (app_nil_r (echoed fss)); by eapply comes_done|].
      rewrite Ht, F5; [done|]. apply Hk3. exists STranscribe. split; [elem_dec|done].
Qed.

(** What the replay plugin offers of a transcript, as part of the world. *)
Lemma replay_observe ns fss w : Forall node_ok ns -> is_u64 (Z.of_nat (length ns)) -> Forall (Forall fault_ok) fss ->
  Z.of_nat (length fss) < 2 ^ 32 -> exists a1 r u1 u2,
    fm_get_nodes replay_world (set_replay (replay_of (transcript ns fss)) w) = Done (0, imap replay_node ns) (set_replay a1 w) u1 /\
    fm_tics replay_world (length fss) (set_replay a1 w) = Done (replay_tics 0 fss) (set_replay r w) u2.
Proof.
  intros Hns Hu Hfs Hn. destruct (replay_run ns fss 0 Hns Hu Hfs) as (r & tr & Eo); [unfold small_tic; lia|].
  rewrite Nat.add_0_r, app_nil_r in Eo. unfold fm_observe in Eo.
  apply bind_done_inv in Eo as ([rc ns'] & a1 & u1 & v1 & E1 & Eo & _).
  apply bind_done_inv in Eo as (fss' & a2 & u2 & v2 & E2 & Eo & _). injection Eo as -> -> -> -> _.
  exists a1, r, u1, u2. split.
  - change (fm_get_nodes replay_world) with (zoom w_replay set_replay (fm_get_nodes replay_fm)). unfold zoom. cbn [w_replay set_replay]. by rewrite E1.
  - rewrite (zoom_tics w_replay set_replay (fun _ => True) replay_world replay_fm); try done; [|by intros []].
    unfold zoom. cbn [w_replay set_replay]. by rewrite E2.
Qed.

Lemma replay_runs_back e argv0 ns fss file tic cfg n : arg_ok file -> is_u64 tic -> length fss = n -> Forall node_ok ns ->
  is_u64 (Z.of_nat (length ns)) -> Forall (Forall fault_ok) fss -> Forall (Forall component_named) fss ->
  env_read e file = Some (transcript ns fss) -> env_read e cfg = Some (replay_config file tic) ->
  cfg <> [] -> NUL ∉ cfg -> uninterrupted e n false 0 -> in_time e tic n ->
  exists s', runs (process I e argv0 (server_args cfg n false)) process_start 0 s' (echoed fss).
Proof.
  intros Hfile Htic Hlen Hns Hu Hfs Hcs Htext Hcfg Hne Hnul Hrun Hpace. set (ks := [SReplay; SEcho]).
  assert (NoDup ks) as Hnd by (refine (bool_decide_unpack _ _); vm_compute; exact Logic.I).
  assert (fits SEcho SReplay) as Hfit by (split; elem_dec).
  set (w := set_replay (replay_of (transcript ns fss)) world_zero).
  destruct (load_shipped I e cfg [(SEcho, []); (SReplay, [file])] SEcho SReplay tic w)
    as (pm & Hpm & Hload); [|exact Hnd|elem_dec|elem_dec|done|done|done|].
  { split; [done|]. eexists. split; [apply inits_echo; apply _|]. split; [by apply Forall_singleton|].
    eexists. split; [apply inits_replay; [apply _|exact Htext|done]|done]. }
  destruct (roles_assigned I e SEcho SReplay tic pm w ks) as (s2 & Ea & Hv2 & Hc2 & Hw2 & Hm2 & Hk2 & Hf2); [done|elem_dec|elem_dec|done|done|].
  destruct (replay_observe ns fss world_zero) as (a1 & r & u1 & u2 & E1 & E2); [done..|destruct Hrun; lia|]. rewrite Hlen in E2.
  destruct (process_prints I e argv0 cfg n false 0 SEcho SReplay eq (fun _ => True) replay_world Echo.echo_com echo_says tic pm w s2 (ss_host s2)
    (imap replay_node ns) w (set_replay a1 world_zero) u1 (replay_tics 0 fss) (set_replay r world_zero) u2) as (s6 & w' & R & Hh6 & _); try done.
  all: try by rewrite (mem_of_addr I).
  - rewrite with_same_host. apply post_init_idle, Forall_forall. intros q (k & Hk & ->)%Hk2. unfold idle_hook. rewrite (mem_of_addr I).
    destruct k; try done; exfalso; revert Hk; elem_dec.
  - apply Hk2. exists SEcho. split; [elem_dec|done].
  - destruct (process_ends I e s6 _ _ Hh6 Hm2) as (s' & Re & _).
    + intros q (k & Hk & ->)%Hk2. exists k. split; [done|]. destruct k; try done; exfalso; revert Hk; elem_dec.
    + exists s'. replace (echoed fss) with (echoed (replay_tics 0 fss)); [|unfold echoed; by rewrite replay_tics_calls].
      rewrite <- (app_nil_r (echoed _)). by eapply comes_done.
Qed.

(** C2: recording and replaying, from the command line to the last write on the standard output.  Let the
    program be started with [-c] on a configuration that loads the echo, random and transcribe plugins, and
    [-n n]: it exits with 0 and leaves a closed transcript file, whatever random numbers are drawn.  Start it
    again, in any environment in which that file can be read, on the configuration that loads the echo and replay
    plugins, paced or not: it exits with 0 too and writes exactly the same to the standard output, write by write. *)
Theorem recorded_program_replays e1 argv1 num file cfg1 n :
  0 < num < 2 ^ 31 -> arg_ok file -> env_write e1 file = true -> env_read e1 cfg1 = Some (record_config num file) ->
  cfg1 <> [] -> NUL ∉ cfg1 -> uninterrupted e1 n false 0 ->
  exists s1 out text, runs (process I e1 argv1 (server_args cfg1 n false)) process_start 0 s1 out /\
    tg_file (w_transcribe (ss_world s1)) = FileClosed text /\
    forall e2 argv2 tic cfg2, is_u64 tic -> env_read e2 file = Some text -> env_read e2 cfg2 = Some (replay_config file tic) ->
      cfg2 <> [] -> NUL ∉ cfg2 -> uninterrupted e2 n false 0 -> in_time e2 tic n ->
      exists s2, runs (process I e2 argv2 (server_args cfg2 n false)) process_start 0 s2 out.
Proof.
  intros Hnum Hfile Hw Hcfg Hne Hnul Hrun.
  destruct (record_runs e1 argv1 num file cfg1 n) as (ns & fss & s1 & Hlen & Hns & Hu & Hfs & Hcs & R1 & F1); [done..|].
  exists s1, (echoed fss), (transcript ns fss). do 2 (split; [done|]). intros. by eapply replay_runs_back.
Qed.

End Program.

(** ** Example *)

Definition example_rand (k : nat) : Z := nth k [1; 2; 0; 3; 0] 1 * 1000000000.
Definition example_record : environment :=
  example_env [(str "rec.txt", record_config example_installation 2 (str "run.log"))] example_rand (fun _ => []).

Definition example_text : cstr := str "2
node0,0
node1,0
[tic#0]
[tic#1]
node0,,100
[tic#2]
node1,,100
".
Definition example_out : list event := printed echo_says
  [CallFail (str "node0") None 100; CallExtern (str "node0"); CallFail (str "node1") None 100; CallExtern (str "node1")].
Definition example_replay : environment := example_env
  [(str "rep.txt", replay_config example_installation (str "run.log") 5); (str "run.log", example_text)] (fun _ => 0) (fun _ => []).

(** What is seen of a run, and what it left in the transcript. *)
Definition seen (o : outcome event (ssys world) Z) : list event * file_ptr :=
  match o with
  | Done _ s tr => (List.filter visible tr, tg_file (w_transcribe (ss_world s)))
  | Halt _ tr => (List.filter visible tr, FileNull)
  end.

Lemma seen_inj (a c : list event) (b d : cstr) : (a, FileClosed b) = (c, FileClosed d) -> a = c /\ b = d.
Proof. by intros [= -> ->]. Qed.

Lemma example_seen : seen (example_process example_record (server_args (str "rec.txt") 3 false) process_start) = (example_out, FileClosed example_text).
Proof. vm_compute. reflexivity. Qed.

Lemma example_recorded s out text : runs (example_process example_record (server_args (str "rec.txt") 3 false)) process_start 0 s out ->
  tg_file (w_transcribe (ss_world s)) = FileClosed text -> out = example_out /\ text = example_text.
Proof. intros (tr & E & <-) F. pose proof example_seen as Es. rewrite E in Es. cbn [seen] in Es. rewrite F in Es. exact (seen_inj _ _ _ _ Es). Qed.

Lemma example_files : env_read example_record (str "rec.txt") = Some (record_config example_installation 2 (str "run.log")) /\
  env_read example_replay (str "rep.txt") = Some (replay_config example_installation (str "run.log") 5) /\
  env_read example_replay (str "run.log") = Some example_text.
Proof. by vm_compute. Qed.

Lemma recorded_program_replays_witness :
  exists s1 s2, runs (example_process example_record (server_args (str "rec.txt") 3 false)) process_start 0 s1 example_out /\
    tg_file (w_transcribe (ss_world s1)) = FileClosed example_text /\
    runs (example_process example_replay (server_args (str "rep.txt") 3 false)) process_start 0 s2 example_out.
Proof.
  destruct example_files as (Hf1 & Hf2 & Hf3).
  destruct (recorded_program_replays example_installation example_record None 2 (str "run.log") (str "rec.txt") 3) as (s1 & out & text & R1 & F1 & Hreplay);
    [lia|split; [done|elem_dec]|done|exact Hf1|done|elem_dec|apply example_uninterrupted; lia|].
  destruct (example_recorded s1 out text R1 F1) as [-> ->].
  destruct (Hreplay example_replay None 5 (str "rep.txt")) as [s2 R2];
    [done|exact Hf3|exact Hf2|done|elem_dec|apply example_uninterrupted; lia|right; apply example_punctual; lia|].
  exists s1, s2. split; [exact R1|]. split; [exact F1|exact R2].
Defined.
