(* ===== verification/LongTic.v ===== *)
(** * A tic length the server accepts and cannot keep
    [tic = ...] in the configuration is an unsigned number of nanoseconds of 64 bits, the duration of a tic a signed one:
    from the initialisation of the server (srv/server.cpp, [init]) to its first tic with a length of 2^63 or more. *)

From S2P Require Import Prelude CString Types PluginManager Config Server ServerTics Lifecycle Main EndToEnd Runs MainRuns Program.
Local Open Scope Z_scope.

Section Init.
Context {W : Type} (mem : plugin_ptr -> plugin W (host W)).
Implicit Types s : ssys W.


#[local] Abbreviation tic_zero := (fun s => sv_tic (ss_srv s) = 0).

Lemma preserves_on_host {A} (m : prog event (host W) A) : preserves tic_zero (on_host m).
Proof. intros s Hs. unfold on_host, zoom. by destruct (m (ss_host s)). Qed.
Lemma preserves_on_world {A} (m : prog event W A) : preserves tic_zero (on_world m).
Proof. intros s Hs. unfold on_world, zoom. by destruct (m (ss_world s)). Qed.
Lemma preserves_srv f : (forall v, sv_tic v = 0 -> sv_tic (f v) = 0) -> preserves tic_zero (modify_srv (W := W) f).
Proof. intros H. apply preserves_modify. intros s Hs. by apply H. Qed.
Lemma preserves_deref {A} (p : option A) : preserves tic_zero (deref p).
Proof. destruct p; [apply preserves_ret|apply preserves_stop]. Qed.

Hint Resolve preserves_on_host preserves_on_world preserves_srv preserves_deref : core.




End Init.

Section LongTic.
Context {W : Type} (mem : plugin_ptr -> plugin W (host W)) (aside : relation W) `{!PreOrder aside} (J : W -> Prop).
Context (fm : fault_manager W) `{!SilentFM fm} `{!Apart aside J fm} (c : com W) (says : com_call -> list event) `{!Voices aside J c says}.
Context (serialize : laik_ext_msg -> cstr) (now : nat -> Z).
Implicit Types s : ssys W.



End LongTic.

(** ** An example: 2^64 - 2^62 nanoseconds, which become -2^62; two nodes, the first of which fails in the first tic *)



#[export] Instance scripted_silent : SilentFM scripted.
Proof. by constructor; intros s; constructor. Qed.

