(* ===== verification/Mqtt.v ===== *)
(** * The MQTT side of the client (client/src/mqtt.c)

    Faults arrive as messages, are queued by the callback [on_message] and handed to the main loop by
    [get_faults].  The array of faults lives in a block whose size is what [realloc] was asked for:
    [usable n] is the number of bytes an allocation of [n] bytes really provides.  libmosquitto is not
    part of the program: [loop k] is what its [k]-th round returns, with the messages it delivers. *)

From S2P Require Import Prelude CString.
Local Open Scope Z_scope.

(** ** Shared by the parts of the client (client/include) *)

(** What the outside sees of the client and of the processes it controls. *)
Inductive cevent :=
| CStdout (text : cstr)
| CStderr (text : cstr)
| CFifo (text : cstr)                    (** written to the fifo *)
| CSend (topic payload : cstr)           (** handed to the MQTT library *)
| CDisconnect                            (** the connection to the broker closed and destroyed *)
| CShutdown (fd : Z)
| CClose (fd : Z)
| CWrite (fd : Z) (text : cstr)
| CMkfifo (path : cstr)                  (** a fifo made *)
| CFclose                                (** the fifo closed *)
| CUnlink (path : cstr)
| CCreateThread                          (** the thread of the backend *)
| CJoinThread.

#[export] Instance cevent_eq_dec : EqDecision cevent.
Proof. solve_decision. Defined.

(** client/include/interface.h *)
Record cfault := CFault { cf_component : option cstr; cf_severity : Z }.

Record mqtt_opt := MqttOpt { hostname : cstr; port : Z }.

(** ** mqtt.c *)

(** The globals; the block behind [faults] holds [fault_num] entries. *)
Record mqtt := Mqtt {
  con : bool;                            (** [con != NULL] *)
  node_specific_back_topic : cstr;
  fault_num : Z;
  faults : list cfault;
  faults_save : list cfault;
  rcv : Z;
  loops : nat                            (** rounds of the library so far *)
}.

Definition mqtt_zero : mqtt := Mqtt false [] 0 [] [] 0 0.

Definition set_queue n fs m := Mqtt (con m) (node_specific_back_topic m) n fs (faults_save m) (rcv m) (loops m).
Definition set_rcv v m := Mqtt (con m) (node_specific_back_topic m) (fault_num m) (faults m) (faults_save m) v (loops m).
Definition set_loops v m := Mqtt (con m) (node_specific_back_topic m) (fault_num m) (faults m) (faults_save m) (rcv m) v.
Definition set_save fs m := Mqtt (con m) (node_specific_back_topic m) (fault_num m) (faults m) fs (rcv m) (loops m).

(** [sizeof(fault)], and where the last member the code writes ends in it. *)
Definition sizeof_fault : Z := 16.
Definition fault_written : Z := 12.

Section Mqtt.
Context (usable : Z -> Z).
Context (new_ok : bool) (will_rc connect_rc subscribe_rc publish_rc : Z).
Context (loop : nat -> Z * list (cstr * option cstr)) (strerror : Z -> cstr).
Local Open Scope prog_scope.

(** [#define check(a,b)]: returns -1 from [init]; [k] is the rest. *)
Definition check (rc : Z) (k : prog cevent mqtt Z) : prog cevent mqtt Z := if rc =? 0 then k else ret (-1).

Definition init (name : cstr) (opt : mqtt_opt) : prog cevent mqtt Z :=
  if negb new_ok then modify (fun m => Mqtt false (node_specific_back_topic m) (fault_num m) (faults m) (faults_save m) (rcv m) (loops m)) ;; ret 1
  else
    let topic := str "envelope/master/" ++ name in
    modify (fun m => Mqtt true topic (fault_num m) (faults m) (faults_save m) (rcv m) (loops m)) ;;
    emit (CStdout (topic ++ [NL])) ;;
    check will_rc (check connect_rc (
      emit (CStdout (str "subscribing to: " ++ snprintf 511 (str "envelope/" ++ name ++ str "/#") ++ [NL])) ;;
      check subscribe_rc (ret 0))).

Definition send_back (buf : cstr) : prog cevent mqtt Z :=
  m <- get ;;
  if negb (con m) then ret (-1)
  else emit (CSend (node_specific_back_topic m) buf) ;; check publish_rc (ret 0).

(** The third part of a topic. *)
Definition topic_component (topic : cstr) : option cstr :=
  let slash := str "/" in
  let (_, r1) := strtok topic slash in
  let (_, r2) := strtok r1 slash in
  (strtok r2 slash).1.

(** The whole callback runs under [rcv_mutex]. *)
Definition on_message (msg : cstr * option cstr) : prog cevent mqtt unit :=
  emit (CStdout (str "new message!" ++ [NL])) ;;
  modify (set_rcv 1) ;;
  m <- get ;;
  let n := u64 (fault_num m + 1) in
  (* faults[fault_num - 1] in a block of [n] bytes *)
  if usable n <? sizeof_fault * (n - 1) + fault_written then stop Undefined
  else
    match msg.2 with
    | None => stop Undefined                       (* strtoul(NULL) *)
    | Some payload =>
        put (set_queue n (faults m ++ [CFault (topic_component msg.1) (u32 (strtoull payload 0).1)]) m)
    end.

(** The [do ... while(rcv)] of [get_faults]; [false] when the library fails. *)
Fixpoint drain (fuel : nat) : prog cevent mqtt bool :=
  match fuel with
  | O => stop OutOfFuel
  | S fuel' =>
      modify (set_rcv 0) ;;
      m <- get ;;
      let (x, msgs) := loop (loops m) in
      modify (set_loops (S (loops m))) ;;
      for_each msgs on_message ;;
      if negb (x =? 0) then
        emit (CStdout (str "loop failed for reason: " ++ strerror x ++ [NL])) ;; ret false
      else
        m <- get ;;
        if rcv m =? 0 then ret true else drain fuel'
  end.

(** The array returned and [*num], its length. *)
Definition get_faults (fuel : nat) : prog cevent mqtt (list cfault) :=
  m <- get ;;
  if negb (con m) then ret []
  else
    ok <- drain fuel ;;
    if ok : bool then
      m <- get ;;
      modify (fun m => set_queue 0 [] (set_save (faults m) m)) ;;
      ret (faults m)
    else ret [].

Definition cleanup : prog cevent mqtt unit :=
  m <- get ;;
  if con m then emit CDisconnect else ret tt.

(** *** The other callbacks only print *)

Definition on_connect (connack_string : Z -> cstr) (st : Z) : prog cevent mqtt unit :=
  emit (CStdout (str "Connection: " ++ connack_string st ++ [NL])).

(** [token] is the message id [init] got for its subscription; [qos] has [qos_count] elements. *)
Fixpoint print_qos (qos : list Z) : prog cevent mqtt unit :=
  match qos with
  | [] => ret tt
  | [q] => emit (CStdout (print_d q))
  | q :: qos' => emit (CStdout (print_d q ++ str ", ")) ;; print_qos qos'
  end.

Definition on_subscribe (token mid : Z) (qos : list Z) : prog cevent mqtt unit :=
  if mid =? token then
    emit (CStdout (str "subscribed! [")) ;; print_qos qos ;; emit (CStdout (str "]" ++ [NL]))
  else ret tt.

End Mqtt.

(** ** Correctness *)

(** The fault a message carries. *)
Definition decode (msg : cstr * option cstr) : cfault :=
  CFault (topic_component msg.1) (u32 (strtoull (default [] msg.2) 0).1).

(** The queue holds as many entries as [fault_num] says. *)
Definition queue_ok (m : mqtt) : Prop := fault_num m = Z.of_nat (length (faults m)).

(** [k] faults fit into blocks of the sizes asked for. *)
Definition room (usable : Z -> Z) (k : Z) : Prop :=
  forall n, 1 <= n <= k -> sizeof_fault * (n - 1) + fault_written <= usable n.

(** What an allocation of [n] bytes provides in glibc. *)
Definition glibc_usable (n : Z) : Z := Z.max 24 (16 * ((n + 8 + 15) / 16) - 8).

Section Correct.
Context (usable : Z -> Z) (strerror : Z -> cstr).

Definition queued (fs : list cfault) (m : mqtt) : mqtt := set_queue (Z.of_nat (length fs)) fs m.

Lemma on_message_spec msg m : queue_ok m -> room usable (fault_num m + 1) -> fault_num m + 1 < 2 ^ 64 -> is_Some msg.2 ->
  on_message usable msg m = Done tt (set_rcv 1 (queued (faults m ++ [decode msg]) m)) [CStdout (str "new message!" ++ [NL])].
Proof.
  intros Hq Hr Hu [p Hp]. unfold on_message, bind, emit, modify, get, put. cbn. unfold queue_ok in Hq.
  rewrite u64_id by (unfold is_u64; lia).
  destruct (Z.ltb_spec (usable (fault_num m + 1)) (sizeof_fault * (fault_num m + 1 - 1) + fault_written)) as [H|_].
  { exfalso. pose proof (Hr (fault_num m + 1) ltac:(lia)). lia. }
  rewrite Hp. unfold decode, queued. rewrite Hp, length_app. cbn. do 2 f_equal. unfold set_queue, set_rcv. cbn. f_equal. lia.
Qed.

Lemma on_messages_spec msgs : forall m, queue_ok m -> room usable (fault_num m + Z.of_nat (length msgs)) ->
  fault_num m + Z.of_nat (length msgs) < 2 ^ 64 -> Forall (fun msg => is_Some msg.2) msgs ->
  exists tr, for_each msgs (on_message usable) m = Done tt
    (set_rcv (match msgs with [] => rcv m | _ => 1 end) (queued (faults m ++ map decode msgs) m)) tr.
Proof.
  induction msgs as [|msg msgs IH]; intros m Hq Hr Hu Hp.
  - exists []. cbn. rewrite app_nil_r. unfold queued, set_rcv, set_queue. cbn. rewrite <- Hq. by destruct m.
  - apply Forall_cons in Hp as [Hp Hps]. cbn [length] in *.
    assert (on_message usable msg m = Done tt (set_rcv 1 (queued (faults m ++ [decode msg]) m)) [CStdout (str "new message!" ++ [NL])]) as E1.
    { apply on_message_spec; [done|intros n Hn; apply Hr; lia|lia|done]. }
    set (m1 := set_rcv 1 (queued (faults m ++ [decode msg]) m)) in *. unfold queue_ok in Hq.
    assert (fault_num m1 = fault_num m + 1) as Hn by (cbn; rewrite length_app; cbn; lia).
    destruct (IH m1) as [tr E2]; [unfold queue_ok; cbn; done|rewrite Hn; intros n Hn'; apply Hr; lia|rewrite Hn; lia|done|].
    eexists. cbn [for_each]. etransitivity; [exact (bind_done _ _ _ _ _ _ _ _ _ E1 E2)|]. f_equal.
    unfold m1, queued, set_rcv, set_queue. cbn. rewrite <- app_assoc. cbn. by destruct msgs.
Qed.

Context (loop : nat -> Z * list (cstr * option cstr)).

(** The messages of [j] rounds from round [k] on. *)
Definition arriving (k j : nat) : list (cstr * option cstr) := concat (map (fun i => (loop i).2) (seq k j)).

Lemma drain_spec j : forall fuel m, queue_ok m -> (j < fuel)%nat ->
  (forall i, (loops m <= i < loops m + j)%nat -> (loop i).1 = 0 /\ (loop i).2 <> []) ->
  loop (loops m + j) = (0, []) ->
  let msgs := arriving (loops m) j in
  room usable (fault_num m + Z.of_nat (length msgs)) -> fault_num m + Z.of_nat (length msgs) < 2 ^ 64 ->
  Forall (fun msg => is_Some msg.2) msgs ->
  exists tr, drain usable loop strerror fuel m =
    Done true (set_rcv 0 (set_loops (S (loops m + j)) (queued (faults m ++ map decode msgs) m))) tr.
Proof.
  induction j as [|j IH]; intros [|fuel] m Hq Hf Hl Hlast msgs Hr Hu Hp; try lia; cbn [drain].
  - rewrite Nat.add_0_r in *. unfold bind at 1, modify at 1. unfold bind at 1, get at 1. cbn [loops set_rcv].
    rewrite Hlast. unfold bind, modify, get, ret. cbn. rewrite app_nil_r. eexists. f_equal.
    unfold queued, set_queue, set_rcv, set_loops. cbn. by rewrite <- Hq.
  - destruct (Hl (loops m) ltac:(lia)) as [Hx Hne]. unfold bind at 1, modify at 1. unfold bind at 1, get at 1. cbn [loops set_rcv].
    unfold msgs, arriving in *. cbn [seq map concat] in *. destruct (loop (loops m)) as [x ms] eqn:El. cbn [fst snd] in *. subst x.
    set (m1 := set_loops (S (loops m)) (set_rcv 0 m)).
    rewrite length_app, Nat2Z.inj_add in *. apply Forall_app in Hp as [Hp1 Hp2].
    destruct (on_messages_spec ms m1) as [t1 E1]; [exact Hq|intros n Hn; apply Hr; cbn in Hn; lia|cbn; lia|done|].
    set (m2 := set_rcv _ _) in E1.
    assert (loops m2 = S (loops m) /\ rcv m2 = 1 /\ faults m2 = faults m ++ map decode ms /\
      fault_num m2 = fault_num m + Z.of_nat (length ms)) as (Hlp & Hrc & Hfs & Hfn).
    { unfold queue_ok in Hq. cbn. rewrite length_app, length_map. split_and!; [done|by destruct ms|done|lia]. }
    destruct (IH fuel m2) as [t2 E2].
    + unfold queue_ok. rewrite Hfs, Hfn, length_app, length_map. unfold queue_ok in Hq. lia.
    + lia.
    + intros i Hi. apply Hl. lia.
    + rewrite Hlp. rewrite Nat.add_succ_r in Hlast. exact Hlast.
    + rewrite Hfn, Hlp. intros n Hn. apply Hr. lia.
    + rewrite Hfn, Hlp. lia.
    + by rewrite Hlp.
    + unfold bind at 1, modify at 1. fold m1. unfold bind at 1. rewrite E1. cbn [negb Z.eqb]. unfold bind, get.
      rewrite Hrc. cbn [Z.eqb]. rewrite E2. eexists. f_equal. rewrite Hlp, Hfs, <- app_assoc, <- map_app.
      rewrite Nat.add_succ_r. unfold queued, set_queue, set_rcv, set_loops. cbn. done.
Qed.

(** What [get_faults] hands over when the library delivers messages in [j] rounds and then has a round
    without any: the faults of all messages, those still queued first, in the order of their arrival. *)
Lemma get_faults_run j fuel m : con m = true -> queue_ok m -> (j < fuel)%nat ->
  (forall i, (loops m <= i < loops m + j)%nat -> (loop i).1 = 0 /\ (loop i).2 <> []) ->
  loop (loops m + j) = (0, []) ->
  let msgs := arriving (loops m) j in
  room usable (fault_num m + Z.of_nat (length msgs)) -> fault_num m + Z.of_nat (length msgs) < 2 ^ 64 ->
  Forall (fun msg => is_Some msg.2) msgs ->
  exists m' tr, get_faults usable loop strerror fuel m = Done (faults m ++ map decode msgs) m' tr /\
    faults m' = [] /\ queue_ok m' /\ con m' = true /\ loops m' = S (loops m + j).
Proof.
  intros Hc Hq Hf Hl Hlast msgs Hr Hu Hp. destruct (drain_spec j fuel m Hq Hf Hl Hlast Hr Hu Hp) as [tr E].
  unfold get_faults. unfold bind at 1, get at 1. rewrite Hc. cbn [negb]. unfold bind at 1. rewrite E.
  unfold bind, get, modify, ret. eexists _, _. split; [reflexivity|]. by cbn.
Qed.

(** [get_faults] writes to the terminal only. *)
Definition to_stdout (e : cevent) : Prop := match e with CStdout _ => True | _ => False end.

#[local] Hint Extern 1 (to_stdout _) => exact I : lausim.

Lemma get_faults_stdout fuel : emits to_stdout (get_faults usable loop strerror fuel).
Proof.
  assert (forall msg, emits to_stdout (on_message usable msg)) as Hm.
  { intros [topic [payload|]]; unfold on_message; cbn [snd]; auto 8 with lausim. }
  assert (emits to_stdout (drain usable loop strerror fuel)) as Hd.
  { induction fuel as [|fuel IH]; cbn [drain]; [auto with lausim|].
    apply emits_bind; [auto with lausim|intros _]. apply emits_bind; [auto with lausim|intros m].
    destruct (loop (loops m)) as [x msgs]. apply emits_bind; [auto with lausim|intros _].
    apply emits_bind; [auto with lausim|intros _]. auto 8 with lausim. }
  unfold get_faults. apply emits_bind; [auto with lausim|intros m]. apply emits_if; [auto with lausim|].
  apply emits_bind; [done|]. intros []; auto with lausim.
Qed.

(** C35: the array is too small.  The callback asks [realloc] for as many bytes as there are faults, not
    for as many faults; a message for which the block provides less than the entry it writes is
    undefined behaviour.  Counted by what was asked for, that is every message; with the slack of
    glibc's allocator, every second message that is queued before the main loop fetches the first. *)
Theorem on_message_overflow msg m : queue_ok m -> fault_num m + 1 < 2 ^ 64 ->
  (usable (fault_num m + 1) < sizeof_fault * fault_num m + fault_written ->
    on_message usable msg m = Halt Undefined [CStdout (str "new message!" ++ [NL])]) /\
  on_message (fun n => n) msg m = Halt Undefined [CStdout (str "new message!" ++ [NL])] /\
  (1 <= fault_num m -> on_message glibc_usable msg m = Halt Undefined [CStdout (str "new message!" ++ [NL])]).
Proof.
  intros Hq Hu.
  assert (forall us, us (fault_num m + 1) < sizeof_fault * fault_num m + fault_written ->
    on_message us msg m = Halt Undefined [CStdout (str "new message!" ++ [NL])]) as H.
  { intros us Hus. unfold on_message, bind, emit, modify, get, put. cbn. unfold queue_ok in Hq.
    rewrite u64_id by (unfold is_u64; lia). rewrite Z.add_simpl_r.
    destruct (Z.ltb_spec (us (fault_num m + 1)) (sizeof_fault * fault_num m + fault_written)); [done|lia]. }
  split; [apply H|]. unfold queue_ok in Hq. split.
  - apply H. unfold sizeof_fault, fault_written. lia.
  - intros H1. apply H. unfold sizeof_fault, fault_written, glibc_usable.
    pose proof (Z.div_mod (fault_num m + 1 + 8 + 15) 16 ltac:(lia)). pose proof (Z.mod_pos_bound (fault_num m + 1 + 8 + 15) 16). lia.
Qed.

End Correct.

(** ** Examples *)

Definition example_mqtt : mqtt := Mqtt true (str "envelope/master/node0") 0 [] [] 0 0.
Definition example_loop (k : nat) : Z * list (cstr * option cstr) :=
  match k with
  | O => (0, [(str "envelope/node0/net", Some (str "0x64"))])
  | 1%nat => (0, [(str "envelope/node0", Some (str "0x0")); (str "envelope/node0/memory", Some (str "0x5"))])
  | _ => (0, [])
  end.

Lemma on_message_overflow_witness :
  on_message glibc_usable (str "envelope/node0", Some (str "0x64")) (queued [CFault None 0] example_mqtt) =
    Halt Undefined [CStdout (str "new message!" ++ [NL])].
Proof.
  apply (proj2 (proj2 (on_message_overflow glibc_usable (str "envelope/node0", Some (str "0x64"))
    (queued [CFault None 0] example_mqtt) eq_refl ltac:(done)))). done.
Defined.
