(* ===== verification/Client.v ===== *)
(** * The client program (client/src/client.c)

    It announces that the node is ready, then forwards the faults it receives to the fifo the backend
    reads.  [req_stop k] is the flag the signal handler sets, at its [k]-th test; [pack_ready] is
    the generated code that packs the status message. *)

From S2P Require Import Prelude CString Mqtt.
Local Open Scope Z_scope.

(** The line for the fifo. *)
Definition command_line (f : cfault) : cstr :=
  match cf_component f with
  | None => str "power " ++ print_d (cf_severity f) ++ [NL]
  | Some c => c ++ str " " ++ print_d (cf_severity f) ++ [NL]
  end.

(** [%3d] *)
Definition pad_left (width : nat) (s : cstr) : cstr := repeat " "%char (width - length s) ++ s.

(** [printf("%s failed (%3d)\n", ...)]; a null string prints as glibc prints it. *)
Definition failed_line (f : cfault) : cstr :=
  default (str "(null)") (cf_component f) ++ str " failed (" ++ pad_left 3 (print_d (cf_severity f)) ++ str ")" ++ [NL].

Section Client.
Context (usable : Z -> Z).
Context (new_ok : bool) (will_rc connect_rc subscribe_rc publish_rc : Z).
Context (loop : nat -> Z * list (cstr * option cstr)) (strerror : Z -> cstr).
Context (pack_ready : cstr -> cstr) (fopen_ok : bool) (req_stop : nat -> bool).
Local Open Scope prog_scope.

(** The body of the loop over the faults; the result is [synced]. *)
Definition forward (synced : bool) (f : cfault) : prog cevent mqtt bool :=
  if negb synced then emit (CFifo [NL]) ;; ret true
  else
    emit (CStdout (failed_line f)) ;;
    emit (CFifo (command_line f)) ;;
    ret true.

Fixpoint forward_all (synced : bool) (fs : list cfault) : prog cevent mqtt bool :=
  match fs with
  | [] => ret synced
  | f :: fs' => synced' <- forward synced f ;; forward_all synced' fs'
  end.

(** [while(!req_stop)]; [drain_fuel] bounds the rounds inside [get_faults]. *)
Fixpoint main_loop (drain_fuel fuel k : nat) (synced : bool) : prog cevent mqtt unit :=
  match fuel with
  | O => stop OutOfFuel
  | S fuel' =>
      if req_stop k then ret tt
      else
        flt <- get_faults usable loop strerror drain_fuel ;;
        synced' <- forward_all synced flt ;;
        main_loop drain_fuel fuel' (S k) synced'
  end.

Definition main (drain_fuel fuel : nat) (argv : list cstr) : prog cevent mqtt Z :=
  if negb fopen_ok then ret 1
  else
    match argv with
    | _ :: name :: host :: port :: _ =>
        rc <- init new_ok will_rc connect_rc subscribe_rc name (MqttOpt host ((strtoull port 0).1 mod 2 ^ 16)) ;;
        if negb (rc =? 0) then emit (CStdout (str "mqtt init failed" ++ [NL])) ;; ret (-2)
        else
          send_back publish_rc (pack_ready name) ;;
          main_loop drain_fuel fuel 0 false ;;
          emit (CFifo (str "exit" ++ [NL])) ;;
          emit CFclose ;;
          cleanup ;;
          ret 0
    | _ =>
        emit (CStdout (str "usage: " ++ default (str "com_mqtt") (head argv) ++ str " name host port" ++ [NL])) ;; ret (-1)
    end.

End Client.

(** ** Correctness *)

(** What a trace puts into the fifo. *)
Definition fifo_text (tr : list cevent) : cstr := concat (omap (fun e => match e with CFifo t => Some t | _ => None end) tr).

Lemma fifo_text_app a b : fifo_text (a ++ b) = fifo_text a ++ fifo_text b.
Proof. unfold fifo_text. by rewrite omap_app, concat_app. Qed.

Lemma stdout_fifo tr : Forall to_stdout tr -> fifo_text tr = [].
Proof. unfold fifo_text. induction 1 as [|[] tr He _ IH]; done. Qed.

(** The commands for the faults received so far. *)
Definition commands (synced : bool) (fs : list cfault) : cstr :=
  if synced then concat (map command_line fs)
  else match fs with [] => [] | _ :: fs' => NL :: concat (map command_line fs') end.

Lemma commands_app synced a b :
  commands synced (a ++ b) = commands synced a ++ commands (synced || negb (bool_decide (a = []))) b.
Proof.
  destruct synced; cbn; [by rewrite map_app, concat_app|]. destruct a as [|f a]; cbn; [done|].
  by rewrite map_app, concat_app.
Qed.

Lemma forward_all_spec fs : forall synced m, exists tr,
  forward_all synced fs m = Done (synced || negb (bool_decide (fs = []))) m tr /\ fifo_text tr = commands synced fs.
Proof.
  induction fs as [|f fs IH]; intros synced m; [exists []; by rewrite bool_decide_true, orb_false_r; destruct synced|].
  rewrite bool_decide_false by done. rewrite orb_true_r. cbn [forward_all].
  destruct (IH true m) as (tr & E & Ht). cbn [orb] in E. unfold forward, bind, emit, ret.
  destruct synced; cbn [negb]; rewrite E; eexists; (split; [reflexivity|]); cbn; rewrite fifo_text_app || idtac; unfold fifo_text in *; cbn; by rewrite Ht.
Qed.

Section Correct.
Context (usable : Z -> Z) (loop : nat -> Z * list (cstr * option cstr)) (strerror : Z -> cstr).
Context (req_stop : nat -> bool).

(** The rounds of the library: each call of [get_faults] sees a batch of rounds with messages, of which [P] holds, then an
    empty round. *)
Fixpoint visits (P : list (cstr * option cstr) -> Prop) (k : nat) (bs : list nat) : Prop :=
  match bs with
  | [] => True
  | j :: bs' =>
      (forall i, (k <= i < k + j)%nat -> (loop i).1 = 0 /\ (loop i).2 <> []) /\
      loop (k + j) = (0, []) /\ Forall (fun msg => is_Some msg.2) (arriving loop k j) /\
      P (arriving loop k j) /\ visits P (S (k + j)) bs'
  end.

(** The allocator has room for every batch; and the batches for which glibc's is known to have: one message, or none. *)
Definition batches : nat -> list nat -> Prop :=
  visits (fun msgs => room usable (Z.of_nat (length msgs)) /\ Z.of_nat (length msgs) < 2 ^ 64).
Definition one_by_one : nat -> list nat -> Prop := visits (fun msgs => (length msgs <= 1)%nat).

Lemma visits_mono (P Q : list (cstr * option cstr) -> Prop) bs : (forall msgs, P msgs -> Q msgs) -> forall k, visits P k bs -> visits Q k bs.
Proof. intros H. induction bs as [|j bs IH]; intros k; [done|]. cbn. intros (? & ? & ? & ? & ?). split_and!; auto. Qed.

Fixpoint received (k : nat) (bs : list nat) : list cfault :=
  match bs with
  | [] => []
  | j :: bs' => map decode (arriving loop k j) ++ received (S (k + j)) bs'
  end.

Lemma main_loop_spec drain_fuel bs : forall fuel i synced m,
  con m = true -> queue_ok m -> faults m = [] -> batches (loops m) bs -> Forall (fun j => (j < drain_fuel)%nat) bs ->
  (length bs < fuel)%nat -> (forall k, (k < length bs)%nat -> req_stop (i + k) = false) -> req_stop (i + length bs) = true ->
  exists m' tr, main_loop usable loop strerror req_stop drain_fuel fuel i synced m = Done tt m' tr /\ con m' = true /\
    fifo_text tr = commands synced (received (loops m) bs).
Proof.
  induction bs as [|j bs IH]; intros [|fuel] i synced m Hc Hq Hf Hb Hd Hl Hrun Hstop; cbn [length] in *; try lia; cbn [main_loop].
  - rewrite Nat.add_0_r in Hstop. rewrite Hstop. exists m, []. split; [done|]. split; [done|]. by destruct synced.
  - pose proof (Hrun 0%nat ltac:(lia)) as H0. rewrite Nat.add_0_r in H0. rewrite H0.
    destruct Hb as (Hb1 & Hb2 & Hb3 & [Hb4 Hb5] & Hb6). apply Forall_cons in Hd as [Hd Hds].
    assert (fault_num m = 0) as Hn by (unfold queue_ok in Hq; rewrite Hf in Hq; done).
    destruct (get_faults_run usable strerror loop j drain_fuel m Hc Hq Hd Hb1 Hb2) as (m1 & t1 & E1 & Hf1 & Hq1 & Hc1 & Hl1);
      [by rewrite Hn|by rewrite Hn|done|].
    rewrite Hf in E1. cbn [app] in E1.
    destruct (forward_all_spec (map decode (arriving loop (loops m) j)) synced m1) as (t2 & E2 & Ht2).
    destruct (IH fuel (S i) (synced || negb (bool_decide (map decode (arriving loop (loops m) j) = []))) m1) as (m2 & t3 & E3 & Hc3 & Ht3);
      [done|done|done|by rewrite Hl1|done|lia| | |].
    + intros k Hk. replace (S i + k)%nat with (i + S k)%nat by lia. apply Hrun. lia.
    + by replace (S i + length bs)%nat with (i + S (length bs))%nat by lia.
    + exists m2, (t1 ++ t2 ++ t3). split; [exact (bind_done _ _ _ _ _ _ _ _ _ E1 (bind_done _ _ _ _ _ _ _ _ _ E2 E3))|]. split; [done|].
      rewrite !fifo_text_app, Ht2, Ht3, Hl1. cbn [received]. rewrite commands_app.
      by rewrite (stdout_fifo _ (emits_done _ _ _ _ _ _ (get_faults_stdout _ _ _ _) E1)).
Qed.

(** A whole run of the client: it reports that the node is ready, and then, until it is told to stop, the
    fifo receives a newline for the first fault (for which any first fault is taken), the command line of
    every later fault, and finally the command to exit. [bs] lists how many rounds with messages each call
    of [get_faults] sees. *)
Lemma main_run pack_ready prog_name name host port rest drain_fuel bs fuel :
  batches 0 bs -> Forall (fun j => (j < drain_fuel)%nat) bs -> (length bs < fuel)%nat ->
  (forall k, (k < length bs)%nat -> req_stop k = false) -> req_stop (length bs) = true ->
  exists m' tr, main usable true 0 0 0 0 loop strerror pack_ready true req_stop drain_fuel fuel
      (prog_name :: name :: host :: port :: rest) mqtt_zero = Done 0 m' tr /\
    CSend (str "envelope/master/" ++ name) (pack_ready name) ∈ tr /\
    fifo_text tr = commands false (received 0 bs) ++ str "exit" ++ [NL].
Proof.
  intros Hb Hd Hl Hrun Hstop. unfold main. cbn [negb].
  set (m0 := Mqtt true (str "envelope/master/" ++ name) 0 [] [] 0 0).
  destruct (main_loop_spec drain_fuel bs fuel 0 false m0) as (m' & tr & E & Hcon & Ht); try done.
  assert (exists t0, init true 0 0 0 name (MqttOpt host ((strtoull port 0).1 mod 2 ^ 16)) mqtt_zero = Done 0 m0 t0 /\
    fifo_text t0 = []) as (t0 & E0 & Ht0) by (unfold init, check, bind, emit, modify, ret; cbn -[snprintf str]; eexists; split; [reflexivity|done]).
  eexists m', _. split; [|split].
  - eapply bind_done; [exact E0|]. cbv iota beta. cbn [negb Z.eqb].
    eapply (bind_done _ _ _ 0 m0 [CSend (str "envelope/master/" ++ name) (pack_ready name)]); [reflexivity|]. cbv beta.
    eapply bind_done; [exact E|]. do 2 (eapply bind_done; [reflexivity|]).
    eapply (bind_done _ _ _ tt m' [CDisconnect]); [by unfold cleanup, bind, get, emit; rewrite Hcon|]. reflexivity.
  - set_solver.
  - rewrite !fifo_text_app, Ht, Ht0. cbn. done.
Qed.

End Correct.

Lemma glibc_one_by_one loop k bs : one_by_one loop k bs -> batches glibc_usable loop k bs.
Proof.
  apply visits_mono. intros msgs Hl. split; [|lia]. intros n Hn. unfold glibc_usable, sizeof_fault, fault_written. transitivity 24; [lia|apply Z.le_max_l].
Qed.

