(* ===== verification/Backend.v ===== *)
(** * The backend in the application's process (client/src/backend.c, client/include/backend_if.h)

    The backend reads commands from the fifo and applies them to the subsystems of the node through
    [lauSim_set_state], which each kind of actor (Preload.v, Privileged.v) implements.  [close_req k]
    tells whether the [k]-th [select] reports the request to close; reading at the end of the fifo's text
    is the endless retry of the code. *)

From S2P Require Import Prelude CString Mqtt Client.
Local Open Scope Z_scope.

(** [enum en_subsys] *)
Definition SUBSYS_NET : Z := 1.
Definition SUBSYS_MEM : Z := 2.
Definition SUBSYS_PWR : Z := 4.

(** What backend_if.h asks an actor to provide. *)
Record actor (S : Type) := Actor {
  lauSim_set_state : Z -> Z -> prog cevent S Z;
  lauSim_cleanup : prog cevent S unit;
  lauSim_backend_init : prog cevent S Z
}.
Arguments Actor {S}.
Arguments lauSim_set_state {S}.
Arguments lauSim_cleanup {S}.
Arguments lauSim_backend_init {S}.

(** ** The fifo *)

Definition FIFO_FILE : cstr := str "/tmp/lauSim/backend".

(** The globals [fifo], as the text that comes out of it, and [fifo_created]. *)
Record fifo_globals := FifoGlobals { fifo : option cstr; fifo_created : bool }.
Definition fifo_initial : fifo_globals := FifoGlobals None true.

Section Fifo.
Context {S : Type}.
Local Open Scope prog_scope.

(** The results of [mkfifo] and [fopen], and the text [perror] prints for a routine that failed, are arguments. *)
Definition lauSim_get_fifo (perror : cstr -> cstr) (mkfifo_ok : bool) (fopen : option cstr) (g : fifo_globals) : prog cevent S fifo_globals :=
  match fifo g with
  | Some _ => ret g
  | None =>
      (if mkfifo_ok then emit (CMkfifo FIFO_FILE) else emit (CStderr (perror (str "mkfifo")))) ;;
      let g := if mkfifo_ok then g else FifoGlobals (fifo g) false in
      emit (CStderr (str "fifo created" ++ [NL])) ;;
      match fopen with
      | None => emit (CStderr (perror (str "fopen"))) ;; emit (CUnlink FIFO_FILE) ;; ret g
      | Some text => ret (FifoGlobals (Some text) (fifo_created g))
      end
  end.

Definition lauSim_fifo_cleanup (g : fifo_globals) : prog cevent S unit :=
  if fifo_created g && bool_decide (is_Some (fifo g)) then emit CFclose ;; emit (CUnlink FIFO_FILE) else ret tt.

Definition lauSim_backend_cleanup := lauSim_fifo_cleanup.

End Fifo.

Section Backend.
Context {S : Type} (act : actor S) (close_req : nat -> bool) (g : fifo_globals).
Local Open Scope prog_scope.

(** [lauSim_init]: the result is the return code and the globals, the fifo without the character that
    has been read. *)
Definition lauSim_init (perror : cstr -> cstr) (mkfifo_ok : bool) (fopen : option cstr) : prog cevent S (Z * fifo_globals) :=
  g <- lauSim_get_fifo perror mkfifo_ok fopen fifo_initial ;;
  g <- (if fifo_created g
        then match fifo g with None => stop Undefined | Some text => ret (FifoGlobals (Some (tail text)) true) end
        else ret g) ;;
  rc <- lauSim_backend_init act ;;
  ret (if rc =? 0 then 0 else 1, g).

(** What a line asks for; [CommandSkip] continues with the next line. *)
Inductive command := CommandSkip (msg : cstr) | CommandExit | CommandSet (cmd_str : cstr) (opt : Z).

Definition line_delim : cstr := str " " ++ [NL].

Definition parse_line (line : cstr) : command :=
  match strtok line line_delim with
  | (None, _) => CommandSkip []
  | (Some cmd_str, rest) =>
      if strcmp_eq cmd_str (str "exit") then CommandExit
      else match (strtok rest line_delim).1 with
           | None => CommandSkip (str "empty optstr! (" ++ cmd_str ++ str ")")
           | Some opt_str => CommandSet cmd_str (strtoull opt_str 0).1
           end
  end.

(** The three comparisons: [cmd] keeps its value when the word is none of the three. *)
Definition update_cmd (cmd_str : cstr) (cmd : option Z) : option Z :=
  let cmd := if strcmp_eq cmd_str (str "net") then Some SUBSYS_NET else cmd in
  let cmd := if strcmp_eq cmd_str (str "power") then Some SUBSYS_PWR else cmd in
  if strcmp_eq cmd_str (str "memory") then Some SUBSYS_MEM else cmd.

(** The end of [lauSim_main]. *)
Definition finish : prog cevent S Z := lauSim_fifo_cleanup g ;; lauSim_cleanup act ;; ret 0.

(** The [while(1)] of [lauSim_main] at its [k]-th round; [cmd] is [None] while it is uninitialised. *)
Fixpoint lauSim_loop (fuel k : nat) (text : cstr) (cmd : option Z) : prog cevent S Z :=
  match fuel with
  | O => stop OutOfFuel
  | Datatypes.S fuel' =>
      if close_req k then emit (CStderr (str "requested to close" ++ [NL])) ;; finish
      else
        match getline text with
        | None => lauSim_loop fuel' (Datatypes.S k) text cmd
        | Some (line, text') =>
            emit (CStderr (str "command: " ++ c_str line)) ;;
            match parse_line (c_str line) with
            | CommandSkip msg => emit (CStderr msg) ;; lauSim_loop fuel' (Datatypes.S k) text' cmd
            | CommandExit => finish
            | CommandSet cmd_str opt =>
                match update_cmd cmd_str cmd with
                | None => stop Undefined
                | Some c =>
                    lauSim_set_state act c opt ;;
                    lauSim_loop fuel' (Datatypes.S k) text' (Some c)
                end
            end
        end
  end.

(** [fileno(fifo)] comes before the test of [fifo]. *)
Definition lauSim_main (fuel : nat) : prog cevent S Z :=
  match fifo g with
  | None => stop Undefined
  | Some text => lauSim_loop fuel 0 text None
  end.

End Backend.

(** ** The commands of the client *)

(** The subsystem a fault is about: a whole node is its power supply. *)
Definition subsystem (f : cfault) : option Z :=
  match cf_component f with
  | None => Some SUBSYS_PWR
  | Some c =>
      if decide (c = str "net") then Some SUBSYS_NET
      else if decide (c = str "memory") then Some SUBSYS_MEM
      else if decide (c = str "power") then Some SUBSYS_PWR
      else None
  end.

(** The severity as it comes out of the fifo: printed as an [int], read as an [unsigned long]. *)
Definition fifo_severity (severity : Z) : Z := u64 (s32 severity).

(** A fault of a subsystem the backend knows. *)
Definition known (f : cfault) : Prop := is_u32 (cf_severity f) /\ is_Some (subsystem f).

Definition call_of (f : cfault) : Z * Z := (default 0 (subsystem f), fifo_severity (cf_severity f)).

Section Correct.
Context {S : Type} (act : actor S).

Definition set_states (calls : list (Z * Z)) : prog cevent S unit :=
  for_each calls (fun c => bind (lauSim_set_state act c.1 c.2) (fun _ => ret tt)).

(** A word of a command line. *)
Definition token_ok (w : cstr) : Prop := w <> [] /\ forall c, c ∈ w -> c ∉ [NL; NUL; " "%char].

Lemma command_line_split w n : token_ok w -> let line := w ++ str " " ++ print_d n ++ [NL] in
  (forall r, getline (line ++ r) = Some (line, r)) /\ c_str line = line.
Proof.
  intros [_ Hw] line. assert (forall c, c ∈ w ++ str " " ++ print_d n -> c ∉ [NL; NUL]) as Hc.
  { intros c. rewrite !elem_of_app. intros [H|[H%list_elem_of_singleton|H]].
    - excluded (Hw c H).
    - subst c. elem_dec.
    - excluded (number_char_not c (print_signed_chars _ _ H)). }
  assert (line = (w ++ str " " ++ print_d n) ++ [NL]) as -> by (unfold line; by rewrite <- !app_assoc).
  split.
  - intros r. rewrite <- app_assoc. apply getline_app. intros H. excluded (Hc NL H).
  - apply c_str_id. intros [H|H%list_elem_of_singleton]%elem_of_app; [excluded (Hc NUL H)|done].
Qed.

Lemma parse_line_set w n : token_ok w -> w <> str "exit" -> is_u32 n ->
  parse_line (w ++ str " " ++ print_d n ++ [NL]) = CommandSet w (fifo_severity n).
Proof.
  intros [Hne Hw] Hexit Hn. unfold parse_line.
  change (str " " ++ print_d n ++ [NL]) with (" "%char :: (print_d n ++ [NL])).
  rewrite (strtok_token line_delim w); [|done|intros c Hc; excluded (Hw c Hc)|elem_dec].
  unfold strcmp_eq. rewrite bool_decide_false by done.
  change (drop 1 (" "%char :: print_d n ++ [NL])) with (print_d n ++ [NL]).
  rewrite (strtok_token line_delim (print_d n)); [|apply print_signed_ne| |elem_dec].
  - cbn [fst]. pose proof (strtoull_print_d_value n [] Hn I) as E. rewrite app_nil_r in E. by rewrite E.
  - intros c Hc. excluded (number_char_not c (print_signed_chars _ _ Hc)).
Qed.

Lemma known_word w : w ∈ [str "net"; str "memory"; str "power"] -> token_ok w /\ w <> str "exit".
Proof.
  revert w. apply Forall_forall. repeat apply Forall_cons_2; [..|by apply Forall_nil]; (split; [split; [done|]|done]);
    intros x Hx; cbn in Hx; repeat (apply elem_of_cons in Hx as [-> | Hx]; [elem_dec|]); by apply not_elem_of_nil in Hx.
Qed.

(** The command for a fault of a known subsystem starts with a word for it. *)
Lemma subsystem_word f sys : subsystem f = Some sys ->
  exists w, command_line f = w ++ str " " ++ print_d (cf_severity f) ++ [NL] /\ token_ok w /\ w <> str "exit" /\
    forall cmd, update_cmd w cmd = Some sys.
Proof.
  unfold subsystem, command_line. destruct (cf_component f) as [c|]; intros E.
  - exists c. split; [done|]. repeat case_decide; try done; subst c; injection E as <-;
      (split; [apply known_word; elem_dec|split; done]).
  - injection E as <-. exists (str "power"). split; [done|]. split; [apply known_word; elem_dec|done].
Qed.

(** Any other word leaves [cmd] as it is. *)
Lemma unknown_word w cmd n : subsystem (CFault (Some w) n) = None -> update_cmd w cmd = cmd.
Proof.
  unfold subsystem, update_cmd, strcmp_eq. cbn. intros E. by repeat (case_decide || case_bool_decide).
Qed.

Context (close_req : nat -> bool) (g : fifo_globals).
Local Open Scope prog_scope.

(** One round of the loop, for a command of a known subsystem and for the exit command. *)
Lemma lauSim_loop_command f sys fuel k text cmd : close_req k = false -> is_u32 (cf_severity f) -> subsystem f = Some sys ->
  lauSim_loop act close_req g (Datatypes.S fuel) k (command_line f ++ text) cmd =
  (emit (CStderr (str "command: " ++ command_line f)) ;; lauSim_set_state act sys (fifo_severity (cf_severity f)) ;;
   lauSim_loop act close_req g fuel (Datatypes.S k) text (Some sys)).
Proof.
  intros Hc Hsev Hsys. destruct (subsystem_word f sys Hsys) as (w & Hl & Hw & Hexit & Hu).
  destruct (command_line_split w (cf_severity f) Hw) as [Hg Hs]. cbn [lauSim_loop]. rewrite Hc, Hl, Hg, Hs, parse_line_set by done.
  by rewrite Hu.
Qed.

Lemma lauSim_loop_exit fuel k rest cmd : close_req k = false ->
  lauSim_loop act close_req g (Datatypes.S fuel) k ((str "exit" ++ [NL]) ++ rest) cmd =
  (emit (CStderr (str "command: " ++ str "exit" ++ [NL])) ;; finish act g).
Proof.
  intros Hc. cbn [lauSim_loop]. rewrite Hc. by assert (getline ((str "exit" ++ [NL]) ++ rest) = Some (str "exit" ++ [NL], rest)) as -> by reflexivity.
Qed.

Lemma lauSim_loop_commands fs : forall fuel k cmd rest, Forall known fs -> (forall i, close_req i = false) ->
  (length fs < fuel)%nat ->
  lauSim_loop act close_req g fuel k (concat (map command_line fs) ++ (str "exit" ++ [NL]) ++ rest) cmd ≈
  (set_states (map call_of fs) ;; finish act g).
Proof.
  induction fs as [|f fs IH]; intros [|fuel] k cmd rest Hk Hc Hf; cbn [length] in *; try lia.
  - cbn [map concat set_states for_each]. rewrite app_nil_l, lauSim_loop_exit by done. by rewrite emit_bind, ret_bind.
  - apply Forall_cons in Hk as [[Hsev [sys Hsys]] Hks]. cbn [map concat]. rewrite <- app_assoc, (lauSim_loop_command f sys) by done.
    rewrite emit_bind. cbn [set_states map for_each]. unfold call_of at 1. rewrite Hsys. cbn [default fst snd]. rewrite !bind_bind.
    apply bind_proper; [done|]. intros rc. rewrite ret_bind. by apply IH; [| |lia].
Qed.

(** On a fresh fifo [lauSim_init] takes the first character and starts the actor. *)
Lemma lauSim_init_ready perror text s s' : result (lauSim_backend_init act s) = inl (0, s') ->
  result (lauSim_init act perror true (Some text) s) = inl ((0, FifoGlobals (Some (tail text)) true), s').
Proof.
  intros Hi. unfold lauSim_init. rewrite result_bind. unfold lauSim_get_fifo. cbn [fifo fifo_initial fifo_created].
  rewrite result_bind. cbn [result emit]. rewrite result_bind. cbn [result emit ret fifo_created fifo].
  rewrite result_bind. cbn [result ret]. by rewrite result_bind, Hi.
Qed.

(** C23: the backend does what the client asked for.  On the text the client writes for faults of the
    subsystems "net", "memory" and "power" (or of a whole node, which counts as power), followed by the
    exit command, the backend sets the states of exactly these subsystems with their severities, in
    that order, whatever actor it is linked with and whatever is written later, and then cleans up; it
    ends early only where a call of the actor itself ends the process. *)
Theorem backend_executes fs fuel rest : Forall known fs -> (forall i, close_req i = false) -> (length fs < fuel)%nat ->
  fifo g = Some (concat (map command_line fs) ++ (str "exit" ++ [NL]) ++ rest) ->
  lauSim_main act close_req g fuel ≈
  (set_states (map call_of fs) ;; finish act g).
Proof. intros Hk Hc Hf Hg. unfold lauSim_main. rewrite Hg. by apply lauSim_loop_commands. Qed.

(** C39: a component the backend does not know.  The variable [cmd] keeps the value of the command before,
    so the severity of the unknown component is applied to the subsystem named last; as the first
    command it is undefined behaviour. *)
Theorem unknown_component_hits_previous w n k text sys fuel : close_req k = false ->
  token_ok w -> w <> str "exit" -> is_u32 n -> subsystem (CFault (Some w) n) = None ->
  lauSim_loop act close_req g (Datatypes.S fuel) k ((w ++ str " " ++ print_d n ++ [NL]) ++ text) (Some sys) ≈
    (lauSim_set_state act sys (fifo_severity n) ;; lauSim_loop act close_req g fuel (Datatypes.S k) text (Some sys)) /\
  lauSim_loop act close_req g (Datatypes.S fuel) k ((w ++ str " " ++ print_d n ++ [NL]) ++ text) None ≈ stop Undefined.
Proof.
  intros Hc Hw Hexit Hn Hu. destruct (command_line_split w n Hw) as [Hg Hs]. cbn [lauSim_loop]. rewrite Hc, Hg, Hs.
  by rewrite !emit_bind, parse_line_set, !(unknown_word w _ n Hu) by done.
Qed.

End Correct.

(** ** Examples: an actor that keeps a list of what it is told *)

Definition list_actor : actor (list (Z * Z)) :=
  Actor (fun sys sev => bind (modify (fun l => l ++ [(sys, sev)])) (fun _ => ret 0)) (ret tt) (ret 0).

Definition example_fifo (text : cstr) : fifo_globals := FifoGlobals (Some text) true.

Lemma backend_executes_witness :
  result (lauSim_main list_actor (fun _ => false)
    (example_fifo (concat (map command_line [CFault (Some (str "net")) 100; CFault None 0]) ++ (str "exit" ++ [NL]) ++ str "net 3")) 5 []) =
  inl (0, [(SUBSYS_NET, 100); (SUBSYS_PWR, 0)]).
Proof.
  refine (eq_trans (backend_executes list_actor (fun _ => false) (example_fifo _) [CFault (Some (str "net")) 100; CFault None 0] 5 (str "net 3")
    _ (fun _ => eq_refl) _ eq_refl []) eq_refl); [|cbn; lia].
  apply Forall_forall. intros f Hf. apply list_elem_of_In in Hf as [<- | [<- | []]]; (split; [done|by eexists]).
Defined.

Lemma unknown_component_hits_previous_witness :
  result (lauSim_loop list_actor (fun k => bool_decide (k = 1%nat)) fifo_initial 2 0 ((str "gpu" ++ str " " ++ print_d 7 ++ [NL]) ++ []) (Some SUBSYS_NET) []) =
  inl (0, [(SUBSYS_NET, 7)]).
Proof.
  refine (eq_trans (proj1 (unknown_component_hits_previous list_actor (fun k => bool_decide (k = 1%nat)) fifo_initial (str "gpu") 7 0 []
    SUBSYS_NET 1 eq_refl _ _ _ eq_refl) []) eq_refl); [|done|done].
  split; [done|]. intros c Hc. cbn in Hc. repeat (apply elem_of_cons in Hc as [-> | Hc]; [elem_dec|]). by apply not_elem_of_nil in Hc.
Defined.
