(* ===== verification/Preload.v ===== *)
(** * The preload library (client/src/preload.c, preload.h) and the privileged actor (privileged.c)

    The preload library shadows [socket], [accept] and [close] of the application, keeps the list of its
    internet sockets in a block of memory, and shuts them down when the network is to fail.  The
    results of the calls of the operating system are arguments; [usable n] is the number of bytes an
    allocation of [n] bytes really provides. *)

From S2P Require Import Prelude CString Mqtt Client Backend.
Local Open Scope Z_scope.

(** ** State *)

(** The pointer [fds]. *)
Inductive fds_ptr :=
| FdsNull
| FdsBlock (contents : list Z)       (** the first [num_fds] elements of the block *)
| FdsFreed.                          (** the block it points to has been freed *)

Record lauSim_state := LauSimState {
  net_state : Z;
  thr : bool;                        (** whether the thread has been created *)
  is_init : bool;
  fds : fds_ptr;
  num_fds : Z;
  req_close_fds : Z * Z
}.

Definition lauSim_state_zero : lauSim_state := LauSimState 0 false false FdsNull 0 (0, 0).

Definition sizeof_int : Z := 4.

Definition set_fds p n s := LauSimState (net_state s) (thr s) (is_init s) p n (req_close_fds s).
Definition set_net v s := LauSimState v (thr s) (is_init s) (fds s) (num_fds s) (req_close_fds s).
Definition set_thr v s := LauSimState (net_state s) v (is_init s) (fds s) (num_fds s) (req_close_fds s).
Definition set_is_init v s := LauSimState (net_state s) (thr s) v (fds s) (num_fds s) (req_close_fds s).
Definition set_req_close_fds v s := LauSimState (net_state s) (thr s) (is_init s) (fds s) (num_fds s) v.

Definition AF_INET : Z := 2.
Definition AF_INET6 : Z := 10.

Section Preload.
Context (usable : Z -> Z).
Local Open Scope prog_scope.

(** *** The list of sockets; [fds_mutex] is held while the list is worked on, but not for the comparison at the end of
    [is_in_list] *)

Definition add_sock_to_list (sock : Z) : prog cevent lauSim_state Z :=
  if sock <? 0 then ret 1
  else
    s <- get ;;
    let n := u32 (num_fds s + 1) in
    match fds s with
    | FdsFreed => stop Undefined                             (* realloc of a freed block *)
    | p =>
        let old := match p with FdsBlock l => l | _ => [] end in
        (* fds[num_fds - 1] in a block of [n] bytes *)
        if usable n <? sizeof_int * n then stop Undefined
        else put (set_fds (FdsBlock (old ++ [sock])) n s) ;; ret 0
    end.

(** The elements a loop up to [num_fds] reads: reading a freed or null block is undefined. *)
Definition read_fds : prog cevent lauSim_state (list Z) :=
  s <- get ;;
  if num_fds s =? 0 then ret []
  else match fds s with FdsBlock l => ret l | _ => stop Undefined end.

(** The index of the first occurrence, or the length. *)
Fixpoint index_of (x : Z) (l : list Z) : Z :=
  match l with [] => 0 | y :: l' => if y =? x then 0 else 1 + index_of x l' end.

(** The part of [is_in_list] under the mutex: the value of [i] after the loop. *)
Definition find_in_list (sock : Z) : prog cevent lauSim_state Z := l <- read_fds ;; ret (index_of sock l).

(** [num_fds] is read again when the mutex has been given back. *)
Definition is_in_list (sock : Z) : prog cevent lauSim_state bool :=
  i <- find_in_list sock ;; s <- get ;; ret (i <? num_fds s).

(** The first occurrence goes; the elements behind it move up. *)
Fixpoint remove_first (x : Z) (l : list Z) : list Z :=
  match l with [] => [] | y :: l' => if y =? x then l' else y :: remove_first x l' end.

Definition remove_sock_from_list (sock : Z) : prog cevent lauSim_state Z :=
  l <- read_fds ;;
  if bool_decide (sock ∈ l) then
    modify (fun s => set_fds (FdsBlock (remove_first sock l)) (num_fds s - 1) s) ;; ret 0
  else ret 1.

(** *** The shadowed functions; [r] is the result of the original one *)

Definition note (what : string) (fd : Z) : prog cevent lauSim_state unit :=
  emit (CStderr (str what ++ str " socket: " ++ print_d fd ++ [NL])).

Definition accept (sock : Z) (r : Z) : prog cevent lauSim_state Z :=
  listed <- is_in_list sock ;;
  (if listed : bool then
     rc <- add_sock_to_list r ;;
     if rc =? 0 then note "accepted" r else ret tt
   else ret tt) ;;
  ret r.

Definition socket (domain : Z) (r : Z) : prog cevent lauSim_state Z :=
  (if (domain =? AF_INET) || (domain =? AF_INET6) then
     rc <- add_sock_to_list r ;;
     if rc =? 0 then note "opened" r else ret tt
   else ret tt) ;;
  ret r.

Definition close (fd : Z) (r : Z) : prog cevent lauSim_state Z :=
  rc <- remove_sock_from_list fd ;;
  (if rc =? 0 then note "closed" fd else ret tt) ;;
  emit (CClose fd) ;;
  ret r.

(** *** The subsystems *)

Definition lauSim_switch_net (severity : Z) : prog cevent lauSim_state Z :=
  s <- get ;;
  if (net_state s =? 0) && negb (severity =? 0) then
    emit (CStderr (str "disabeling network connections" ++ [NL])) ;;
    l <- read_fds ;;
    for_each l (fun fd => emit (CShutdown fd)) ;;
    match fds s with
    | FdsFreed => stop Undefined                             (* double free *)
    | p =>
        put (set_net 1 (set_fds (match p with FdsNull => FdsNull | _ => FdsFreed end) 0 s)) ;; ret 0
    end
  else if negb (net_state s =? 0) && (severity =? 0) then
    put (set_net 0 s) ;; ret 0
  else ret 0.

Definition cleanup : prog cevent lauSim_state unit := lauSim_switch_net 0 ;; ret tt.

(** [g] are the globals of backend.c. *)
Definition set_state (g : fifo_globals) (sys severity : Z) : prog cevent lauSim_state Z :=
  if sys =? SUBSYS_NET then lauSim_switch_net severity
  else if sys =? SUBSYS_PWR then lauSim_backend_cleanup g ;; stop (Exited 0)
  else if sys =? SUBSYS_MEM then ret 0
  else ret 1.

(** [lauSim_backend_init] starts the thread that runs [lauSim_main]. *)
Definition lauSim_preload_init : prog cevent lauSim_state Z := emit CCreateThread ;; modify (set_thr true) ;; ret 0.

Definition preload_actor (g : fifo_globals) : actor lauSim_state := Actor (set_state g) cleanup lauSim_preload_init.

End Preload.

(** ** privileged.c *)

Module Privileged.
Local Open Scope prog_scope.

(** The state is [net_status]. *)
Definition switch_net (severity : Z) : prog cevent Z Z :=
  net_status <- get ;;
  if (net_status =? 0) && negb (severity =? 0) then put 1 ;; ret 0
  else if negb (net_status =? 0) && (severity =? 0) then put 0 ;; ret 0
  else ret 0.

Definition set_state (sys severity : Z) : prog cevent Z Z :=
  if sys =? SUBSYS_NET then switch_net severity
  else if sys =? SUBSYS_PWR then stop (Exited 0)
  else if sys =? SUBSYS_MEM then ret 0
  else ret 1.

Definition cleanup : prog cevent Z unit := switch_net 0 ;; ret tt.

(** [popen] is the output of [iptables -V], if it could be started, and the result of [pclose]; from a command without output
    the line is never read and [strtok] works on indeterminate bytes.  Closing a stream that is closed is undefined. *)
Definition is_iptables_pressent (popen : option (cstr * Z)) : prog cevent Z Z :=
  match popen with
  | None => ret 0
  | Some (tab, pclose) =>
      match getline tab with
      | None => stop Undefined
      | Some (line, _) =>
          (* the newline is the last character of the line, if it has one *)
          emit (CStdout (default (c_str line) (strtok (c_str line) [NL]).1 ++ [NL])) ;;
          stop Undefined
      end
  end.

(** What [lauSim_main] uses of the actor. *)
Definition subsystems : actor Z := Actor set_state cleanup (ret 0).

Section Run.
Context (popen : option (cstr * Z)) (close_req : nat -> bool) (fuel : nat).

Definition lauSim_backend_init (g : fifo_globals) : prog cevent Z Z :=
  emit (CStdout (str "looking for iptables")) ;;
  p <- is_iptables_pressent popen ;;
  if p =? 0 then ret 1 else lauSim_main subsystems close_req g fuel.

Definition privileged_actor (g : fifo_globals) : actor Z := Actor set_state cleanup (lauSim_backend_init g).

(** [main] does not call [lauSim_init]. *)
Definition main (perror : cstr -> cstr) (pipe : option (Z * Z)) : prog cevent Z Z :=
  match pipe with
  | None => emit (CStderr (perror (str "pipe"))) ;; ret 1
  | Some fds => lauSim_main (privileged_actor fifo_initial) close_req fifo_initial fuel ;; emit (CClose fds.1) ;; emit (CClose fds.2) ;; ret 0
  end.

(** The privileged actor cannot work: its [main] has no fifo to read from, and the search for iptables never succeeds. *)
Lemma privileged_unusable perror pipe g s :
  main perror pipe s = match pipe with None => Done 1 s [CStderr (perror (str "pipe"))] | Some _ => Halt Undefined [] end /\
  forall rc s' tr, lauSim_backend_init g s = Done rc s' tr -> popen = None /\ rc = 1.
Proof.
  split; [by destruct pipe|]. intros rc s' tr. unfold lauSim_backend_init, is_iptables_pressent, bind, emit, ret, stop.
  destruct popen as [[tab st]|]; [by destruct (getline tab) as [[]|]|]. by intros [= <- _ _].
Qed.

End Run.

End Privileged.

(** ** What the actors have in common *)

(** The contract of an actor: in the states satisfying [actor_inv] the network follows the severities it
    is told (0 is up, anything else down), memory faults change nothing, and a power fault ends the
    process.  Bringing a network up again that is down may lose the invariant. *)
Class NetworkActor {S : Type} (act : actor S) := {
  actor_inv : S -> Prop;
  network_down : S -> bool;
  net_follows sev s : actor_inv s -> exists s' tr, lauSim_set_state act SUBSYS_NET sev s = Done 0 s' tr /\
    network_down s' = negb (sev =? 0) /\ ((network_down s = true -> sev <> 0) -> actor_inv s');
  mem_ignored sev s : lauSim_set_state act SUBSYS_MEM sev s = Done 0 s [];
  power_exits sev s : exists tr, lauSim_set_state act SUBSYS_PWR sev s = Halt (Exited 0) tr
}.

#[export] Instance privileged_network popen close_req fuel g : NetworkActor (Privileged.privileged_actor popen close_req fuel g).
Proof.
  refine {| actor_inv := fun _ => True; network_down := fun s => negb (s =? 0) |}; [|done|by exists []].
  intros sev s _. cbn. unfold Privileged.set_state, Privileged.switch_net, bind, get, put, ret. cbn [Z.eqb SUBSYS_NET Pos.eqb].
  destruct (s =? 0) eqn:Hs, (sev =? 0) eqn:Hsev; cbn; do 2 eexists; (split; [reflexivity|]); by rewrite ?Hs.
Defined.

(** For the preload library: the list is there while the network is up. *)
Definition fds_ok (s : lauSim_state) : Prop :=
  match fds s with
  | FdsNull => num_fds s = 0
  | FdsBlock l => num_fds s = Z.of_nat (length l)
  | FdsFreed => num_fds s = 0 /\ net_state s <> 0
  end.

(** The elements of the list. *)
Definition tracked (s : lauSim_state) : list Z := match fds s with FdsBlock l => l | _ => [] end.

Lemma read_fds_spec s : fds_ok s -> read_fds s = Done (tracked s) s [].
Proof.
  unfold fds_ok, read_fds, tracked, bind, get, ret, stop. destruct (fds s) as [|l|].
  - by intros ->.
  - intros ->. destruct l; [done|]. destruct (Z.eqb_spec (Z.of_nat (length (z :: l))) 0) as [H|]; [simpl in H; lia|done].
  - by intros [-> _].
Qed.

Lemma shutdowns (l : list Z) (s : lauSim_state) : for_each l (fun fd => emit (CShutdown fd)) s = Done tt s (map CShutdown l).
Proof. induction l as [|x l IH]; [done|]. cbn [for_each]. unfold bind, emit in *. by rewrite IH. Qed.

Lemma index_of_spec x l : 0 <= index_of x l <= Z.of_nat (length l) /\ (index_of x l <? Z.of_nat (length l)) = bool_decide (x ∈ l).
Proof.
  induction l as [|y l [H IH]]; [done|]. cbn [index_of length]. destruct (Z.eqb_spec y x) as [->|Hne].
  - split; [lia|]. rewrite bool_decide_true by constructor. by apply Z.ltb_lt.
  - split; [lia|]. rewrite (bool_decide_ext (x ∈ y :: l) (x ∈ l)) by (rewrite elem_of_cons; naive_solver). rewrite <- IH.
    destruct (Z.ltb_spec (index_of x l) (Z.of_nat (length l))), (Z.ltb_spec (1 + index_of x l) (Z.of_nat (S (length l)))); lia || done.
Qed.

(** With nobody else around, [is_in_list] says whether the socket is in the list. *)
Lemma is_in_list_spec sock l s : read_fds s = Done l s [] -> num_fds s = Z.of_nat (length l) -> is_in_list sock s = Done (bool_decide (sock ∈ l)) s [].
Proof.
  intros E Hn. unfold is_in_list, find_in_list, bind, get, ret. rewrite E. cbn. by rewrite Hn, (proj2 (index_of_spec sock l)).
Qed.

(** What a failure of the network does. *)
Lemma switch_net_fail sev s : fds_ok s -> net_state s = 0 -> sev <> 0 -> exists p,
  lauSim_switch_net sev s = Done 0 (set_net 1 (set_fds p 0 s))
    (CStderr (str "disabeling network connections" ++ [NL]) :: map CShutdown (tracked s)) /\
  p = match fds s with FdsNull => FdsNull | _ => FdsFreed end.
Proof.
  intros Hs Hn Hsev. unfold lauSim_switch_net. unfold bind at 1, get. rewrite Hn.
  destruct (Z.eqb_spec sev 0); [done|]. cbn [Z.eqb andb negb]. unfold bind at 1, emit.
  unfold bind at 1. rewrite read_fds_spec by done. unfold bind at 1. rewrite shutdowns.
  unfold fds_ok in Hs. destruct (fds s) as [|l|]; [| |by destruct Hs as [_ ?]];
    unfold bind, put, ret; eexists; (split; [|reflexivity]); by rewrite ?app_nil_r.
Qed.

#[export] Instance preload_network g : NetworkActor (preload_actor g).
Proof.
  refine {| actor_inv := fds_ok; network_down := fun s => negb (net_state s =? 0) |}; [|done|].
  2:{ intros sev s. cbn. unfold set_state, lauSim_backend_cleanup, lauSim_fifo_cleanup. cbn [Z.eqb SUBSYS_NET SUBSYS_PWR Pos.eqb].
      destruct (fifo_created g && bool_decide (is_Some (fifo g))); by eexists. }
  intros sev s Hs. change (lauSim_set_state (preload_actor g) SUBSYS_NET sev s) with (lauSim_switch_net sev s). cbv beta.
  destruct (Z.eqb_spec (net_state s) 0) as [Hn|Hn], (Z.eqb_spec sev 0) as [Hsev|Hsev].
  - exists s, []. unfold lauSim_switch_net, bind, get, ret. rewrite Hn, Hsev. done.
  - destruct (switch_net_fail sev s Hs Hn Hsev) as (p & E & ->). eexists _, _. split; [exact E|]. split; [done|].
    intros _. unfold fds_ok in *. cbn. by destruct (fds s).
  - eexists _, _. unfold lauSim_switch_net, bind, get, put, ret. rewrite Hsev.
    destruct (Z.eqb_spec (net_state s) 0); [done|]. cbn. split; [reflexivity|]. split; [done|]. intros H. by destruct H.
  - exists s, []. unfold lauSim_switch_net, bind, get, ret. destruct (Z.eqb_spec (net_state s) 0); [done|].
    destruct (Z.eqb_spec sev 0); [done|]. cbn. done.
Defined.

(** ** The list of sockets *)

(** A call of the application, with the result of the operating system. *)
Inductive app_call :=
| ASocket (domain r : Z)
| AAccept (sock r : Z)
| AClose (fd r : Z).

Definition run_call (usable : Z -> Z) (c : app_call) : prog cevent lauSim_state unit :=
  match c with
  | ASocket d r => bind (socket usable d r) (fun _ => ret tt)
  | AAccept s r => bind (accept usable s r) (fun _ => ret tt)
  | AClose fd r => bind (close fd r) (fun _ => ret tt)
  end.

(** What the library is to keep: the internet sockets that are open. *)
Definition track (l : list Z) (c : app_call) : list Z :=
  match c with
  | ASocket d r => if ((d =? AF_INET) || (d =? AF_INET6)) && (0 <=? r) then l ++ [r] else l
  | AAccept s r => if bool_decide (s ∈ l) && (0 <=? r) then l ++ [r] else l
  | AClose fd _ => remove_first fd l
  end.

(** The operating system gives numbers of descriptors that are not in use. *)
Fixpoint fresh (l : list Z) (cs : list app_call) : Prop :=
  match cs with
  | [] => True
  | c :: cs' => match c with ASocket _ r | AAccept _ r => r ∉ l | AClose _ _ => True end /\ fresh (track l c) cs'
  end.

(** There are never more than [k] of them. *)
Fixpoint open_at_most (k : Z) (l : list Z) (cs : list app_call) : Prop :=
  match cs with [] => True | c :: cs' => Z.of_nat (length (track l c)) <= k /\ open_at_most k (track l c) cs' end.

(** [k] descriptors fit into blocks of the sizes asked for. *)
Definition fds_room (usable : Z -> Z) (k : Z) : Prop := forall n, 1 <= n <= k -> sizeof_int * n <= usable n.

(** The list is not freed. *)
Definition alive (s : lauSim_state) : Prop := fds_ok s /\ fds s <> FdsFreed.

Section Tracking.
Context (usable : Z -> Z).

Lemma alive_num s : alive s -> num_fds s = Z.of_nat (length (tracked s)).
Proof. intros [Hs Hf]. unfold fds_ok, tracked in *. by destruct (fds s). Qed.

Lemma add_spec r s : alive s -> 0 <= r -> fds_room usable (num_fds s + 1) -> num_fds s + 1 < 2 ^ 32 ->
  add_sock_to_list usable r s = Done 0 (set_fds (FdsBlock (tracked s ++ [r])) (num_fds s + 1) s) [].
Proof.
  intros Hs Hr Hroom Hu. pose proof (alive_num s Hs) as Hn. destruct Hs as [Hs Hf].
  unfold add_sock_to_list. destruct (Z.ltb_spec r 0); [lia|]. unfold bind, get, put, ret.
  rewrite u32_id by (unfold is_u32; lia). pose proof (Hroom (num_fds s + 1) ltac:(lia)).
  unfold tracked. destruct (fds s) as [|l|]; [| |done]; destruct (Z.ltb_spec (usable (num_fds s + 1)) (sizeof_int * (num_fds s + 1))); first [lia | done].
Qed.

Lemma remove_first_length x l : x ∈ l -> Z.of_nat (length (remove_first x l)) = Z.of_nat (length l) - 1.
Proof.
  induction l as [|y l IH]; [by intros ?%not_elem_of_nil|]. cbn [remove_first].
  destruct (Z.eqb_spec y x) as [->|Hne]; [cbn [length]; lia|]. intros [->|Hx]%elem_of_cons; [done|].
  cbn [length]. specialize (IH Hx). lia.
Qed.

Lemma remove_first_not x l : x ∉ l -> remove_first x l = l.
Proof.
  induction l as [|y l IH]; [done|]. cbn. rewrite not_elem_of_cons. intros [Hne Hx].
  destruct (Z.eqb_spec y x); [congruence|]. by rewrite IH.
Qed.

Lemma remove_first_sub x l : remove_first x l `sublist_of` l.
Proof. induction l as [|y l IH]; [constructor|]. cbn. destruct (y =? x); [by constructor|by constructor]. Qed.

Lemma remove_first_gone x l : NoDup l -> x ∉ remove_first x l.
Proof.
  induction 1 as [|y l Hy _ IH]; [apply not_elem_of_nil|]. cbn. destruct (Z.eqb_spec y x) as [->|Hne]; [done|].
  rewrite not_elem_of_cons. split; [congruence|done].
Qed.

(** One call: the list follows [track]. *)
Lemma run_call_spec k c s : alive s -> Z.of_nat (length (track (tracked s) c)) <= k -> fds_room usable k -> k < 2 ^ 32 ->
  exists s' tr, run_call usable c s = Done tt s' tr /\ alive s' /\ tracked s' = track (tracked s) c /\
    net_state s' = net_state s.
Proof.
  intros Hs Hlen Hroom Hu. pose proof (alive_num s Hs) as Hn.
  assert (forall r, 0 <= r -> Z.of_nat (length (tracked s ++ [r])) <= k -> exists s', add_sock_to_list usable r s = Done 0 s' [] /\ alive s' /\
    tracked s' = tracked s ++ [r] /\ net_state s' = net_state s) as Hadd.
  { intros r Hr Hk. rewrite length_app in Hk. cbn in Hk. eexists. split; [apply add_spec; [done|done|intros n Hn'; apply Hroom; lia|lia]|]. unfold alive, fds_ok. cbn. split; [|done]. split; [|done].
    rewrite length_app. cbn. lia. }
  assert (forall r, r < 0 -> add_sock_to_list usable r s = Done 1 s []) as Hneg
    by (intros r Hr; unfold add_sock_to_list; destruct (Z.ltb_spec r 0); [done|lia]).
  pose proof (read_fds_spec s (proj1 Hs)) as Hread.
  destruct c as [d r|sock r|fd r]; cbn [run_call track] in *; unfold socket, accept, close, remove_sock_from_list, note, bind;
    rewrite ?Hread, ?(is_in_list_spec _ _ s Hread Hn); unfold ret, emit, modify.
  - destruct ((d =? AF_INET) || (d =? AF_INET6)); cbn [andb] in *; [|by exists s; eexists].
    destruct (Z.leb_spec 0 r) as [Hr|Hr]; [|rewrite Hneg by done; by exists s; eexists].
    destruct (Hadd r Hr Hlen) as (s' & E & Hs' & Ht & Hst). exists s'. rewrite E. by eexists.
  - destruct (bool_decide (sock ∈ tracked s)); cbn [andb] in *; [|by exists s; eexists].
    destruct (Z.leb_spec 0 r) as [Hr|Hr]; [|rewrite Hneg by done; by exists s; eexists].
    destruct (Hadd r Hr Hlen) as (s' & E & Hs' & Ht & Hst). exists s'. rewrite E. by eexists.
  - case_bool_decide as Hin; [|exists s; rewrite remove_first_not by done; by eexists].
    eexists _, _. split; [reflexivity|]. unfold alive, fds_ok. cbn. split; [|done]. split; [|done].
    rewrite remove_first_length by done. lia.
Qed.

Lemma track_nodup l c : NoDup l -> match c with ASocket _ r | AAccept _ r => r ∉ l | AClose _ _ => True end -> NoDup (track l c).
Proof.
  intros Hl Hc. destruct c as [d r|sock r|fd r]; cbn [track].
  - destruct (_ && _); [|done]. apply NoDup_app. split; [done|]. split; [|apply NoDup_singleton]. set_solver.
  - destruct (_ && _); [|done]. apply NoDup_app. split; [done|]. split; [|apply NoDup_singleton]. set_solver.
  - eapply sublist_NoDup; [exact Hl|apply remove_first_sub].
Qed.

Lemma run_calls_spec k cs : fds_room usable k -> k < 2 ^ 32 -> forall s, alive s -> NoDup (tracked s) -> fresh (tracked s) cs ->
  open_at_most k (tracked s) cs ->
  exists s' tr, for_each cs (run_call usable) s = Done tt s' tr /\ alive s' /\
    tracked s' = foldl track (tracked s) cs /\ NoDup (tracked s') /\ net_state s' = net_state s.
Proof.
  intros Hroom Hu. induction cs as [|c cs IH]; intros s Hs Hd Hf Hk; [by exists s, []|]. destruct Hf as [Hc Hf], Hk as [Hkc Hk].
  destruct (run_call_spec k c s Hs) as (s1 & t1 & E1 & Hs1 & Ht1 & Hn1); [done..|].
  destruct (IH s1) as (s2 & t2 & E2 & Hs2 & Ht2 & Hd2 & Hn2); [done|rewrite Ht1; by apply track_nodup|by rewrite Ht1..|].
  exists s2, (t1 ++ t2). split; [exact (bind_done _ _ _ _ _ _ _ _ _ E1 E2)|]. split; [done|].
  split; [by rewrite Ht2, Ht1|]. split; [done|congruence].
Qed.

(** The descriptors shut down in a trace. *)
Definition shut_down (tr : list cevent) : list Z := omap (fun e => match e with CShutdown fd => Some fd | _ => None end) tr.

Lemma shut_down_map l : shut_down (map CShutdown l) = l.
Proof. unfold shut_down. induction l as [|x l IH]; [done|]. cbn. by f_equal. Qed.

End Tracking.

(** The slack of glibc's allocator is enough for six descriptors. *)
Lemma glibc_six : fds_room glibc_usable 6.
Proof. intros n Hn. unfold glibc_usable, sizeof_int. transitivity 24; [lia|apply Z.le_max_l]. Qed.

(** C14: a network failure hits exactly the sockets that are open, as long as they are few.  Let the application make, one after
    the other, any sequence of [socket], [accept] and [close] calls in which never more than six of its internet sockets
    (and connections accepted on them) are open at the same time; the operating system gives out unused numbers, and the
    allocator is that of glibc, whose smallest block has room for six descriptors (with a seventh the library writes
    past the end, [socket_list_overflow]).  Then the library keeps the list of these sockets, and when the network fails
    every one of them that has not been closed is shut down exactly once, and nothing else is. *)
Theorem network_failure_hits_open_sockets cs sev s : alive s -> NoDup (tracked s) -> fresh (tracked s) cs ->
  open_at_most 6 (tracked s) cs -> net_state s = 0 -> sev <> 0 ->
  exists s1 t1 s2 t2, for_each cs (run_call glibc_usable) s = Done tt s1 t1 /\
    lauSim_switch_net sev s1 = Done 0 s2 t2 /\ net_state s2 = 1 /\ num_fds s2 = 0 /\
    shut_down t2 = foldl track (tracked s) cs /\ NoDup (shut_down t2).
Proof.
  intros Hs Hd Hf Hk Hn Hsev. destruct (run_calls_spec glibc_usable 6 cs glibc_six ltac:(done) s Hs Hd Hf Hk) as (s1 & t1 & E1 & [Hs1 _] & Ht1 & Hd1 & Hn1).
  destruct (switch_net_fail sev s1 Hs1) as (p & E2 & _); [congruence|done|].
  assert (shut_down (CStderr (str "disabeling network connections" ++ [NL]) :: map CShutdown (tracked s1)) = tracked s1) as Hsh.
  { exact (shut_down_map (tracked s1)). }
  do 4 eexists. split; [exact E1|]. split; [exact E2|]. split; [done|]. split; [done|]. rewrite Hsh. by split.
Qed.

(** ** Where the list breaks *)

(** C37: the block is too small.  [realloc] is asked for as many bytes as there are descriptors, not for as
    many descriptors, so adding one for which the block provides less is undefined behaviour; counted
    by what was asked for that is the first socket, with the slack of glibc's allocator the seventh. *)
Theorem socket_list_overflow usable r s : fds_ok s -> 0 <= r -> num_fds s + 1 < 2 ^ 32 ->
  (usable (num_fds s + 1) < sizeof_int * (num_fds s + 1) -> add_sock_to_list usable r s = Halt Undefined []) /\
  add_sock_to_list (fun n => n) r s = Halt Undefined [] /\
  (num_fds s = 6 -> add_sock_to_list glibc_usable r s = Halt Undefined []).
Proof.
  intros Hs Hr Hu. assert (0 <= num_fds s) as H0 by (unfold fds_ok in Hs; destruct (fds s); lia).
  assert (forall us, us (num_fds s + 1) < sizeof_int * (num_fds s + 1) -> add_sock_to_list us r s = Halt Undefined []) as H.
  { intros us Hus. unfold add_sock_to_list. destruct (Z.ltb_spec r 0); [lia|]. unfold bind, get, put, ret, stop.
    rewrite u32_id by (unfold is_u32; lia).
    destruct (fds s); [| |done]; destruct (Z.ltb_spec (us (num_fds s + 1)) (sizeof_int * (num_fds s + 1))); first [done | lia]. }
  split; [apply H|]. split; [apply H; unfold sizeof_int; lia|]. intros H6. apply H. rewrite H6. by vm_compute.
Qed.

(** C38: the list does not survive a failure.  Freeing it leaves the pointer behind: after a network
    failure that found any socket, the network can be brought up again, but then the next internet
    socket uses freed memory and the next failure frees it a second time. *)
Theorem recovery_is_not_safe usable sev sev' r domain s l : fds_ok s -> net_state s = 0 -> sev <> 0 -> sev' <> 0 ->
  fds s = FdsBlock l -> domain = AF_INET \/ domain = AF_INET6 -> 0 <= r ->
  exists s1 t1 s2, lauSim_switch_net sev s = Done 0 s1 t1 /\ lauSim_switch_net 0 s1 = Done 0 s2 [] /\ net_state s2 = 0 /\
    socket usable domain r s2 = Halt Undefined [] /\
    exists t3, lauSim_switch_net sev' s2 = Halt Undefined t3.
Proof.
  intros Hs Hn Hsev Hsev' Hl Hd Hr. destruct (switch_net_fail sev s Hs Hn Hsev) as (p & E & Hp). rewrite Hl in Hp. subst p.
  do 3 eexists. split; [exact E|]. split; [reflexivity|]. split; [done|]. split.
  - unfold socket. destruct Hd as [-> | ->]; cbn; unfold add_sock_to_list; destruct (Z.ltb_spec r 0); done || lia.
  - unfold lauSim_switch_net, bind, get. cbn. destruct (Z.eqb_spec sev' 0); [done|]. cbn. by eexists.
Qed.

(** ** Examples *)

Definition example_calls : list app_call :=
  [ASocket AF_INET 5; AAccept 5 6; ASocket 1 7; AAccept 7 8; AClose 5 0; ASocket AF_INET6 5; ASocket AF_INET (-1)].

Lemma network_failure_hits_open_sockets_witness :
  exists s1 t1 s2 t2, for_each example_calls (run_call glibc_usable) lauSim_state_zero = Done tt s1 t1 /\
    lauSim_switch_net 100 s1 = Done 0 s2 t2 /\ shut_down t2 = [6; 5].
Proof.
  destruct (network_failure_hits_open_sockets example_calls 100 lauSim_state_zero)
    as (s1 & t1 & s2 & t2 & E1 & E2 & _ & _ & Hs & _); try done.
  - constructor.
  - cbn. split_and!; first [done | elem_dec].
  - by exists s1, t1, s2, t2.
Defined.

Definition six_sockets : lauSim_state := LauSimState 0 true true (FdsBlock [3; 4; 5; 6; 7; 8]) 6 (9, 10).

Lemma socket_list_overflow_witness : add_sock_to_list glibc_usable 9 six_sockets = Halt Undefined [].
Proof. exact (proj2 (proj2 (socket_list_overflow glibc_usable 9 six_sockets eq_refl ltac:(done) eq_refl)) eq_refl). Defined.

Lemma recovery_is_not_safe_witness :
  exists s1 t1 s2, lauSim_switch_net 100 six_sockets = Done 0 s1 t1 /\ lauSim_switch_net 0 s1 = Done 0 s2 [] /\
    socket glibc_usable AF_INET 9 s2 = Halt Undefined [].
Proof.
  destruct (recovery_is_not_safe glibc_usable 100 100 9 AF_INET six_sockets [3; 4; 5; 6; 7; 8])
    as (s1 & t1 & s2 & E1 & E2 & _ & E3 & _); try done; [by left|]. by exists s1, t1, s2.
Defined.
