(* ===== verification/Delivery.v ===== *)
(** * From the server's backend to the subsystems of a node

    The parts of the path, put together: the MQTT backend publishes a message per fault, the client of
    the node decodes it and writes a command to the fifo, and the backend in the application's process
    hands it to its actor.  What the broker does is a hypothesis: the client receives the messages
    published for its node, in order. *)

From S2P Require Import Prelude CString Types Mosquitto Mqtt Client Backend Preload.
Local Open Scope Z_scope.

(** ** Encoding and decoding a message *)

(** A name that may be a level of a topic. *)
Definition level_ok (w : cstr) : Prop := w <> [] /\ "/"%char ∉ w.

Definition message_of (target : cstr) (f : cfault) : cstr * cstr :=
  (fault_topic target (cf_component f), fault_payload (cf_severity f)).

(** The message as libmosquitto hands it over. *)
Definition arrived (m : cstr * cstr) : cstr * option cstr := (m.1, Some m.2).

Lemma topic_component_spec target cmp : level_ok target -> (forall c, cmp = Some c -> level_ok c) ->
  topic_component (fault_topic target cmp) = cmp.
Proof.
  intros [Hne Ht] Hc. unfold topic_component, fault_topic.
  assert (forall (w : cstr), "/"%char ∉ w -> forall c, c ∈ w -> c ∉ str "/") as Hsep.
  { intros w Hw c Hcw Hin%list_elem_of_singleton. by subst c. }
  change (str "envelope/" ++ target ++ match cmp with Some c => str "/" ++ c | None => [] end)
    with (str "envelope" ++ ("/"%char :: target ++ match cmp with Some c => str "/" ++ c | None => [] end)).
  rewrite (strtok_token (str "/") (str "envelope")); [|done|by apply Hsep; elem_dec|elem_dec].
  change (drop 1 ("/"%char :: target ++ match cmp with Some c => str "/" ++ c | None => [] end))
    with (target ++ match cmp with Some c => str "/" ++ c | None => [] end).
  destruct cmp as [c|].
  - destruct (Hc c eq_refl) as [Hcne Hcs].
    change (str "/" ++ c) with ("/"%char :: c).
    rewrite (strtok_token (str "/") target); [|done|by apply Hsep|elem_dec].
    rewrite <- (app_nil_r c). change (drop 1 ("/"%char :: c ++ [])) with (c ++ []).
    rewrite (strtok_token (str "/") c []); [|done|by apply Hsep|done]. cbn [fst]. by rewrite app_nil_r.
  - rewrite (strtok_token (str "/") target []); [|done|by apply Hsep|done]. done.
Qed.

(** The fault the client sees is the fault the server published. *)
Lemma decode_message target f : level_ok target -> (forall c, cf_component f = Some c -> level_ok c) ->
  is_u32 (cf_severity f) -> decode (arrived (message_of target f)) = f.
Proof.
  intros Ht Hc [H0 Hs]. unfold decode, arrived, message_of. cbn [fst snd default].
  rewrite topic_component_spec by done. unfold fault_payload, id.
  pose proof (strtoull_print_x (cf_severity f) []) as E. rewrite app_nil_r in E. rewrite E; [|unfold is_u64; lia|done].
  cbn [fst]. rewrite u32_id by done. by destruct f.
Qed.

(** ** The whole path *)

Section Path.
Context (publish_rc : nat -> Z) (mosq_strerror : Z -> cstr).
Context (target : cstr).

(** The server's side: one call of [notify_fail] per fault. *)
Definition notify_all (fs : list cfault) : prog event mosquitto unit :=
  for_each fs (fun f => bind (notify_fail publish_rc mosq_strerror target (cf_component f) (cf_severity f)) (fun _ => ret tt)).

Lemma notify_all_publishes fs : forall s c, mq_instance s = Some c -> mq_is_init c = true ->
  exists s' tr, notify_all fs s = Done tt s' tr /\ published tr = map (message_of target) fs.
Proof.
  induction fs as [|f fs IH]; intros s c Hc Hi; [by exists s, []|].
  assert (exists s1 t1 rc, notify_fail publish_rc mosq_strerror target (cf_component f) (cf_severity f) s = Done rc s1 t1 /\
    published t1 = [message_of target f] /\ mq_instance s1 = Some (bump c)) as (s1 & t1 & rc & E1 & Hp1 & Hc1).
  { unfold notify_fail, the_instance, publish, put_instance, log, bind, get, ret, emit, modify. rewrite Hc, Hi. cbn.
    unfold bump. rewrite Hi. destruct (publish_rc (mq_published c) =? 0); by do 3 eexists. }
  destruct (IH s1 (bump c) Hc1 Hi) as (s2 & t2 & E2 & Hp2). exists s2, ((t1 ++ []) ++ t2). split.
  - eapply bind_done; [|exact E2]. exact (bind_done _ (fun _ => ret tt) _ _ _ _ _ _ _ E1 eq_refl).
  - unfold published in *. rewrite app_nil_r, omap_app, Hp1, Hp2. done.
Qed.

(** A fault that can be told to this backend. *)
Definition deliverable (f : cfault) : Prop :=
  (forall c, cf_component f = Some c -> level_ok c) /\ is_u32 (cf_severity f) /\ is_Some (subsystem f).

Lemma decode_messages fs : level_ok target -> Forall deliverable fs ->
  map decode (map arrived (map (message_of target) fs)) = fs.
Proof.
  intros Ht. induction 1 as [|f fs (Hc & Hs & _) _ IH]; [done|]. cbn [map]. by rewrite decode_message, IH.
Qed.

Context (usable : Z -> Z) (loop : nat -> Z * list (cstr * option cstr)) (strerror : Z -> cstr) (req_stop : nat -> bool).

(** The messages the client gets in the rounds [bs]. *)
Fixpoint arrivals (k : nat) (bs : list nat) : list (cstr * option cstr) :=
  match bs with [] => [] | j :: bs' => arriving loop k j ++ arrivals (S (k + j)) bs' end.

Lemma received_decode bs : forall k, received loop k bs = map decode (arrivals k bs).
Proof. induction bs as [|j bs IH]; intros k; [done|]. cbn. by rewrite map_app, IH. Qed.

(** The node's side: a client that gets the messages for the start signal and for the faults [fs] makes the
    backend execute them. *)
Lemma node_executes {A} (act : actor A) perror fs pack host port drain_fuel bs fuel backend_fuel a a' :
  level_ok target -> Forall deliverable fs ->
  batches usable loop 0 bs -> Forall (fun j => (j < drain_fuel)%nat) bs -> (length bs < fuel)%nat ->
  (forall k, (k < length bs)%nat -> req_stop k = false) -> req_stop (length bs) = true ->
  (length fs < backend_fuel)%nat -> result (lauSim_backend_init act a) = inl (0, a') ->
  arrivals 0 bs = map arrived (map (message_of target) (CFault None 0 :: fs)) ->
  exists m' ctr g, main usable true 0 0 0 0 loop strerror pack true req_stop drain_fuel fuel
      [str "client"; target; host; port] mqtt_zero = Done 0 m' ctr /\
    result (lauSim_init act perror true (Some (fifo_text ctr)) a) = inl ((0, g), a') /\
    result (lauSim_main act (fun _ => false) g backend_fuel a') =
    result (bind (set_states act (map call_of fs)) (fun _ => finish act g) a').
Proof.
  intros Ht Hfs Hb Hd Hl Hrun Hstop Hbf Hinit Harr.
  destruct (main_run usable loop strerror req_stop pack (str "client") target host port [] drain_fuel bs fuel) as (m' & ctr & Em & _ & Htext); try done.
  exists m', ctr, (FifoGlobals (Some (tail (fifo_text ctr))) true). split; [done|].
  assert (received loop 0 bs = CFault None 0 :: fs) as Hrec.
  { rewrite received_decode, Harr. apply decode_messages; [done|]. constructor; [|done]. split; [done|]. split; [done|by eexists]. }
  rewrite Htext, Hrec. cbn [commands]. split.
  - by apply lauSim_init_ready.
  - unfold lauSim_main. cbn [fifo]. rewrite <- app_comm_cons. cbn [tail]. rewrite <- (app_nil_r (str "exit" ++ [NL])).
    apply (lauSim_loop_commands act (fun _ => false) _ fs backend_fuel 0 None []); [|done|done].
    eapply Forall_impl; [exact Hfs|]. by intros f (_ & ? & ?).
Qed.

End Path.

Section Effect.
Context (publish_rc : nat -> Z) (mosq_strerror : Z -> cstr) (target : cstr).
Context (loop : nat -> Z * list (cstr * option cstr)) (strerror : Z -> cstr) (req_stop : nat -> bool).

(** C9: a fault takes effect.  The server announces the start and then reports faults [fs] of the
    components the backend knows (or of the whole node) through the MQTT backend; if the broker hands
    the client the messages published for its node, in order, and so that no call of [get_faults] finds more than one ([one_by_one]),
    then the client's run, with glibc's allocator, writes to the fifo
    what makes the backend in the application's process set the state of exactly these subsystems, with
    their severities and in their order, and clean up at the end, whatever the actor is.  (The client asks for too little memory:
    glibc's smallest block has room for one message, with the second in the same call it writes past the end, [on_message_overflow].) *)
Theorem faults_take_effect {A} (act : actor A) perror s c fs pack host port drain_fuel bs fuel backend_fuel a a' :
  mq_instance s = Some c -> mq_is_init c = true -> level_ok target -> Forall deliverable fs ->
  one_by_one loop 0 bs -> Forall (fun j => (j < drain_fuel)%nat) bs -> (length bs < fuel)%nat ->
  (forall k, (k < length bs)%nat -> req_stop k = false) -> req_stop (length bs) = true ->
  (length fs < backend_fuel)%nat -> result (lauSim_backend_init act a) = inl (0, a') ->
  exists s' tr, notify_all publish_rc mosq_strerror target (CFault None 0 :: fs) s = Done tt s' tr /\
    (arrivals loop 0 bs = map arrived (published tr) ->
     exists m' ctr g, main glibc_usable true 0 0 0 0 loop strerror pack true req_stop drain_fuel fuel
         [str "client"; target; host; port] mqtt_zero = Done 0 m' ctr /\
       result (lauSim_init act perror true (Some (fifo_text ctr)) a) = inl ((0, g), a') /\
       result (lauSim_main act (fun _ => false) g backend_fuel a') =
       result (bind (set_states act (map call_of fs)) (fun _ => finish act g) a')).
Proof.
  intros Hc Hi Ht Hfs Hb Hd Hl Hrun Hstop Hbf Hinit.
  destruct (notify_all_publishes publish_rc mosq_strerror target (CFault None 0 :: fs) s c Hc Hi) as (s' & tr & E & Hp).
  exists s', tr. split; [done|]. intros Harr. rewrite Hp in Harr. apply glibc_one_by_one in Hb.
  by apply (node_executes target glibc_usable loop strerror req_stop act perror fs pack host port drain_fuel bs fuel).
Qed.

End Effect.

(** ** What the node does *)

Section Reaction.
Context {A : Type} (act : actor A) `{!NetworkActor act}.

(** A fault short of the power supply: of the network, without recovery, or of the memory. *)
Definition partial_fault (f : cfault) : Prop :=
  (subsystem f = Some SUBSYS_NET /\ 0 < cf_severity f < 2 ^ 32) \/ subsystem f = Some SUBSYS_MEM.

Definition hits_net (f : cfault) : bool := bool_decide (subsystem f = Some SUBSYS_NET).

Lemma fifo_severity_zero n : is_u32 n -> fifo_severity n = 0 <-> n = 0.
Proof.
  intros [? ?]. unfold fifo_severity. destruct (Z.lt_ge_cases n (2 ^ 31)).
  - rewrite s32_small, u64_id; [done|unfold is_u64; lia|lia].
  - rewrite s32_large by lia. unfold u64.
    rewrite <- (Z.mod_unique (n - 2 ^ 32) (2 ^ 64) (-1) (n - 2 ^ 32 + 2 ^ 64)); lia.
Qed.

Lemma partial_faults_run fs : forall a, Forall partial_fault fs -> actor_inv a ->
  exists a' tr, set_states act (map call_of fs) a = Done tt a' tr /\ actor_inv a' /\
    network_down a' = network_down a || existsb hits_net fs.
Proof.
  induction fs as [|f fs IH]; intros a Hfs Ha; [exists a, []; by rewrite orb_false_r|].
  apply Forall_cons in Hfs as [Hf Hfs]. cbn [map set_states for_each existsb].
  assert (exists a1 t1, lauSim_set_state act (call_of f).1 (call_of f).2 a = Done 0 a1 t1 /\ actor_inv a1 /\
    network_down a1 = network_down a || hits_net f) as (a1 & t1 & E1 & Ha1 & Hd1).
  { unfold call_of, hits_net. destruct Hf as [[Hs Hsev] | Hs]; rewrite Hs; cbn [fst snd].
    - destruct (net_follows (fifo_severity (cf_severity f)) a Ha) as (a1 & t1 & E & Hd & Hinv).
      assert (fifo_severity (cf_severity f) <> 0) as Hnz by (rewrite fifo_severity_zero; unfold is_u32; lia).
      exists a1, t1. split; [exact E|]. split; [by apply Hinv|]. rewrite Hd, bool_decide_true, orb_true_r by done.
      by destruct (Z.eqb_spec (fifo_severity (cf_severity f)) 0).
    - exists a, []. split; [apply mem_ignored|]. split; [done|]. by rewrite bool_decide_false, orb_false_r. }
  destruct (IH a1 Hfs Ha1) as (a2 & t2 & E2 & Ha2 & Hd2). exists a2. eexists. split.
  - eapply bind_done; [|exact E2]. exact (bind_done _ (fun _ => ret tt) _ _ _ _ _ _ _ E1 eq_refl).
  - split; [done|]. by rewrite Hd2, Hd1, orb_assoc.
Qed.

(** C15: what a node does with its faults, whichever actor it is linked with.  Faults of the network and the
    memory leave the process running, with the network down exactly if it was down or one of them
    hit it; a fault of the power supply (or of the whole node) ends the process on the spot, and no
    later fault is looked at. *)
Theorem node_reacts fs f later a : Forall partial_fault fs -> subsystem f = Some SUBSYS_PWR -> actor_inv a ->
  (exists a' tr, set_states act (map call_of fs) a = Done tt a' tr /\
    network_down a' = network_down a || existsb hits_net fs) /\
  result (set_states act (map call_of (fs ++ f :: later)) a) = inr (Exited 0).
Proof.
  intros Hfs Hf Ha. destruct (partial_faults_run fs a Hfs Ha) as (a' & tr & E & _ & Hd).
  split; [by exists a', tr|]. unfold set_states in *. rewrite map_app, for_each_app, result_bind, E. cbn [result map for_each].
  unfold call_of at 1. rewrite Hf. rewrite !result_bind. cbn [fst snd default id].
  destruct (power_exits (call_of f).2 a') as [t Et]. by rewrite Et.
Qed.

End Reaction.

(** ** Examples *)

Definition example_faults : list cfault := [CFault (Some (str "net")) 100; CFault (Some (str "memory")) 3].

Definition delivering (k : nat) : Z * list (cstr * option cstr) :=
  match k with
  | O => (0, [arrived (message_of (str "node0") (CFault None 0))])
  | 2%nat => (0, [arrived (message_of (str "node0") (CFault (Some (str "net")) 100))])
  | 4%nat => (0, [arrived (message_of (str "node0") (CFault (Some (str "memory")) 3))])
  | _ => (0, [])
  end.

Lemma delivering_one_by_one : one_by_one delivering 0 [1%nat; 1%nat; 1%nat].
Proof.
  unfold one_by_one. cbn [visits]. split_and!; try done; try (repeat constructor; by eexists);
    intros i Hi; (assert (i = 0%nat \/ i = 2%nat \/ i = 4%nat) as [-> | [-> | ->]] by (cbn in *; lia)); done.
Qed.

Lemma example_deliverable : Forall deliverable example_faults.
Proof.
  apply Forall_forall. intros f Hf. apply list_elem_of_In in Hf as [<- | [<- | []]];
    (split; [intros c [= <-]; (split; [done|elem_dec])|split; [done|by eexists]]).
Qed.

Lemma faults_take_effect_witness :
  exists s' tr m' ctr g, notify_all (fun _ => 0) (fun _ => []) (str "node0") (CFault None 0 :: example_faults) (example_mosquitto true) = Done tt s' tr /\
    main glibc_usable true 0 0 0 0 delivering (fun _ => []) (fun n => n) true (fun k => bool_decide (k = 3%nat)) 3 5
         [str "client"; str "node0"; str "localhost"; str "1883"] mqtt_zero = Done 0 m' ctr /\
    result (lauSim_init list_actor id true (Some (fifo_text ctr)) []) = inl ((0, g), []) /\
    result (lauSim_main list_actor (fun _ => false) g 5 []) =
      inl (0, [(SUBSYS_NET, 100); (SUBSYS_MEM, 3)]).
Proof.
  destruct (faults_take_effect (fun _ => 0) (fun _ => []) (str "node0") delivering (fun _ => [])
    (fun k => bool_decide (k = 3%nat)) list_actor id (example_mosquitto true) _ example_faults (fun n => n) (str "localhost") (str "1883")
    3 [1%nat; 1%nat; 1%nat] 5 5 [] [] eq_refl eq_refl) as (s' & tr & E & H).
  - split; [done|elem_dec].
  - exact example_deliverable.
  - exact delivering_one_by_one.
  - repeat constructor.
  - cbn. lia.
  - intros [|[|[|k]]] Hk; cbn in *; [done|done|done|lia].
  - done.
  - cbn. lia.
  - done.
  - destruct H as (m' & ctr & g & Em & Ei & Hr).
    + assert (tr = trace_of (notify_all (fun _ => 0) (fun _ => []) (str "node0") (CFault None 0 :: example_faults) (example_mosquitto true))) as ->
        by (by rewrite E). by vm_compute.
    + exists s', tr, m', ctr, g. split; [exact E|]. split; [exact Em|]. split; [exact Ei|]. rewrite Hr. by destruct g as [[t|] []].
Defined.

Lemma node_reacts_witness :
  (exists a' tr, set_states (preload_actor fifo_initial) (map call_of example_faults) six_sockets = Done tt a' tr /\
     network_down (act := preload_actor fifo_initial) a' = true) /\
  result (set_states (preload_actor fifo_initial) (map call_of (example_faults ++ CFault None 100 :: example_faults)) six_sockets) = inr (Exited 0).
Proof.
  destruct (node_reacts (preload_actor fifo_initial) example_faults (CFault None 100) example_faults six_sockets) as [H1 H2].
  - apply Forall_forall. intros f Hf. apply list_elem_of_In in Hf as [<- | [<- | []]]; [by left|by right].
  - done.
  - done.
  - split; [exact H1|exact H2].
Defined.
