(* ===== verification/Hooks.v ===== *)
(** * The life of the preload library in an application (client/src/preload.c, backend.c)

    When the application is started its constructor [init_hooks] finds the functions that the library shadows, makes the
    fifo and starts the thread that runs [lauSim_main]; its destructor [lauSim_hook_cleanup] runs when the process
    calls [exit], be it in that thread or in the application.  Preload.v has the functions in between, Backend.v the loop of the thread.  The results of the system
    calls are arguments. *)

From S2P Require Import Prelude CString Mqtt Client Backend Preload Delivery.
Local Open Scope Z_scope.

(** The globals of preload.c and backend.c; of a hook, whether the function has been found. *)
Record library := Library {
  state : lauSim_state;
  hook_socket : bool;
  hook_accept : bool;
  hook_close : bool;
  lauSim_req_close_fd : Z;
  globals : fifo_globals
}.

Definition library_zero : library := Library lauSim_state_zero false false false 0 fifo_initial.

Definition set_state_of v l := Library v (hook_socket l) (hook_accept l) (hook_close l) (lauSim_req_close_fd l) (globals l).
Definition set_hooks s a c l := Library (state l) s a c (lauSim_req_close_fd l) (globals l).
Definition set_close_fd v l := Library (state l) (hook_socket l) (hook_accept l) (hook_close l) v (globals l).
Definition set_globals v l := Library (state l) (hook_socket l) (hook_accept l) (hook_close l) (lauSim_req_close_fd l) v.

Section Hooks.
Context (perror : cstr -> cstr).
Local Open Scope prog_scope.

Definition on_state {A} (m : prog cevent lauSim_state A) : prog cevent library A := zoom state set_state_of m.

(** [dlsym] tells whether there is a next function of that name.  What [exit] runs before the process ends is left out here: the
    thread does not exist yet. *)
Definition lauSim_resolve (dlsym : cstr -> bool) (dlerror fn : cstr) : prog cevent library bool :=
  if dlsym fn then ret true
  else emit (CStderr (str "[FATAL] [lauSim] Error while resolving " ++ fn ++ str ": " ++ dlerror ++ [NL])) ;; stop (Exited 1).

(** [pipe] is the pair of descriptors, if the call succeeds. *)
Definition init_hooks (pipe : option (Z * Z)) (dlsym : cstr -> bool) (dlerror : cstr) (mkfifo_ok : bool) (fopen : option cstr) : prog cevent library Z :=
  l <- get ;;
  if is_init (state l) then ret 0
  else
    match pipe with
    | None => emit (CStderr (perror (str "pipe"))) ;; ret 1
    | Some fds =>
        on_state (modify (set_req_close_fds fds)) ;;
        modify (set_close_fd fds.1) ;;
        s <- lauSim_resolve dlsym dlerror (str "socket") ;;
        modify (fun l => set_hooks s (hook_accept l) (hook_close l) l) ;;
        c <- lauSim_resolve dlsym dlerror (str "close") ;;
        modify (fun l => set_hooks (hook_socket l) (hook_accept l) c l) ;;
        a <- lauSim_resolve dlsym dlerror (str "accept") ;;
        modify (fun l => set_hooks (hook_socket l) a (hook_close l) l) ;;
        on_state (modify (set_is_init true)) ;;
        r <- on_state (lauSim_init (preload_actor fifo_initial) perror mkfifo_ok fopen) ;;
        modify (set_globals r.2) ;;
        ret 0
    end.

(** The destructor, in the thread of the library: [pthread_join] refuses a thread that joins itself, as glibc's does, and
    the result is not looked at.  Joining a thread that has not been created, and calling a null pointer, is undefined. *)
Definition lauSim_hook_cleanup : prog cevent library Z :=
  l <- get ;;
  emit (CWrite (snd (req_close_fds (state l))) (str "X")) ;;
  (if thr (state l) then emit CJoinThread else stop Undefined) ;;
  (if hook_close l then emit (CClose (fst (req_close_fds (state l)))) ;; emit (CClose (fst (req_close_fds (state l)))) else stop Undefined) ;;
  ret 0.

(** The thread: [exit] runs the destructor and ends the process. *)
Definition lauSim_run_main (close_req : nat -> bool) (fuel : nat) : prog cevent library unit :=
  l <- get ;;
  rc <- on_state (lauSim_main (preload_actor (globals l)) close_req (globals l) fuel) ;;
  lauSim_hook_cleanup ;;
  stop (Exited rc).

(** A call of a shadowed function; through a hook that has not been found it is undefined. *)
Definition hook_of (c : app_call) (l : library) : bool :=
  match c with ASocket _ _ => hook_socket l | AAccept _ _ => hook_accept l | AClose _ _ => hook_close l end.
Definition app_run usable (c : app_call) : prog cevent library unit :=
  l <- get ;; if hook_of c l then on_state (run_call usable c) else stop Undefined.

(** An application that uses its sockets before the thread gets to its commands; the thread ends the process. *)
Definition application usable (pipe : option (Z * Z)) dlsym dlerror mkfifo_ok fopen (calls : list app_call) close_req fuel : prog cevent library unit :=
  init_hooks pipe dlsym dlerror mkfifo_ok fopen ;;
  for_each calls (app_run usable) ;;
  lauSim_run_main close_req fuel.

(** An application that uses its sockets and then ends by itself, by [exit] or by returning from its [main]: the destructor runs in
    the application's thread.  Its write is what [select] reports to the loop from some round on; [pthread_join] waits
    for that, and the thread, when the loop is left, calls [exit] in its turn.  A second call of [exit] is undefined. *)
Definition application_returns usable (pipe : option (Z * Z)) dlsym dlerror mkfifo_ok fopen (calls : list app_call) close_req fuel : prog cevent library unit :=
  init_hooks pipe dlsym dlerror mkfifo_ok fopen ;;
  for_each calls (app_run usable) ;;
  l <- get ;;
  emit (CWrite (snd (req_close_fds (state l))) (str "X")) ;;
  if thr (state l) then
    on_state (lauSim_main (preload_actor (globals l)) close_req (globals l) fuel) ;;
    stop Undefined
  else stop Undefined.

End Hooks.

(** ** The fifo *)

(** Whether the fifo is there, after a trace. *)
Definition fifo_after (before : bool) (tr : list cevent) : bool :=
  foldl (fun b e => match e with CMkfifo _ => true | CUnlink _ => false | _ => b end) before tr.

Lemma fifo_after_app b t1 t2 : fifo_after b (t1 ++ t2) = fifo_after (fifo_after b t1) t2.
Proof. unfold fifo_after. apply foldl_app. Qed.

Definition no_fifo (e : cevent) : Prop := match e with CMkfifo _ | CUnlink _ => False | _ => True end.
#[local] Hint Extern 1 (no_fifo _) => exact I : lausim.

Lemma fifo_after_quiet b tr : Forall no_fifo tr -> fifo_after b tr = b.
Proof. unfold fifo_after. intros H. revert b. induction H as [|[] tr He _ IH]; intros b; cbn; done || apply IH. Qed.

(** What the cleanup of the backend leaves. *)
Definition cleaned (g : fifo_globals) (b : bool) : bool := if fifo_created g && bool_decide (is_Some (fifo g)) then false else b.

Lemma cleanup_fifo {S} g (s : S) : exists tr, lauSim_fifo_cleanup g s = Done tt s tr /\ (forall b, fifo_after b tr = cleaned g b) /\ shut_down tr = [].
Proof. unfold lauSim_fifo_cleanup, cleaned. destruct (_ && _); by eexists. Qed.

Lemma switch_net_quiet sev : emits no_fifo (lauSim_switch_net sev).
Proof.
  unfold lauSim_switch_net, read_fds. apply emits_bind; [auto with lausim|intros s]. repeat apply emits_if; auto 8 with lausim.
  apply emits_bind; [auto with lausim|intros _]. apply emits_bind.
  - apply emits_bind; [auto with lausim|intros s']. apply emits_if; [auto with lausim|]. destruct (fds s'); auto with lausim.
  - intros l. apply emits_bind; [auto with lausim|intros _]. destruct (fds s); auto with lausim.
Qed.

Definition not_exit (h : halt) : Prop := match h with Exited _ => False | _ => True end.
#[local] Hint Extern 1 (not_exit _) => exact I : lausim.

Lemma switch_net_not_exit sev : keeps not_exit (fun _ => True) (lauSim_switch_net sev).
Proof.
  unfold lauSim_switch_net, read_fds. guarding.
  - destruct (fds s0); guarding.
  - destruct (fds s); guarding.
Qed.

(** A routine that ends, or ends the process, leaves the fifo as the cleanup does; one that goes on leaves it alone. *)
Definition ends_clean {S A} (g : fifo_globals) (o : outcome cevent S A) : Prop :=
  match o with Done _ _ tr | Halt (Exited _) tr => forall b, fifo_after b tr = cleaned g b | Halt _ _ => True end.

Lemma ends_clean_quiet {S A B} g (m : prog cevent S A) (k : A -> prog cevent S B) s : emits no_fifo m ->
  keeps not_exit (fun _ => True) m -> (forall a s', ends_clean g (k a s')) -> ends_clean g (bind m k s).
Proof.
  intros Hm Hx Hk. specialize (Hm s). specialize (Hx s I). unfold bind. destruct (m s) as [a s1 t1|h t1]; [|by destruct h].
  specialize (Hk a s1). unfold ends_clean in *. destruct (k a s1) as [b s2 t2|h t2].
  - intros b0. by rewrite fifo_after_app, (fifo_after_quiet b0 t1 Hm).
  - destruct h; try done. intros b0. by rewrite fifo_after_app, (fifo_after_quiet b0 t1 Hm).
Qed.

Lemma finish_clean g s : ends_clean g (finish (preload_actor g) g s).
Proof.
  unfold finish. destruct (cleanup_fifo g s) as (t1 & E1 & H1 & _). unfold bind at 1. rewrite E1.
  change (lauSim_cleanup (preload_actor g)) with cleanup. unfold bind, cleanup, bind, ret.
  pose proof (switch_net_quiet 0 s) as Hq. pose proof (switch_net_not_exit 0 s I) as Hx.
  destruct (lauSim_switch_net 0 s) as [rc s2 t2|h t2]; [|by destruct h]. intros b. rewrite !app_nil_r, fifo_after_app, H1. by apply fifo_after_quiet.
Qed.

Lemma set_state_clean g sys sev k s : (forall rc s', ends_clean g (k rc s')) ->
  ends_clean (A := Z) g (bind (set_state g sys sev) k s).
Proof.
  intros Hk. unfold set_state. destruct (sys =? SUBSYS_NET).
  - by apply ends_clean_quiet; [apply switch_net_quiet|apply switch_net_not_exit|].
  - destruct (sys =? SUBSYS_PWR).
    + destruct (cleanup_fifo g s) as (t1 & E1 & H1 & _). unfold bind, lauSim_backend_cleanup, stop. rewrite E1. intros b. by rewrite app_nil_r.
    + destruct (sys =? SUBSYS_MEM); apply ends_clean_quiet; (auto with lausim; by guarding).
Qed.

(** The thread, whatever is written to the fifo. *)
Lemma loop_clean close_req g fuel : forall k text cmd s,
  ends_clean g (lauSim_loop (preload_actor g) close_req g fuel k text cmd s).
Proof.
  assert (forall t (k : unit -> prog cevent lauSim_state Z) s, (forall s, ends_clean g (k tt s)) -> ends_clean g (bind (emit (CStderr t)) k s)) as He.
  { intros t k s Hk. apply ends_clean_quiet; [by auto with lausim|guarding|by intros []]. }
  induction fuel as [|fuel IH]; intros k text cmd s; cbn [lauSim_loop]; [done|].
  destruct (close_req k); [apply He; apply finish_clean|]. destruct (getline text) as [[line text']|]; [|apply IH].
  apply He. intros s1. destruct (parse_line (c_str line)) as [msg| |cmd_str opt]; [by apply He|apply finish_clean|].
  destruct (update_cmd cmd_str cmd) as [c|]; [|done]. apply (set_state_clean g c opt). intros rc s2. apply IH.
Qed.

(** ** The constructor *)

Section Constructor.
Context (perror : cstr -> cstr) (dlerror : cstr).

Definition all_found (fn : cstr) : bool := true.

(** The library after a constructor that has found everything, with the globals [g] of the backend. *)
Definition ready_library (l : library) (fds : Z * Z) (g : fifo_globals) : library :=
  Library (set_thr true (set_is_init true (set_req_close_fds fds (state l)))) true true true fds.1 g.

Lemma init_hooks_run fds before text l : is_init (state l) = false ->
  exists tr, init_hooks perror (Some fds) all_found dlerror (negb before) (Some text) l =
    Done 0 (ready_library l fds (FifoGlobals (Some (if before then text else tail text)) (negb before))) tr /\
    (forall b, fifo_after b tr = negb before || b) /\ shut_down tr = [].
Proof. intros Hi. unfold init_hooks, bind, get, ret. rewrite Hi. destruct before; eexists; (split; [reflexivity|]); by split; [intros []|]. Qed.

Definition wanted : list cstr := [str "socket"; str "close"; str "accept"].

(** A function that is not found ends the process before anything has been set up. *)
Lemma init_hooks_missing fds dlsym mkfifo_ok fopen l : is_init (state l) = false -> (exists fn, fn ∈ wanted /\ dlsym fn = false) ->
  exists fn, fn ∈ wanted /\ dlsym fn = false /\ init_hooks perror (Some fds) dlsym dlerror mkfifo_ok fopen l =
    Halt (Exited 1) [CStderr (str "[FATAL] [lauSim] Error while resolving " ++ fn ++ str ": " ++ dlerror ++ [NL])].
Proof.
  intros Hi (fn & Hfn & Hd). unfold init_hooks, on_state, zoom, lauSim_resolve, bind, get, ret, modify, emit, stop. rewrite Hi.
  destruct (dlsym (str "socket")) eqn:E1; [destruct (dlsym (str "close")) eqn:E2; [destruct (dlsym (str "accept")) eqn:E3|]|].
  - exfalso. revert Hd. unfold wanted in Hfn. repeat (apply elem_of_cons in Hfn as [-> | Hfn]; [congruence|]). by apply elem_of_nil in Hfn.
  - exists (str "accept"). split; [elem_dec|]. by split.
  - exists (str "close"). split; [elem_dec|]. by split.
  - exists (str "socket"). split; [elem_dec|]. by split.
Qed.

End Constructor.

(** ** The faults of a node *)

Section Faults.
Context (g : fifo_globals).
#[local] Abbreviation act := (preload_actor g).

(** What a trace in front adds to an outcome. *)
Definition after {S A} (tr : list cevent) (o : outcome cevent S A) : outcome cevent S A :=
  match o with Done a s t => Done a s (tr ++ t) | Halt h t => Halt h (tr ++ t) end.

Lemma after_bind {S A B} (m : prog cevent S A) (k : A -> prog cevent S B) s a s1 tr : m s = Done a s1 tr -> bind m k s = after tr (k a s1).
Proof. intros E. unfold bind, after. by rewrite E. Qed.

Lemma after_after {S A} t1 t2 (o : outcome cevent S A) : after t1 (after t2 o) = after (t1 ++ t2) o.
Proof. destruct o; cbn; by rewrite app_assoc. Qed.

(** A fault of the network takes the sockets down the first time; later ones, and faults of the memory, do nothing. *)
Definition cut (s : lauSim_state) : lauSim_state := set_net 1 (set_fds (match fds s with FdsNull => FdsNull | _ => FdsFreed end) 0 s).
Definition struck (s : lauSim_state) (f : cfault) : lauSim_state := if hits_net f && (net_state s =? 0) then cut s else s.

Lemma partial_fault_effect f s : partial_fault f -> fds_ok s -> exists tr,
  lauSim_set_state act (call_of f).1 (call_of f).2 s = Done 0 (struck s f) tr /\ fds_ok (struck s f) /\ Forall no_fifo tr /\
  shut_down tr = if hits_net f && (net_state s =? 0) then tracked s else [].
Proof.
  intros Hf Hs. unfold call_of, hits_net, struck, hits_net. destruct Hf as [[Hsub Hsev] | Hsub]; rewrite Hsub; cbn [default id fst snd].
  - assert (fifo_severity (cf_severity f) <> 0) as Hnz by (rewrite fifo_severity_zero; unfold is_u32; lia).
    rewrite bool_decide_true by done. cbn [andb]. change (lauSim_set_state act SUBSYS_NET) with (fun sev => lauSim_switch_net sev). cbv beta.
    destruct (Z.eqb_spec (net_state s) 0) as [Hn|Hn].
    + destruct (switch_net_fail (fifo_severity (cf_severity f)) s Hs Hn Hnz) as (p & E & ->). eexists. split; [exact E|].
      split; [unfold fds_ok, cut in *; cbn; by destruct (fds s)|]. split; [|exact (shut_down_map (tracked s))].
      constructor; [done|]. apply Forall_map. by apply Forall_true.
    + exists []. unfold lauSim_switch_net, bind, get, ret. destruct (Z.eqb_spec (net_state s) 0); [done|].
      destruct (Z.eqb_spec (fifo_severity (cf_severity f)) 0); [done|]. by split_and!.
  - rewrite bool_decide_false by done. exists []. by split_and!.
Qed.

Lemma partial_known f : partial_fault f -> is_u32 (cf_severity f) -> known f.
Proof. intros [[Hs _] | Hs] Hu; (split; [done|by eexists]). Qed.

Context (close_req : nat -> bool).

(** The loop over the commands for such faults. *)
Lemma partial_loop fs : forall fuel k rest cmd s, (forall i, (k <= i < k + length fs)%nat -> close_req i = false) -> Forall partial_fault fs -> Forall (fun f => is_u32 (cf_severity f)) fs -> fds_ok s ->
  exists cmd' tr, lauSim_loop act close_req g (length fs + fuel) k (concat (map command_line fs) ++ rest) cmd s =
    after tr (lauSim_loop act close_req g fuel (k + length fs) rest cmd' (foldl struck s fs)) /\ fds_ok (foldl struck s fs) /\ Forall no_fifo tr /\
  shut_down tr = if existsb hits_net fs && (net_state s =? 0) then tracked s else [].
Proof.
  induction fs as [|f fs IH]; intros fuel k rest cmd s Ho Hp Hu Hs; cbn [foldl existsb map concat].
  { exists cmd, []. rewrite Nat.add_0_r. split; [unfold after; by destruct (lauSim_loop _ _ _ _ _ _ _ _)|]. by split_and!. }
  apply Forall_cons in Hp as [Hp Hps]. apply Forall_cons in Hu as [Hu Hus].
  destruct (partial_known f Hp Hu) as [_ [sys Hsys]]. destruct (partial_fault_effect f s Hp Hs) as (t1 & E1 & Hs1 & Hq1 & Hd1).
  cbn [length] in Ho. destruct (IH fuel (Datatypes.S k) rest (Some sys) (struck s f) ltac:(intros; apply Ho; lia) Hps Hus Hs1) as (cmd' & t2 & E2 & Hs2 & Hq2 & Hd2).
  replace (k + length (f :: fs))%nat with (Datatypes.S k + length fs)%nat by (cbn; lia).
  exists cmd', (CStderr (str "command: " ++ command_line f) :: t1 ++ t2). split; [|split; [done|split]].
  - change (length (f :: fs) + fuel)%nat with (Datatypes.S (length fs + fuel)). rewrite <- app_assoc, (lauSim_loop_command act close_req g f sys) by (done || (apply Ho; lia)).
    rewrite (after_bind _ _ s tt s [CStderr (str "command: " ++ command_line f)]) by done.
    unfold call_of in E1. rewrite Hsys in E1. cbn [default id fst snd] in E1. rewrite (after_bind _ _ _ _ _ _ E1), E2, !after_after. done.
  - constructor; [done|]. by apply Forall_app_2.
  - change (shut_down (CStderr (str "command: " ++ command_line f) :: t1 ++ t2)) with (shut_down (t1 ++ t2)).
    unfold shut_down in *. rewrite omap_app, Hd1, Hd2. unfold struck. destruct (hits_net f); cbn [andb orb]; [|done].
    destruct (Z.eqb_spec (net_state s) 0) as [Hn|Hn]; cbn [andb orb]; [by rewrite andb_false_r, app_nil_r|].
    destruct (Z.eqb_spec (net_state s) 0); [done|]. by rewrite andb_false_r.
Qed.

End Faults.

(** ** The whole life *)

Section Life.
Context (perror : cstr -> cstr) (dlerror : cstr) (usable : Z -> Z).

(** The events of a call of the application. *)
Definition app_event (e : cevent) : Prop := match e with CMkfifo _ | CUnlink _ | CShutdown _ => False | _ => True end.
#[local] Hint Extern 1 (app_event _) => exact I : lausim.

Lemma app_quiet tr : Forall app_event tr -> Forall no_fifo tr /\ shut_down tr = [].
Proof. unfold shut_down. induction 1 as [|[] tr He _ [IH1 IH2]]; done || (split; [by constructor|exact IH2]). Qed.

Lemma run_call_events c : emits app_event (run_call usable c).
Proof.
  assert (forall r, emits app_event (add_sock_to_list usable r)) as Ha.
  { intros r. unfold add_sock_to_list. apply emits_if; [auto with lausim|]. apply emits_bind; [auto with lausim|intros s].
    destruct (fds s); auto 8 with lausim. }
  assert (emits app_event read_fds) as Hr.
  { unfold read_fds. apply emits_bind; [auto with lausim|intros s]. apply emits_if; [auto with lausim|]. destruct (fds s); auto with lausim. }
  destruct c; cbn [run_call]; unfold socket, accept, close, is_in_list, find_in_list, remove_sock_from_list, note; auto 12 with lausim.
Qed.

(** A call leaves the thread and its descriptors alone. *)
Definition same_thread (s0 s : lauSim_state) : Prop := thr s = thr s0 /\ req_close_fds s = req_close_fds s0.

Lemma run_call_thread s0 c : keeps (fun _ => True) (same_thread s0) (run_call usable c).
Proof.
  assert (forall r, keeps (fun _ => True) (same_thread s0) (add_sock_to_list usable r)) as Ha.
  { intros r. unfold add_sock_to_list. guarding. destruct (fds s); guarding. }
  assert (keeps (fun _ => True) (same_thread s0) read_fds) as Hr by (unfold read_fds; guarding; destruct (fds s); guarding).
  destruct c; cbn [run_call]; unfold socket, accept, close, is_in_list, find_in_list, remove_sock_from_list, note; guarding; first [apply Ha | apply Hr].
Qed.

Lemma app_calls_state cs : forall l, hook_socket l = true -> hook_accept l = true -> hook_close l = true ->
  for_each cs (app_run usable) l = on_state (for_each cs (run_call usable)) l.
Proof.
  induction cs as [|c cs IH]; intros l Hs Ha Hc; cbn [for_each]; [by destruct l|].
  unfold app_run at 1, on_state, zoom, bind, get. assert (hook_of c l = true) as -> by by destruct c.
  destruct (run_call usable c (state l)) as [[] s1 t1|]; [|done]. rewrite (IH (set_state_of s1 l)) by done. cbn [state set_state_of].
  unfold on_state, zoom. cbn [state set_state_of]. by destruct (for_each cs (run_call usable) s1).
Qed.

(** The calls of an application on a library that is ready. *)
Lemma app_calls_run k cs l : hook_socket l = true -> hook_accept l = true -> hook_close l = true -> alive (state l) -> NoDup (tracked (state l)) ->
  fresh (tracked (state l)) cs -> fds_room usable k -> k < 2 ^ 32 -> open_at_most k (tracked (state l)) cs ->
  exists s' tr, for_each cs (app_run usable) l = Done tt (set_state_of s' l) tr /\ alive s' /\ tracked s' = foldl track (tracked (state l)) cs /\
    net_state s' = net_state (state l) /\ thr s' = thr (state l) /\ req_close_fds s' = req_close_fds (state l) /\ Forall app_event tr.
Proof.
  intros Hs Ha Hc Hal Hd Hf Hroom Hu Hk. destruct (run_calls_spec usable k cs Hroom Hu (state l) Hal Hd Hf Hk) as (s' & tr & E & Hal' & Ht & _ & Hn).
  exists s', tr. rewrite app_calls_state by done. unfold on_state, zoom. rewrite E. split; [done|]. split; [done|]. split; [done|]. split; [done|].
  assert (keeps (fun _ => True) (same_thread (state l)) (for_each cs (run_call usable))) as Hth by (guarding; apply run_call_thread).
  specialize (Hth (state l) (conj eq_refl eq_refl)). rewrite E in Hth. destruct Hth. split; [done|]. split; [done|].
  refine (emits_done _ _ _ _ _ _ _ E). apply emits_for_each. apply run_call_events.
Qed.

(** What [finish] does after the faults [fs] have been handled: the network is up again, the fifo gone. *)
Lemma finish_run g s : exists s' tr, finish (preload_actor g) g s = Done 0 s' tr /\ same_thread s s' /\
  (forall b, fifo_after b tr = cleaned g b) /\ shut_down tr = [].
Proof.
  unfold finish. destruct (cleanup_fifo g s) as (t1 & E1 & H1 & H2). change (lauSim_cleanup (preload_actor g)) with cleanup.
  unfold bind at 1. rewrite E1. unfold cleanup, lauSim_switch_net, bind, get, put, ret. rewrite andb_false_r.
  destruct (negb (net_state s =? 0) && (0 =? 0)); eexists _, _; rewrite !app_nil_r; by split_and!.
Qed.

(** The commands the client writes for the faults [fs], none of the power supply, and then for [more]. *)
Definition commands_text (fs more : list cfault) (rest : cstr) : cstr :=
  concat (map command_line (fs ++ more)) ++ (str "exit" ++ [NL]) ++ rest.

(** The first of [more], if there is one, is a fault of the power supply. *)
Definition power_next (more : list cfault) : Prop :=
  match more with [] => True | f :: _ => subsystem f = Some SUBSYS_PWR /\ is_u32 (cf_severity f) end.

(** The thread, up to the end of the process. *)
Lemma thread_run close_req g fs more rest fuel k s : (forall i, close_req i = false) -> Forall partial_fault fs ->
  Forall (fun f => is_u32 (cf_severity f)) fs -> fds_ok s -> power_next more -> (length fs < fuel)%nat -> exists tr,
  match more with
  | [] => exists s', lauSim_loop (preload_actor g) close_req g fuel k (commands_text fs more rest) None s = Done 0 s' tr /\ same_thread s s'
  | _ => lauSim_loop (preload_actor g) close_req g fuel k (commands_text fs more rest) None s = Halt (Exited 0) tr
  end /\ (forall b, fifo_after b tr = cleaned g b) /\
  shut_down tr = if existsb hits_net fs && (net_state s =? 0) then tracked s else [].
Proof.
  intros Hc Hp Hu Hs Hm Hf. unfold commands_text. rewrite map_app, concat_app, <- app_assoc.
  replace fuel with (length fs + Datatypes.S (fuel - length fs - 1))%nat by lia.
  destruct (partial_loop g close_req fs (Datatypes.S (fuel - length fs - 1)) k (concat (map command_line more) ++ (str "exit" ++ [NL]) ++ rest) None s (fun i _ => Hc i) Hp Hu Hs)
    as (cmd' & t1 & E1 & Hs1 & Hq1 & Hd1). rewrite E1.
  assert (same_thread s (foldl struck s fs)) as Hth.
  { clear. revert s. induction fs as [|f fs IH]; intros s; cbn [foldl]; [done|]. unfold same_thread in *. destruct (IH (struck s f)) as [-> ->].
    unfold struck. by destruct (_ && _). }
  destruct more as [|f more]; cbn [map concat].
  - rewrite app_nil_l, lauSim_loop_exit by done. destruct (finish_run g (foldl struck s fs)) as (s' & t2 & E2 & Hth2 & Hf2 & Hd2).
    unfold bind, emit. rewrite E2. cbn [after]. eexists. split; [|split].
    + exists s'. split; [reflexivity|]. destruct Hth, Hth2. split; congruence.
    + intros b. by rewrite !fifo_after_app, Hf2, (fifo_after_quiet b t1 Hq1).
    + unfold shut_down in *. rewrite !omap_app, Hd1, Hd2. cbn. by rewrite app_nil_r.
  - destruct Hm as [Hsub Hsev]. rewrite <- app_assoc, (lauSim_loop_command _ close_req g f SUBSYS_PWR) by done.
    destruct (cleanup_fifo g (foldl struck s fs)) as (t2 & E2 & Hf2 & Hd2).
    change (lauSim_set_state (preload_actor g) SUBSYS_PWR (fifo_severity (cf_severity f))) with
      (bind (E := cevent) (S := lauSim_state) (A := unit) (B := Z) (lauSim_fifo_cleanup g) (fun _ => stop (Exited 0))).
    unfold bind, emit, stop. rewrite E2. cbn [after]. eexists. split; [reflexivity|]. split.
    + intros b. rewrite !fifo_after_app, (fifo_after_quiet b t1 Hq1). exact (Hf2 b).
    + unfold shut_down in *. rewrite !omap_app, Hd1, Hd2. cbn. by rewrite !app_nil_r.
Qed.

(** [init_hooks] up to the fifo emits nothing about it. *)
Lemma init_hooks_clean pipe dlsym before text :
  match init_hooks perror pipe dlsym dlerror (negb before) (Some text) library_zero with
  | Done _ l tr => (hook_close l = true -> globals l = FifoGlobals (Some (if before then text else tail text)) (negb before) /\
      fifo_after before tr = true) /\ (hook_close l = false -> l = library_zero)
  | Halt (Exited _) tr => fifo_after before tr = before
  | Halt _ _ => True
  end.
Proof.
  unfold init_hooks, lauSim_resolve. destruct pipe as [fds|]; [|by cbn].
  destruct (dlsym (str "socket")); [|done]. destruct (dlsym (str "close")); [|done]. destruct (dlsym (str "accept")); [|done].
  by destruct before.
Qed.

Lemma destructor_clean rc l : match (lauSim_hook_cleanup ;; stop (A := unit) (Exited rc))%prog l with
  | Done _ _ _ => False | Halt (Exited _) tr => Forall app_event tr | Halt _ _ => True end.
Proof.
  unfold lauSim_hook_cleanup, bind, get, emit, stop, ret. destruct (thr (state l)); [|done]. destruct (hook_close l); [|done].
  by repeat constructor.
Qed.

Lemma app_calls_clean cs : forall l, match for_each cs (app_run usable) l with
  | Done _ l' tr => Forall app_event tr /\ globals l' = globals l /\ hook_close l' = hook_close l
  | Halt h _ => not_exit h
  end.
Proof.
  assert (forall c s, match run_call usable c s with Done _ _ _ => True | Halt h _ => not_exit h end) as Hx.
  { assert (forall r, keeps not_exit (fun _ => True) (add_sock_to_list usable r)) as Ha.
    { intros r. unfold add_sock_to_list. guarding. destruct (fds s); guarding. }
    assert (keeps not_exit (fun _ => True) read_fds) as Hr by (unfold read_fds; guarding; destruct (fds s); guarding).
    assert (forall c, keeps not_exit (fun _ => True) (run_call usable c)) as Hc; [|intros c s; exact (Hc c s Logic.I)].
    destruct c; cbn [run_call]; unfold socket, accept, close, is_in_list, find_in_list, remove_sock_from_list, note; guarding; first [apply Ha | apply Hr]. }
  induction cs as [|c cs IH]; intros l; cbn [for_each]; [done|]. unfold bind at 1, app_run at 1, bind, get. destruct (hook_of c l); [|done].
  unfold on_state, zoom. specialize (Hx c (state l)). pose proof (run_call_events c (state l)) as He.
  destruct (run_call usable c (state l)) as [[] s1 t1|]; [|done]. specialize (IH (set_state_of s1 l)).
  destruct (for_each cs (app_run usable) (set_state_of s1 l)) as [[] l' t2|]; [|done]. destruct IH as (H2 & Hg & Hh).
  split; [by apply Forall_app_2|done].
Qed.

Lemma run_main_clean close_req fuel l g : globals l = g -> is_Some (fifo g) ->
  match lauSim_run_main close_req fuel l with
  | Done _ _ _ => False | Halt (Exited _) tr => forall b, fifo_after b tr = cleaned g b | Halt _ _ => True end.
Proof.
  intros Hg [text Ht]. unfold lauSim_run_main. unfold bind at 1, get. rewrite Hg. unfold bind at 1, on_state, zoom, lauSim_main. rewrite Ht.
  pose proof (loop_clean close_req g fuel 0 text None (state l)) as Hl.
  destruct (lauSim_loop _ _ _ _ _ _ _ _) as [rc s t1|h t1]; [|by destruct h].
  pose proof (destructor_clean rc (set_state_of s l)) as Hd. destruct (bind _ _ _) as [|h t2]; [done|]. destruct h; try done.
  intros b. cbn [app]. rewrite fifo_after_app, (fifo_after_quiet _ t2); [|by apply app_quiet]. apply Hl.
Qed.

Lemma application_clean calls before pipe dlsym text close_req fuel rc tr :
  application perror usable pipe dlsym dlerror (negb before) (Some text) calls close_req fuel library_zero = Halt (Exited rc) tr ->
  fifo_after before tr = before.
Proof.
  unfold application. unfold bind at 1. pose proof (init_hooks_clean pipe dlsym before text) as Hi.
  destruct (init_hooks _ _ _ _ _ _ _) as [r l t1|h t1]; [|by intros [= -> ->]].
  unfold bind. pose proof (app_calls_clean calls l) as Hc. destruct (for_each calls (app_run usable) l) as [[] l' t2|h t2]; [|by intros [= -> _]].
  destruct Hc as (Hq & Hg & Hh). destruct (app_quiet t2 Hq) as [Hq2 _]. destruct Hi as [Hy Hn]. destruct (hook_close l) eqn:Ehook.
  - destruct (Hy eq_refl) as [Hgl Hf]. pose proof (run_main_clean close_req fuel l' _ (eq_trans Hg Hgl) ltac:(by eexists)) as Hm.
    destruct (lauSim_run_main close_req fuel l') as [|h t3]; [done|]. intros [= -> <-].
    rewrite !fifo_after_app, Hf, (fifo_after_quiet _ t2 Hq2), Hm. unfold cleaned. cbn. by destruct before.
  - rewrite (Hn eq_refl) in Hg. unfold lauSim_run_main, bind, get, on_state, zoom, lauSim_main. by rewrite Hg.
Qed.

Lemma loop_newline close_req g fuel k text cmd s : close_req k = false ->
  lauSim_loop (preload_actor g) close_req g (S fuel) k (NL :: text) cmd s =
  after [CStderr (str "command: " ++ [NL]); CStderr []] (lauSim_loop (preload_actor g) close_req g fuel (S k) text cmd s).
Proof.
  intros Hc. cbn [lauSim_loop]. rewrite Hc. assert (getline (NL :: text) = Some ([NL], text)) as -> by reflexivity.
  change (parse_line (c_str [NL])) with (CommandSkip []). unfold bind, emit. by destruct (lauSim_loop _ _ _ _ _ _ _ _).
Qed.

(** The thread from [lauSim_main] to the end of the process, with the destructor if the process ends by [exit]. *)
Lemma run_main_ends close_req (before : bool) fs more rest fuel l : (forall i, close_req i = false) -> Forall partial_fault fs ->
  Forall (fun f => is_u32 (cf_severity f)) fs -> fds_ok (state l) -> net_state (state l) = 0 -> power_next more -> (S (length fs) < fuel)%nat ->
  thr (state l) = true -> hook_close l = true ->
  globals l = FifoGlobals (Some (if before then NL :: commands_text fs more rest else commands_text fs more rest)) (negb before) ->
  exists tr, lauSim_run_main close_req fuel l = Halt (Exited 0) tr /\ (before = true \/ fifo_after true tr = false) /\
    (before = true -> fifo_after true tr = true) /\ shut_down tr = (if existsb hits_net fs then tracked (state l) else []).
Proof.
  intros Hc Hp Hu Hs Hn Hm Hf Hth Hh Hg. set (g := globals l) in *.
  assert (exists fuel' k t0, (length fs < fuel')%nat /\ Forall app_event t0 /\
    lauSim_main (preload_actor g) close_req g fuel (state l) =
    after t0 (lauSim_loop (preload_actor g) close_req g fuel' k (commands_text fs more rest) None (state l))) as (fuel' & k & t0 & Hf' & Hq0 & E0).
  { unfold lauSim_main. rewrite Hg. cbn [fifo]. destruct before.
    - destruct fuel as [|fuel]; [lia|]. exists fuel, 1%nat, [CStderr (str "command: " ++ [NL]); CStderr []]. split; [lia|].
      split; [by repeat constructor|]. by apply loop_newline.
    - exists fuel, 0%nat, (@nil cevent). split; [lia|]. split; [done|]. by destruct (lauSim_loop _ _ _ _ _ _ _ _). }
  destruct (thread_run close_req g fs more rest fuel' k (state l) Hc Hp Hu Hs Hm Hf') as (t1 & E1 & Hf1 & Hd1).
  destruct (app_quiet t0 Hq0) as [Hq0' Hd0]. rewrite Hn, andb_true_r in Hd1.
  assert (forall t2, Forall app_event t2 -> (before = true \/ fifo_after true (t0 ++ t1 ++ t2) = false) /\
    (before = true -> fifo_after true (t0 ++ t1 ++ t2) = true) /\
    shut_down (t0 ++ t1 ++ t2) = (if existsb hits_net fs then tracked (state l) else [])) as Hfin.
  { intros t2 Hq2. destruct (app_quiet t2 Hq2) as [Hq2' Hd2]. rewrite !fifo_after_app, (fifo_after_quiet true t0 Hq0'), (fifo_after_quiet _ t2 Hq2'), Hf1.
    unfold cleaned. rewrite Hg. unfold shut_down in *. rewrite !omap_app, Hd0, Hd1, Hd2, app_nil_r. by destruct before; (split; [by auto|]). }
  unfold lauSim_run_main. unfold bind at 1, get. fold g. unfold bind at 1, on_state, zoom. rewrite E0. destruct more as [|f more].
  - destruct E1 as (s' & E1 & Ht' & Hr'). rewrite E1. cbn [after].
    exists (t0 ++ t1 ++ [CWrite (req_close_fds s').2 (str "X"); CJoinThread; CClose (req_close_fds s').1; CClose (req_close_fds s').1]).
    split; [|by apply Hfin; repeat constructor].
    unfold lauSim_hook_cleanup, bind, get, emit, ret, stop. cbn [state set_state_of hook_close]. rewrite Ht', Hth, Hh. cbn. by rewrite app_assoc.
  - rewrite E1. cbn [after]. exists (t0 ++ t1 ++ []). split; [by rewrite app_nil_r|by apply Hfin].
Qed.

Lemma application_ends_run k calls before fds fs more rest close_req fuel : fresh [] calls -> fds_room usable k ->
  k < 2 ^ 32 -> open_at_most k [] calls -> (forall i, close_req i = false) -> Forall partial_fault fs -> Forall (fun f => is_u32 (cf_severity f)) fs ->
  power_next more -> (S (length fs) < fuel)%nat ->
  exists tr, application perror usable (Some fds) all_found dlerror (negb before) (Some (NL :: commands_text fs more rest)) calls close_req fuel
      library_zero = Halt (Exited 0) tr /\ fifo_after before tr = before /\
    shut_down tr = (if existsb hits_net fs then foldl track [] calls else []).
Proof.
  intros Hf Hroom Hu Hk Hc Hp Hsev Hm Hfuel.
  destruct (init_hooks_run perror dlerror fds before (NL :: commands_text fs more rest) library_zero eq_refl) as (t1 & E1 & Hf1 & Hd1).
  set (g := FifoGlobals _ _) in E1. set (l := ready_library library_zero fds g) in E1.
  destruct (app_calls_run k calls l) as (s2 & t2 & E2 & Hal & Htr & Hn2 & Hth2 & _ & Hq2); try done; [constructor|].
  destruct (app_quiet t2 Hq2) as [Hq2' Hd2].
  destruct (run_main_ends close_req before fs more rest fuel (set_state_of s2 l)) as (t3 & E3 & Hf3 & Hf3' & Hd3); try done; [by apply Hal|].
  exists (t1 ++ t2 ++ t3). split; [|split].
  - unfold application, bind. rewrite E1, E2, E3. done.
  - rewrite !fifo_after_app, Hf1, (fifo_after_quiet _ t2 Hq2'). destruct before; cbn [negb orb]; [by apply Hf3'|]. by destruct Hf3.
  - unfold shut_down in *. rewrite !omap_app, Hd1, Hd2, Hd3. cbn [app state set_state_of]. by rewrite Htr.
Qed.

(** *** The application ends by itself *)

Lemma application_returns_clean calls before pipe dlsym text close_req fuel rc tr :
  application_returns perror usable pipe dlsym dlerror (negb before) (Some text) calls close_req fuel library_zero = Halt (Exited rc) tr ->
  fifo_after before tr = before.
Proof.
  unfold application_returns. unfold bind at 1. pose proof (init_hooks_clean pipe dlsym before text) as Hi.
  destruct (init_hooks _ _ _ _ _ _ _) as [r l t1|h t1]; [|by intros [= -> ->]].
  unfold bind at 1. pose proof (app_calls_clean calls l) as Hc. destruct (for_each calls (app_run usable) l) as [[] l' t2|h t2]; [|by intros [= -> _]].
  destruct Hc as (Hq & Hg & Hh). destruct (app_quiet t2 Hq) as [Hq2 _]. destruct Hi as [Hy Hn]. unfold bind, get, emit, stop.
  destruct (thr (state l')); [|done]. unfold on_state, zoom, lauSim_main. destruct (hook_close l) eqn:Ehook.
  - destruct (Hy eq_refl) as [Hgl Hf]. rewrite Hg, Hgl. cbn [fifo]. set (g := FifoGlobals _ _).
    pose proof (loop_clean close_req g fuel 0 (if before then text else tail text) None (state l')) as Hl.
    destruct (lauSim_loop _ _ _ _ _ _ _ _) as [rc' s t3|h t3]; [done|]. intros [= -> <-].
    rewrite !fifo_after_app, Hf, (fifo_after_quiet _ t2 Hq2). refine (eq_trans (Hl true) _). unfold cleaned. cbn. by destruct before.
  - rewrite (Hn eq_refl) in Hg. by rewrite Hg.
Qed.

(** The rounds of the loop before the write is seen: one for each command, and one for the newline the constructor has not read. *)
Definition rounds (before : bool) (fs : list cfault) : nat := length fs + if before then 1 else 0.

(** What the fifo still has when the thread starts: the constructor reads the newline only if it has made the fifo. *)
Definition globals_text (g : fifo_globals) (before : bool) (fs : list cfault) (rest : cstr) : Prop :=
  fifo g = Some (if before then NL :: concat (map command_line fs) ++ rest else concat (map command_line fs) ++ rest).

(** The loop up to the round in which it sees the write. *)
Lemma loop_told close_req before g fs rest fuel s : globals_text g before fs rest ->
  (forall i, (i < rounds before fs)%nat -> close_req i = false) -> close_req (rounds before fs) = true -> (rounds before fs < fuel)%nat ->
  Forall partial_fault fs -> Forall (fun f => is_u32 (cf_severity f)) fs -> fds_ok s -> net_state s = 0 ->
  exists s' tr, lauSim_main (preload_actor g) close_req g fuel s = Done 0 s' tr /\ (forall b, fifo_after b tr = cleaned g b) /\
    shut_down tr = (if existsb hits_net fs then tracked s else []).
Proof.
  intros Hg Ho Hc Hf Hp Hu Hs Hn. unfold lauSim_main. unfold globals_text in Hg. rewrite Hg. unfold rounds in *.
  assert (exists j t0, j = (if before then 1 else 0)%nat /\ Forall app_event t0 /\
    lauSim_loop (preload_actor g) close_req g fuel 0 (if before then NL :: concat (map command_line fs) ++ rest else concat (map command_line fs) ++ rest) None s =
    after t0 (lauSim_loop (preload_actor g) close_req g (fuel - j) j (concat (map command_line fs) ++ rest) None s)) as (j & t0 & Hj & Hq0 & E0).
  { destruct before.
    - destruct fuel as [|fuel]; [lia|]. exists 1%nat, [CStderr (str "command: " ++ [NL]); CStderr []]. split; [done|]. split; [by repeat constructor|].
      cbn [Nat.sub]. rewrite Nat.sub_0_r. apply loop_newline, Ho. lia.
    - exists 0%nat, (@nil cevent). split; [done|]. split; [done|]. rewrite Nat.sub_0_r. by destruct (lauSim_loop _ _ _ _ _ _ _ _). }
  rewrite <- Hj in *. rewrite E0. replace (fuel - j)%nat with (length fs + S (fuel - j - length fs - 1))%nat by lia.
  destruct (partial_loop g close_req fs (S (fuel - j - length fs - 1)) j rest None s) as (cmd & t1 & E1 & Hs1 & Hq1 & Hd1); [intros; apply Ho; lia|done..|].
  rewrite E1. cbn [lauSim_loop]. replace (j + length fs)%nat with (length fs + j)%nat by lia. rewrite Hc.
  destruct (finish_run g (foldl struck s fs)) as (s' & t2 & E2 & _ & Hf2 & Hd2). destruct (app_quiet t0 Hq0) as [Hq0' Hd0].
  unfold bind, emit. rewrite E2. cbn [after]. eexists _, _. split; [reflexivity|]. split.
  - intros b. rewrite !fifo_after_app, (fifo_after_quiet b t0 Hq0'), (fifo_after_quiet b t1 Hq1). exact (Hf2 b).
  - unfold shut_down in *. rewrite !omap_app, Hd0, Hd1, Hd2, Hn. cbn. by rewrite andb_true_r, app_nil_r.
Qed.

Lemma application_returns_run k calls before fds fs rest close_req fuel : fresh [] calls -> fds_room usable k -> k < 2 ^ 32 -> open_at_most k [] calls ->
  (forall i, (i < rounds before fs)%nat -> close_req i = false) -> close_req (rounds before fs) = true -> (rounds before fs < fuel)%nat ->
  Forall partial_fault fs -> Forall (fun f => is_u32 (cf_severity f)) fs ->
  exists tr, application_returns perror usable (Some fds) all_found dlerror (negb before) (Some (NL :: concat (map command_line fs) ++ rest)) calls close_req fuel
      library_zero = Halt Undefined tr /\ fifo_after before tr = before /\
    shut_down tr = (if existsb hits_net fs then foldl track [] calls else []).
Proof.
  intros Hf Hroom Hu Hk Ho Hc Hfuel Hp Hsev.
  destruct (init_hooks_run perror dlerror fds before (NL :: concat (map command_line fs) ++ rest) library_zero eq_refl) as (t1 & E1 & Hf1 & Hd1).
  set (g := FifoGlobals _ _) in E1. set (l := ready_library library_zero fds g) in E1.
  destruct (app_calls_run k calls l) as (s2 & t2 & E2 & Hal & Htr & Hn2 & Hth2 & _ & Hq2); try done; [constructor|].
  destruct (app_quiet t2 Hq2) as [Hq2' Hd2].
  destruct (loop_told close_req before g fs rest fuel s2) as (s3 & t3 & E3 & Hf3 & Hd3); try done; [by apply Hal|].
  assert (thr s2 = true) as Hthr by (by rewrite Hth2). unfold application_returns, bind, get, emit, stop, on_state, zoom. rewrite E1, E2.
  cbn [state set_state_of globals]. rewrite Hthr. cbn [globals set_state_of state]. change (globals l) with g. rewrite E3. eexists. split; [reflexivity|]. split.
  - rewrite !fifo_after_app, Hf1, (fifo_after_quiet _ t2 Hq2'). refine (eq_trans (Hf3 _) _). unfold cleaned. by destruct before.
  - unfold shut_down in *. rewrite !omap_app, Hd1, Hd2. cbn. rewrite app_nil_r, Hd3. by rewrite Htr.
Qed.

End Life.

(** C5: the fifo does not outlive the application, and a failure hits its sockets.  The application makes calls of [socket],
    [accept] and [close], one after the other, before the library's thread gets to the first command.  However the process is then ended by a
    status (by the thread, or by a fault of the power supply), whatever is written to the fifo, afterwards the fifo is there exactly if
    it was there before (when the library does not own it).  On the commands of the client, let [fs] be faults of the network with a severity that is not 0
    (no recovery, which [recovery_is_not_safe] is about) or of the memory, and let never more than six internet sockets be open, the number
    for which glibc's allocator has room.  After the commands for [fs], the exit command or a fault of the power supply ends the process with status 0.
    If it is the application that ends, by [exit] or a return from its [main], the thread leaves its loop and removes the fifo too, but then calls [exit] while
    [exit] is being executed, which is undefined.  In all these cases the fifo is left as it was found, and if one of [fs] hit the network then exactly the
    internet sockets that the application had open have been shut down. *)
Theorem application_ends perror dlerror calls before :
  (forall usable pipe dlsym text close_req fuel rc tr,
    application perror usable pipe dlsym dlerror (negb before) (Some text) calls close_req fuel library_zero = Halt (Exited rc) tr \/
    application_returns perror usable pipe dlsym dlerror (negb before) (Some text) calls close_req fuel library_zero = Halt (Exited rc) tr ->
    fifo_after before tr = before) /\
  forall fds fs, fresh [] calls -> open_at_most 6 [] calls -> Forall partial_fault fs -> Forall (fun f => is_u32 (cf_severity f)) fs ->
    let clean tr := fifo_after before tr = before /\ shut_down tr = (if existsb hits_net fs then foldl track [] calls else []) in
    (forall more rest close_req fuel, power_next more -> (forall i, close_req i = false) -> (S (length fs) < fuel)%nat ->
      exists tr, application perror glibc_usable (Some fds) all_found dlerror (negb before) (Some (NL :: commands_text fs more rest)) calls close_req fuel
        library_zero = Halt (Exited 0) tr /\ clean tr) /\
    (forall rest close_req fuel, (forall i, (i < rounds before fs)%nat -> close_req i = false) -> close_req (rounds before fs) = true ->
      (rounds before fs < fuel)%nat ->
      exists tr, application_returns perror glibc_usable (Some fds) all_found dlerror (negb before) (Some (NL :: concat (map command_line fs) ++ rest)) calls
        close_req fuel library_zero = Halt Undefined tr /\ clean tr).
Proof.
  split; [|intros fds fs Hf Hk Hp Hu clean; split].
  - intros usable pipe dlsym text close_req fuel rc tr [E|E]; [by eapply application_clean|by eapply application_returns_clean].
  - intros. by apply (application_ends_run perror dlerror glibc_usable 6); [|apply glibc_six|..].
  - intros. by apply (application_returns_run perror dlerror glibc_usable 6); [|apply glibc_six|..].
Qed.

(** ** Example: two sockets, one of them closed; the network fails, then the power; or the application ends *)

Definition example_sockets : list app_call := [ASocket AF_INET 5; ASocket AF_INET6 6; AClose 5 0; AAccept 6 5].

Lemma application_ends_witness :
  (exists tr, application id glibc_usable (Some (3, 4)) all_found [] true (Some (NL :: commands_text example_faults [CFault None 100] [])) example_sockets
    (fun _ => false) 5 library_zero = Halt (Exited 0) tr /\
  fifo_after false tr = false /\ shut_down tr = [6; 5]) /\
  exists tr, application_returns id glibc_usable (Some (3, 4)) all_found [] true (Some (NL :: concat (map command_line example_faults) ++ [])) example_sockets
    (fun i => bool_decide (i = 2%nat)) 5 library_zero = Halt Undefined tr /\ fifo_after false tr = false /\ shut_down tr = [6; 5].
Proof.
  destruct (application_ends id [] example_sockets false) as [_ H].
  destruct (H (3, 4) example_faults) as [H1 H2].
  - cbn. split_and!; first [done | elem_dec].
  - done.
  - apply Forall_forall. intros f Hf. apply list_elem_of_In in Hf as [<- | [<- | []]]; [by left|by right].
  - by repeat constructor.
  - split.
    + apply (H1 [CFault None 100] [] (fun _ => false) 5%nat); [done|done|cbn; lia].
    + apply (H2 [] (fun i => bool_decide (i = 2%nat)) 5%nat); [|done|cbn; lia]. intros i Hi. apply bool_decide_false. cbn in Hi. lia.
Defined.
