(* ===== verification/Threads.v ===== *)
(** * The preload library among threads (client/src/preload.c)

    The threads of the application call [socket], [accept] and [close] while the thread of the backend executes faults.
    What a call does to the list of sockets under [fds_mutex] is one step here; the call of the original function of the C
    library is another one, and so is the comparison at the end of [is_in_list], which reads [num_fds] after the mutex has
    been given back (for the C standard that read is a data race; here it gives the present value).  Between two steps any
    other thread may run.  [kernel] are the descriptors that are open, with whether
    each is an internet socket.  The application is well-behaved: it uses and closes only descriptors that a call has
    returned to it, and closes none that another of its threads is closing or accepting on.  Calls that fail change nothing
    and are left out.

    The comparison can go wrong: if another thread has changed the length of the list since the search, a connection is
    taken for one that is not to be listed, or the other way round.  [raced] keeps the descriptors for which
    that may have happened; of all others the list is right. *)

From stdpp Require Import gmap functions.
From S2P Require Import Prelude CString Mqtt Client Backend Preload.
Local Open Scope Z_scope.

(** Where a thread is. *)
Inductive pc :=
| Idle
| InSocket (r : Z)                 (** [socket]: the original has returned [r], an internet socket *)
| InAccept (sock r : Z)            (** [accept]: the original has returned [r] *)
| InCompare (sock r i n : Z)       (** [is_in_list]: the loop over the [n] elements has stopped at [i], the mutex is given back *)
| InAcceptListed (r : Z)           (** [accept]: the socket was in the list *)
| InClose (fd : Z).                (** [close]: the descriptor is off the list *)

Record sys := Sys { lib : lauSim_state; kernel : gmap Z bool; threads : nat -> pc; raced : gset Z }.

(** The descriptor a thread is about to return or to close, and the one it accepts on. *)
Definition in_flight (p : pc) : option Z :=
  match p with Idle => None | InSocket r | InAccept _ r | InCompare _ r _ _ | InAcceptListed r | InClose r => Some r end.
Definition accepts_on (p : pc) : option Z := match p with InAccept sock _ | InCompare sock _ _ _ => Some sock | _ => None end.

(** What the application may use. *)
Definition returned (s : sys) (fd : Z) : Prop := forall t, in_flight (threads s t) <> Some fd.

Definition is_inet (domain : Z) : bool := (domain =? AF_INET) || (domain =? AF_INET6).

Section Steps.
Context (usable : Z -> Z).

Inductive step (s : sys) : sys -> Prop :=
| step_socket t domain r : threads s t = Idle -> 0 <= r < 2 ^ 31 -> kernel s !! r = None ->
    step s (Sys (lib s) (<[r := is_inet domain]> (kernel s)) (<[t := if is_inet domain then InSocket r else Idle]> (threads s)) (raced s))
| step_accept t sock r b : threads s t = Idle -> kernel s !! sock = Some b -> returned s sock -> 0 <= r < 2 ^ 31 -> kernel s !! r = None ->
    step s (Sys (lib s) (<[r := b]> (kernel s)) (<[t := InAccept sock r]> (threads s)) (raced s))
| step_find t sock r i l tr : threads s t = InAccept sock r -> find_in_list sock (lib s) = Done i l tr ->
    step s (Sys l (kernel s) (<[t := InCompare sock r i (num_fds l)]> (threads s)) (raced s))
| step_compare t sock r i n : threads s t = InCompare sock r i n ->
    step s (Sys (lib s) (kernel s) (<[t := if i <? num_fds (lib s) then InAcceptListed r else Idle]> (threads s))
      (if (num_fds (lib s) =? n) && bool_decide (sock ∉ raced s) then raced s else {[r]} ∪ raced s))
| step_add t r rc l tr : threads s t = InSocket r \/ threads s t = InAcceptListed r -> add_sock_to_list usable r (lib s) = Done rc l tr ->
    step s (Sys l (kernel s) (<[t := Idle]> (threads s)) (raced s))
| step_remove t fd b rc l tr : threads s t = Idle -> kernel s !! fd = Some b -> returned s fd ->
    (forall t', accepts_on (threads s t') <> Some fd) -> remove_sock_from_list fd (lib s) = Done rc l tr ->
    step s (Sys l (kernel s) (<[t := InClose fd]> (threads s)) (raced s))
| step_close t fd : threads s t = InClose fd ->
    step s (Sys (lib s) (delete fd (kernel s)) (<[t := Idle]> (threads s)) (raced s ∖ {[fd]}))
| step_switch_net sev rc l tr : lauSim_switch_net sev (lib s) = Done rc l tr ->
    step s (Sys l (kernel s) (threads s) (raced s)).

Definition start : sys := Sys lauSim_state_zero ∅ (fun _ => Idle) ∅.
Definition reached : sys -> Prop := rtc step start.

(** ** The invariant *)

(** The count is right; the pointer may be dangling while it is 0. *)
Definition list_ok (s : lauSim_state) : Prop :=
  match fds s with FdsBlock l => num_fds s = Z.of_nat (length l) | _ => num_fds s = 0 end.

(** What a thread's place says of the descriptors. *)
Definition pc_ok (k : gmap Z bool) (p : pc) : Prop :=
  match p with
  | Idle => True
  | InSocket r => k !! r = Some true
  | InAccept sock r | InCompare sock r _ _ => sock <> r /\ exists b, k !! sock = Some b /\ k !! r = Some b
  | InAcceptListed fd | InClose fd => is_Some (k !! fd)
  end.

Record threads_ok (s : sys) : Prop := {
  th_pc t : pc_ok (kernel s) (threads s t);
  th_one t t' fd : in_flight (threads s t) = Some fd -> in_flight (threads s t') = Some fd -> t' = t;
  th_accept t sock : accepts_on (threads s t) = Some sock -> returned s sock
}.

(** Some thread is about to list the descriptor. *)
Definition listing (s : sys) (fd : Z) : Prop := exists t, threads s t = InAcceptListed fd.

Record consistent (s : sys) : Prop := {
  co_threads : threads_ok s;
  co_list : list_ok (lib s);
  co_nodup : NoDup (tracked (lib s));
  co_listed fd : fd ∈ tracked (lib s) -> is_Some (kernel s !! fd) /\ returned s fd;
  co_raced fd : fd ∈ raced s -> is_Some (kernel s !! fd);
  (* but for the races, what is listed or going to be is an internet socket *)
  co_inet fd : fds (lib s) <> FdsFreed -> fd ∈ tracked (lib s) \/ listing s fd -> fd ∉ raced s -> kernel s !! fd = Some true;
  (* and what the search has found out is right, if the length is still what it was *)
  co_compare t sock r i n : threads s t = InCompare sock r i n -> fds (lib s) <> FdsFreed -> sock ∉ raced s -> i < n <-> kernel s !! r = Some true;
  co_range fd b : kernel s !! fd = Some b -> 0 <= fd < 2 ^ 31;
  (* while the list is there, it has every internet socket that no call is about *)
  co_complete fd : fds (lib s) <> FdsFreed -> fd ∉ raced s -> kernel s !! fd = Some true -> returned s fd -> fd ∈ tracked (lib s)
}.

(** No thread but [t] has the descriptor. *)
Definition others_not (s : sys) (t : nat) (fd : Z) : Prop := forall t', t' <> t -> in_flight (threads s t') <> Some fd.

Lemma returned_at s t fd : returned s fd <-> in_flight (threads s t) <> Some fd /\ others_not s t fd.
Proof. split; [by intros H; split; [|intros ? _]|]. intros [Ht Ho] t'. destruct (decide (t' = t)) as [->|]; [done|by apply Ho]. Qed.

Lemma returned_insert s t p l k rc fd : returned (Sys l k (<[t := p]> (threads s)) rc) fd <-> in_flight p <> Some fd /\ others_not s t fd.
Proof.
  unfold returned. cbn. split.
  - intros H. split; [specialize (H t); by rewrite fn_lookup_insert in H|]. intros t' Hne. specialize (H t'). by rewrite fn_lookup_insert_ne in H.
  - intros [Hp Ho] t'. destruct (decide (t' = t)) as [->|Hne]; [by rewrite fn_lookup_insert|]. rewrite fn_lookup_insert_ne by done. by apply Ho.
Qed.

Lemma in_flight_open k p fd : pc_ok k p -> in_flight p = Some fd -> is_Some (k !! fd).
Proof. destruct p; cbn; (intros H [= <-]); [by eexists| | |done|done]; destruct H as (_ & b & _ & H); by eexists. Qed.

Lemma accepts_on_open k p fd : pc_ok k p -> accepts_on p = Some fd -> is_Some (k !! fd).
Proof. destruct p; cbn; (intros H [= <-]); destruct H as (_ & b & H & _); by eexists. Qed.

Lemma pc_ok_same k k' p : (forall fd, in_flight p = Some fd \/ accepts_on p = Some fd -> k' !! fd = k !! fd) -> pc_ok k p -> pc_ok k' p.
Proof. intros H. destruct p; cbn in *; rewrite ?(H r), ?(H fd), ?(H sock) by auto; done. Qed.

(** A thread moves on: what it takes is open and nobody else's, and the rest of the threads keep what they have. *)
Lemma threads_move s t p l k rc : threads_ok s -> pc_ok k p ->
  (forall t' fd, t' <> t -> in_flight (threads s t') = Some fd \/ accepts_on (threads s t') = Some fd ->
    k !! fd = kernel s !! fd /\ in_flight p <> Some fd) ->
  (forall sock, accepts_on p = Some sock -> others_not s t sock) ->
  threads_ok (Sys l k (<[t := p]> (threads s)) rc).
Proof.
  intros [Hpc Hone Hacc] Hp Hk Ho. constructor; cbn.
  - intros t'. destruct (decide (t' = t)) as [->|Hne]; [by rewrite fn_lookup_insert|]. rewrite fn_lookup_insert_ne by done.
    refine (pc_ok_same _ _ _ _ (Hpc t')). intros fd Hfd. by apply (Hk t').
  - intros t1 t2 fd. destruct (decide (t1 = t)) as [->|H1], (decide (t2 = t)) as [->|H2]; rewrite ?fn_lookup_insert, ?fn_lookup_insert_ne by done; [done|..].
    + intros Hf H. by destruct (Hk t2 fd H2 (or_introl H)).
    + intros H Hf. by destruct (Hk t1 fd H1 (or_introl H)).
    + apply Hone.
  - intros t' sock. destruct (decide (t' = t)) as [->|Hne]; rewrite ?fn_lookup_insert, ?fn_lookup_insert_ne by done; intros Hs; apply returned_insert.
    + split; [|by apply Ho]. destruct p; cbn in *; try done; injection Hs as ->; destruct Hp; congruence.
    + destruct (Hk t' sock Hne (or_intror Hs)) as [_ Hn]. split; [done|]. intros t'' _. by apply (Hacc t').
Qed.

Lemma read_list s : list_ok s -> read_fds s = Done (tracked s) s [].
Proof.
  unfold list_ok, read_fds, tracked, bind, get, ret, stop. destruct (fds s) as [|l|]; [by intros ->| |by intros ->].
  intros ->. destruct l; [done|]. destruct (Z.eqb_spec (Z.of_nat (length (z :: l))) 0) as [H|]; [simpl in H; lia|done].
Qed.

Lemma tracked_length s : list_ok s -> num_fds s = Z.of_nat (length (tracked s)).
Proof. unfold list_ok, tracked. by destruct (fds s). Qed.

Lemma find_run sock s : list_ok s -> find_in_list sock s = Done (index_of sock (tracked s)) s [] /\
  (index_of sock (tracked s) < num_fds s <-> sock ∈ tracked s).
Proof.
  intros Hs. split; [unfold find_in_list, bind; by rewrite read_list|]. rewrite tracked_length by done.
  rewrite <- Z.ltb_lt, (proj2 (index_of_spec sock (tracked s))). apply bool_decide_eq_true.
Qed.

Lemma remove_run fd s : list_ok s -> exists rc s', remove_sock_from_list fd s = Done rc s' [] /\
  list_ok s' /\ tracked s' = remove_first fd (tracked s) /\ (fds s' <> FdsFreed -> fds s <> FdsFreed) /\ net_state s' = net_state s.
Proof.
  intros Hs. unfold remove_sock_from_list, bind. rewrite read_list by done. case_bool_decide as Hin; unfold modify, ret; eexists _, _; (split; [reflexivity|]).
  - unfold list_ok, tracked in *. cbn. destruct (fds s) as [|l|]; try by apply elem_of_nil in Hin. split; [|done]. rewrite remove_first_length by done. lia.
  - by rewrite remove_first_not.
Qed.

Lemma add_done r s rc s' tr : list_ok s -> 0 <= r -> num_fds s + 1 < 2 ^ 32 -> add_sock_to_list usable r s = Done rc s' tr ->
  list_ok s' /\ tracked s' = tracked s ++ [r] /\ fds s <> FdsFreed /\ net_state s' = net_state s.
Proof.
  intros Hs Hr Hu. unfold add_sock_to_list, bind, get, put, ret, stop. destruct (Z.ltb_spec r 0); [lia|]. unfold list_ok, tracked in *.
  destruct (fds s) as [|l|]; [| |done]; (destruct (_ <? _); [done|]); intros [= _ <- _]; cbn; rewrite u32_id by (unfold is_u32; lia);
    (split; [rewrite ?length_app; cbn; lia|done]).
Qed.

Lemma switch_down sev s : list_ok s -> net_state s = 0 -> sev <> 0 -> let notice := CStderr (str "disabeling network connections" ++ [NL]) in
  lauSim_switch_net sev s = match fds s with
    | FdsFreed => Halt Undefined [notice]
    | p => Done 0 (set_net 1 (set_fds (match p with FdsNull => FdsNull | _ => FdsFreed end) 0 s)) (notice :: map CShutdown (tracked s))
    end.
Proof.
  intros Hs Hn Hv. unfold lauSim_switch_net. unfold bind at 1, get. apply Z.eqb_neq in Hv. rewrite Hn, Hv. cbn [Z.eqb andb negb].
  unfold bind at 1, emit. unfold bind at 1. rewrite read_list by done. unfold bind at 1. rewrite shutdowns. unfold tracked.
  by destruct (fds s); unfold bind, put, ret, stop; cbn; rewrite ?app_nil_r.
Qed.

(** A fault does nothing, or takes the list down. *)
Lemma switch_net_cases sev s : list_ok s ->
  (lauSim_switch_net sev s = Halt Undefined [CStderr (str "disabeling network connections" ++ [NL])] /\ fds s = FdsFreed) \/
  (exists s', lauSim_switch_net sev s = Done 0 s' [] /\ fds s' = fds s /\ num_fds s' = num_fds s /\ (net_state s = 0 -> sev = 0)) \/
  (exists s' tr, lauSim_switch_net sev s = Done 0 s' tr /\ net_state s = 0 /\ sev <> 0 /\ fds s <> FdsFreed /\ shut_down tr = tracked s /\
    list_ok s' /\ tracked s' = [] /\ (fds s' <> FdsFreed -> fds s = FdsNull)).
Proof.
  intros Hs. destruct (Z.eqb_spec (net_state s) 0) as [Hn|Hn], (Z.eqb_spec sev 0) as [Hv|Hv].
  1,3,4: right; left; unfold lauSim_switch_net, bind, get, put, ret; apply Z.eqb_eq in Hv || apply Z.eqb_neq in Hv;
    apply Z.eqb_eq in Hn || apply Z.eqb_neq in Hn; rewrite Hn, Hv; cbn; eexists; (split; [reflexivity|]); split_and!; (done || lia).
  rewrite switch_down by done. destruct (fds s) as [|l|] eqn:Ef; [right; right..|by left].
  1,2: eexists _, _; split; [reflexivity|]; split_and!; try done; exact (shut_down_map (tracked s)).
Qed.

(** ** Every step keeps the invariant *)

(** As many descriptors as there are numbers for them. *)
Lemma tracked_bound s : consistent s -> Z.of_nat (length (tracked (lib s))) <= 2 ^ 31.
Proof.
  intros Hs. assert (tracked (lib s) ⊆+ seqZ 0 (2 ^ 31)) as Hsub.
  { apply NoDup_submseteq; [apply Hs|]. intros fd Hfd. apply elem_of_seqZ. destruct (co_listed s Hs fd Hfd) as [[b Hk] _]. pose proof (co_range s Hs fd b Hk). lia. }
  apply submseteq_length in Hsub. rewrite length_seqZ in Hsub. lia.
Qed.

Lemma remove_first_keeps x fd (l : list Z) : x ∈ l -> x <> fd -> x ∈ remove_first fd l.
Proof.
  induction l as [|y l IH]; [by intros ?%not_elem_of_nil|]. cbn. intros [->|Hx]%elem_of_cons Hne; destruct (Z.eqb_spec y fd); subst; try done; apply elem_of_cons; auto.
Qed.

(** The descriptor a thread accepts on or is about is open, so a new descriptor is not one of those. *)
Lemma new_descriptor s t r b p : threads_ok s -> kernel s !! r = None ->
  (in_flight p = None \/ in_flight p = Some r) -> forall t' fd, t' <> t ->
  in_flight (threads s t') = Some fd \/ accepts_on (threads s t') = Some fd -> <[r := b]> (kernel s) !! fd = kernel s !! fd /\ in_flight p <> Some fd.
Proof.
  intros Hs Hr Hp t' fd _ Hfd. assert (is_Some (kernel s !! fd)) as Hi
    by (destruct Hfd as [H|H]; [exact (in_flight_open _ _ _ (th_pc s Hs t') H)|exact (accepts_on_open _ _ _ (th_pc s Hs t') H)]).
  assert (fd <> r) as Hne by (intros ->; rewrite Hr in Hi; by destruct Hi). rewrite lookup_insert_ne by done. split; [done|]. destruct Hp as [->| ->]; congruence.
Qed.

Lemma open_others s t r : threads_ok s -> kernel s !! r = None -> others_not s t r.
Proof. intros Hs Hr t' _ H. destruct (in_flight_open _ _ _ (th_pc s Hs t') H). congruence. Qed.

Lemma at_thread (th : nat -> pc) t t' p q : (<[t := p]> th) t' = q -> t' = t /\ p = q \/ t' <> t /\ th t' = q.
Proof. destruct (decide (t' = t)) as [->|Hne]; rewrite ?fn_lookup_insert, ?fn_lookup_insert_ne by done; auto. Qed.

(** If the thread that moves is not about to list another one, neither is anybody else. *)
Lemma listing_insert s t p l k rc fd : p <> InAcceptListed fd -> listing (Sys l k (<[t := p]> (threads s)) rc) fd -> listing s fd.
Proof. intros Hp [t' [[_ H]|[_ H]]%at_thread]; [by destruct Hp|by exists t']. Qed.

Lemma listing_open s fd : threads_ok s -> listing s fd -> is_Some (kernel s !! fd).
Proof. intros Hs [t Ht]. eapply in_flight_open; [apply (th_pc s Hs t)|by rewrite Ht]. Qed.

(** A new descriptor, of which the calling thread takes charge if it is an internet socket. *)
Lemma opens_keeps s t r b p : consistent s -> threads s t = Idle -> 0 <= r < 2 ^ 31 -> kernel s !! r = None ->
  p = Idle /\ b = false \/ p = InSocket r /\ b = true \/ (exists sock, p = InAccept sock r /\ kernel s !! sock = Some b /\ returned s sock) ->
  consistent (Sys (lib s) (<[r := b]> (kernel s)) (<[t := p]> (threads s)) (raced s)).
Proof.
  intros Hs Ht Hr Hk Hp. destruct Hs as [Hth Hl Hn Hlisted Hraced Hinet Hcmp Hrange Hc].
  assert (pc_ok (<[r := b]> (kernel s)) p) as Hpc.
  { destruct Hp as [[-> _]|[[-> ->]|(sock & -> & Hks & _)]]; cbn; [done|by rewrite lookup_insert_eq|]. assert (sock <> r) by congruence.
    split; [done|]. exists b. by rewrite lookup_insert_ne, lookup_insert_eq by done. }
  assert (in_flight p = None /\ b = false \/ in_flight p = Some r) as Hf by (destruct Hp as [[-> ->]|[[-> _]|(sock & -> & _)]]; auto).
  assert (in_flight p = None \/ in_flight p = Some r) as Hf' by (destruct Hf as [[]|]; auto).
  assert (forall fd, is_Some (kernel s !! fd) -> fd <> r /\ <[r := b]> (kernel s) !! fd = kernel s !! fd) as Hold.
  { intros fd [b' Hfd]. assert (fd <> r) by congruence. by rewrite lookup_insert_ne. }
  constructor; cbn; [apply threads_move; [done|done|by apply new_descriptor|]|done|done|..].
  - intros sock Ha. destruct Hp as [[-> _]|[[-> _]|(sock' & -> & _ & Hret)]]; [done..|]. injection Ha as ->. by apply (returned_at s t).
  - intros fd Hfd. destruct (Hlisted fd Hfd) as [Hkf Hrf]. destruct (Hold fd Hkf) as [Hne ->]. split; [done|].
    apply returned_insert. split; [destruct Hf' as [->| ->]; congruence|]. by apply (returned_at s t).
  - intros fd Hfd. rewrite (proj2 (Hold fd (Hraced fd Hfd))). by apply Hraced.
  - intros fd Hnf Hfd Hnr. assert (fd ∈ tracked (lib s) \/ listing s fd) as Hfd'.
    { destruct Hfd as [|Hfd]; [by left|right]. revert Hfd. apply listing_insert. by destruct Hp as [[-> _]|[[-> _]|(? & -> & _)]]. }
    rewrite (proj2 (Hold fd ltac:(destruct Hfd' as [?|?]; [by apply Hlisted|by apply listing_open]))). by apply Hinet.
  - intros t' sock r' i n [[_ H]|[Hne H]]%at_thread Hnf Hnr; [by destruct Hp as [[-> _]|[[-> _]|(? & -> & _)]]|].
    rewrite (Hcmp t' sock r' i n H Hnf Hnr). rewrite (proj2 (Hold r' (in_flight_open _ _ r' (th_pc s Hth t') ltac:(by rewrite H)))). done.
  - intros fd b' [[<- _]|[_ H]]%lookup_insert_Some; [done|by apply (Hrange fd b')].
  - intros fd Hnf Hnr [[<- ->]|[Hne H]]%lookup_insert_Some [Hpf Ho]%returned_insert; [by destruct Hf as [[]|]|]. apply Hc; [done..|]. apply (returned_at s t). by rewrite Ht.
Qed.

(** A thread goes on with what it has, or lets go of it. *)
Lemma goes_on s t p l rc : threads_ok s -> pc_ok (kernel s) p -> (accepts_on p = None \/ accepts_on p = accepts_on (threads s t)) ->
  (in_flight p = None \/ in_flight p = in_flight (threads s t)) -> threads_ok (Sys l (kernel s) (<[t := p]> (threads s)) rc).
Proof.
  intros Hs Hp Ha Hf. apply threads_move; [done|done|..].
  - intros t' fd Hne Hfd. split; [done|]. destruct Hf as [->| ->]; [done|].
    intros Ht. destruct Hfd as [H|H]; [by apply Hne, (th_one s Hs t t' fd)|by apply (th_accept s Hs t' fd H t)].
  - intros sock Hsock. destruct Ha as [Ha|Ha]; rewrite Ha in Hsock; [done|]. by apply (returned_at s t), (th_accept s Hs t).
Qed.

Lemma find_keeps s t sock r i : consistent s -> threads s t = InAccept sock r -> (i < num_fds (lib s) <-> sock ∈ tracked (lib s)) ->
  consistent (Sys (lib s) (kernel s) (<[t := InCompare sock r i (num_fds (lib s))]> (threads s)) (raced s)).
Proof.
  intros Hs Ht Hi. pose proof (th_pc s (co_threads s Hs) t) as Hpc. rewrite Ht in Hpc. pose proof (th_accept s (co_threads s Hs) t sock) as Hacc.
  rewrite Ht in Hacc. specialize (Hacc eq_refl). constructor; cbn; try apply Hs.
  - apply goes_on; [apply Hs|exact Hpc|rewrite Ht; by right..].
  - intros fd Hfd. destruct (co_listed s Hs fd Hfd) as [Hk [Hf Ho]%(returned_at s t)]. split; [done|]. apply returned_insert. by rewrite Ht in Hf.
  - intros fd Hnf Hfd. apply (co_inet s Hs); [done|]. destruct Hfd as [|Hfd]; [by left|right]. revert Hfd. by apply listing_insert.
  - intros t' sock' r' i' n' [[-> [= -> -> <- <-]]|[_ H]]%at_thread Hnf Hnr; [|by apply (co_compare s Hs t' sock')].
    destruct Hpc as (_ & b & Hks & Hkr). rewrite Hi, Hkr, <- Hks. split.
    + intros Hin. by apply (co_inet s Hs); [|left|].
    + intros Hk. by apply (co_complete s Hs).
  - intros fd Hnf Hnr Hk [Hp Ho]%returned_insert. apply (co_complete s Hs); [done..|]. apply (returned_at s t). by rewrite Ht.
Qed.

Lemma compare_keeps s t sock r i n : consistent s -> threads s t = InCompare sock r i n ->
  consistent (Sys (lib s) (kernel s) (<[t := if i <? num_fds (lib s) then InAcceptListed r else Idle]> (threads s))
    (if (num_fds (lib s) =? n) && bool_decide (sock ∉ raced s) then raced s else {[r]} ∪ raced s)).
Proof.
  intros Hs Ht. pose proof (th_pc s (co_threads s Hs) t) as Hpc. rewrite Ht in Hpc. destruct Hpc as (Hne & b & Hks & Hkr). set (rc := if _ && _ then _ else _).
  assert (forall fd, fd ∉ rc -> fd ∉ raced s) as Hrc by (subst rc; intros fd; destruct (_ && _); set_solver).
  assert (r ∉ rc -> fds (lib s) <> FdsFreed -> i < num_fds (lib s) <-> kernel s !! r = Some true) as Hr.
  { subst rc. intros Hr Hnf. destruct (_ && _) eqn:E; [|set_solver]. apply andb_prop in E as [->%Z.eqb_eq Hsock%bool_decide_eq_true].
    by apply (co_compare s Hs t sock r i n). }
  constructor; cbn; try apply Hs.
  - destruct (_ <? _); (apply goes_on; [apply Hs|..]); cbn; rewrite ?Ht; auto; by eexists.
  - intros fd Hfd. destruct (co_listed s Hs fd Hfd) as [Hk [Hf Ho]%(returned_at s t)]. split; [done|]. apply returned_insert. split; [|done].
    rewrite Ht in Hf. by destruct (_ <? _).
  - intros fd Hfd. subst rc. destruct (_ && _); [by apply (co_raced s Hs)|]. apply elem_of_union in Hfd as [->%elem_of_singleton|?]; [by eexists|by apply (co_raced s Hs)].
  - intros fd Hnf Hfd Hnr. destruct Hfd as [Hfd|[t' [[_ E]|[_ E]]%at_thread]]; [apply (co_inet s Hs); [done|by left|by apply Hrc]| |apply (co_inet s Hs); [done|right; by eexists|by apply Hrc]].
    destruct (Z.ltb_spec i (num_fds (lib s))) as [Hi|]; [|done]. injection E as ->. by apply Hr.
  - intros t' sock' r' i' n' [[_ E]|[_ E]]%at_thread Hnf Hnr; [by destruct (_ <? _)|]. apply (co_compare s Hs t' sock'); [done..|by apply Hrc].
  - intros fd Hnf Hnr Hk [Hp Ho]%returned_insert. apply (co_complete s Hs); [done|by apply Hrc|done|]. apply (returned_at s t). split; [|done]. rewrite Ht. intros [= <-].
    destruct (Z.ltb_spec i (num_fds (lib s))) as [|Hi]; [done|]. apply Hr in Hk; [lia|done..].
Qed.

Lemma add_keeps s t r l : consistent s -> threads s t = InSocket r \/ threads s t = InAcceptListed r ->
  list_ok l -> tracked l = tracked (lib s) ++ [r] -> fds (lib s) <> FdsFreed -> consistent (Sys l (kernel s) (<[t := Idle]> (threads s)) (raced s)).
Proof.
  intros Hs Ht Hl El Hnf. assert (in_flight (threads s t) = Some r) as Hf by (by destruct Ht as [->| ->]).
  pose proof (in_flight_open _ _ r (th_pc s (co_threads s Hs) t) Hf) as Hk. constructor; cbn; rewrite ?El.
  - by apply goes_on; [apply Hs|auto..].
  - done.
  - apply NoDup_app. split_and!; [apply Hs| |apply NoDup_singleton]. intros fd Hfd ->%list_elem_of_singleton. by apply (co_listed s Hs r Hfd) in Hf.
  - intros fd [Hfd| ->%list_elem_of_singleton]%elem_of_app; rewrite returned_insert.
    + destruct (co_listed s Hs fd Hfd) as [? []%(returned_at s t)]. by split_and!.
    + split_and!; [done..|]. intros t' Hne H. by apply Hne, (th_one s (co_threads s Hs) t t' r).
  - apply Hs.
  - intros fd _ [[Hfd| ->%list_elem_of_singleton]%elem_of_app|Hfd] Hnr; [by apply (co_inet s Hs); [|left|]| |].
    + destruct Ht as [Ht|Ht]; [|apply (co_inet s Hs); [done|right; by exists t|done]]. pose proof (th_pc s (co_threads s Hs) t) as Hpc. by rewrite Ht in Hpc.
    + apply (co_inet s Hs); [done|right|done]. revert Hfd. by apply listing_insert.
  - intros t' sock r' i n [[_ H]|[_ H]]%at_thread _ Hnr; [done|]. by apply (co_compare s Hs t' sock).
  - apply Hs.
  - intros fd _ Hnr Hkf [_ Ho]%returned_insert. apply elem_of_app. destruct (decide (fd = r)) as [->|Hne]; [right; by apply list_elem_of_singleton|left].
    apply (co_complete s Hs); [done..|]. apply (returned_at s t). split; [|done]. rewrite Hf. congruence.
Qed.

Lemma remove_keeps s t fd l : consistent s -> threads s t = Idle -> is_Some (kernel s !! fd) -> returned s fd ->
  (forall t', accepts_on (threads s t') <> Some fd) -> list_ok l -> tracked l = remove_first fd (tracked (lib s)) ->
  (fds l <> FdsFreed -> fds (lib s) <> FdsFreed) -> consistent (Sys l (kernel s) (<[t := InClose fd]> (threads s)) (raced s)).
Proof.
  intros Hs Ht Hk Hr Ha Hl El Hnf. constructor; cbn; rewrite ?El.
  - apply threads_move; [apply Hs|done| |done]. intros t' fd' Hne Hfd. split; [done|]. cbn. intros [= <-]. destruct Hfd as [H|H]; [by apply Hr in H|by apply Ha in H].
  - done.
  - eapply sublist_NoDup; [apply Hs|apply remove_first_sub].
  - intros x Hx. assert (x <> fd) by (intros ->; exact (remove_first_gone fd _ (co_nodup s Hs) Hx)). eapply elem_of_sublist in Hx; [|apply remove_first_sub].
    destruct (co_listed s Hs x Hx) as [? []%(returned_at s t)]. split; [done|]. apply returned_insert. cbn. split; [congruence|done].
  - apply Hs.
  - intros x Hx Hin. apply (co_inet s Hs); [by apply Hnf|]. destruct Hin as [Hin|Hin]; [left; eapply elem_of_sublist; [exact Hin|apply remove_first_sub]|right].
    revert Hin. by apply listing_insert.
  - intros t' sock r i n [[_ H]|[_ H]]%at_thread Hx; [done|]. apply (co_compare s Hs t' sock); [done|by apply Hnf].
  - apply Hs.
  - intros x Hx Hnr Hkx [Hp Ho]%returned_insert. cbn in Hp. apply remove_first_keeps; [|congruence]. apply (co_complete s Hs); [by apply Hnf|done|done|].
    apply (returned_at s t). by rewrite Ht.
Qed.

Lemma close_keeps s t fd : consistent s -> threads s t = InClose fd ->
  consistent (Sys (lib s) (delete fd (kernel s)) (<[t := Idle]> (threads s)) (raced s ∖ {[fd]})).
Proof.
  intros Hs Ht. assert (in_flight (threads s t) = Some fd) as Hf by (by rewrite Ht).
  assert (forall t' x, t' <> t -> in_flight (threads s t') = Some x \/ accepts_on (threads s t') = Some x -> x <> fd) as Hother.
  { intros t' x Hne Hx ->. destruct Hx as [H|H]; [by apply Hne, (th_one s (co_threads s Hs) t t' fd)|by apply (th_accept s (co_threads s Hs) t' fd H t)]. }
  constructor; cbn; try apply Hs.
  - apply threads_move; [apply Hs|done| |done]. intros t' x Hne Hx. split; [|done]. rewrite lookup_delete_ne; [done|]. intros <-. by apply (Hother t' fd Hne Hx).
  - intros x Hx. destruct (co_listed s Hs x Hx) as [? [Hxf Ho]%(returned_at s t)]. rewrite lookup_delete_ne by congruence. split; [done|]. by apply returned_insert.
  - intros x [Hx Hne]%elem_of_difference. rewrite lookup_delete_ne by set_solver. by apply (co_raced s Hs).
  - intros x Hnf Hin Hnr. assert (x <> fd) as Hne.
    { destruct Hin as [Hin|[t' [[_ H]|[Hne H]]%at_thread]]; [|done|apply (Hother t' x Hne); left; by rewrite H].
      intros ->. by apply (co_listed s Hs fd Hin) in Hf. }
    rewrite lookup_delete_ne by done. apply (co_inet s Hs); [done| |set_solver]. destruct Hin as [|Hin]; [by left|right]. revert Hin. by apply listing_insert.
  - intros t' sock r i n [[_ H]|[Hne H]]%at_thread Hnf Hnr; [done|].
    assert (sock <> fd /\ r <> fd) as [Hsock Hr] by (split; apply (Hother t'); rewrite ?H; auto).
    rewrite lookup_delete_ne by done. apply (co_compare s Hs t' sock); [done..|]. set_solver.
  - intros x b [_ H]%lookup_delete_Some. by apply (co_range s Hs x b).
  - intros x Hnf Hnr [Hne H]%lookup_delete_Some [_ Ho]%returned_insert. apply (co_complete s Hs); [done|set_solver|done|]. apply (returned_at s t). rewrite Hf. split; [congruence|done].
Qed.

(** The list goes, or it stays as it is. *)
Lemma switch_keeps s l : consistent s -> list_ok l ->
  fds l = fds (lib s) \/ tracked l = [] /\ (fds l <> FdsFreed -> fds (lib s) = FdsNull) -> consistent (Sys l (kernel s) (threads s) (raced s)).
Proof.
  intros Hs Hl H. assert (threads_ok (Sys l (kernel s) (threads s) (raced s))) as Hth by (destruct (co_threads s Hs); by constructor).
  destruct H as [E|[E Hnf]].
  - assert (tracked l = tracked (lib s)) as Et by (unfold tracked; by rewrite E). destruct Hs. constructor; cbn; rewrite ?Et, ?E; try done.
  - assert (fds l <> FdsFreed -> fds (lib s) <> FdsFreed) as Hnf' by (intros Hx; rewrite Hnf by done; done). constructor; cbn; try apply Hs; rewrite ?E; try done.
    + apply NoDup_nil_2.
    + by intros fd ?%elem_of_nil.
    + intros fd Hf [Hin|Hin]; [by apply elem_of_nil in Hin|]. apply (co_inet s Hs); [by apply Hnf'|by right].
    + intros t sock r i n Ht Hf. apply (co_compare s Hs t sock); [done|by apply Hnf'].
    + intros fd Hf Hnr Hk Hr. pose proof (co_complete s Hs fd (Hnf' Hf) Hnr Hk Hr) as Hc. unfold tracked in Hc. rewrite (Hnf Hf) in Hc. by apply elem_of_nil in Hc.
Qed.

Lemma step_keeps s s' : consistent s -> step s s' -> consistent s'.
Proof.
  intros Hs Hstep. pose proof (co_list s Hs) as Hl. destruct Hstep as [t domain r Ht Hr Hk|t sock r b Ht Hks Hret Hr Hk|t sock r i l tr Ht E|t sock r i n Ht|
    t r rc l tr Ht E|t fd b rc l tr Ht Hk Hret Ha E|t fd Ht|sev rc l tr E].
  - apply opens_keeps; [done..|]. destruct (is_inet domain); auto.
  - apply opens_keeps; [done..|]. right; right. by exists sock.
  - destruct (find_run sock (lib s) Hl) as [E' Hi]. rewrite E' in E. injection E as <- <- _. by apply (find_keeps s t sock).
  - by apply (compare_keeps s t sock).
  - assert (is_Some (kernel s !! r)) as [b Hk] by (apply (in_flight_open _ (threads s t)); [apply (co_threads s Hs)|by destruct Ht as [->| ->]]).
    pose proof (co_range s Hs r b Hk). pose proof (tracked_bound s Hs). destruct (add_done r (lib s) rc l tr) as (H1 & H2 & H3 & _); [done|lia| |done|by eapply add_keeps].
    rewrite tracked_length by done. lia.
  - destruct (remove_run fd (lib s) Hl) as (rc' & l' & E' & H1 & H2 & H3 & _). rewrite E' in E. injection E as _ <- _. by eapply remove_keeps.
  - by apply close_keeps.
  - apply switch_keeps; [done|..]; destruct (switch_net_cases sev (lib s) Hl) as [[E' _]|[(l' & E' & H1 & H2 & _)|(l' & tr' & E' & _ & _ & _ & _ & H1 & H2)]];
      rewrite E' in E; try done; injection E as _ <- _; [|done|by left|by right]. unfold list_ok in *. by rewrite H1, H2.
Qed.

Lemma start_consistent : consistent start.
Proof.
  constructor; cbn; try done.
  - apply NoDup_nil_2.
  - by intros fd ?%elem_of_nil.
  - by intros fd _ [?%elem_of_nil|[t Ht]].
Qed.

Lemma reached_consistent s : reached s -> consistent s.
Proof. intros H. unfold reached in H. revert H. apply (rtc_ind_r (fun x => consistent x)); [apply start_consistent|]. intros x y _ Hstep Hx. by eapply step_keeps. Qed.

(** *** Runs without a race *)

(** Nobody changes the length of the list while another thread is between the search and the comparison. *)
Definition quiet (s s' : sys) : Prop :=
  step s s' /\ (num_fds (lib s') = num_fds (lib s) \/ forall t sock r i n, threads s t <> InCompare sock r i n).
Definition undisturbed : sys -> Prop := rtc quiet start.

Definition counted (s : sys) : Prop := raced s = ∅ /\ forall t sock r i n, threads s t = InCompare sock r i n -> n = num_fds (lib s).

(** Who was in front of the comparison still is, with the right length. *)
Lemma counted_step s t p l k : counted s -> (num_fds l = num_fds (lib s) \/ forall t sock r i n, threads s t <> InCompare sock r i n) ->
  (forall sock r i n, p = InCompare sock r i n -> n = num_fds l) -> counted (Sys l k (<[t := p]> (threads s)) (raced s)).
Proof.
  intros [Hr Hn] Hq Hp. split; [done|]. cbn. intros t' sock r i n [[_ E]|[_ E]]%at_thread; [by eapply Hp|].
  destruct Hq as [->|Hq]; [by eapply Hn|by apply Hq in E].
Qed.

Lemma quiet_counted s s' : counted s -> quiet s s' -> counted s'.
Proof.
  intros Hs [Hstep Hq]. destruct Hstep as [t domain r Ht Hr Hk|t sock r b Ht Hks Hret Hr Hk|t sock r i l tr Ht E|t sock r i n Ht|
    t r rc l tr Ht E|t fd b rc l tr Ht Hk Hret Ha E|t fd Ht|sev rc l tr E]; cbn in Hq; try (apply counted_step; [done|done|]).
  - intros. by destruct (is_inet domain).
  - done.
  - by intros ? ? ? ? [= _ _ _ <-].
  - destruct Hs as [Hr Hn]. rewrite <- (Hn t sock r i n Ht), Z.eqb_refl, bool_decide_true by (rewrite Hr; set_solver). cbn.
    apply counted_step; [by split|by left|]. intros. by destruct (_ <? _).
  - done.
  - done.
  - destruct (counted_step s t Idle (lib s) (delete fd (kernel s)) Hs Hq) as [Hr Hn]; [done|]. split; [cbn in *; set_solver|exact Hn].
  - destruct Hs as [Hr Hn]. split; [done|]. cbn. intros t sock r i n Ht. destruct Hq as [->|Hq]; [by eapply Hn|by apply Hq in Ht].
Qed.

Lemma undisturbed_counted s : undisturbed s -> counted s.
Proof. intros H. unfold undisturbed in H. revert H. apply (rtc_ind_r (fun x => counted x)); [by split|]. intros x y _ Hstep Hx. by eapply quiet_counted. Qed.

(** C4: a network failure among threads.  However the calls of the application's threads and the faults of the backend
    interleave, as long as no failure has taken the list down the next fault is executed, and it shuts down, each at most once,
    only descriptors that are open and that the application has been given and is not closing.  But for the descriptors of
    [raced] these are exactly the internet sockets among them.  In [raced] are descriptors that [accept] has returned: those for
    which the list had another length when [is_in_list] compared the index than when it searched the list (the mutex is given
    back in between), and those accepted on such a one; it is empty when the length never changes in between.  What may happen
    to them otherwise is in [accept_race]. *)
Theorem failure_hits_sockets_among_threads s sev : reached s -> fds (lib s) <> FdsFreed ->
  (exists l tr, lauSim_switch_net sev (lib s) = Done 0 l tr /\ NoDup (shut_down tr) /\
    (forall fd, fd ∈ shut_down tr -> is_Some (kernel s !! fd) /\ returned s fd) /\
    forall fd, fd ∉ raced s -> fd ∈ shut_down tr <-> (net_state (lib s) = 0 /\ sev <> 0) /\ kernel s !! fd = Some true /\ returned s fd) /\
  (undisturbed s -> raced s = ∅).
Proof.
  intros Hs%reached_consistent Hnf. split; [|by intros [? _]%undisturbed_counted].
  destruct (switch_net_cases sev (lib s) (co_list s Hs)) as [[_ H]|[(l & E & _ & _ & Hn)|(l & tr & E & Hn & Hv & _ & Hsh & _)]]; [done|..].
  - exists l, []. split; [done|]. split; [constructor|]. split; [by intros fd ?%elem_of_nil|]. intros fd _. split; [by intros ?%elem_of_nil|].
    intros [[H0 Hv] _]. by apply Hn in H0.
  - exists l, tr. rewrite Hsh. split; [done|]. split; [apply Hs|]. split; [apply (co_listed s Hs)|]. intros fd Hr. split.
    + intros Hfd. split; [done|]. split; [by apply (co_inet s Hs); [|left|]|by apply (co_listed s Hs)].
    + intros [_ [Hk Hret]]. by apply (co_complete s Hs).
Qed.

End Steps.

(** ** The steps are those of the calls *)

(** A call that no other thread interrupts is a sequence of steps. *)
Section Alone.
Context (usable : Z -> Z).

Lemma idle_again (th : nat -> pc) t p t' : th t = Idle -> (<[t := Idle]> (<[t := p]> th)) t' = th t'.
Proof. intros Ht. destruct (decide (t' = t)) as [->|Hne]; by rewrite ?fn_lookup_insert, ?fn_lookup_insert_ne. Qed.

Lemma socket_steps s t domain r l tr : threads s t = Idle -> 0 <= r < 2 ^ 31 -> kernel s !! r = None ->
  socket usable domain r (lib s) = Done r l tr -> exists th,
  rtc (step usable) s (Sys l (<[r := is_inet domain]> (kernel s)) th (raced s)) /\ forall t', th t' = threads s t'.
Proof.
  intros Ht Hr Hk. pose proof (step_socket usable s t domain r Ht Hr Hk) as H1. revert H1. unfold socket, is_inet.
  destruct ((domain =? AF_INET) || (domain =? AF_INET6)) eqn:Hd; intros H1 E.
  - unfold bind at 1 in E. unfold bind at 1 in E. destruct (add_sock_to_list usable r (lib s)) as [rc l' t1|] eqn:Ea; [|done].
    assert (l = l') as -> by (destruct (rc =? 0); cbn in E; by injection E). exists (<[t := Idle]> (<[t := InSocket r]> (threads s))). split; [|intros t'; by apply idle_again].
    eapply rtc_l; [exact H1|]. apply rtc_once. refine (step_add usable (Sys _ _ _ _) t r _ _ _ _ Ea). left. apply fn_lookup_insert.
  - injection E as <- _. eexists. split; [apply rtc_once; exact H1|]. intros t'. cbn. destruct (decide (t' = t)) as [->|Hne]; by rewrite ?fn_lookup_insert, ?fn_lookup_insert_ne.
Qed.

Lemma accept_steps s t sock r b l tr : list_ok (lib s) -> threads s t = Idle -> kernel s !! sock = Some b -> returned s sock -> 0 <= r < 2 ^ 31 -> kernel s !! r = None ->
  sock ∉ raced s -> accept usable sock r (lib s) = Done r l tr -> exists th,
  rtc (step usable) s (Sys l (<[r := b]> (kernel s)) th (raced s)) /\ forall t', th t' = threads s t'.
Proof.
  intros Hl Ht Hs Hret Hr Hk Hnr E. destruct (find_run sock (lib s) Hl) as [Ef _]. set (i := index_of sock (tracked (lib s))) in *.
  set (s1 := Sys (lib s) (<[r := b]> (kernel s)) (<[t := InAccept sock r]> (threads s)) (raced s)).
  set (s2 := Sys (lib s) (kernel s1) (<[t := InCompare sock r i (num_fds (lib s))]> (threads s1)) (raced s)).
  set (s3 := Sys (lib s) (kernel s1) (<[t := if i <? num_fds (lib s) then InAcceptListed r else Idle]> (threads s2)) (raced s)).
  assert (rtc (step usable) s s3) as H3.
  { eapply rtc_l; [by apply (step_accept usable s t sock r b)|]. eapply rtc_l; [refine (step_find usable s1 t sock r i _ [] _ Ef); apply fn_lookup_insert|].
    apply rtc_once. pose proof (step_compare usable s2 t sock r i (num_fds (lib s)) (fn_lookup_insert _ _ _)) as Hc.
    cbn [s2 lib raced] in Hc. by rewrite Z.eqb_refl, bool_decide_true in Hc. }
  unfold accept, is_in_list, bind, get, ret in E. rewrite Ef in E. cbn in E. destruct (i <? num_fds (lib s)) eqn:Hi.
  - destruct (add_sock_to_list usable r (lib s)) as [rc l' t1|] eqn:Ea; [|done].
    assert (l = l') as -> by (destruct (rc =? 0); cbn in E; by injection E). eexists. split.
    + eapply rtc_r; [exact H3|]. refine (step_add usable s3 t r _ _ _ _ Ea). right. apply fn_lookup_insert.
    + intros t'. cbn. destruct (decide (t' = t)) as [->|Hne]; by rewrite ?fn_lookup_insert, ?fn_lookup_insert_ne.
  - injection E as <- _. eexists. split; [exact H3|]. intros t'. cbn. destruct (decide (t' = t)) as [->|Hne]; by rewrite ?fn_lookup_insert, ?fn_lookup_insert_ne.
Qed.

Lemma close_steps s t fd b l tr r : threads s t = Idle -> kernel s !! fd = Some b -> returned s fd -> (forall t', accepts_on (threads s t') <> Some fd) ->
  close fd r (lib s) = Done r l tr -> exists th,
  rtc (step usable) s (Sys l (delete fd (kernel s)) th (raced s ∖ {[fd]})) /\ forall t', th t' = threads s t'.
Proof.
  intros Ht Hk Hret Ha E. unfold close in E. unfold bind at 1 in E. destruct (remove_sock_from_list fd (lib s)) as [rc l' t1|] eqn:Er; [|done].
  assert (l = l') as -> by (destruct (rc =? 0); cbn in E; by injection E). eexists. split; [|intros t'; by apply (idle_again (threads s) t (InClose fd))].
  eapply rtc_l; [by apply (step_remove usable s t fd b rc l' t1)|]. apply rtc_once. refine (step_close usable (Sys _ _ _ _) t fd _). apply fn_lookup_insert.
Qed.

End Alone.

(** ** Examples *)

#[local] Abbreviation gstep := (step glibc_usable).

(** Two threads: one listens on 3 and has taken 4 off the list to close it, the other has accepted 5 but not listed it. *)
Lemma example_reached : exists s, reached glibc_usable s /\ fds (lib s) <> FdsFreed /\ net_state (lib s) = 0 /\
  kernel s = <[5 := true]> (<[4 := true]> (<[3 := true]> ∅)) /\ threads s 0%nat = InClose 4 /\ threads s 1%nat = InAcceptListed 5 /\ returned s 3 /\ raced s = ∅.
Proof.
  eexists. split_and!.
  - unfold reached, start. eapply rtc_l; [by apply (step_socket _ _ 0 AF_INET 3)|]. cbn.
    eapply rtc_l; [eapply (step_add _ _ 0 3); [by left|reflexivity]|]. cbn.
    eapply rtc_l; [by apply (step_socket _ _ 0 AF_INET6 4)|]. cbn.
    eapply rtc_l; [eapply (step_add _ _ 0 4); [by left|reflexivity]|]. cbn.
    eapply rtc_l; [apply (step_accept _ _ 1 3 5 true); [done|done| |done|done]; by intros [|[]]|]. cbn.
    eapply rtc_l; [eapply (step_find _ _ 1 3 5); [done|reflexivity]|]. cbn.
    eapply rtc_l; [by eapply (step_compare _ _ 1 3 5)|]. cbn.
    eapply rtc_l; [eapply (step_remove _ _ 0 4 true); [done|done|by intros [|[]]|by intros [|[]]|reflexivity]|]. cbn. apply rtc_refl.
  - done.
  - done.
  - done.
  - done.
  - done.
  - by intros [|[]].
  - done.
Qed.

Lemma failure_hits_sockets_among_threads_witness : exists s l tr, reached glibc_usable s /\
  lauSim_switch_net 100 (lib s) = Done 0 l tr /\ 3 ∈ shut_down tr /\ 4 ∉ shut_down tr /\ 5 ∉ shut_down tr.
Proof.
  destruct example_reached as (s & Hs & Hnf & Hn & Hk & H0 & H1 & H3 & Hr). exists s.
  destruct (failure_hits_sockets_among_threads glibc_usable s 100 Hs Hnf) as [(l & tr & E & _ & _ & Hin) _]. exists l, tr. split; [done|]. split; [done|].
  rewrite Hr in Hin. rewrite !Hin by apply not_elem_of_empty. split; [|split; intros (_ & _ & Hr'); [exact (Hr' 0%nat ltac:(by rewrite H0))|exact (Hr' 1%nat ltac:(by rewrite H1))]].
  split; [done|]. by rewrite Hk.
Defined.

