(* ===== verification/Simulation.v ===== *)
(** * From the fault scenario to the subsystems of the nodes
    The server with the MQTT plugin replays a file of faults; the messages it publishes go through a broker to the
    clients of the nodes; the backend in the process of each application executes the faults of its node.  All the
    programs are whole runs of their [main]; the broker, which is not part of the system, delivers to a client the
    messages on the topics it has subscribed to, in order. *)

From S2P Require Import Prelude CString Types Options PluginManager Config Server ServerTics Main Transcribe Replay.
From S2P Require Import RecordReplay Random Mosquitto Lifecycle EndToEnd Plugins Runs MainRuns Process Program.
From S2P Require Import Mqtt Client Backend Delivery.
Local Open Scope Z_scope.

(** ** Subscriptions *)

(** A topic that the filter "envelope/<name>/#" of a client matches: the level of the node itself and all below. *)
Definition subscribed (target topic : cstr) : bool :=
  strcmp_eq topic (str "envelope/" ++ target) || bool_decide (str "envelope/" ++ target ++ str "/" `prefix_of` topic).

(** What the broker delivers to the client of a node. *)
Definition for_node (target : cstr) (tr : list event) : list (cstr * cstr) :=
  List.filter (fun m => subscribed target m.1) (published tr).

Definition slash_free (w : cstr) : Prop := "/"%char ∉ w.

Lemma slash_split (a b x y : cstr) : slash_free a -> slash_free b -> a ++ "/"%char :: x = b ++ "/"%char :: y -> a = b.
Proof.
  unfold slash_free. revert b. induction a as [|c a IH]; intros [|d b] Ha Hb E; try done; injection E as E1 E2; subst.
  - by destruct Hb; left.
  - by destruct Ha; left.
  - f_equal. apply IH; [| |done]; set_solver.
Qed.

Lemma subscribed_topic target n c : slash_free target -> slash_free n ->
  subscribed target (fault_topic n c) = bool_decide (n = target).
Proof.
  intros Ht Hn. unfold subscribed, fault_topic, strcmp_eq. rewrite <- bool_decide_or. apply bool_decide_ext. split.
  - intros [E|[z E]].
    + apply (inj (app (str "envelope/"))) in E. destruct c as [c|]; [|by rewrite app_nil_r in E]. exfalso. apply Ht. rewrite <- E.
      apply elem_of_app. right. apply elem_of_app. left. elem_dec.
    + rewrite <- !app_assoc in E. apply (inj (app (str "envelope/"))) in E. destruct c as [c|].
      * by apply (slash_split _ _ c z).
      * exfalso. apply Hn. rewrite app_nil_r in E. rewrite E. apply elem_of_app. right. by left.
  - intros ->. destruct c as [c|]; [right|left].
    + exists c. by rewrite <- !app_assoc.
    + by rewrite app_nil_r.
Qed.

(** ** What the MQTT plugin makes of the calls *)

Definition mqtt_says (x : com_call) : list event :=
  match x with
  | CallFail n k v => [EPublish (fault_topic n k) (fault_payload v)]
  | CallExtern m => [EPublish (str "envelope/lausim") m]
  end.

(** The faults of a node among those the server reports. *)
Definition faults_of (target : cstr) (fs : list fault) : list cfault :=
  map (fun f => CFault (f_component f) (f_severity f)) (List.filter (fun f => bool_decide (f_node f = target)) fs).

Lemma for_node_app target a b : for_node target (a ++ b) = for_node target a ++ for_node target b.
Proof. unfold for_node, published. by rewrite omap_app, List.filter_app. Qed.

Lemma for_node_visible target tr : for_node target (List.filter visible tr) = for_node target tr.
Proof. unfold for_node, published. f_equal. induction tr as [|ev tr IH]; [done|]. destruct ev; cbn; by rewrite ?IH. Qed.

Lemma for_node_call target x rest : for_node target (mqtt_says x ++ rest) =
  (match x with
   | CallFail n k v => if subscribed target (fault_topic n k) then [(fault_topic n k, fault_payload v)] else []
   | CallExtern m => if subscribed target (fault_topic (str "lausim") None) then [(str "envelope/lausim", m)] else []
   end) ++ for_node target rest.
Proof.
  rewrite for_node_app. f_equal. destruct x as [n k v|m]; unfold for_node; cbn [mqtt_says published omap List.filter fst].
  - reflexivity.
  - reflexivity.
Qed.

Section Messages.
Context (target : cstr) (target_ok : slash_free target) (not_lausim : target <> str "lausim") (serialize : laik_ext_msg -> cstr).

Lemma for_node_faults fs rest : Forall (fun f => slash_free (f_node f)) fs ->
  for_node target (printed mqtt_says (calls_of serialize fs) ++ rest) = map (message_of target) (faults_of target fs) ++ for_node target rest.
Proof.
  intros Hfs. assert (forall rest, for_node target (printed mqtt_says (map (fun f => CallFail (f_node f) (f_component f) (f_severity f)) fs) ++ rest) =
    map (message_of target) (faults_of target fs) ++ for_node target rest) as Hmap.
  { intros rest'. induction Hfs as [|f fs Hf _ IH]; [done|]. unfold printed in *. cbn [map concat]. rewrite <- app_assoc, for_node_call, subscribed_topic by done.
    rewrite IH. unfold faults_of. cbn [List.filter]. case_bool_decide as E; [by rewrite E|done]. }
  destruct fs as [|f fs]; [done|]. unfold calls_of. rewrite printed_app, <- app_assoc, Hmap. f_equal.
  unfold printed. cbn [map concat]. rewrite app_nil_r, for_node_call, subscribed_topic; [|done|unfold slash_free; elem_dec].
  by rewrite bool_decide_false.
Qed.

Lemma for_node_tics fss : Forall (Forall (fun f => slash_free (f_node f))) fss ->
  for_node target (printed mqtt_says (concat (map (calls_of serialize) fss))) = map (message_of target) (faults_of target (concat fss)).
Proof.
  induction 1 as [|fs fss Hfs _ IH]; [done|]. cbn [map concat]. rewrite printed_app, for_node_faults, IH by done.
  unfold faults_of. by rewrite List.filter_app, !map_app.
Qed.

(** The start signal reaches every node once. *)
Lemma for_node_start ns rest : NoDup (map n_name ns) -> Forall (fun n => slash_free (n_name n)) ns ->
  for_node target (printed mqtt_says (start_calls true ns) ++ rest) =
    (if bool_decide (target ∈ map n_name ns) then [message_of target (CFault None 0)] else []) ++ for_node target rest.
Proof.
  intros Hnd Hns. induction Hns as [|n ns Hn _ IH]; [done|]. cbn [map] in Hnd. apply NoDup_cons in Hnd as [Hnn Hnd].
  unfold printed, start_calls in *. cbn [map concat]. rewrite <- app_assoc, for_node_call, subscribed_topic, IH by done.
  destruct (decide (n_name n = target)) as [E|E].
  - rewrite (bool_decide_true (n_name n = target)) by done. rewrite (bool_decide_true (target ∈ n_name n :: _)) by (rewrite E; by left).
    rewrite bool_decide_false by (by rewrite <- E). by rewrite E.
  - rewrite (bool_decide_false (n_name n = target)) by done. cbn [app]. f_equal.
    by rewrite (bool_decide_ext (target ∈ n_name n :: map n_name ns) (target ∈ map n_name ns)) by (rewrite elem_of_cons; naive_solver).
Qed.

End Messages.

(** ** The server *)

(** The MQTT plugin's part of the world, and a connected instance in it. *)
Definition aside_mqtt (w w' : world) : Prop := exists m, w' = set_mosquitto m w.
Definition connected_mqtt (w : world) : Prop := exists c, mq_instance (w_mosquitto w) = Some c /\ mq_is_init c = true.

#[export] Instance aside_mqtt_preorder : PreOrder aside_mqtt.
Proof.
  split; [intros w; exists (w_mosquitto w); by destruct w|]. intros w1 w2 w3 [m2 ->] [m3 ->]. by exists m3.
Qed.

#[export] Instance mosquitto_voices rc strerror : Voices aside_mqtt connected_mqtt (mosquitto_com rc strerror) mqtt_says.
Proof.
  constructor. intros x w (c & Hc & Hi).
  assert (exists r m', runs (match x with CallFail n k v => notify_fail rc strerror n k v | CallExtern m => notify_extern rc m end) (w_mosquitto w) r m' (mqtt_says x) /\
    mq_instance m' = Some (bump c)) as (r & m' & R & Hm').
  { destruct x as [n k v|m]; unfold notify_fail, notify_extern, the_instance, publish, put_instance, runs, log, bind, get, ret, emit, modify; rewrite Hc, Hi; cbn;
      unfold bump; rewrite Hi; [destruct (rc (mq_published c) =? 0)|]; cbn; do 2 eexists; (split; [by eexists|done]). }
  exists r, (set_mosquitto m' w). split; [|split; [by exists m'|]].
  - apply (runs_zoom w_mosquitto set_mosquitto) in R. by destruct x.
  - exists (bump c). by split.
Qed.

#[export] Instance replay_apart : Apart aside_mqtt connected_mqtt replay_world.
Proof.
  assert (forall A (m : prog event replay A) w w' a w1 t, aside_mqtt w w' -> connected_mqtt w' -> zoom w_replay set_replay m w = Done a w1 t ->
    exists w1', zoom w_replay set_replay m w' = Done a w1' t /\ aside_mqtt w1 w1' /\ connected_mqtt w1') as H.
  { intros A m w w' a w1 t [mq ->] Hc E. unfold zoom in *. cbn [w_replay set_mosquitto]. destruct (m (w_replay w)) as [x r tr|]; [|done].
    injection E as -> <- ->. eexists. split; [reflexivity|]. split; [by exists mq|exact Hc]. }
  constructor; intros; by eapply H.
Qed.

Section Server.
Context (I : installation) `{!Installed I} (lib_ok : in_lib_init_rc I = 0) (connects : forall a p k, in_connect_rc I a p k = 0).
#[local] Abbreviation addr := (in_addr I).

(** A configuration that replays a file of faults to the nodes. *)
Definition simulation_config (id : cstr) (args : list cstr) (file : cstr) (tic : Z) : cstr :=
  shipped_config I [(SMosquitto, id :: args); (SReplay, [file])] SMosquitto SReplay tic.

(** A simulation of the faults [fss], a list per tic, of the nodes [ns]: the server is started with [-c cfg], [-n] and [-s],
    its files are the configuration and the faults, all nodes report that they are ready, no signal comes and the tics
    are in time. *)
Record scenario e ns fss id args file tic cfg polls : Prop := {
  scn_id : arg_ok id;
  scn_args : Forall arg_ok args;
  scn_file : arg_ok file;
  scn_tic : is_u64 tic;
  scn_names : Forall node_ok ns;
  scn_count : is_u64 (Z.of_nat (length ns));
  scn_faults : Forall (Forall fault_ok) fss;
  scn_components : Forall (Forall component_named) fss;
  scn_text : env_read e file = Some (transcript ns fss);
  scn_config : env_read e cfg = Some (simulation_config id args file tic);
  scn_cfg : cfg <> [] /\ NUL ∉ cfg;
  scn_run : uninterrupted e (length fss) true polls;
  scn_report : all_report (in_parse_backchannel I) (env_inbox e) polls (imap replay_node ns);
  scn_pace : in_time e tic (length fss)
}.

Lemma simulation_runs e argv0 ns fss id args file tic cfg polls : scenario e ns fss id args file tic cfg polls ->
  exists tr, process I e argv0 (server_args cfg (length fss) true) process_start = Halt Undefined tr /\
    List.filter visible tr = printed mqtt_says (start_calls true (imap replay_node ns) ++ concat (map (calls_of (in_serialize I)) fss)).
Proof.
  intros [Hid Hargs Hfile Htic Hns Hu Hfs Hcs Htext Hcfg [Hne Hnul] Hrun Hrep Hpace]. set (ks := [SReplay; SMosquitto]).
  assert (NoDup ks) as Hnd by (refine (bool_decide_unpack _ _); vm_compute; exact Logic.I).
  assert (fits SMosquitto SReplay) as Hfit by (split; elem_dec).
  set (r0 := replay_of (transcript ns fss)). set (w := set_replay r0 (set_mosquitto (mosquitto_started id) world_zero)).
  destruct (load_shipped I e cfg [(SMosquitto, id :: args); (SReplay, [file])] SMosquitto SReplay tic w)
    as (pm & Hpm & Hload); [|exact Hnd|elem_dec|elem_dec|done|done|done|].
  { split; [by constructor|]. eexists. split; [by apply inits_mosquitto|]. split; [by apply Forall_singleton|].
    eexists. split; [by apply (inits_replay I e file (transcript ns fss))|done]. }
  destruct (roles_assigned I e SMosquitto SReplay tic pm w ks) as (s2 & Ea & Hv2 & Hc2 & Hw2 & Hm2 & Hk2 & Hf2); [done|elem_dec|elem_dec|done|done|].
  set (m1 := Mosquitto true (Some (ComMosquitto id true cb_null 0)) true true).
  set (m2 := Mosquitto true (Some (ComMosquitto id true cb_server 0)) true true).
  set (h3 := Host (h_pm (ss_host s2)) (set_mosquitto m1 w)).
  destruct (replay_observe ns fss (set_mosquitto m2 world_zero)) as (a1 & r & u1 & u2 & E1 & E2); [done..|destruct Hrun; lia|].
  destruct (process_prints I e argv0 cfg (length fss) true polls SMosquitto SReplay aside_mqtt connected_mqtt replay_world
    (mosquitto_com (in_publish_rc I) (in_strerror I)) mqtt_says tic pm w s2 h3 (imap replay_node ns) (set_mosquitto m2 w) (set_replay a1 (set_mosquitto m2 world_zero))
    u1 (replay_tics 0 fss) (set_replay r (set_mosquitto m2 world_zero)) u2) as (s6 & w' & R & Hh6 & _); try done.
  all: try by rewrite (mem_of_addr I).
  - apply (post_init_one _ (addr SMosquitto) mosquitto_post); try done.
    + apply sorted_nodup, Hm2.
    + apply Hk2. exists SMosquitto. split; [elem_dec|done].
    + by rewrite (mem_of_addr I).
    + unfold mosquitto_post, on_plugin, zoom. fold (ss_world s2). rewrite Hw2. done.
    + apply Forall_forall. intros q (k & Hk & ->)%Hk2 Hne'. unfold idle_hook. rewrite (mem_of_addr I).
      destruct k; try done; exfalso; revert Hk; elem_dec.
  - unfold takes_callback, mosquitto_com. cbn [zoom_com com_interface com_capabilities com_set_callback]. cbn [Z.land Z.eqb COM_ASYNC].
    eexists _, cb_null. split; [done|]. done.
  - by eexists.
  - apply Hk2. exists SMosquitto. split; [elem_dec|done].
  - pose proof (cleanup_ends addr installed_inj (env_rand e) (in_publish_rc I) (in_strerror I) (Host (h_pm h3) w')) as Hend.
    fold (mem_of I e) in Hend. assert (exists t, last_steps (mem_of I e) s6 = Halt Undefined t /\ List.filter visible t = []) as (t & El & Ht).
    { unfold last_steps, Server.on_host, zoom, bind. rewrite Hh6. destruct (PluginManager.cleanup _ _) as [u h t|hl t].
      - exfalso. apply Hend; [by intros q (k & _ & ->)%Hk2; exists k|]. apply Hk2. exists SMosquitto. split; [elem_dec|done].
      - exists t. destruct Hend as [-> Ht]; [by intros q (k & _ & ->)%Hk2; exists k|done]. }
    destruct (comes_halt _ _ _ _ _ _ _ R El) as (tr & E & Htr). exists (tr ++ t). split; [done|].
    by rewrite List.filter_app, Htr, Ht, app_nil_r, <- (replay_tics_calls (in_serialize I) 0 fss).
Qed.

(** C1: a simulated fault reaches its node.  The server is started with [-c], [-n] and [-s] on a configuration that
    loads the MQTT and replay plugins, with a file of faults [fss], a list per tic, of the nodes [ns], which report
    that they are ready while it waits for them ([scenario]).  It goes through all its tics and ends in the destructor of the
    MQTT plugin, which is undefined behaviour, when everything has been published.  Take any node of the file whose faults are of
    the components the backend knows, and let the broker deliver to its client, in order, what the
    server published on the topics the client has subscribed to, at most one message to each call of [get_faults] ([one_by_one]: the client
    asks for too little memory, and glibc's smallest block has room for one, see [on_message_overflow]).  Then the client, with glibc's allocator, once told to stop, ends with 0, and the
    backend in the application's process, whatever its actor is, sets the state of exactly the subsystems that the file
    lists for this node, with their severities and in their order, and cleans up. *)
Theorem simulated_faults_reach_nodes e argv0 ns fss id args file tic cfg polls :
  scenario e ns fss id args file tic cfg polls ->
  Forall (fun n => slash_free (n_name n)) ns -> Forall (Forall (fun f => slash_free (f_node f))) fss ->
  exists tr, process I e argv0 (server_args cfg (length fss) true) process_start = Halt Undefined tr /\
    forall loop strerror req_stop target perror pack host port drain_fuel bs fuel backend_fuel A (act : actor A) a a',
      let fs := faults_of target (concat fss) in
      target ∈ map n_name ns -> target <> str "lausim" -> Forall deliverable fs ->
      one_by_one loop 0 bs -> Forall (fun j => (j < drain_fuel)%nat) bs -> (length bs < fuel)%nat ->
      (forall k, (k < length bs)%nat -> req_stop k = false) -> req_stop (length bs) = true ->
      (length fs < backend_fuel)%nat -> result (lauSim_backend_init act a) = inl (0, a') ->
      arrivals loop 0 bs = map arrived (for_node target tr) ->
      exists m' ctr g, Client.main glibc_usable true 0 0 0 0 loop strerror pack true req_stop drain_fuel fuel
          [str "client"; target; host; port] mqtt_zero = Done 0 m' ctr /\
        result (lauSim_init act perror true (Some (fifo_text ctr)) a) = inl ((0, g), a') /\
        result (lauSim_main act (fun _ => false) g backend_fuel a') =
        result (bind (set_states act (map call_of fs)) (fun _ => finish act g) a').
Proof.
  intros Hsc Hnsl Hfsl. destruct (simulation_runs e argv0 ns fss id args file tic cfg polls Hsc) as (tr & E & Htr).
  destruct Hsc as [_ _ _ _ Hns _ _ _ _ _ _ _ [Hnd _] _].
  exists tr. split; [done|]. intros loop strerror req_stop target perror pack host port drain_fuel bs fuel backend_fuel A act a a' fs Hin Hl Hdel Hb Hd Hf Hr Hs Hbf Hi Harr.
  assert (map n_name (imap replay_node ns) = map n_name ns) as Hnames.
  { exact (eq_trans (fmap_imap _ _ _) (imap_const n_name ns)). }
  assert (slash_free target) as Hsl.
  { apply list_elem_of_fmap in Hin as (n & -> & Hn). rewrite Forall_forall in Hnsl. by apply Hnsl. }
  apply glibc_one_by_one in Hb. apply (node_executes target glibc_usable loop strerror req_stop act perror fs pack host port drain_fuel bs fuel backend_fuel a a'); try done.
  - split; [|done]. apply list_elem_of_fmap in Hin as (n & -> & Hn). rewrite Forall_forall in Hns. by apply Hns.
  - rewrite Harr. f_equal. rewrite <- (for_node_visible target tr), Htr, printed_app, for_node_start, for_node_tics; try done.
    + by rewrite Hnames, bool_decide_true.
    + rewrite <- (Forall_map n_name slash_free), Hnames. by apply Forall_map.
Qed.

End Server.

(** ** Example *)

Definition component_fault (name comp : string) (severity : Z) : fault := Fault 0 None (Some (str comp)) (str name) severity.

Definition simulated : list (list fault) :=
  [[component_fault "node0" "net" 100]; [example_fault "node1" 100]; [component_fault "node0" "memory" 3]].

Definition example_simulation : environment := example_env
  [(str "sim.txt", simulation_config example_installation (str "master") [str "broker"] (str "faults.log") 5);
   (str "faults.log", transcript example_nodes simulated)]
  (fun _ => 0) (fun i => match i with O => [str "node1"; str "node0"] | _ => [] end).

Lemma example_simulation_files : env_read example_simulation (str "sim.txt") =
    Some (simulation_config example_installation (str "master") [str "broker"] (str "faults.log") 5) /\
  env_read example_simulation (str "faults.log") = Some (transcript example_nodes simulated).
Proof. by vm_compute. Qed.

Lemma example_simulation_published tr :
  process example_installation example_simulation None (server_args (str "sim.txt") (length simulated) true) process_start = Halt Undefined tr ->
  arrivals delivering 0 [1%nat; 1%nat; 1%nat] = map arrived (for_node (str "node0") tr).
Proof.
  intros E. assert (tr = trace_of (process example_installation example_simulation None (server_args (str "sim.txt") 3 true) process_start)) as ->
    by (change (length simulated) with 3%nat in E; by rewrite E). by vm_compute.
Qed.

Lemma example_scenario : Forall node_ok example_nodes /\ Forall (fun n => slash_free (n_name n)) example_nodes /\
  Forall (Forall fault_ok) simulated /\ Forall (Forall component_named) simulated /\
  Forall (Forall (fun f => slash_free (f_node f))) simulated.
Proof.
  split_and!; repeat first [apply Forall_nil|apply Forall_cons_2]; try done; unfold slash_free; cbn [n_name f_node]; try elem_dec;
    (split_and!; [done..| |by repeat constructor|done]); apply Forall_singleton; done.
Qed.

Lemma example_all_report : all_report example_parse (env_inbox example_simulation) 0 (imap replay_node example_nodes).
Proof.
  split; [refine (bool_decide_unpack _ _); vm_compute; exact Logic.I|].
  exists (fun i => match i with O => [str "node1"; str "node0"] | _ => [] end). split.
  - intros i Hi. assert (i = 0%nat) as -> by lia. repeat constructor; by eexists.
  - intros n Hn. exists 0%nat. split; [lia|]. revert n Hn. apply Forall_forall. repeat apply Forall_cons_2; [elem_dec|elem_dec|by apply Forall_nil].
Qed.

Lemma example_is_scenario : scenario example_installation example_simulation example_nodes simulated (str "master") [str "broker"] (str "faults.log") 5 (str "sim.txt") 0.
Proof.
  destruct example_simulation_files as [Hf1 Hf2]. destruct example_scenario as (Hn1 & _ & Hs1 & Hs2 & _).
  constructor; [split; [done|elem_dec]|apply Forall_singleton; split; [done|elem_dec]|split; [done|elem_dec]|done|exact Hn1|done|exact Hs1|exact Hs2
    |exact Hf2|exact Hf1|split; [done|elem_dec]|apply example_uninterrupted; cbn; lia|exact example_all_report|right; apply example_punctual; cbn; lia].
Qed.

Lemma simulated_faults_reach_nodes_witness :
  exists tr m' ctr g, process example_installation example_simulation None (server_args (str "sim.txt") (length simulated) true) process_start = Halt Undefined tr /\
    Client.main glibc_usable true 0 0 0 0 delivering (fun _ => []) (fun n => n) true (fun k => bool_decide (k = 3%nat)) 3 5
         [str "client"; str "node0"; str "localhost"; str "1883"] mqtt_zero = Done 0 m' ctr /\
    result (lauSim_init list_actor id true (Some (fifo_text ctr)) []) = inl ((0, g), []) /\
    result (lauSim_main list_actor (fun _ => false) g 5 []) = inl (0, [(SUBSYS_NET, 100); (SUBSYS_MEM, 3)]).
Proof.
  destruct example_scenario as (_ & Hn2 & _ & _ & Hs3).
  destruct (simulated_faults_reach_nodes example_installation eq_refl (fun _ _ _ => eq_refl) example_simulation None example_nodes simulated
    (str "master") [str "broker"] (str "faults.log") 5 (str "sim.txt") 0 example_is_scenario) as (tr & E & H); [exact Hn2|exact Hs3|].
  pose proof (example_simulation_published tr E) as Harr.
  destruct (H delivering (fun _ => []) (fun k => bool_decide (k = 3%nat)) (str "node0") id (fun n => n) (str "localhost") (str "1883")
    3%nat [1%nat; 1%nat; 1%nat] 5%nat 5%nat _ list_actor [] []) as (m' & ctr & g & Em & Ei & Hr).
  - elem_dec.
  - done.
  - exact example_deliverable.
  - exact delivering_one_by_one.
  - repeat constructor.
  - cbn. lia.
  - intros [|[|[|k]]] Hk; cbn in *; [done|done|done|lia].
  - done.
  - apply Nat.ltb_lt. reflexivity.
  - done.
  - exact Harr.
  - exists tr, m', ctr, g. split; [exact E|]. split; [exact Em|]. split; [exact Ei|]. rewrite Hr. by destruct g as [[t|] []].
Defined.
