(* ===== verification/Launcher.v ===== *)
(** * The launcher (client/launcher/launcher.c)

    It starts the application with the preload library and the client, and stops the application when
    the client ends.  [args] are the options [getopt] returns, in order; the results of the system calls
    are parameters, and what the launcher does to its processes are events. *)

From S2P Require Import Prelude CString.
Local Open Scope Z_scope.

Inductive levent :=
| LPuts (text : cstr)
| LFork (pid : Z)                          (** [fork] has returned [pid] *)
| LSetenv (name value : cstr)
| LSystem (command : cstr)                 (** [system] in the first child *)
| LExec (file : cstr) (args : list (option cstr))
| LKill (pid : Z)                          (** [kill(pid, SIGTERM)] *)
| LWait (pid : Z).

Inductive lau_methode := MTH_PRELOAD | MTH_PRIVILIGED.

Record lau_opts := LauOpts {
  lo_name : option cstr;
  lo_server : cstr;
  lo_port : cstr;
  lo_methode : lau_methode;
  lo_pre_lib : option cstr;
  lo_command : option cstr
}.

Definition default_opts : lau_opts := LauOpts None (str "localhost") (str "1883") MTH_PRELOAD None None.

Definition help_text : list cstr := str "laucher [OPTIONS]" :: map (fun l => TAB :: str l) [
  "-c command   : command to be executed                  (required)";
  "-n node_name : the name of the node                    (required)";
  "-s server    : the mqtt server to connect to           (default: localhost)";
  "-p port      : the port number of the server           (default: 1883)";
  "-m methode   : methode is either prelaod or privileged (default: preload)";
  "-l path      : path to the preload library to use      (required with preload methode)";
  "-h           : prints this help                        (duh)"]%string.

Local Open Scope prog_scope.

Definition print_help {S} : prog levent S unit := for_each help_text (fun l => emit (LPuts l)).

(** The loop over the options; [Some rc] is a return from [main]. *)
Fixpoint parse_options (args : list (ascii * cstr)) : prog levent lau_opts (option Z) :=
  match args with
  | [] => ret None
  | (optchr, optarg) :: args' =>
      let set f := modify f ;; parse_options args' in
      if bool_decide (optchr = "n"%char) then
        set (fun o => LauOpts (Some optarg) (lo_server o) (lo_port o) (lo_methode o) (lo_pre_lib o) (lo_command o))
      else if bool_decide (optchr = "s"%char) then
        set (fun o => LauOpts (lo_name o) optarg (lo_port o) (lo_methode o) (lo_pre_lib o) (lo_command o))
      else if bool_decide (optchr = "l"%char) then
        set (fun o => LauOpts (lo_name o) (lo_server o) (lo_port o) (lo_methode o) (Some optarg) (lo_command o))
      else if bool_decide (optchr = "h"%char) then print_help ;; ret (Some 0)
      else if bool_decide (optchr = "p"%char) then
        set (fun o => LauOpts (lo_name o) (lo_server o) optarg (lo_methode o) (lo_pre_lib o) (lo_command o))
      else if bool_decide (optchr = "m"%char) then
        if strcasecmp_eq (str "preload") optarg then
          set (fun o => LauOpts (lo_name o) (lo_server o) (lo_port o) MTH_PRELOAD (lo_pre_lib o) (lo_command o))
        else if strcasecmp_eq (str "privileged") optarg then
          set (fun o => LauOpts (lo_name o) (lo_server o) (lo_port o) MTH_PRIVILIGED (lo_pre_lib o) (lo_command o))
        else emit (LPuts (str "only the modes preload and privileged are supported!")) ;; ret (Some 1)
      else if bool_decide (optchr = "c"%char) then
        set (fun o => LauOpts (lo_name o) (lo_server o) (lo_port o) (lo_methode o) (lo_pre_lib o) (Some optarg))
      else emit (LPuts (str "option " ++ [optchr] ++ str " not recognized")) ;; parse_options args'
  end.

(** The first child, up to its end.  With LD_PRELOAD already set the new value is printed over a string literal, whose
    format is the path of the library. *)
Definition run_application {S} (pre_lib command : cstr) (ld_preload : option cstr) (malloc_ok : bool) (system : Z) : prog levent S Z :=
  match ld_preload with
  | Some _ => if malloc_ok then stop Undefined else ret 1
  | None =>
      emit (LSetenv (str "LD_PRELOAD") pre_lib) ;;
      emit (LSystem command) ;;
      stop (Exited (Z.land system 0xff))
  end.

(** The second child, with the options of the parent; [execv] returns only after an error, otherwise the process runs
    the client. *)
Definition run_client (execv_fails : bool) (pid2 : Z) : prog levent lau_opts (option Z) :=
  o <- get ;;
  emit (LExec (str "./client") [Some (str "./client"); lo_name o; Some (lo_server o); Some (lo_port o)]) ;;
  if execv_fails then emit (LKill pid2) ;; ret (Some 1) else ret None.

(** [!WIFEXITED(st) || WEXITSTATUS(st)] *)
Definition failed_status (st : Z) : bool :=
  negb (Z.land st 0x7f =? 0) || negb (Z.land (Z.shiftr st 8) 0xff =? 0).

Section Parent.
(* the [k]-th [waitpid]: the status, or -1; and [req_stop] when it is tested after it *)
Context (waitpid : nat -> option Z) (req_stop : nat -> bool).

(** The loop around [waitpid]; the result is the number of the last call. *)
Fixpoint wait_client {S} (fuel k : nat) : prog levent S nat :=
  match fuel with
  | O => stop OutOfFuel
  | Datatypes.S fuel' =>
      match waitpid k with
      | Some _ => ret k
      | None => if req_stop k then ret k else wait_client fuel' (Datatypes.S k)
      end
  end.

Definition supervise {S} (pid pid2 : Z) (fuel : nat) : prog levent S unit :=
  k <- wait_client fuel 0 ;;
  (* without a status [stat_val] is not set, but then the request to stop is *)
  let stop_now := match waitpid k with Some st => failed_status st || req_stop k | None => true end in
  (if stop_now then emit (LKill pid2) ;; emit (LWait pid2) else ret tt) ;;
  emit (LKill pid).

End Parent.

(** The start of [main]: [inl rc] returns, [inr] goes on to fork. *)
Definition prepare (args : list (ascii * cstr)) : prog levent lau_opts (Z + (cstr * cstr)) :=
  r <- parse_options args ;;
  match r with
  | Some rc => ret (inl rc)
  | None =>
      o <- get ;;
      match lo_command o with
      | None => emit (LPuts (str "a command is required")) ;; ret (inl 1)
      | Some command =>
          match lo_methode o with
          | MTH_PRIVILIGED => emit (LPuts (str "not supported yet")) ;; ret (inl 0)
          | MTH_PRELOAD =>
              match lo_pre_lib o with
              | None => emit (LPuts (str "path to preload library is needed")) ;; ret (inl 1)
              | Some pre_lib => ret (inr (pre_lib, command))
              end
          end
      end
  end.

(** [main], as the process sees it in which [fork] returns [pid] and then [pid2]; [stat k] tells whether the fifo is
    there when it is looked for the [k]-th time.  The results of the other calls are those of the routines above. *)
Section Main.
Context (ld_preload : option cstr) (malloc_ok : bool) (system : Z) (execv_fails : bool).
Context (stat : nat -> bool) (waitpid : nat -> option Z) (req_stop : nat -> bool).

Fixpoint wait_fifo {S} (fuel k : nat) : prog levent S unit :=
  match fuel with
  | O => stop OutOfFuel
  | Datatypes.S fuel' => if stat k then ret tt else wait_fifo fuel' (Datatypes.S k)
  end.

Definition main (args : list (ascii * cstr)) (pid pid2 : Z) (fuel : nat) : prog levent lau_opts (option Z) :=
  r <- prepare args ;;
  match r with
  | inl rc => ret (Some rc)
  | inr (pre_lib, command) =>
      emit (LFork pid) ;;
      if pid =? 0 then rc <- run_application pre_lib command ld_preload malloc_ok system ;; ret (Some rc)
      else
        wait_fifo fuel 0 ;;
        emit (LFork pid2) ;;
        if pid2 =? 0 then run_client execv_fails pid2
        else supervise waitpid req_stop pid pid2 fuel ;; ret (Some 0)
  end.

End Main.

(** ** Supervision *)

(** The processes that are sent the signal, in order. *)
Definition killed (tr : list levent) : list Z := omap (fun e => match e with LKill p => Some p | _ => None end) tr.

Lemma wait_client_run {S} waitpid req_stop k : forall d i fuel (s : S), (k = i + d)%nat -> (d < fuel)%nat ->
  (forall j, (i <= j < k)%nat -> waitpid j = None /\ req_stop j = false) -> is_Some (waitpid k) \/ req_stop k = true ->
  wait_client waitpid req_stop fuel i s = Done k s [].
Proof.
  intros d. induction d as [|d IH]; intros i [|fuel] s Hk Hf Hj Hend; try lia; cbn [wait_client].
  - replace i with k by lia. destruct (waitpid k); [done|]. destruct Hend as [[? ?] | ->]; done.
  - destruct (Hj i ltac:(lia)) as [-> ->]. apply IH; [lia|lia|intros j Hj'; apply Hj; lia|done].
Qed.

Lemma supervise_run {S} waitpid req_stop pid pid2 k fuel (s : S) : (k < fuel)%nat ->
  (forall j, (j < k)%nat -> waitpid j = None /\ req_stop j = false) -> is_Some (waitpid k) \/ req_stop k = true ->
  supervise waitpid req_stop pid pid2 fuel s = Done tt s
    (if match waitpid k with Some st => failed_status st || req_stop k | None => true end then [LKill pid2; LWait pid2; LKill pid] else [LKill pid]).
Proof.
  intros Hf Hj Hend. unfold supervise. unfold bind at 1.
  rewrite (wait_client_run waitpid req_stop k k 0 fuel s) by (done || lia || (intros j Hj'; apply Hj; lia)). cbv zeta. by destruct (match waitpid k with Some _ => _ | None => _ end).
Qed.

Lemma wait_fifo_run {S} stat n : forall d i fuel (s : S), (n = i + d)%nat -> (d < fuel)%nat ->
  (forall j, (i <= j < n)%nat -> stat j = false) -> stat n = true -> wait_fifo stat fuel i s = Done tt s [].
Proof.
  intros d. induction d as [|d IH]; intros i [|fuel] s Hn Hf Hj Hend; try lia; cbn [wait_fifo].
  - replace i with n by lia. by rewrite Hend.
  - rewrite (Hj i) by lia. apply IH; [lia|lia|intros j Hj'; apply Hj; lia|done].
Qed.

(** The processes started, as their parent sees it. *)
Definition forked (tr : list levent) : list Z := omap (fun e => match e with LFork p => Some p | _ => None end) tr.

(** C33: nothing is left running.  With options that ask for an application, the launcher starts it and, once the fifo
    is there, the client.  However often [waitpid] is then interrupted, once the client has ended or the launcher is
    asked to stop, it ends with success: the client is sent a signal, and waited for, exactly when it has not ended by
    itself with success, and in any case the application is then sent one. *)
Theorem supervision_stops_application ld_preload malloc_ok system execv_fails stat waitpid req_stop args pre_lib command o t0 pid pid2 n k fuel :
  prepare args default_opts = Done (inr (pre_lib, command)) o t0 -> pid <> 0 -> pid2 <> 0 -> (n < fuel)%nat -> (k < fuel)%nat ->
  (forall j, (j < n)%nat -> stat j = false) -> stat n = true ->
  (forall j, (j < k)%nat -> waitpid j = None /\ req_stop j = false) -> is_Some (waitpid k) \/ req_stop k = true ->
  exists tr, main ld_preload malloc_ok system execv_fails stat waitpid req_stop args pid pid2 fuel default_opts = Done (Some 0) o (t0 ++ tr) /\
    forked tr = [pid; pid2] /\
    let ended := exists st, waitpid k = Some st /\ failed_status st = false /\ req_stop k = false in
    (ended -> killed tr = [pid]) /\ (~ ended -> killed tr = [pid2; pid] /\ LWait pid2 ∈ tr).
Proof.
  intros Hp Hpid Hpid2 Hn Hk Hs Hsn Hj Hend. apply Z.eqb_neq in Hpid, Hpid2.
  pose proof (wait_fifo_run stat n n 0 fuel o eq_refl Hn ltac:(intros; apply Hs; lia) Hsn) as Hw.
  pose proof (supervise_run waitpid req_stop pid pid2 k fuel o Hk Hj Hend) as Hv. unfold main, bind. rewrite Hp. cbn. rewrite Hpid. unfold bind. rewrite Hw. cbn. rewrite Hpid2.
  unfold bind. rewrite Hv. eexists. split; [reflexivity|].
  destruct (waitpid k) as [st|] eqn:Hst; [destruct (failed_status st) eqn:Hf; [|destruct (req_stop k) eqn:Hr]|]; cbn; (split; [done|]); split.
  all: try by intros (? & [= <-] & ? & ?); congruence. all: try by intros (? & [=] & _). all: try done. all: try by intros _; split; [done|]; set_solver.
  intros H. destruct H. by exists st.
Qed.

(** An application, a client that is interrupted twice and then ends with status 1. *)
Definition example_args : list (ascii * cstr) :=
  [("l"%char, str "/lib/libpreload.so"); ("x"%char, []); ("c"%char, str "./application"); ("n"%char, str "node1")].

Lemma example_prepared : exists o t0, prepare example_args default_opts = Done (inr (str "/lib/libpreload.so", str "./application")) o t0 /\
  lo_name o = Some (str "node1") /\ lo_server o = str "localhost".
Proof. vm_compute. eauto. Qed.

Lemma supervision_stops_application_witness : exists o t0 tr,
  main None true 0 false (Nat.eqb 3) (fun k => match k with 2%nat => Some 256 | _ => None end) (fun _ => false) example_args 100 200 5 default_opts
    = Done (Some 0) o (t0 ++ tr) /\ forked tr = [100; 200] /\ killed tr = [200; 100].
Proof.
  destruct example_prepared as (o & t0 & Ep & _).
  destruct (supervision_stops_application None true 0 false (Nat.eqb 3) (fun k => match k with 2%nat => Some 256 | _ => None end) (fun _ => false)
    example_args _ _ o t0 100 200 3 2 5 Ep) as (tr & E & Hf & _ & Hk); try lia; try done.
  - intros j Hj. apply Nat.eqb_neq. lia.
  - by intros [|[|j]] Hj; [..|lia].
  - left. by eexists.
  - exists o, t0, tr. split; [exact E|]. split; [done|]. apply Hk. by intros (? & [= <-] & ? & _).
Defined.
