(* ===== verification/Socket.v ===== *)
(** * The socket wrapper (src/socket.cpp, src/socket.h)

    A class around one descriptor.  The results of the system calls are arguments. *)

From S2P Require Import Prelude CString.
Local Open Scope Z_scope.

(** What happens to descriptors. *)
Inductive sevent := SOpened (fd : Z) | SClosed (fd : Z) | SStderr (text : cstr).

Record Socket := MkSocket { sd : Z; family : Z; socktype : Z; protocol : Z }.

Definition AF_UNSPEC : Z := 0.
Definition SOCK_STREAM : Z := 1.

(** [Socket()] *)
Definition new_socket : Socket := MkSocket (-1) AF_UNSPEC SOCK_STREAM 0.

Local Open Scope prog_scope.

Definition set_type (f t p : Z) : prog sevent Socket bool :=
  s <- get ;;
  if negb (sd s =? -1) then ret false
  else put (MkSocket (sd s) f t p) ;; ret true.

(** [Socket(const Socket &)], where [dup] returns [r]: [sd] is assigned the comparison [r < 0]. *)
Definition copy_socket {S} (sock : Socket) (r : Z) : prog sevent S Socket :=
  (if 0 <=? r then emit (SOpened r) else ret tt) ;;
  let v := if r <? 0 then 1 else 0 in
  if negb (v =? 0) then stop (Uncaught "Unable to dup sd")
  else ret (MkSocket v (family sock) (socktype sock) (protocol sock)).

(** [~Socket] *)
Definition destroy : prog sevent Socket unit :=
  s <- get ;; if 0 <? sd s then emit (SClosed (sd s)) else ret tt.

(** [connect]: [resolved] is the address family [getaddrinfo] finds, [r] the result of [socket] and [c]
    that of [::connect]. *)
Definition connect (addr service : cstr) (resolved : option Z) (r c : Z) : prog sevent Socket Z :=
  s <- get ;;
  if 0 <=? sd s then ret (-1)
  else
    match resolved with
    | None => emit (SStderr (str "looking up " ++ addr ++ str ":" ++ service ++ str "failed" ++ [NL])) ;; ret (-1)
    | Some fam =>
        (if 0 <=? r then emit (SOpened r) else ret tt) ;;
        put (MkSocket r (family s) (socktype s) (protocol s)) ;;
        if r <? 0 then
          emit (SStderr (str "unable to create socket (" ++ print_u fam ++ str ":" ++ print_d (socktype s) ++ str ")" ++ [NL])) ;;
          put (MkSocket (-1) (family s) (socktype s) (protocol s)) ;;
          ret r
        else if negb (c =? 0) then
          emit (SStderr (str "unable to connect" ++ [NL])) ;;
          emit (SClosed r) ;;
          put (MkSocket (-1) (family s) (socktype s) (protocol s)) ;;
          ret c
        else ret 0
    end.

(** Descriptors opened and not closed again, in a trace. *)
Fixpoint left_open (open : list Z) (tr : list sevent) : list Z :=
  match tr with
  | [] => open
  | SOpened fd :: tr' => left_open (open ++ [fd]) tr'
  | SClosed fd :: tr' => left_open (filter (fun x => x <> fd) open) tr'
  | SStderr _ :: tr' => left_open open tr'
  end.

(** C40: [connect] on an unconnected socket succeeds exactly when the name resolves, a descriptor is
    obtained and connected; the object then owns that descriptor, and on every failure it owns none and
    none is left open.  Copying a connected socket is different: if [dup] gives a descriptor, it is lost, for the copy
    claims descriptor 0 and its destructor closes nothing, so that it is still open when both objects are gone; if [dup]
    fails, the copy constructor throws. *)
Theorem descriptors_owned :
  (forall addr service resolved r c s, sd s < 0 -> exists rc s' tr, connect addr service resolved r c s = Done rc s' tr /\
    (is_Some resolved /\ 0 <= r /\ c = 0 -> rc = 0 /\ sd s' = r /\ left_open [] tr = [r]) /\
    (~ (is_Some resolved /\ 0 <= r /\ c = 0) -> rc <> 0 /\ sd s' < 0 /\ left_open [] tr = [])) /\
  (forall r s, 0 < sd s -> r <> sd s ->
    (0 <= r -> exists copy t1 t2 t3, copy_socket s r s = Done copy s t1 /\ sd copy = 0 /\
      destroy copy = Done tt copy t2 /\ destroy s = Done tt s t3 /\ left_open [sd s] (t1 ++ t2 ++ t3) = [r]) /\
    (r < 0 -> copy_socket s r s = Halt (Uncaught "Unable to dup sd") [])).
Proof.
  split.
  - intros addr service resolved r c s Hs. unfold connect, bind, get, put, ret, emit. destruct (Z.leb_spec 0 (sd s)); [lia|].
    destruct resolved as [fam|]; [|do 3 eexists; (split; [reflexivity|]); split; [by intros [[? ?] _]|done]].
    destruct (Z.leb_spec 0 r), (Z.ltb_spec r 0); try lia.
    + destruct (Z.eqb_spec c 0); cbn [negb]; do 3 eexists; (split; [reflexivity|]).
      * split; [done|]. intros Hno. destruct Hno. split; [by eexists|done].
      * split; [lia|]. intros _. split; [done|]. split; [done|]. cbn. by rewrite decide_False by (intros ?; done).
    + do 3 eexists. split; [reflexivity|]. cbn. split; [lia|]. intros _. split; [lia|]. split; [lia|done].
  - intros r s Hs Hne. unfold copy_socket, destroy, bind, get, emit, ret, stop. destruct (Z.leb_spec 0 r), (Z.ltb_spec r 0); try lia.
    + split; [intros _|lia]. cbn. do 4 eexists. split; [reflexivity|]. split; [done|]. split; [reflexivity|].
      destruct (Z.ltb_spec 0 (sd s)); [|lia]. split; [reflexivity|]. cbn. rewrite decide_False by auto. by rewrite decide_True.
    + by split; [lia|].
Qed.

Lemma descriptors_owned_witness :
  (exists rc s' tr, connect (str "localhost") (str "1883") (Some 2) 5 (-1) new_socket = Done rc s' tr /\
    rc <> 0 /\ sd s' < 0 /\ left_open [] tr = []) /\
  exists s tr copy t1 t2 t3, connect (str "localhost") (str "1883") (Some 2) 5 0 new_socket = Done 0 s tr /\ copy_socket s 6 s = Done copy s t1 /\
    destroy copy = Done tt copy t2 /\ destroy s = Done tt s t3 /\ left_open [5] (t1 ++ t2 ++ t3) = [6].
Proof.
  destruct descriptors_owned as [Hc Hd]. split.
  - destruct (Hc (str "localhost") (str "1883") (Some 2) 5 (-1) new_socket ltac:(done)) as (rc & s' & tr & E & _ & H).
    exists rc, s', tr. split; [exact E|]. apply H. by intros (_ & _ & ?).
  - exists (MkSocket 5 AF_UNSPEC SOCK_STREAM 0). destruct (Hd 6 (MkSocket 5 AF_UNSPEC SOCK_STREAM 0) ltac:(done) ltac:(done)) as [H _].
    destruct (H ltac:(done)) as (copy & t1 & t2 & t3 & E1 & _ & E2 & E3 & El). eexists _, copy, t1, t2, t3. split; [reflexivity|]. by split_and!.
Defined.
