(* ===== verification/Laik.v ===== *)
(** * The interface of LAIK applications (com/laik/laik_intf.c)

    A library for applications that want to be told about failing nodes: it receives what the server sends to its
    external backend.  The headers with its types are not in the repository, and neither is the MQTT client it uses:
    [mqtt_init], [mqtt_subscribe] and [mqtt_cleanup] are parameters on a state [B] ([com_backend_t]), [unpack] is the
    generated [laik_ext_msg__unpack], [node_status_topic] the macro of that name.  The application is a state [W] with the
    functions it hands over. *)

From S2P Require Import Prelude CString Types Options PluginManager Config Server ServerTics Main Transcribe Replay.
From S2P Require Import RecordReplay Random Mosquitto Lifecycle EndToEnd Plugins Runs MainRuns Process Program.
From S2P Require Import Mqtt Client Backend Delivery Simulation.
Local Open Scope Z_scope.

(** The functions of the application: LAIK_EXT_FAIL, called with NULL when a message cannot be read, and LAIK_EXT_CLEANUP. *)
Abbreviation ext_fail W := (option laik_ext_msg -> prog event W unit).
Abbreviation ext_cleanup W := (prog event W unit).

(** The globals of the file, and the application. *)
Record laik (B W : Type) := Laik {
  lk_com : B;                             (** [com] *)
  laik_fp : option (ext_fail W);
  laik_cleanup : option (ext_cleanup W);
  lk_app : W
}.
Arguments Laik {B W}.
Arguments lk_com {B W}.
Arguments laik_fp {B W}.
Arguments laik_cleanup {B W}.
Arguments lk_app {B W}.

Section Laik.
Context {B W : Type} (com_zero : B).
Context (mqtt_init : cstr -> cstr -> Z -> Z -> prog event B Z) (mqtt_subscribe : cstr -> prog event B unit) (mqtt_cleanup : prog event B unit).
Context (node_status_topic : cstr) (unpack : cstr -> option laik_ext_msg).
(* the name of the host, the bytes that the frame of [init_ext_com] provides from [hostname] on, those of an allocation *)
Context (host_name : cstr) (frame : Z) (usable : Z -> Z).
Local Open Scope prog_scope.

Definition on_com {A} (m : prog event B A) : prog event (laik B W) A :=
  zoom lk_com (fun b s => Laik b (laik_fp s) (laik_cleanup s) (lk_app s)) m.
Definition on_app {A} (m : prog event W A) : prog event (laik B W) A :=
  zoom lk_app (fun w s => Laik (lk_com s) (laik_fp s) (laik_cleanup s) w) m.

Definition assert (b : bool) : prog event (laik B W) unit := if b then ret tt else stop Aborted.

(** The string in [hostname] after [gethostname(hostname, 64)] and the test of [hostname[64]]. *)
Definition hostname : cstr := take 64 host_name.
Definition clientid : cstr := str "LAIKpart_" ++ hostname.

Definition init_ext_com (fp_backend : option (ext_fail W)) (cleanup : option (ext_cleanup W)) (addr : cstr) (port keepalive : Z) :
    prog event (laik B W) unit :=
  assert (bool_decide (is_Some fp_backend)) ;;
  modify (fun s => Laik (lk_com s) fp_backend cleanup (lk_app s)) ;;
  on_com (put com_zero) ;;
  if frame <=? 64 then stop Undefined                                    (* hostname[64] *)
  else if usable (Z.of_nat (length hostname) + 6 + 1) <? Z.of_nat (length clientid) + 1 then stop Undefined   (* sprintf *)
  else
    rc <- on_com (mqtt_init clientid addr port keepalive) ;;
    assert (rc =? 0) ;;
    on_com (mqtt_subscribe node_status_topic).

(** [msg] is the memory that the pointer points to.  [laik_ext_msg__free_unpacked] gives the message back and leaves NULL alone. *)
Definition msg_cb (msg : option cstr) (msglen : Z) : prog event (laik B W) unit :=
  assert (negb (msglen =? 0)) ;;
  match msg with
  | None => stop Aborted
  | Some bytes =>
      if (msglen <? 0) || (Z.of_nat (length bytes) <? msglen) then stop Undefined
      else
        let laikmsg := unpack (take (Z.to_nat msglen) bytes) in
        match laikmsg with
        | None => emit (EStderr (str "Omitted 1 MQTT Msg, Cannot unpack. Size: " ++ print_d msglen))
        | Some _ => ret tt
        end ;;
        s <- get ;;
        match laik_fp s with
        | None => stop Undefined
        | Some f => on_app (f laikmsg)
        end
  end.

Definition cleanup_ext_com : prog event (laik B W) unit :=
  s <- get ;;
  match laik_cleanup s with None => ret tt | Some f => on_app f end ;;
  on_com mqtt_cleanup.

(** ** Initialisation *)

(** The allocation for [clientid] is too small with glibc for host names of these lengths. *)
Definition cramped : list Z := [15; 16; 17; 31; 32; 33; 47; 48; 49; 63; 64].

Lemma clientid_room : (glibc_usable (Z.of_nat (length hostname) + 6 + 1) <? Z.of_nat (length clientid) + 1) = bool_decide (Z.of_nat (length hostname) ∈ cramped).
Proof.
  unfold clientid. rewrite length_app. change (length (str "LAIKpart_")) with 9%nat. assert (length hostname <= 64)%nat as Hn.
  { unfold hostname. rewrite length_take. lia. }
  revert Hn. generalize (length hostname). intros n Hn. do 65 (destruct n as [|n]; [by vm_compute|]). lia.
Qed.

(** C36: initialising the interface overflows two arrays.  It reads the byte behind the array for the host's name, so with
    just the 64 bytes of the array in its frame it is undefined; and the block for the client's name is three bytes too
    short, so it is undefined when the allocation provides no more than what is asked for.  With more in the frame, and with
    what glibc provides, it is undefined exactly for host names of 15, 16, 17, 31, 32, 33, 47, 48, 49, 63 or more characters.
    Otherwise it subscribes as the client named after the host, and aborts if it cannot connect. *)
Theorem init_ext_com_overflows f cleanup addr port keepalive s :
  let run := init_ext_com (Some f) cleanup addr port keepalive s in
  (frame = 64 -> run = Halt Undefined []) /\
  ((forall n, usable n = n) -> run = Halt Undefined []) /\
  (64 < frame -> (forall n, usable n = glibc_usable n) ->
    if bool_decide (Z.of_nat (length hostname) ∈ cramped) then run = Halt Undefined []
    else run = on_com (rc <- mqtt_init clientid addr port keepalive ;; if rc =? 0 then mqtt_subscribe node_status_topic else stop Aborted)
           (Laik com_zero (Some f) cleanup (lk_app s))).
Proof.
  intros run. assert (run = (if (frame <=? 64) || (usable (Z.of_nat (length hostname) + 6 + 1) <? Z.of_nat (length clientid) + 1) then Halt Undefined [] else
    on_com (rc <- mqtt_init clientid addr port keepalive ;; if rc =? 0 then mqtt_subscribe node_status_topic else stop Aborted)
      (Laik com_zero (Some f) cleanup (lk_app s)))) as Hrun.
  { unfold run, init_ext_com, assert, on_com. rewrite bool_decide_true by by eexists. unfold bind at 1 2, ret, modify, zoom at 1, put.
    cbn -[Z.of_nat]. destruct (frame <=? 64); [done|]. destruct (_ <? _); [done|]. cbn [orb]. unfold bind, zoom. cbn -[clientid].
    destruct (mqtt_init _ _ _ _ com_zero) as [rc b t|]; [|done]. destruct (rc =? 0); cbn; [|done].
    by destruct (mqtt_subscribe _ b). }
  rewrite Hrun. clear Hrun run. split; [by intros ->|]. split.
  - intros Hu. rewrite Hu. unfold clientid. rewrite length_app. change (length (str "LAIKpart_")) with 9%nat.
    destruct (Z.ltb_spec (Z.of_nat (length hostname) + 6 + 1) (Z.of_nat (9 + length hostname) + 1)); [by rewrite orb_true_r|lia].
  - intros Hf Hu. rewrite Hu, clientid_room. destruct (Z.leb_spec frame 64); [lia|]. by case_bool_decide.
Qed.

(** ** Messages *)

(** A message of the broker. *)
Definition receive (payload : cstr) : prog event (laik B W) unit := msg_cb (Some payload) (Z.of_nat (length payload)).

Lemma receive_spec f payload s : laik_fp s = Some f ->
  result (receive payload s) = match payload with [] => inr Aborted | _ => result (on_app (f (unpack payload)) s) end.
Proof.
  intros Hf. unfold receive, msg_cb, assert. rewrite result_bind. destruct payload as [|c payload]; [done|].
  destruct (Z.eqb_spec (Z.of_nat (length (c :: payload))) 0) as [H|_]; [simpl in H; lia|]. cbn [negb ret result].
  rewrite Z.ltb_irrefl. destruct (Z.ltb_spec (Z.of_nat (length (c :: payload))) 0); [lia|]. cbn [orb]. rewrite Nat2Z.id, firstn_all.
  rewrite result_bind. destruct (unpack (c :: payload)); cbn [ret emit result]; unfold bind, get; rewrite Hf; by destruct (on_app _ s).
Qed.

End Laik.

#[export] Instance laik_ext_msg_eq_dec : EqDecision laik_ext_msg.
Proof. solve_decision. Defined.

(** What becomes of the messages [ms] in an application with the handler [f]: an empty one aborts it. *)
Definition tell {W} (f : ext_fail W) (m : laik_ext_msg) : prog event W unit :=
  if bool_decide (m = LaikExtMsg [] []) then stop Aborted else f (Some m).

Lemma receive_all {B W} serialize unpack (f : ext_fail W) (ms : list laik_ext_msg) :
  (forall m, unpack (serialize m) = Some m) -> (forall m, serialize m = [] <-> m = LaikExtMsg [] []) ->
  forall s : laik B W, laik_fp s = Some f -> result (for_each (map serialize ms) (receive unpack) s) = result (on_app (for_each ms (tell f)) s).
Proof.
  intros Hdec Hempty. induction ms as [|m ms IH]; intros s Hs; [by destruct s|]. cbn [map for_each].
  rewrite result_bind, (receive_spec unpack f) by done. unfold tell at 1. case_bool_decide as E.
  - apply Hempty in E. by rewrite E.
  - destruct (serialize m) as [|c payload] eqn:Ep; [by apply Hempty in Ep|]. rewrite <- Ep, Hdec. unfold on_app at 1 2, zoom, bind.
    destruct (f (Some m) (lk_app s)) as [[] w t|]; [|done]. cbn [result]. rewrite IH by done. unfold on_app, zoom. cbn [lk_app lk_com laik_fp laik_cleanup].
    by destruct (for_each ms (tell f) w).
Qed.

(** An application whose handler returns aborts when a message is empty. *)
Lemma tell_aborts {W} (f : ext_fail W) ms : (forall m w, exists w' t, f (Some m) w = Done tt w' t) -> LaikExtMsg [] [] ∈ ms ->
  forall w, result (for_each ms (tell f) w) = inr Aborted.
Proof.
  intros Hf. induction ms as [|m ms IH]; intros Hin w; [by apply not_elem_of_nil in Hin|]. cbn [for_each]. rewrite result_bind. unfold tell at 1.
  case_bool_decide as E; [done|]. destruct (Hf m w) as (w' & t & ->). cbn [result]. apply IH. by apply elem_of_cons in Hin as [<-|].
Qed.

(** The message of a tic is empty when all its faults are of components. *)
Lemma fail_message_empty fs : Forall (fun f => is_Some (f_component f)) fs -> fail_message fs = LaikExtMsg [] [].
Proof.
  intros Hfs. unfold fail_message. assert (forall p, List.filter (whole_node p) fs = []) as H; [|unfold failed, recovered; by rewrite !H].
  intros p. induction Hfs as [|f fs [c Hc] _ IH]; [done|]. cbn. unfold whole_node at 1. by rewrite Hc.
Qed.

(** ** From the faults of the server to the application *)

(** The messages on a topic. *)
Definition on_topic (topic : cstr) (tr : list event) : list cstr :=
  map snd (List.filter (fun m => bool_decide (m.1 = topic)) (published tr)).

Definition extern_topic : cstr := str "envelope/lausim".

Lemma on_topic_app topic a b : on_topic topic (a ++ b) = on_topic topic a ++ on_topic topic b.
Proof. unfold on_topic, published. by rewrite omap_app, List.filter_app, map_app. Qed.

Lemma on_topic_visible topic tr : on_topic topic (List.filter visible tr) = on_topic topic tr.
Proof. unfold on_topic, published. do 2 f_equal. induction tr as [|ev tr IH]; [done|]. destruct ev; cbn; by rewrite ?IH. Qed.

Lemma fault_topic_extern n c : n <> str "lausim" -> fault_topic n c <> extern_topic.
Proof.
  intros Hn E. unfold fault_topic, extern_topic in E. apply (inj (app (str "envelope/")) _ (str "lausim")) in E. destruct c as [c|]; [|by rewrite app_nil_r in E].
  assert ("/"%char ∈ str "lausim") as Hin by (rewrite <- E; set_solver). revert Hin. elem_dec.
Qed.

Lemma on_topic_faults xs rest : Forall (fun x => match x with CallFail n _ _ => n <> str "lausim" | CallExtern _ => False end) xs ->
  on_topic extern_topic (printed mqtt_says xs ++ rest) = on_topic extern_topic rest.
Proof.
  induction 1 as [|[n k v|m] xs Hn _ IH]; [done| |done]. unfold printed in *. cbn [map concat]. rewrite <- app_assoc, on_topic_app, IH.
  unfold on_topic at 1. cbn. by rewrite bool_decide_false by by apply fault_topic_extern.
Qed.

(** The tics with faults. *)
Definition eventful (fss : list (list fault)) : list (list fault) := List.filter (fun fs => negb (bool_decide (fs = []))) fss.

Lemma on_topic_tics serialize fss : Forall (Forall (fun f => f_node f <> str "lausim")) fss ->
  on_topic extern_topic (printed mqtt_says (concat (map (calls_of serialize) fss))) = map serialize (map fail_message (eventful fss)).
Proof.
  induction 1 as [|fs fss Hfs _ IH]; [done|]. cbn [map concat]. rewrite printed_app. destruct fs as [|f fs]; [exact IH|].
  unfold calls_of at 1. rewrite printed_app, <- app_assoc, on_topic_faults by (by apply Forall_map).
  unfold printed at 1. cbn [map concat app]. rewrite on_topic_app, IH. done.
Qed.

Section Server.
Context (I : installation) `{!Installed I} (lib_ok : in_lib_init_rc I = 0) (connects : forall a p k, in_connect_rc I a p k = 0).
Context (unpack : cstr -> option laik_ext_msg) (decodes : forall m, unpack (in_serialize I m) = Some m).
Context (empty_message : forall m, in_serialize I m = [] <-> m = LaikExtMsg [] []).

(** C6: a LAIK application is told about the failing nodes, tic by tic.  The server simulates the faults of a file
    ([scenario]), none of a node called lausim; a LAIK application gets what it publishes for external receivers, in order.
    Then the handler of the application is called once for each tic with faults, with the nodes that failed in it and
    those that recovered.  But a tic all of whose faults are of components makes an empty message, and this aborts the application. *)
Theorem laik_told_each_tic e argv0 ns fss id args file tic cfg polls :
  scenario I e ns fss id args file tic cfg polls ->
  Forall (fun n => n_name n <> str "lausim") ns -> Forall (Forall (fun f => f_node f <> str "lausim")) fss ->
  exists tr, process I e argv0 (server_args cfg (length fss) true) process_start = Halt Undefined tr /\
    forall B W (f : ext_fail W) (s : laik B W), laik_fp s = Some f ->
      let told := for_each (on_topic extern_topic tr) (receive unpack) s in
      result told = result (on_app (for_each (map fail_message (eventful fss)) (tell f)) s) /\
      (Exists (fun fs => fs <> [] /\ Forall (fun f => is_Some (f_component f)) fs) fss ->
        (forall m w, exists w' t, f (Some m) w = Done tt w' t) -> result told = inr Aborted).
Proof.
  intros Hsc Hns Hfss. destruct (simulation_runs I lib_ok connects e argv0 ns fss id args file tic cfg polls Hsc) as (tr & E & Htr).
  exists tr. split; [done|]. intros B W f s Hs told.
  assert (on_topic extern_topic tr = map (in_serialize I) (map fail_message (eventful fss))) as Hmsgs.
  { rewrite <- on_topic_visible, Htr, printed_app, on_topic_faults; [by apply on_topic_tics|]. unfold start_calls. apply Forall_map.
    assert (map n_name (imap replay_node ns) = map n_name ns) as Hnames by exact (eq_trans (fmap_imap _ _ _) (imap_const n_name ns)).
    apply (Forall_map n_name (fun n => n <> str "lausim")). rewrite Hnames. by apply Forall_map. }
  unfold told. rewrite Hmsgs, (receive_all _ unpack f) by done. split; [done|]. intros Hex Hf. apply Exists_exists in Hex as (fs & Hin & Hne & Hcomp).
  assert (LaikExtMsg [] [] ∈ map fail_message (eventful fss)) as Hem.
  { rewrite <- (fail_message_empty fs Hcomp). apply list_elem_of_fmap_2. unfold eventful. apply list_elem_of_In, List.filter_In.
    split; [by apply list_elem_of_In|]. by rewrite bool_decide_false. }
  pose proof (tell_aborts f _ Hf Hem (lk_app s)) as Ha. unfold on_app, zoom. destruct (for_each _ (tell f) (lk_app s)); [done|by injection Ha as ->].
Qed.

End Server.

(** ** Example

    An encoding: the nodes that failed with an F, those that recovered with an S, each character of a name after a dot. *)

Definition encode_name (tag : ascii) (name : cstr) : cstr := tag :: concat (map (fun c => ["."%char; c]) name).
Definition encode (m : laik_ext_msg) : cstr :=
  concat (map (encode_name "F") (failing_nodes m)) ++ concat (map (encode_name "S") (spare_nodes m)).

Fixpoint decode_names (text : cstr) : cstr * list (ascii * cstr) :=
  match text with
  | [] => ([], [])
  | x :: rest =>
      if bool_decide (x = "."%char) then
        match rest with
        | c :: rest' => let (name, l) := decode_names rest' in (c :: name, l)
        | [] => ([], [])
        end
      else let (name, l) := decode_names rest in ([], (x, name) :: l)
  end.
Definition decode_message (text : cstr) : option laik_ext_msg :=
  let l := (decode_names text).2 in
  Some (LaikExtMsg (map snd (List.filter (fun e => bool_decide (e.1 = "F"%char)) l)) (map snd (List.filter (fun e => bool_decide (e.1 = "S"%char)) l))).

Lemma decode_name tag name rest : tag <> "."%char -> (decode_names rest).1 = [] ->
  decode_names (encode_name tag name ++ rest) = ([], (tag, name) :: (decode_names rest).2).
Proof.
  intros Ht Hr. unfold encode_name. cbn [app decode_names]. rewrite bool_decide_false by done.
  assert (decode_names (concat (map (fun c => ["."%char; c]) name) ++ rest) = (name, (decode_names rest).2)) as ->; [|done].
  induction name as [|c name IH]; [cbn; rewrite <- Hr; by destruct (decode_names rest)|]. cbn. by rewrite IH.
Qed.

Lemma decode_list tag names rest : tag <> "."%char -> (decode_names rest).1 = [] ->
  decode_names (concat (map (encode_name tag) names) ++ rest) = ([], map (pair tag) names ++ (decode_names rest).2).
Proof.
  intros Ht Hr. induction names as [|n names IH]; [cbn; rewrite <- Hr; by destruct (decode_names rest)|].
  cbn [map concat]. rewrite <- app_assoc, decode_name, IH; [done|done|by rewrite IH].
Qed.

Lemma filter_tag (tag tag' : ascii) (names : list cstr) :
  map snd (List.filter (fun e => bool_decide (e.1 = tag)) (map (pair tag') names)) = if bool_decide (tag' = tag) then names else [].
Proof. case_bool_decide as E; induction names as [|n names IH]; cbn; rewrite ?bool_decide_true, ?bool_decide_false by done; cbn; by rewrite ?IH. Qed.

Lemma decode_encode m : decode_message (encode m) = Some m.
Proof.
  unfold decode_message, encode. rewrite <- (app_nil_r (concat (map (encode_name "S") _))).
  assert (decode_names (concat (map (encode_name "S") (spare_nodes m)) ++ []) = ([], map (pair "S"%char) (spare_nodes m))) as E.
  { rewrite decode_list by done. cbn. by rewrite app_nil_r. }
  rewrite decode_list by (done || by rewrite E). rewrite E. cbn [snd]. rewrite !List.filter_app, !map_app, !filter_tag.
  cbn. rewrite app_nil_r. by destruct m.
Qed.

Lemma encode_empty m : encode m = [] <-> m = LaikExtMsg [] [].
Proof. split; [|by intros ->]. destruct m as [[|? ?] [|? ?]]; done. Qed.

Definition laik_installation : installation :=
  Installation shipped_addr example_path (in_lib_at example_installation) example_parse encode
    (fun _ => 0) 0 (fun _ _ _ => 0) 0 (fun _ => []) (fun _ _ => ret tt).

#[export] Instance laik_installed : Installed laik_installation.
Proof. destruct example_installed. by constructor. Qed.

Lemma laik_scenario : scenario laik_installation example_simulation example_nodes simulated (str "master") [str "broker"] (str "faults.log") 5 (str "sim.txt") 0.
Proof. destruct example_is_scenario. by constructor. Qed.

(** An application that keeps what it is told. *)
Definition remembering : ext_fail (list (option laik_ext_msg)) := fun m => modify (fun l => l ++ [m]).

Lemma simulated_not_lausim : Forall (fun n => n_name n <> str "lausim") example_nodes /\ Forall (Forall (fun f => f_node f <> str "lausim")) simulated.
Proof. split; repeat first [apply Forall_nil|apply Forall_cons_2]; done. Qed.

Lemma laik_told_each_tic_witness : exists tr, process laik_installation example_simulation None (server_args (str "sim.txt") (length simulated) true) process_start = Halt Undefined tr /\
  result (for_each (on_topic extern_topic tr) (receive decode_message) (Laik tt (Some remembering) None [])) = inr Aborted.
Proof.
  destruct simulated_not_lausim as [Hn Hf].
  destruct (laik_told_each_tic laik_installation eq_refl (fun _ _ _ => eq_refl) decode_message decode_encode encode_empty example_simulation None
    example_nodes simulated (str "master") [str "broker"] (str "faults.log") 5 (str "sim.txt") 0 laik_scenario Hn Hf) as (tr & E & H).
  exists tr. split; [exact E|]. apply (H unit _ remembering (Laik tt (Some remembering) None [])); [reflexivity| |].
  - left. split; [done|]. repeat constructor; by eexists.
  - intros m w. by repeat eexists.
Defined.

(** On a host called compute-node-15 the name of the client does not fit. *)
Lemma init_ext_com_overflows_witness :
  init_ext_com (B := list cstr) (W := unit) [] (fun _ _ _ _ => ret 0) (fun t => modify (fun l => t :: l)) (str "status") (str "compute-node-15") 72 glibc_usable
    (Some (fun _ => ret tt)) None (str "broker") 1883 60 (Laik [] None None tt) = Halt Undefined [].
Proof.
  destruct (init_ext_com_overflows (B := list cstr) (W := unit) [] (fun _ _ _ _ => ret 0) (fun t => modify (fun l => t :: l)) (str "status")
    (str "compute-node-15") 72 glibc_usable (fun _ => ret tt) None (str "broker") 1883 60 (Laik [] None None tt)) as (_ & _ & H).
  refine (H _ _); [lia|done].
Defined.
